(** * The CAMB adapter of cobaya: requirement aggregation, the two calculate
      stages and the result accessors of [cobaya/theories/camb/camb.py].

    The development embeds the Python module shallowly.  Objects are records,
    Python dictionaries are insertion-ordered association lists, mutation is
    state passing in a small state-and-exception monad, and the kwargs
    dictionaries held by collectors live in an explicit store, because the
    source lets several collectors hold one dictionary object.

    Numbers (multipoles, wavenumbers, redshifts, parameter values) are
    integers: the adapter only compares them, takes maxima, sorts and removes
    duplicates, so they stand for points of a fixed grid of values (no NaN).
    The solver itself is an external library; what the adapter calls on it is
    gathered in the [Solver] interface and stays abstract. *)

From Stdlib Require Import List ZArith QArith String Ascii Bool Lia Sorted Permutation.
Import ListNotations.
Close Scope Q_scope.
Local Open Scope string_scope.
Local Open Scope list_scope.

Set Warnings "-register-all".

Set Implicit Arguments.

(* ================================================================== *)
(** ** Python values and dictionaries *)

(** The values that occur in option mappings, [extra_args], [extra_attrs]
    and collector kwargs. *)
Inductive pyval : Type :=
| PyNone
| PyBool (b : bool)
| PyNum (x : Z)
| PyStr (s : string)
| PyArray (zs : list Z)
| PyList (l : list string)
| PyPairs (l : list (string * string)).

(** Python truthiness. *)
Definition truthy (v : pyval) : bool :=
  match v with
  | PyNone => false
  | PyBool b => b
  | PyNum x => negb (x =? 0)%Z
  | PyStr s => negb (s =? "")
  | PyArray zs => match zs with [] => false | _ => true end
  | PyList l => match l with [] => false | _ => true end
  | PyPairs l => match l with [] => false | _ => true end
  end.

Section Dict.
Context {K V : Type} (eqb : K -> K -> bool).

(** [d.get(k)] *)
Fixpoint dict_get (d : list (K * V)) (k : K) : option V :=
  match d with
  | [] => None
  | (k', v) :: r => if eqb k' k then Some v else dict_get r k
  end.

(** [k in d] *)
Definition dict_mem (d : list (K * V)) (k : K) : bool :=
  match dict_get d k with Some _ => true | None => false end.

(** [d[k] = v]: an existing key keeps its position, a new one goes last. *)
Fixpoint dict_set (d : list (K * V)) (k : K) (v : V) : list (K * V) :=
  match d with
  | [] => [(k, v)]
  | (k', v') :: r =>
      if eqb k' k then (k', v) :: r else (k', v') :: dict_set r k v
  end.

(** [d.pop(k, None)], the value dropped. *)
Fixpoint dict_pop (d : list (K * V)) (k : K) : list (K * V) :=
  match d with
  | [] => []
  | (k', v') :: r => if eqb k' k then r else (k', v') :: dict_pop r k
  end.

(** [d.update(d2)] *)
Definition dict_update (d d2 : list (K * V)) : list (K * V) :=
  fold_left (fun acc kv => dict_set acc (fst kv) (snd kv)) d2 d.

(** [list(d)] *)
Definition dict_keys (d : list (K * V)) : list K := map fst d.
End Dict.

Definition dict := list (string * pyval).

Definition sget (d : dict) (k : string) : option pyval := dict_get String.eqb d k.
Definition sset (d : dict) (k : string) (v : pyval) : dict := dict_set String.eqb d k v.
Definition spop (d : dict) (k : string) : dict := dict_pop String.eqb d k.
Definition supdate (d d2 : dict) : dict := dict_update String.eqb d d2.

(** [d.get(k, default)] *)
Definition sget_default (d : dict) (k : string) (default : pyval) : pyval :=
  match sget d k with Some v => v | None => default end.

(** [x in l] for a list of strings. *)
Definition str_in (x : string) (l : list string) : bool := existsb (String.eqb x) l.

(** [set(a).intersection(b)], listed in the order of [a] without repeats. *)
Fixpoint str_inter (a b : list string) : list string :=
  match a with
  | [] => []
  | x :: r =>
      let rest := str_inter r b in
      if str_in x b && negb (str_in x rest) then x :: rest else rest
  end.

(** [list(set(l))]: the order of a Python set is unspecified; the model keeps
    first occurrences. *)
Fixpoint str_dedup (l : list string) : list string :=
  match l with
  | [] => []
  | x :: r => x :: filter (fun y => negb (String.eqb x y)) (str_dedup r)
  end.

(** [str.lower] on ASCII letters. *)
Definition lower_ascii (c : ascii) : ascii :=
  let n := nat_of_ascii c in
  if (65 <=? n)%nat && (n <=? 90)%nat then ascii_of_nat (n + 32) else c.

Fixpoint lower (s : string) : string :=
  match s with
  | EmptyString => EmptyString
  | String c r => String (lower_ascii c) (lower r)
  end.

(** [tuple(sorted(pair))] for a pair of strings. *)
Definition sorted_pair (p : string * string) : string * string :=
  if String.leb (fst p) (snd p) then p else (snd p, fst p).

(* ================================================================== *)
(** ** The numpy operations on one-dimensional arrays *)

(** [np.sort]: ascending, repeats kept. *)
Fixpoint insert_sorted (x : Z) (l : list Z) : list Z :=
  match l with
  | [] => [x]
  | y :: r => if (x <=? y)%Z then x :: l else y :: insert_sorted x r
  end.

Definition np_sort (l : list Z) : list Z := fold_right insert_sorted [] l.

(** [np.unique]: the sorted distinct elements. *)
Fixpoint insert_unique (x : Z) (l : list Z) : list Z :=
  match l with
  | [] => [x]
  | y :: r =>
      if (x <? y)%Z then x :: l
      else if (x =? y)%Z then l
      else y :: insert_unique x r
  end.

Definition np_unique (l : list Z) : list Z := fold_right insert_unique [] l.

(** [np.concatenate((a, b))] and [a[::-1]]. *)
Definition np_concatenate (a b : list Z) : list Z := a ++ b.
Definition reversed (a : list Z) : list Z := rev a.

(* ================================================================== *)
(** ** Exceptions, log records and the monad of methods *)

(** The exception classes of the solver library ([camb.baseconfig]).
    [CAMBParamRangeError] derives from [CAMBError]; [CAMBValueError] and
    [CAMBUnknownArgumentError] derive from Python's [ValueError]; any other
    exception a solver call lets escape is [OtherSolverError]. *)
Inductive solver_error : Type :=
| CAMBError
| CAMBParamRangeError
| CAMBValueError
| CAMBUnknownArgumentError
| OtherSolverError.

(** [isinstance(e, CAMBError)] *)
Definition isinstance_CAMBError (c : solver_error) : bool :=
  match c with
  | CAMBError | CAMBParamRangeError => true
  | _ => false
  end.

(** The messages of the [LoggedError]s the module raises, with the values
    that fill their format strings. *)
Inductive message : Type :=
| hubble_units_must_be_False
| this_should_not_be_happening
| repeated_input_and_extra (names : list string)
| out_of_bound_parameters (params_values_dict : dict)
| sampling_fixed_parameter (fixed_param : string)
| attribute_not_recognized (attr : string) (value : pyval)
| unknown_source_window_function (function : pyval)
| parameters_not_recognized (text : string)
| derived_param_not_implemented (p : string)
| no_Cl_computed
| units_not_recognized (units : string) (accepted : list string)
| more_than_one_of_H0_theta.

Inductive exn : Type :=
| LoggedError (m : message)
| SolverError (c : solver_error) (text : string)
| KeyError (k : string)
| AttributeError (name : string)
| TypeError
| ValueError
| IndexError.

(** What the methods write to [self.log]. *)
Inductive log_record : Type :=
| debug_setting_parameters (args extra_args : dict)
| debug_setting_attributes (extra_attrs : dict)
| debug_setting_sources (names : list string)
| debug_out_of_bounds
| debug_computation_failed (text : string)
| error_setting_parameters (params extra_args : dict)
| error_computation (params extra_args : dict).

Inductive result (A : Type) : Type :=
| Return (a : A)
| Raise (e : exn).
Arguments Return {A} a.
Arguments Raise {A} e.

(** A method of an object with state [St]: it always leaves a state behind,
    also when it raises. *)
Definition M (St A : Type) : Type := St -> St * result A.

Definition ret {St A} (a : A) : M St A := fun s => (s, Return a).
Definition raise {St A} (e : exn) : M St A := fun s => (s, Raise e).
Definition bind {St A B} (m : M St A) (k : A -> M St B) : M St B :=
  fun s => match m s with
           | (s', Return a) => k a s'
           | (s', Raise e) => (s', Raise e)
           end.
Definition get {St} : M St St := fun s => (s, Return s).
Definition gets {St A} (f : St -> A) : M St A := fun s => (s, Return (f s)).
Definition modify {St} (f : St -> St) : M St unit := fun s => (f s, Return tt).
Definition lift {St A} (r : result A) : M St A := fun s => (s, r).

(** [try: body except E: handler]: [handler e] is [None] when no clause
    matches [e], which then propagates. *)
Definition try_except {St A} (body : M St A)
    (handler : exn -> option (M St A)) : M St A :=
  fun s => match body s with
           | (s', Return a) => (s', Return a)
           | (s', Raise e) =>
               match handler e with
               | Some h => h s'
               | None => (s', Raise e)
               end
           end.

(** [for x in l: body x] *)
Fixpoint for_each {St A} (l : list A) (body : A -> M St unit) : M St unit :=
  match l with
  | [] => ret tt
  | x :: r => bind (body x) (fun _ => for_each r body)
  end.

Declare Scope monad_scope.
Delimit Scope monad_scope with monad.
Notation "x <- m ;; k" := (bind m (fun x => k))
  (at level 61, m at next level, right associativity) : monad_scope.
Notation "m ;; k" := (bind m (fun _ => k))
  (at level 61, right associativity) : monad_scope.
Notation "'when' b 'then' m" := (if b then m else ret tt)
  (at level 60, b at next level, m at level 60) : monad_scope.

(** Numeric reads of dynamically typed values, as the comparisons and [max]
    make them: a boolean is the number 1 or 0, and what is no number is a
    [TypeError]. *)
Definition as_num (v : pyval) : result Z :=
  match v with
  | PyNum x => Return x
  | PyBool b => Return (if b then 1 else 0)%Z
  | _ => Raise TypeError
  end.

(** [np.atleast_1d(v)] for what a configuration may hold as a redshift grid. *)
Definition as_array (v : pyval) : result (list Z) :=
  match v with
  | PyArray zs => Return zs
  | PyNum x => Return [x]
  | _ => Raise TypeError
  end.

(** A value as [np.concatenate] takes it next to a one-dimensional array of
    numbers.  An array, or an empty sequence, is joined; a scalar ([None], a
    boolean, a number, a string) is zero-dimensional and a sequence of pairs
    two-dimensional, and [np.concatenate] refuses both with [ValueError]; the
    names of a list are no numbers. *)
Definition as_operand (v : pyval) : result (list Z) :=
  match v with
  | PyArray zs => Return zs
  | PyList [] | PyPairs [] => Return []
  | PyList (_ :: _) => Raise TypeError
  | PyNone | PyBool _ | PyNum _ | PyStr _ | PyPairs (_ :: _) => Raise ValueError
  end.

(** [max(l)] of a sequence of numbers; Python raises [ValueError] on the
    empty one. *)
Definition py_max (l : list Z) : result Z :=
  match l with
  | [] => Raise ValueError
  | x :: r => Return (fold_left Z.max r x)
  end.

(** *** Positions in arrays *)

(** [np.where(a == zi)[0]]: the positions of [zi] in [a], counted from [i]. *)
Fixpoint np_where_eq (a : list Z) (zi : Z) (i : nat) : list nat :=
  match a with
  | [] => []
  | x :: r =>
      if (x =? zi)%Z then i :: np_where_eq r zi (S i) else np_where_eq r zi (S i)
  end.

(** [np.searchsorted(a, v)] for [a] in ascending order, as numpy asks: the
    first position whose entry is not below [v]. *)
Fixpoint np_searchsorted (a : list Z) (v : Z) : nat :=
  match a with
  | [] => 0
  | x :: r => if (x <? v)%Z then S (np_searchsorted r v) else 0
  end.

(** [np.concatenate(arrays)] for a list of arrays of positions: numpy
    refuses the empty list. *)
Definition np_concatenate_all (arrays : list (list nat)) : result (list nat) :=
  match arrays with
  | [] => Raise ValueError
  | _ => Return (List.concat arrays)
  end.

(** [a[idx]] for an array of positions [idx]: a position past the end is an
    [IndexError]. *)
Fixpoint np_take {A} (a : list A) (idx : list nat) : result (list A) :=
  match idx with
  | [] => Return []
  | i :: r =>
      match nth_error a i with
      | None => Raise IndexError
      | Some x =>
          match np_take a r with
          | Return xs => Return (x :: xs)
          | Raise e => Raise e
          end
      end
  end.

(** *** Properties of methods *)

Section MethodProperties.
Context {St : Type}.

(** Every exception [m] can raise satisfies [P]. *)
Definition raises_only {A} (P : exn -> Prop) (m : M St A) : Prop :=
  forall s e, snd (m s) = Raise e -> P e.

(** [m] leaves the component [proj] of the state as it was. *)
Definition preserves {A B} (proj : St -> B) (m : M St A) : Prop :=
  forall s, proj (fst (m s)) = proj s.

(** [m] never leaves the set of states [P]. *)
Definition keeps {A} (P : St -> Prop) (m : M St A) : Prop :=
  forall s, P s -> P (fst (m s)).

(** When [m] returns, it leaves a state in [P]. *)
Definition ensures {A} (P : St -> Prop) (m : M St A) : Prop :=
  forall s, match m s with
            | (s', Return _) => P s'
            | (_, Raise _) => True
            end.

End MethodProperties.

(** A result that is not a [LoggedError]. *)
Definition not_logged {A} (r : result A) : Prop :=
  match r with
  | Raise (LoggedError _) => False
  | _ => True
  end.

(** Any exception but the unsupported-unit error. *)
Definition not_unit_error (e : exn) : Prop := e <> LoggedError hubble_units_must_be_False.

(* ================================================================== *)
(** ** What the solver returns *)

(** Objects the solver hands back: plain values, floating-point numbers and
    arrays (rationals here, with exact arithmetic), mappings, and callables
    described by what a call without arguments does. *)
Inductive pyobj : Type :=
| Obj (v : pyval)
| Float (x : Q)
| Array1 (a : list Q)
| Array2 (a : list (list Q))
| Dict (d : list (string * pyobj))
| Callable (returns : result pyobj).

Definition None_obj : pyobj := Obj PyNone.

(** [o is None] *)
Definition is_None (o : pyobj) : bool :=
  match o with Obj PyNone => true | _ => false end.

(** The solver library as the adapter uses it.  [CAMBparams] and [CAMBdata]
    are its parameter and result classes; every call may raise. *)
Class Solver : Type := {
  CAMBparams : Type;
  CAMBdata : Type;
  SourceWindow : Type;
  (** [camb.set_params(cp, **args)]; [cp] is [None] for a fresh object. *)
  set_params : option CAMBparams -> dict -> result CAMBparams;
  (** [getfullargspec(getattr(CAMBparams, f)).args[1:]] *)
  argspec : string -> list string;
  hasattr_params : CAMBparams -> string -> bool;
  setattr_params : CAMBparams -> string -> pyval -> CAMBparams;
  (** [sources.SplinedSourceWindow] ([true]) and
      [sources.GaussianSourceWindow] ([false]) built from the window options. *)
  make_SourceWindow : bool -> dict -> result SourceWindow;
  set_SourceWindows : CAMBparams -> list SourceWindow -> bool -> CAMBparams;
  (** [camb.get_transfer_functions(cp, only_time_sources=b)] and
      [camb.get_background(cp)]. *)
  get_transfer_functions : CAMBparams -> bool -> result CAMBdata;
  get_background : CAMBparams -> result CAMBdata;
  (** [results.Params.InitPower.set_params],
      [results.Params.NonLinearModel.set_params] (keyword arguments) and
      [results.power_spectra_from_transfer()]; each updates the result
      object. *)
  InitPower_set_params : CAMBdata -> dict -> result CAMBdata;
  NonLinearModel_set_params : CAMBdata -> dict -> result CAMBdata;
  power_spectra_from_transfer : CAMBdata -> result CAMBdata;
  (** [method(results, *args, **kwargs)] for a method of [CAMBdata]. *)
  call_method : string -> CAMBdata -> list pyval -> dict -> result pyobj;
  (** [results.get_derived_params()] and [results.get_sigma8()]. *)
  get_derived_params : CAMBdata -> result (list (string * pyobj));
  get_sigma8 : CAMBdata -> result (list Q);
  (** [getattr(obj, name)]; [None] is [AttributeError]. *)
  getattr_params : CAMBparams -> string -> option pyobj;
  getattr_results : CAMBdata -> string -> option pyobj
}.

(* ================================================================== *)
(** ** Collectors, requirement requests and the evaluation state *)

(** Keys of the collector registry: a product name, or for matter power the
    tuple [("Pk_grid", nonlinear, var1, var2)]. *)
Inductive product : Type :=
| Name (k : string)
| Pk_grid (nonlinear : bool) (var1 var2 : string).

Definition product_eqb (a b : product) : bool :=
  match a, b with
  | Name k, Name k' => String.eqb k k'
  | Pk_grid n a1 a2, Pk_grid n' b1 b2 =>
      Bool.eqb n n' && String.eqb a1 b1 && String.eqb a2 b2
  | _, _ => false
  end.

(** Addresses of kwargs dictionaries in the store. *)
Definition loc := nat.

(** [Collector = namedtuple("collector", ["method", "args", "kwargs"])]: the
    method is named by its attribute of [CAMBdata]; [kwargs] is a reference. *)
Record Collector : Type := {
  method : string;
  args : list pyval;
  kwargs : loc
}.

(** The defaults [(None, [], {})] are evaluated once: every collector built
    without kwargs holds the same dictionary object, kept at address 0. *)
Definition default_kwargs : loc := 0%nat.

(** Options of a [Pk_interpolator] or [Pk_grid] request.  The keys the source
    reads with [v[...]] are fields ([vars_pairs] may hold [None]); [more]
    holds every other key, among them [hubble_units] and [k_hunit]. *)
Record Pk_options : Type := {
  k_max : Z;
  z : list Z;
  vars_pairs : option (list (string * string));
  nonlinear : bool;
  more : dict
}.

(** Options of a [source_Cl] request. *)
Record source_Cl_options : Type := {
  src_sources : list (string * dict);
  src_limber : option bool;
  src_non_linear : option bool;
  src_lmax : option Z
}.

(** The option record that comes with a product name. *)
Inductive requirement : Type :=
| ReqNone
| ReqCl (v : list (string * Z))
| ReqZ (zs : list Z)
| ReqPk (v : Pk_options)
| ReqSourceCl (v : source_Cl_options)
| ReqOther (v : dict).

(** [dict(v)] for matter-power options: the fields, then the other keys. *)
Definition Pk_reserved : list string := ["k_max"; "z"; "vars_pairs"; "nonlinear"].

Definition Pk_dict (v : Pk_options) : dict :=
  supdate
    [("k_max", PyNum (k_max v)); ("z", PyArray (z v));
     ("vars_pairs", match vars_pairs v with Some l => PyPairs l | None => PyNone end);
     ("nonlinear", PyBool (nonlinear v))]
    (filter (fun kv => negb (str_in (fst kv) Pk_reserved)) (more v)).

(** [v["z"]] passed through [np.atleast_1d], whatever mapping [v] is. *)
Definition req_z (v : requirement) : result (list Z) :=
  match v with
  | ReqZ zs => Return zs
  | ReqPk o => Return (z o)
  | ReqOther d =>
      match sget d "z" with Some a => as_array a | None => Raise (KeyError "z") end
  | ReqCl _ | ReqSourceCl _ => Raise (KeyError "z")
  | ReqNone => Raise TypeError
  end.

(** What [needs] returns under the key ['CAMB_transfers']. *)
Record transfers_requirement : Type := {
  non_linear : bool;
  req_needs_perts : bool
}.

(** What a [calculate] returns: nothing, or [False] for a failed point. *)
Inductive calculate_return : Type :=
| returns_None
| returns_False.

(** The value stored for a product: what the collector's method returned, or
    the result object itself for a collector that is [None]. *)
Inductive product_value {solver : Solver} : Type :=
| Computed (o : pyobj)
| ResultsObject (r : CAMBdata).

(** The per-evaluation [state] dictionary. *)
Record state {solver : Solver} : Type := {
  params : dict;
  results : option (CAMBparams * CAMBdata);
  products : list (product * product_value);
  derived : option (list (string * pyobj));
  state_derived_extra : option (list (string * pyobj))
}.

(** [state[product] = v], [state["results"] = v] and so on. *)
Definition set_product {solver : Solver} (key : product) (v : product_value)
    (st : state) : state :=
  {| params := params st; results := results st;
     products := dict_set product_eqb (products st) key v;
     derived := derived st; state_derived_extra := state_derived_extra st |}.

Definition set_results {solver : Solver} (v : CAMBparams * CAMBdata) (st : state) : state :=
  {| params := params st; results := Some v; products := products st;
     derived := derived st; state_derived_extra := state_derived_extra st |}.

Definition set_derived {solver : Solver} (v : list (string * pyobj)) (st : state) : state :=
  {| params := params st; results := results st; products := products st;
     derived := Some v; state_derived_extra := state_derived_extra st |}.

Definition set_derived_extra {solver : Solver} (v : list (string * pyobj))
    (st : state) : state :=
  {| params := params st; results := results st; products := products st;
     derived := derived st; state_derived_extra := Some v |}.

(* ================================================================== *)
(** ** class camb *)

Module camb.
Section WithSolver.
Context {solver : Solver}.

(** The attributes of the object.  [translate_param] is the inherited renaming
    of parameter names; [store] holds the kwargs dictionaries. *)
Record t : Type := {
  extra_args : dict;
  extra_attrs : dict;
  derived_extra : list string;
  needs_perts : bool;
  limber : bool;
  non_linear_sources : bool;
  non_linear_pk : bool;
  _base_params : option CAMBparams;
  _needs_lensing_cross : bool;
  _reduced_extra_args : dict;
  collectors : list (product * option Collector);
  sources : option (list (string * dict));
  store : list dict;
  log : list log_record;
  _current_state : option state;
  input_params : list string;
  output_params : list string;
  power_params : list string;
  nonlin_params : list string;
  initial_power_args : dict;
  nonlin_args : dict;
  stop_at_error : bool;
  translate_param : string -> string
}.

Definition upd_extra_args (f : dict -> dict) (s : t) : t :=
  Build_t
    (f (extra_args s)) (extra_attrs s) (derived_extra s) (needs_perts s) (limber s)
    (non_linear_sources s) (non_linear_pk s) (_base_params s)
    (_needs_lensing_cross s) (_reduced_extra_args s) (collectors s) (sources s)
    (store s) (log s) (_current_state s) (input_params s) (output_params s)
    (power_params s) (nonlin_params s) (initial_power_args s) (nonlin_args s)
    (stop_at_error s) (translate_param s).
Definition upd_extra_attrs (f : dict -> dict) (s : t) : t :=
  Build_t
    (extra_args s) (f (extra_attrs s)) (derived_extra s) (needs_perts s) (limber s)
    (non_linear_sources s) (non_linear_pk s) (_base_params s)
    (_needs_lensing_cross s) (_reduced_extra_args s) (collectors s) (sources s)
    (store s) (log s) (_current_state s) (input_params s) (output_params s)
    (power_params s) (nonlin_params s) (initial_power_args s) (nonlin_args s)
    (stop_at_error s) (translate_param s).
Definition upd_derived_extra (f : list string -> list string) (s : t) : t :=
  Build_t
    (extra_args s) (extra_attrs s) (f (derived_extra s)) (needs_perts s) (limber s)
    (non_linear_sources s) (non_linear_pk s) (_base_params s)
    (_needs_lensing_cross s) (_reduced_extra_args s) (collectors s) (sources s)
    (store s) (log s) (_current_state s) (input_params s) (output_params s)
    (power_params s) (nonlin_params s) (initial_power_args s) (nonlin_args s)
    (stop_at_error s) (translate_param s).
Definition upd_needs_perts (f : bool -> bool) (s : t) : t :=
  Build_t
    (extra_args s) (extra_attrs s) (derived_extra s) (f (needs_perts s)) (limber s)
    (non_linear_sources s) (non_linear_pk s) (_base_params s)
    (_needs_lensing_cross s) (_reduced_extra_args s) (collectors s) (sources s)
    (store s) (log s) (_current_state s) (input_params s) (output_params s)
    (power_params s) (nonlin_params s) (initial_power_args s) (nonlin_args s)
    (stop_at_error s) (translate_param s).
Definition upd_limber (f : bool -> bool) (s : t) : t :=
  Build_t
    (extra_args s) (extra_attrs s) (derived_extra s) (needs_perts s) (f (limber s))
    (non_linear_sources s) (non_linear_pk s) (_base_params s)
    (_needs_lensing_cross s) (_reduced_extra_args s) (collectors s) (sources s)
    (store s) (log s) (_current_state s) (input_params s) (output_params s)
    (power_params s) (nonlin_params s) (initial_power_args s) (nonlin_args s)
    (stop_at_error s) (translate_param s).
Definition upd_non_linear_sources (f : bool -> bool) (s : t) : t :=
  Build_t
    (extra_args s) (extra_attrs s) (derived_extra s) (needs_perts s) (limber s)
    (f (non_linear_sources s)) (non_linear_pk s) (_base_params s)
    (_needs_lensing_cross s) (_reduced_extra_args s) (collectors s) (sources s)
    (store s) (log s) (_current_state s) (input_params s) (output_params s)
    (power_params s) (nonlin_params s) (initial_power_args s) (nonlin_args s)
    (stop_at_error s) (translate_param s).
Definition upd_non_linear_pk (f : bool -> bool) (s : t) : t :=
  Build_t
    (extra_args s) (extra_attrs s) (derived_extra s) (needs_perts s) (limber s)
    (non_linear_sources s) (f (non_linear_pk s)) (_base_params s)
    (_needs_lensing_cross s) (_reduced_extra_args s) (collectors s) (sources s)
    (store s) (log s) (_current_state s) (input_params s) (output_params s)
    (power_params s) (nonlin_params s) (initial_power_args s) (nonlin_args s)
    (stop_at_error s) (translate_param s).
Definition upd__base_params (f : option CAMBparams -> option CAMBparams) (s : t) : t :=
  Build_t
    (extra_args s) (extra_attrs s) (derived_extra s) (needs_perts s) (limber s)
    (non_linear_sources s) (non_linear_pk s) (f (_base_params s))
    (_needs_lensing_cross s) (_reduced_extra_args s) (collectors s) (sources s)
    (store s) (log s) (_current_state s) (input_params s) (output_params s)
    (power_params s) (nonlin_params s) (initial_power_args s) (nonlin_args s)
    (stop_at_error s) (translate_param s).
Definition upd__needs_lensing_cross (f : bool -> bool) (s : t) : t :=
  Build_t
    (extra_args s) (extra_attrs s) (derived_extra s) (needs_perts s) (limber s)
    (non_linear_sources s) (non_linear_pk s) (_base_params s)
    (f (_needs_lensing_cross s)) (_reduced_extra_args s) (collectors s) (sources s)
    (store s) (log s) (_current_state s) (input_params s) (output_params s)
    (power_params s) (nonlin_params s) (initial_power_args s) (nonlin_args s)
    (stop_at_error s) (translate_param s).
Definition upd__reduced_extra_args (f : dict -> dict) (s : t) : t :=
  Build_t
    (extra_args s) (extra_attrs s) (derived_extra s) (needs_perts s) (limber s)
    (non_linear_sources s) (non_linear_pk s) (_base_params s)
    (_needs_lensing_cross s) (f (_reduced_extra_args s)) (collectors s) (sources s)
    (store s) (log s) (_current_state s) (input_params s) (output_params s)
    (power_params s) (nonlin_params s) (initial_power_args s) (nonlin_args s)
    (stop_at_error s) (translate_param s).
Definition upd_collectors (f : list (product * option Collector) -> list (product * option Collector)) (s : t) : t :=
  Build_t
    (extra_args s) (extra_attrs s) (derived_extra s) (needs_perts s) (limber s)
    (non_linear_sources s) (non_linear_pk s) (_base_params s)
    (_needs_lensing_cross s) (_reduced_extra_args s) (f (collectors s)) (sources s)
    (store s) (log s) (_current_state s) (input_params s) (output_params s)
    (power_params s) (nonlin_params s) (initial_power_args s) (nonlin_args s)
    (stop_at_error s) (translate_param s).
Definition upd_sources (f : option (list (string * dict)) -> option (list (string * dict))) (s : t) : t :=
  Build_t
    (extra_args s) (extra_attrs s) (derived_extra s) (needs_perts s) (limber s)
    (non_linear_sources s) (non_linear_pk s) (_base_params s)
    (_needs_lensing_cross s) (_reduced_extra_args s) (collectors s) (f (sources s))
    (store s) (log s) (_current_state s) (input_params s) (output_params s)
    (power_params s) (nonlin_params s) (initial_power_args s) (nonlin_args s)
    (stop_at_error s) (translate_param s).
Definition upd_store (f : list dict -> list dict) (s : t) : t :=
  Build_t
    (extra_args s) (extra_attrs s) (derived_extra s) (needs_perts s) (limber s)
    (non_linear_sources s) (non_linear_pk s) (_base_params s)
    (_needs_lensing_cross s) (_reduced_extra_args s) (collectors s) (sources s)
    (f (store s)) (log s) (_current_state s) (input_params s) (output_params s)
    (power_params s) (nonlin_params s) (initial_power_args s) (nonlin_args s)
    (stop_at_error s) (translate_param s).
Definition upd_log (f : list log_record -> list log_record) (s : t) : t :=
  Build_t
    (extra_args s) (extra_attrs s) (derived_extra s) (needs_perts s) (limber s)
    (non_linear_sources s) (non_linear_pk s) (_base_params s)
    (_needs_lensing_cross s) (_reduced_extra_args s) (collectors s) (sources s)
    (store s) (f (log s)) (_current_state s) (input_params s) (output_params s)
    (power_params s) (nonlin_params s) (initial_power_args s) (nonlin_args s)
    (stop_at_error s) (translate_param s).
Definition upd__current_state (f : option state -> option state) (s : t) : t :=
  Build_t
    (extra_args s) (extra_attrs s) (derived_extra s) (needs_perts s) (limber s)
    (non_linear_sources s) (non_linear_pk s) (_base_params s)
    (_needs_lensing_cross s) (_reduced_extra_args s) (collectors s) (sources s)
    (store s) (log s) (f (_current_state s)) (input_params s) (output_params s)
    (power_params s) (nonlin_params s) (initial_power_args s) (nonlin_args s)
    (stop_at_error s) (translate_param s).

Local Open Scope monad_scope.

(** The attribute values [initialize] leaves behind, for the configuration
    given in the arguments ([extra_args] after the arguments of the power
    spectrum and non-linear models were moved out of it). *)
Definition initialize (extra_args0 : dict) (inputs outputs : list string)
    (power nonlin : list string) (power_args nl_args : dict)
    (stop : bool) (translate : string -> string) : t :=
  {| extra_args := extra_args0;
     extra_attrs := [("Want_CMB", PyBool false); ("Want_cl_2D_array", PyBool false);
                     ("WantCls", PyBool false)];
     derived_extra := [];
     needs_perts := false;
     limber := false;
     non_linear_sources := false;
     non_linear_pk := false;
     _base_params := None;
     _needs_lensing_cross := false;
     _reduced_extra_args := [];
     collectors := [];
     sources := None;
     store := [[]];
     log := [];
     _current_state := None;
     input_params := inputs;
     output_params := outputs;
     power_params := power;
     nonlin_params := nonlin;
     initial_power_args := power_args;
     nonlin_args := nl_args;
     stop_at_error := stop;
     translate_param := translate |}.

(** [initialize_with_params] *)
Definition initialize_with_params : M t unit :=
  s <- get ;;
  when (match str_inter (input_params s) ["r"; "At"] with [] => false | _ => true end)
  then modify (upd_extra_attrs (fun d => sset d "WantTensors" (PyBool true))).

(** [get_can_support_params] *)
Definition get_can_support_params (s : t) : list string :=
  power_params s ++ nonlin_params s.
(** *** initialize: the arguments of the power-spectrum and non-linear models *)

(** What [getfullargspec(model.set_params)] returns, as far as it is read:
    the names of the arguments and their default values ([None] when the
    function has no defaults). *)
Record FullArgSpec : Type := {
  spec_args : list string;
  spec_defaults : option (list pyval)
}.

(** [zip(pars.args[1:], pars.defaults[1:])] *)
Definition model_pars (pars : FullArgSpec) : result (list (string * pyval)) :=
  match spec_defaults pars with
  | Some defaults => Return (combine (tl (spec_args pars)) (tl defaults))
  | None => Raise TypeError
  end.

(** [isinstance(v, numbers.Number) or v is None]; booleans are numbers. *)
Definition is_Number_or_None (v : pyval) : bool :=
  match v with
  | PyNone | PyNum _ | PyBool _ => true
  | _ => false
  end.

(** The inner loop, for one model: an argument found in [extra_args] moves
    from there to [args]; another one whose default is a number or [None] is
    a parameter. *)
Fixpoint collect_model_args (pars : list (string * pyval)) (extra_args0 args : dict)
    (params : list string) : dict * dict * list string :=
  match pars with
  | [] => (extra_args0, args, params)
  | (arg, v) :: r =>
      match sget extra_args0 arg with
      | Some x => collect_model_args r (spop extra_args0 arg) (sset args arg x) params
      | None =>
          collect_model_args r extra_args0 args
            (if is_Number_or_None v then params ++ [arg] else params)
      end
  end.

(** [initialize], from the configured [extra_args] and the signatures of the
    two models: the non-linear model is served first. *)
Definition initialize_from (extra_args0 : dict) (inputs outputs : list string)
    (nonlin power_spectrum : FullArgSpec) (stop : bool) (translate : string -> string)
    : result t :=
  match model_pars nonlin with
  | Raise e => Raise e
  | Return nl_pars =>
      let '(extra_args1, nl_args, nl_params) :=
        collect_model_args nl_pars extra_args0 [] [] in
      match model_pars power_spectrum with
      | Raise e => Raise e
      | Return power_pars =>
          let '(extra_args2, power_args, power) :=
            collect_model_args power_pars extra_args1 [] [] in
          Return (initialize extra_args2 inputs outputs power nl_params power_args nl_args
                             stop translate)
      end
  end.

(** The end of [initialize]: [(self.requires, self._transfer_requires)] from
    the declared requirements. *)
Definition split_requires (s : t) (requires : list string) : list string * list string :=
  let _transfer_requires :=
    filter (fun p => negb (str_in p (get_can_support_params s))) requires in
  (filter (fun p => negb (str_in p _transfer_requires)) requires, _transfer_requires).


(** *** The store of kwargs dictionaries *)

(** A fresh dictionary object. *)
Definition alloc (d : dict) : M t loc :=
  fun s => (upd_store (fun h => h ++ [d]) s, Return (List.length (store s))).

(** The dictionary at an address. *)
Definition deref (s : t) (l : loc) : dict := nth l (store s) [].

(** In-place update of the dictionary at an address. *)
Fixpoint store_update (h : list dict) (l : loc) (f : dict -> dict) : list dict :=
  match h, l with
  | [], _ => []
  | d :: r, O => f d :: r
  | d :: r, S l' => d :: store_update r l' f
  end.

Definition mutate (l : loc) (f : dict -> dict) : M t unit :=
  modify (upd_store (fun h => store_update h l f)).

(** [self.collectors[key] = c] *)
Definition set_collector (key : product) (c : option Collector) : M t unit :=
  modify (upd_collectors (fun cs => dict_set product_eqb cs key c)).

(** The kwargs of the collector registered under [key], if it is one. *)
Definition collector_kwargs (s : t) (key : product) : option dict :=
  match dict_get product_eqb (collectors s) key with
  | Some (Some c) => Some (deref s (kwargs c))
  | _ => None
  end.

(** [self.extra_args.get(k, default)] read as a number.  The maximum the
    branches store after it is stored as a number, also where Python would
    keep the equal boolean. *)
Definition extra_num (k : string) (default : Z) : M t Z :=
  s <- get ;; lift (as_num (sget_default (extra_args s) k (PyNum default))).

Definition set_extra_arg (k : string) (v : pyval) : M t unit :=
  modify (upd_extra_args (fun d => sset d k v)).

Definition set_extra_attr (k : string) (v : pyval) : M t unit :=
  modify (upd_extra_attrs (fun d => sset d k v)).

(** *** Redshift grids *)

(** [self.extra_args.get("redshifts", [])], as [np.concatenate] reads it:
    the value is not passed through [np.atleast_1d]. *)
Definition current_redshifts (s : t) : result (list Z) :=
  match sget (extra_args s) "redshifts" with
  | None => Return []
  | Some v => as_operand v
  end.

(** [add_to_redshifts]: the grid of the perturbation products, kept in
    [extra_args["redshifts"]], descending. *)
Definition add_to_redshifts (zs : list Z) : M t unit :=
  s <- get ;;
  old <- lift (current_redshifts s) ;;
  set_extra_arg "redshifts"
    (PyArray (reversed (np_sort (np_unique (np_concatenate zs old))))).

(** [_combine_z]: the grid of a background product, kept in the kwargs of
    its collector. *)
Definition _combine_z (k : string) (v : requirement) : M t (list Z) :=
  s <- get ;;
  match dict_get product_eqb (collectors s) (Name k) with
  | Some (Some c) =>
      old <- lift (match sget (deref s (kwargs c)) "z" with
                   | None => Raise (KeyError "z")
                   | Some a => as_operand a
                   end) ;;
      zs <- lift (req_z v) ;;
      ret (np_sort (np_unique (np_concatenate old zs)))
  | _ =>
      zs <- lift (req_z v) ;;
      ret (np_sort zs)
  end.

(** *** needs: one branch per product *)

Definition nonempty {A} (l : list A) : bool :=
  match l with [] => false | _ => true end.

(** [k == "Cl"] *)
Definition needs_Cl (k : string) (v : requirement) : M t unit :=
  match v with
  | ReqCl lmaxs =>
      m <- lift (py_max (map snd lmaxs)) ;;
      old_lmax <- extra_num "lmax" 0 ;;
      set_extra_arg "lmax" (PyNum (Z.max m old_lmax)) ;;
      let cls := map (fun a => lower (fst a)) lmaxs in
      let needs_lensing := str_inter cls ["pp"; "pt"; "pe"; "tp"; "ep"] in
      s <- get ;;
      old_spectra <-
        lift (match dict_get product_eqb (collectors s) (Name k) with
              | None => Return []
              | Some None => Raise (AttributeError "kwargs")
              | Some (Some c) =>
                  match sget (deref s (kwargs c)) "spectra" with
                  | None => Return []
                  | Some (PyList l) => Return l
                  | Some _ => Raise TypeError
                  end
              end) ;;
      l <- alloc [("spectra",
                   PyList (str_dedup
                             (old_spectra ++ ["total"] ++
                              (if nonempty needs_lensing then ["lens_potential"] else []))));
                  ("raw_cl", PyBool false)] ;;
      set_collector (Name k)
        (Some {| method := "get_cmb_power_spectra"; args := []; kwargs := l |}) ;;
      modify (upd_needs_perts (fun _ => true)) ;;
      set_extra_attr "Want_CMB" (PyBool true) ;;
      set_extra_attr "WantCls" (PyBool true) ;;
      s <- get ;;
      (when str_in "pp" cls &&
            match sget (extra_args s) "lens_potential_accuracy" with
            | None | Some PyNone => true
            | Some _ => false
            end
       then set_extra_arg "lens_potential_accuracy" (PyNum 1)) ;;
      acc <- extra_num "lens_potential_accuracy" 1 ;;
      modify (upd_non_linear_sources (fun _ => (1 <=? acc)%Z)) ;;
      (when nonempty (str_inter cls ["pt"; "pe"; "tp"; "ep"])
       then modify (upd__needs_lensing_cross (fun _ => true))) ;;
      s <- get ;;
      when negb (str_in "TCMB" (derived_extra s))
      then modify (upd_derived_extra (fun l => l ++ ["TCMB"]))
  | ReqNone => raise (AttributeError "values")
  | _ => raise TypeError
  end.

(** [k == "Hubble"], and [k] one of the two distances, where the method is
    [getattr(CAMBdata, k)]. *)
Definition needs_background (k method_name : string) (v : requirement) : M t unit :=
  zs <- _combine_z k v ;;
  l <- alloc [("z", PyArray zs)] ;;
  set_collector (Name k) (Some {| method := method_name; args := []; kwargs := l |}).

(** [k == "fsigma8"] *)
Definition needs_fsigma8 (k : string) (v : requirement) : M t unit :=
  zs <- lift (req_z v) ;;
  add_to_redshifts zs ;;
  l <- alloc [] ;;
  set_collector (Name k) (Some {| method := "get_fsigma8"; args := []; kwargs := l |}) ;;
  modify (upd_needs_perts (fun _ => true)).

(** The body of [for pair in v["vars_pairs"]]: [kwargs] is the one dictionary
    made by [deepcopy(v)] before the loop, updated in place. *)
Definition register_pair (nl : bool) (l : loc) (pair : string * string) : M t unit :=
  let sp := sorted_pair pair in
  mutate l (fun d => supdate d [("var1", PyStr (fst pair)); ("var2", PyStr (snd pair))]) ;;
  set_collector (Pk_grid nl (fst sp) (snd sp))
    (Some {| method := "get_linear_matter_power_spectrum"; args := []; kwargs := l |}).

(** [kwargs.get("hubble_units", False) or kwargs.get("k_hunit", False)] *)
Definition asks_hubble_units (kwargs0 : dict) : bool :=
  truthy (sget_default kwargs0 "hubble_units" (PyBool false)) ||
  truthy (sget_default kwargs0 "k_hunit" (PyBool false)).

(** [v["vars_pairs"] or [("delta_tot", "delta_tot")]] *)
Definition Pk_pairs (o : Pk_options) : list (string * string) :=
  match vars_pairs o with
  | Some (p :: r) => p :: r
  | _ => [("delta_tot", "delta_tot")]
  end.

(** The request once [v["vars_pairs"]] has been assigned. *)
Definition with_pairs (o : Pk_options) : Pk_options :=
  {| k_max := k_max o; z := z o; vars_pairs := Some (Pk_pairs o);
     nonlinear := nonlinear o; more := more o |}.

(** The rest of the matter-power branch, after the check of the units;
    [l] is the address of [kwargs]. *)
Definition Pk_collectors (o : Pk_options) (l : loc) : M t unit :=
  mutate l (fun d => sset d "hubble_units" (PyBool false)) ;;
  mutate l (fun d => sset d "k_hunit" (PyBool false)) ;;
  for_each ["k_max"; "z"; "vars_pairs"] (fun p => mutate l (fun d => spop d p)) ;;
  (when nonlinear o then modify (upd_non_linear_pk (fun _ => true))) ;;
  for_each (Pk_pairs o) (register_pair (nonlinear o) l) ;;
  modify (upd_needs_perts (fun _ => true)).

(** [k in ["Pk_interpolator", "Pk_grid"]].  A mapping that is no
    matter-power record lacks a key that the branch indexes; the branch is
    cut short at the first of them, [v["k_max"]]. *)
Definition needs_Pk (k : string) (v : requirement) : M t unit :=
  match v with
  | ReqPk o =>
      old_kmax <- extra_num "kmax" 0 ;;
      set_extra_arg "kmax" (PyNum (Z.max (k_max o) old_kmax)) ;;
      add_to_redshifts (z o) ;;
      l <- alloc (Pk_dict (with_pairs o)) ;;
      s <- get ;;
      (when asks_hubble_units (deref s l)
       then raise (LoggedError hubble_units_must_be_False)) ;;
      Pk_collectors o l
  | ReqNone => raise TypeError
  | _ => raise (KeyError "k_max")
  end.

(** [k == "source_Cl"] *)
Definition needs_source_Cl (k : string) (v : requirement) : M t unit :=
  match v with
  | ReqSourceCl o =>
      s <- get ;;
      (when negb (match sources s with Some (_ :: _) => true | _ => false end)
       then modify (upd_sources (fun _ => Some []))) ;;
      for_each (src_sources o) (fun sw =>
        modify (upd_sources (fun ss =>
          let cur := match ss with Some l => l | None => [] end in
          if dict_mem String.eqb cur (fst sw) then Some cur
          else Some (dict_set String.eqb cur (fst sw) (snd sw))))) ;;
      modify (upd_limber (fun _ => match src_limber o with Some b => b | None => true end)) ;;
      modify (upd_non_linear_sources (fun b =>
        b || match src_non_linear o with Some b' => b' | None => false end)) ;;
      match src_lmax o with
      | Some m =>
          old_lmax <- extra_num "lmax" 0 ;;
          set_extra_arg "lmax" (PyNum (Z.max m old_lmax))
      | None => ret tt
      end ;;
      modify (upd_needs_perts (fun _ => true)) ;;
      set_collector (Name k)
        (Some {| method := "get_source_cls_dict"; args := []; kwargs := default_kwargs |}) ;;
      set_extra_attr "Want_cl_2D_array" (PyBool true) ;;
      set_extra_attr "WantCls" (PyBool true)
  | ReqNone => raise TypeError
  | _ => raise (KeyError "sources")
  end.

(** [v is None]: a derived parameter requested by name. *)
Definition needs_derived (k : string) : M t unit :=
  s <- get ;;
  let k_translated := translate_param s k in
  (when negb (str_in k_translated (derived_extra s))
   then modify (upd_derived_extra (fun l => l ++ [k_translated]))) ;;
  when (k =? "sigma8")
  then (set_extra_attr "WantTransfer" (PyBool true) ;;
        modify (upd_needs_perts (fun _ => true))).

(** The body of [for k, v in self._needs.items()]. *)
Definition needs_item (kv : string * requirement) : M t unit :=
  let (k, v) := kv in
  if k =? "Cl" then needs_Cl k v
  else if k =? "Hubble" then needs_background k "h_of_z" v
  else if str_in k ["angular_diameter_distance"; "comoving_radial_distance"]
  then needs_background k k v
  else if k =? "fsigma8" then needs_fsigma8 k v
  else if str_in k ["Pk_interpolator"; "Pk_grid"] then needs_Pk k v
  else if k =? "source_Cl" then needs_source_Cl k v
  else if k =? "CAMBdata" then set_collector (Name k) None
  else match v with
       | ReqNone => needs_derived k
       | _ => raise (LoggedError this_should_not_be_happening)
       end.

(** The solver's constants [model.NonLinear_both] and so on. *)
Definition NonLinear_value (sources_flag pk_flag : bool) : pyval :=
  match sources_flag, pk_flag with
  | true, true => PyStr "NonLinear_both"
  | true, false => PyStr "NonLinear_lens"
  | false, true => PyStr "NonLinear_pk"
  | false, false => PyBool false
  end.

(** [needs]: the inherited call has merged the new requirements into
    [self._needs] (it belongs to the base class); [_needs] is that mapping as
    the loop sees it. *)
Definition needs (_needs : list (string * requirement)) : M t transfers_requirement :=
  for_each _needs needs_item ;;
  s <- get ;;
  let repeated := str_inter (input_params s) (dict_keys (extra_args s)) in
  (when nonempty repeated
   then raise (LoggedError (repeated_input_and_extra repeated))) ;;
  set_extra_attr "NonLinear" (NonLinear_value (non_linear_sources s) (non_linear_pk s)) ;;
  modify (upd__base_params (fun _ => None)) ;;
  s <- get ;;
  ret {| non_linear := non_linear_sources s; req_needs_perts := needs_perts s |}.

(** *** set: the solver's parameter object for one point *)

(** [{self.translate_param(p): v for p, v in d.items() if keep p}] *)
Definition translated (s : t) (keep : string -> bool) (d : dict) : dict :=
  supdate [] (map (fun kv => (translate_param s (fst kv), snd kv))
                  (filter (fun kv => keep (fst kv)) d)).

Definition write_log (r : log_record) : M t unit :=
  modify (upd_log (fun l => l ++ [r])).

(** The loop over [set_classes], [set_matter_power] and [set_for_lmax]: no
    argument of theirs may be sampled, and none stays in the reduced
    [extra_args]. *)
Definition drop_fixed_params (args : dict) : M t unit :=
  for_each ["set_classes"; "set_matter_power"; "set_for_lmax"] (fun non_param_func =>
    for_each (argspec non_param_func) (fun fixed_param =>
      (when dict_mem String.eqb args fixed_param
       then raise (LoggedError (sampling_fixed_parameter fixed_param))) ;;
      modify (upd__reduced_extra_args (fun d => spop d fixed_param)))).

(** [for attr, value in self.extra_attrs.items()] *)
Fixpoint set_attributes (attrs : dict) (params : CAMBparams) : M t CAMBparams :=
  match attrs with
  | [] => ret params
  | (attr, value) :: r =>
      if hasattr_params params attr
      then set_attributes r (setattr_params params attr value)
      else raise (LoggedError (attribute_not_recognized attr value))
  end.

(** In-place change of the window registered for [source]. *)
Definition mutate_window (source : string) (f : dict -> dict) : M t unit :=
  modify (upd_sources (fun ss =>
    match ss with
    | Some l =>
        Some (map (fun sw => if String.eqb (fst sw) source then (fst sw, f (snd sw)) else sw) l)
    | None => None
    end)).

(** [for source, window in self.sources.items()]: the window loses its
    ["function"] entry while its object is built and gets it back last. *)
Fixpoint make_windows (ss : list (string * dict)) (acc : list SourceWindow)
    : M t (list SourceWindow) :=
  match ss with
  | [] => ret acc
  | (source, window) :: r =>
      let function := sget_default window "function" PyNone in
      let window' := spop window "function" in
      mutate_window source (fun _ => window') ;;
      w <- match function with
           | PyStr "spline" => lift (make_SourceWindow true window')
           | PyStr "gaussian" => lift (make_SourceWindow false window')
           | _ => raise (LoggedError (unknown_source_window_function function))
           end ;;
      mutate_window source (fun d => sset d "function" function) ;;
      make_windows r (acc ++ [w])
  end.

(** The [try] block of [set]. *)
Definition set_body (args : dict) : M t (option CAMBparams) :=
  s <- get ;;
  final_args <-
    match _base_params s with
    | None =>
        let base_args := supdate args (extra_args s) in
        WantCls <- lift (match sget (extra_attrs s) "WantCls" with
                         | Some v => Return (truthy v)
                         | None => Raise (KeyError "WantCls")
                         end) ;;
        let base_args :=
          if WantCls then base_args
          else fold_left spop (argspec "set_for_lmax") base_args in
        modify (upd__reduced_extra_args (fun _ => extra_args s)) ;;
        params <- lift (set_params None base_args) ;;
        drop_fixed_params args ;;
        (when nonempty (extra_attrs s)
         then write_log (debug_setting_attributes (extra_attrs s))) ;;
        params <- set_attributes (extra_attrs s) params ;;
        params <-
          match sources s with
          | Some (sw :: r) =>
              write_log (debug_setting_sources (dict_keys (sw :: r))) ;;
              source_windows <- make_windows (sw :: r) [] ;;
              s' <- get ;;
              ret (set_SourceWindows params source_windows (limber s'))
          | _ => ret params
          end ;;
        modify (upd__base_params (fun _ => Some params)) ;;
        ret args
    | Some _ =>
        ret (supdate args (_reduced_extra_args s))
    end ;;
  s <- get ;;
  p <- lift (set_params (_base_params s) final_args) ;;
  ret (Some p).

(** The [except] clauses of [set], in their order; what they do not raise
    ends in the final [return False] ([None] here). *)
Definition set_handler (params_values_dict : dict) (st : state) (e : exn)
    : option (M t (option CAMBparams)) :=
  match e with
  | SolverError CAMBParamRangeError _ =>
      Some (s <- get ;;
            if stop_at_error s
            then raise (LoggedError (out_of_bound_parameters params_values_dict))
            else write_log debug_out_of_bounds ;; ret None)
  | SolverError CAMBValueError _ | SolverError CAMBError _ =>
      Some (s <- get ;;
            if stop_at_error s
            then write_log (error_setting_parameters (params st) (extra_args s)) ;;
                 raise e
            else ret None)
  | SolverError CAMBUnknownArgumentError text =>
      Some (raise (LoggedError (parameters_not_recognized text)))
  | _ => None
  end.

(** [set(params_values_dict, state)]: the parameter object, or [False]. *)
Definition set (params_values_dict : dict) (st : state) : M t (option CAMBparams) :=
  s <- get ;;
  let args := translated s (fun _ => true) params_values_dict in
  write_log (debug_setting_parameters args (extra_args s)) ;;
  try_except (set_body args) (set_handler params_values_dict st).

(** How the [try] block of [set] ends for the point [params_values_dict]. *)
Definition set_attempt (params_values_dict : dict) (s : t) : result (option CAMBparams) :=
  let args := translated s (fun _ => true) params_values_dict in
  snd (set_body args (upd_log (fun l => l ++ [debug_setting_parameters args (extra_args s)]) s)).

(** *** Derived parameters *)

(** [CAMBOutputs = namedtuple("CAMBOutputs", ["camb_params", "results", "derived"])] *)
Record CAMBOutputs : Type := {
  camb_params : CAMBparams;
  out_results : option CAMBdata;
  out_derived : option (list (string * pyobj))
}.

(** [a[-1]] *)
Definition last_item (a : list Q) : result pyobj :=
  match rev a with
  | [] => Raise IndexError
  | x :: _ => Return (Float x)
  end.

(** [f()] for an attribute value [f]. *)
Definition call0 (f : pyobj) : result pyobj :=
  match f with
  | Callable r => r
  | _ => Raise TypeError
  end.

(** [_get_derived]: a single derived parameter. *)
Definition _get_derived (p : string) (intermediates : CAMBOutputs) : result pyobj :=
  let general :=
    match out_derived intermediates with
    | Some (kv :: d) =>
        match dict_get String.eqb (kv :: d) p with
        | Some v => if is_None v then None else Some v
        | None => None
        end
    | _ => None
    end in
  match general with
  | Some v => Return v
  | None =>
      if p =? "sigma8" then
        match out_results intermediates with
        | None => Raise (AttributeError "get_sigma8")
        | Some r =>
            match get_sigma8 r with
            | Return a => last_item a
            | Raise e => Raise e
            end
        end
      else
        match getattr_params (camb_params intermediates) p with
        | Some v => Return v
        | None =>
            match match out_results intermediates with
                  | Some r => getattr_results r p
                  | None => None
                  end with
            | Some v => Return v
            | None =>
                match getattr_params (camb_params intermediates) ("get_" ++ p) with
                | Some f => call0 f
                | None => Return None_obj
                end
            end
        end
  end.

(** [_get_derived_output]: the derived parameters of [self.output_params]. *)
Fixpoint derived_output_loop (s : t) (ps : list string) (intermediates : CAMBOutputs)
    (derived : list (string * pyobj)) : result (list (string * pyobj)) :=
  match ps with
  | [] => Return derived
  | p :: r =>
      match _get_derived (translate_param s p) intermediates with
      | Raise e => Raise e
      | Return v =>
          if is_None v then Raise (LoggedError (derived_param_not_implemented p))
          else derived_output_loop s r intermediates (dict_set String.eqb derived p v)
      end
  end.

Definition _get_derived_output (s : t) (intermediates : CAMBOutputs)
    : result (list (string * pyobj)) :=
  derived_output_loop s (output_params s) intermediates [].

(** [{p: self._get_derived(p, intermediates) for p in self.derived_extra}] *)
Fixpoint derived_extra_loop (ps : list string) (intermediates : CAMBOutputs)
    (acc : list (string * pyobj)) : result (list (string * pyobj)) :=
  match ps with
  | [] => Return acc
  | p :: r =>
      match _get_derived p intermediates with
      | Raise e => Raise e
      | Return v => derived_extra_loop r intermediates (dict_set String.eqb acc p v)
      end
  end.

(** *** calculate: the power-spectrum stage *)

(** A [calculate] works on the object and on the [state] dictionary it is
    given. *)
Definition on_self {A} (m : M t A) : M (t * state) A :=
  fun c => let (s', r) := m (fst c) in ((s', snd c), r).

Definition on_state (f : state -> state) : M (t * state) unit :=
  fun c => ((fst c, f (snd c)), Return tt).

(** The [try] block of [calculate]; [provider] is what
    [self.provider.get_CAMB_transfers()] does. *)
Definition calculate_body (provider : result (CAMBparams * CAMBdata))
    (params_values_dict : dict) : M (t * state) (CAMBparams * option CAMBdata) :=
  pr <- lift provider ;;
  let (cp, res) := pr in
  c <- get ;;
  let s := fst c in
  res <-
    (if nonempty (collectors s) then
       let power_args := supdate (translated s (fun p => str_in p (power_params s))
                                             params_values_dict)
                                 (initial_power_args s) in
       res <- lift (InitPower_set_params res power_args) ;;
       res <-
         (if non_linear_sources s || non_linear_pk s then
            let nl_args := supdate (translated s (fun p => str_in p (nonlin_params s))
                                               params_values_dict)
                                   (nonlin_args s) in
            lift (NonLinearModel_set_params res nl_args)
          else ret res) ;;
       res <- lift (power_spectra_from_transfer res) ;;
       ret (Some res)
     else ret None) ;;
  for_each (collectors s) (fun pc =>
    match snd pc, res with
    | Some collector, Some r =>
        v <- lift (call_method (method collector) r (args collector)
                               (deref s (kwargs collector))) ;;
        on_state (set_product (fst pc) (Computed v))
    | None, Some r => on_state (set_product (fst pc) (ResultsObject r))
    | _, None => ret tt
    end) ;;
  ret (cp, res).

(** [except self.camb.baseconfig.CAMBError as e] *)
Definition calculate_handler (e : exn)
    : option (M (t * state) (CAMBparams * option CAMBdata + calculate_return)) :=
  match e with
  | SolverError c text =>
      if isinstance_CAMBError c then
        Some (cs <- get ;;
              if stop_at_error (fst cs)
              then on_self (write_log (error_computation (params (snd cs))
                                                         (extra_args (fst cs)))) ;;
                   raise e
              else on_self (write_log (debug_computation_failed text)) ;;
                   ret (inr returns_False))
      else None
  | _ => None
  end.

(** [calculate(state, want_derived, **params_values_dict)] *)
Definition calculate (want_derived : bool) (provider : result (CAMBparams * CAMBdata))
    (params_values_dict : dict) : M (t * state) calculate_return :=
  r <- try_except (x <- calculate_body provider params_values_dict ;; ret (inl x))
                  calculate_handler ;;
  match r with
  | inr early => ret early
  | inl (cp, res) =>
      dp <- lift (match res with
                       | Some r => match get_derived_params r with
                                   | Return d => Return (Some d)
                                   | Raise e => Raise e
                                   end
                       | None => Return None
                       end) ;;
      let intermediates := {| camb_params := cp; out_results := res;
                              out_derived := dp |} in
      (when want_derived then
         (cs <- get ;;
          d <- lift (_get_derived_output (fst cs) intermediates) ;;
          on_state (set_derived d))) ;;
      cs <- get ;;
      de <- lift (derived_extra_loop (derived_extra (fst cs)) intermediates []) ;;
      on_state (set_derived_extra de) ;;
      ret returns_None
  end.

(** *** get_Cl: the CMB spectra of the current state *)

Section get_Cl.
(** [2 * np.pi] and [x ** (3. / 2)], which have no exact rational value. *)
Variable two_pi : Q.
Variable pow_3_2 : Q -> Q.

(** [np.arange(n)] *)
Definition arange (n : nat) : list Z := map Z.of_nat (seq 0 n).

(** [a[:, i]] of a two-dimensional array. *)
Definition column (i : nat) (a : list (list Q)) : result (list Q) :=
  if forallb (fun row => (i <? List.length row)%nat) a
  then Return (map (fun row => nth i row 0%Q) a)
  else Raise IndexError.

(** [a[1:] = f(a[1:], b)] elementwise, [b] of the same length as [a[1:]] or
    of length one. *)
Definition on_tail {A} (f : A -> Q -> A) (a : list A) (b : list Q) : result (list A) :=
  match a with
  | [] => match b with
          | [] | [_] => Return []
          | _ => Raise ValueError
          end
  | x :: r =>
      if (List.length r =? List.length b)%nat
      then Return (x :: map (fun ab => f (fst ab) (snd ab)) (combine r b))
      else match b with
           | [y] => Return (x :: map (fun a' => f a' y) r)
           | _ => Raise ValueError
           end
  end.

(** A derived value read as a number. *)
Definition as_float (o : pyobj) : result Q :=
  match o with
  | Float x => Return x
  | Obj (PyNum n) => Return (inject_Z n)
  | _ => Raise TypeError
  end.

(** The [try] around [current_state["Cl"]["total"].copy()]: whatever goes
    wrong there is reported as missing spectra. *)
Definition computed_Cl (s : t) : result (list (string * pyobj) * list (list Q)) :=
  match _current_state s with
  | Some st =>
      match dict_get product_eqb (products st) (Name "Cl") with
      | Some (Computed (Dict d)) =>
          match dict_get String.eqb d "total" with
          | Some (Array2 a) => Return (d, a)
          | _ => Raise (LoggedError no_Cl_computed)
          end
      | _ => Raise (LoggedError no_Cl_computed)
      end
  | None => Raise (LoggedError no_Cl_computed)
  end.

(** [current_state['derived_extra']['TCMB']] *)
Definition current_TCMB (s : t) : result pyobj :=
  match _current_state s with
  | Some st =>
      match state_derived_extra st with
      | Some de =>
          match dict_get String.eqb de "TCMB" with
          | Some v => Return v
          | None => Raise (KeyError "TCMB")
          end
      | None => Raise (KeyError "derived_extra")
      end
  | None => Raise TypeError
  end.

(** The mapping [units_factors]. *)
Definition units_factors (temp : Q) : list (string * Q) :=
  [("1", 1%Q); ("muK2", (temp * inject_Z 1000000)%Q); ("K2", temp)].

(** The unit conversion and the removal of the factor [l(l+1)/(2 pi)]. *)
Definition rescale (ell_factor : bool) (units_factor : Q) (ells_factor : list Q)
    (cl_camb : list (list Q)) : result (list (list Q)) :=
  let scale := (two_pi * (units_factor * units_factor))%Q in
  if negb ell_factor then
    on_tail (fun row ef => map (fun x => (x / ef * scale)%Q) row) cl_camb ells_factor
  else if negb (Qeq_bool units_factor 1) then
    Return (map (map (fun x => (x * (units_factor * units_factor))%Q)) cl_camb)
  else Return cl_camb.

(** [cls.update({sp: cl_camb[:, i] for sp, i in mapping.items()})] *)
Fixpoint add_columns (cl_camb : list (list Q)) (mapping : list (string * nat))
    (cls : list (string * pyobj)) : result (list (string * pyobj)) :=
  match mapping with
  | [] => Return cls
  | (sp, i) :: r =>
      match column i cl_camb with
      | Raise e => Raise e
      | Return c => add_columns cl_camb r (dict_set String.eqb cls sp (Array1 c))
      end
  end.

(** [for i, cross in enumerate(['pt', 'pe'])]: the cross-spectrum with the
    lensing potential, stored under [cross] and under [cross[::-1]]. *)
Fixpoint add_cross (ell_factor : bool) (units_factor : Q) (ells_factor : list Q)
    (cl_lens : list (list Q)) (crosses : list (nat * (string * string)))
    (cls : list (string * pyobj)) : result (list (string * pyobj)) :=
  match crosses with
  | [] => Return cls
  | (i, (cross, reversed_cross)) :: r =>
      match column (i + 1) cl_lens with
      | Raise e => Raise e
      | Return c =>
          let c := map (fun x => (x * units_factor)%Q) c in
          match (if ell_factor then Return c
                 else on_tail (fun x ef => (x / (pow_3_2 ef / two_pi))%Q) c ells_factor) with
          | Raise e => Raise e
          | Return c =>
              add_cross ell_factor units_factor ells_factor cl_lens r
                (dict_set String.eqb (dict_set String.eqb cls cross (Array1 c))
                                     reversed_cross (Array1 c))
          end
      end
  end.

(** The lensing part of [get_Cl], for [cl_lens] that is not [None]. *)
Definition lensing_spectra (s : t) (ell_factor : bool) (units_factor : Q)
    (ells_factor : list Q) (cl_lens : list (list Q))
    (cls : list (string * pyobj)) : result (list (string * pyobj)) :=
  match column 0 cl_lens with
  | Raise e => Raise e
  | Return pp =>
      match (if ell_factor then Return pp
             else on_tail (fun x ef => (x / ((ef * ef) / two_pi))%Q) pp ells_factor) with
      | Raise e => Raise e
      | Return pp =>
          let cls := dict_set String.eqb cls "pp" (Array1 pp) in
          if _needs_lensing_cross s then
            add_cross ell_factor units_factor ells_factor cl_lens
                      [(0%nat, ("pt", "tp")); (1%nat, ("pe", "ep"))] cls
          else Return cls
      end
  end.

(** What [get_Cl] does once the unit factor is known. *)
Definition converted_spectra (s : t) (ell_factor : bool) (units_factor : Q)
    (Cl : list (string * pyobj)) (cl_camb : list (list Q))
    : result (list (string * pyobj)) :=
  let ls := arange (List.length cl_camb) in
  let ells_factor := map (fun l => inject_Z (l * (l + 1))) (tl ls) in
  match rescale ell_factor units_factor ells_factor cl_camb with
  | Raise e => Raise e
  | Return cl_camb =>
      match add_columns cl_camb
              [("tt", 0%nat); ("ee", 1%nat); ("bb", 2%nat); ("te", 3%nat); ("et", 3%nat)]
              [("ell", Array1 (map inject_Z ls))] with
      | Raise e => Raise e
      | Return cls =>
          match dict_get String.eqb Cl "lens_potential" with
          | None | Some (Obj PyNone) => Return cls
          | Some (Array2 cl_lens) =>
              lensing_spectra s ell_factor units_factor ells_factor cl_lens cls
          | Some _ => Raise TypeError
          end
      end
  end.

(** [get_Cl(ell_factor=False, units="muK2")] *)
Definition get_Cl (ell_factor : bool) (units : string) (s : t)
    : result (list (string * pyobj)) :=
  match computed_Cl s with
  | Raise e => Raise e
  | Return (Cl, cl_camb) =>
      match current_TCMB s with
      | Raise e => Raise e
      | Return temp =>
          match as_float temp with
          | Raise e => Raise e
          | Return temp =>
              match dict_get String.eqb (units_factors temp) units with
              | None =>
                  Raise (LoggedError
                           (units_not_recognized units (dict_keys (units_factors temp))))
              | Some units_factor =>
                  converted_spectra s ell_factor units_factor Cl cl_camb
              end
          end
      end
  end.

End get_Cl.

(** [get_CAMBdata] *)
Definition get_CAMBdata (s : t) : result product_value :=
  match _current_state s with
  | Some st =>
      match dict_get product_eqb (products st) (Name "CAMBdata") with
      | Some v => Return v
      | None => Raise (KeyError "CAMBdata")
      end
  | None => Raise TypeError
  end.
(** *** _get_z_dependent: the values at requested redshifts *)

(** [np.where(computed_redshifts == zi)[0]]: an array is compared entry by
    entry, a number or a boolean as a whole ([True == 1]), and anything else
    is not equal to a number. *)
Definition where_equal (computed_redshifts : pyval) (zi : Z) : list nat :=
  match computed_redshifts with
  | PyArray a => np_where_eq a zi 0
  | PyNum x => if (x =? zi)%Z then [0%nat] else []
  | PyBool b => if ((if b then 1 else 0) =? zi)%Z then [0%nat] else []
  | _ => []
  end.

(** [np.array(v, copy=True)[idx]]: a sequence is indexed along its first
    axis; what is not a sequence makes a zero-dimensional array, which takes
    no index. *)
Definition index_product (v : product_value) (idx : list nat) : result pyobj :=
  match v with
  | Computed (Array1 a) =>
      match np_take a idx with Return r => Return (Array1 r) | Raise e => Raise e end
  | Computed (Array2 a) =>
      match np_take a idx with Return r => Return (Array2 r) | Raise e => Raise e end
  | Computed (Obj (PyArray a)) =>
      match np_take a idx with Return r => Return (Obj (PyArray r)) | Raise e => Raise e end
  | Computed (Obj (PyList a)) =>
      match np_take a idx with Return r => Return (Obj (PyList r)) | Raise e => Raise e end
  | Computed (Obj (PyPairs a)) =>
      match np_take a idx with Return r => Return (Obj (PyPairs r)) | Raise e => Raise e end
  | _ => Raise IndexError
  end.

(** [_get_z_dependent(quantity, z)], for [quantity] the name of a product and
    [z] after [np.atleast_1d].  The grid of [fsigma8] is the one of the
    perturbation products; the grid of any other quantity is in the kwargs
    of its collector, which has to be an array. *)
Definition _get_z_dependent (quantity : string) (z : list Z) (s : t) : result pyobj :=
  match
    (if quantity =? "fsigma8" then
       match sget (extra_args s) "redshifts" with
       | None => Raise (KeyError "redshifts")
       | Some computed_redshifts =>
           np_concatenate_all (map (where_equal computed_redshifts) z)
       end
     else
       match dict_get product_eqb (collectors s) (Name quantity) with
       | None => Raise (KeyError quantity)
       | Some None => Raise (AttributeError "kwargs")
       | Some (Some c) =>
           match sget (deref s (kwargs c)) "z" with
           | None => Raise (KeyError "z")
           | Some (PyArray computed_redshifts) =>
               Return (map (np_searchsorted computed_redshifts) z)
           | Some _ => Raise TypeError
           end
       end)
  with
  | Raise e => Raise e
  | Return i_kwarg_z =>
      match _current_state s with
      | None => Raise TypeError
      | Some st =>
          match dict_get product_eqb (products st) (Name quantity) with
          | None => Raise (KeyError quantity)
          | Some v => index_product v i_kwarg_z
          end
      end
  end.

(** [get_fsigma8(z)] *)
Definition get_fsigma8 (z : list Z) (s : t) : result pyobj :=
  _get_z_dependent "fsigma8" z s.


End WithSolver.
End camb.

(* ================================================================== *)
(** ** class CambTransfers: the helper that computes the transfer functions *)

Module CambTransfers.
Section WithSolver.
Context {solver : Solver}.

Local Open Scope monad_scope.

Record t : Type := {
  needs_perts : bool;
  non_linear_sources : bool;
  cobaya_camb : camb.t;
  input_params : list string;
  stop_at_error : bool;
  log : list log_record;
  _current_state : option state
}.

Definition upd_needs_perts (f : bool -> bool) (s : t) : t :=
  Build_t (f (needs_perts s)) (non_linear_sources s) (cobaya_camb s) (input_params s)
          (stop_at_error s) (log s) (_current_state s).
Definition upd_non_linear_sources (f : bool -> bool) (s : t) : t :=
  Build_t (needs_perts s) (f (non_linear_sources s)) (cobaya_camb s) (input_params s)
          (stop_at_error s) (log s) (_current_state s).
Definition upd_cobaya_camb (f : camb.t -> camb.t) (s : t) : t :=
  Build_t (needs_perts s) (non_linear_sources s) (f (cobaya_camb s)) (input_params s)
          (stop_at_error s) (log s) (_current_state s).
Definition upd_log (f : list log_record -> list log_record) (s : t) : t :=
  Build_t (needs_perts s) (non_linear_sources s) (cobaya_camb s) (input_params s)
          (stop_at_error s) (f (log s)) (_current_state s).

(** [__init__(cobaya_camb, name, info)]: [info] is [dict(stop_at_error=...)],
    which the base class turns into the attribute; [inputs] are the input
    parameters the sampler assigns to this helper. *)
Definition __init__ (cobaya_camb0 : camb.t) (info_stop_at_error : bool)
    (inputs : list string) : t :=
  {| needs_perts := false;
     non_linear_sources := false;
     cobaya_camb := cobaya_camb0;
     input_params := inputs;
     stop_at_error := info_stop_at_error;
     log := [];
     _current_state := None |}.

(** [needs]: [opts] is [requirements.get('CAMB_transfers')]. *)
Definition needs (opts : option transfers_requirement) : M t unit :=
  match opts with
  | Some o =>
      modify (upd_non_linear_sources (fun _ => non_linear o)) ;;
      modify (upd_needs_perts (fun _ => req_needs_perts o)) ;;
      s <- get ;;
      let repeated := str_inter (input_params s)
                                (dict_keys (camb.extra_args (cobaya_camb s))) in
      when camb.nonempty repeated
      then raise (LoggedError (repeated_input_and_extra repeated))
  | None => ret tt
  end.

(** [get_CAMB_transfers] *)
Definition get_CAMB_transfers (s : t) : result (CAMBparams * CAMBdata) :=
  match _current_state s with
  | Some st =>
      match results st with
      | Some r => Return r
      | None => Raise (KeyError "results")
      end
  | None => Raise TypeError
  end.

Definition on_self {A} (m : M t A) : M (t * state) A :=
  fun c => let (s', r) := m (fst c) in ((s', snd c), r).

(** A method of [self.cobaya_camb]. *)
Definition on_camb {A} (m : M camb.t A) : M (t * state) A :=
  fun c => let (k', r) := m (cobaya_camb (fst c)) in
           ((upd_cobaya_camb (fun _ => k') (fst c), snd c), r).

Definition on_state (f : state -> state) : M (t * state) unit :=
  fun c => ((fst c, f (snd c)), Return tt).

Definition write_log (r : log_record) : M (t * state) unit :=
  on_self (modify (upd_log (fun l => l ++ [r]))).

(** The solver call of [calculate]: time sources only when non-linear
    sources are needed, the plain transfer functions when perturbations are,
    the background otherwise. *)
Definition compute_transfers (s : t) (camb_params : CAMBparams) : result CAMBdata :=
  if non_linear_sources s
  then get_transfer_functions camb_params true
  else if needs_perts s
       then get_transfer_functions camb_params false
       else get_background camb_params.

(** The [try] block of [calculate]. *)
Definition calculate_body (camb_params : CAMBparams) : M (t * state) calculate_return :=
  cs <- get ;;
  res <- lift (compute_transfers (fst cs) camb_params) ;;
  on_state (set_results (camb_params, res)) ;;
  ret returns_None.

(** [except self.camb.baseconfig.CAMBError as e] *)
Definition calculate_handler (e : exn) : option (M (t * state) calculate_return) :=
  match e with
  | SolverError c text =>
      if isinstance_CAMBError c then
        Some (cs <- get ;;
              if stop_at_error (fst cs)
              then write_log (error_computation
                                (params (snd cs))
                                (camb.extra_args (cobaya_camb (fst cs)))) ;;
                   raise e
              else write_log (debug_computation_failed text) ;;
                   ret returns_False)
      else None
  | _ => None
  end.

(** [calculate(state, want_derived, **params_values_dict)] *)
Definition calculate (want_derived : bool) (params_values_dict : dict)
    : M (t * state) calculate_return :=
  cs <- get ;;
  camb_params <- on_camb (camb.set params_values_dict (snd cs)) ;;
  match camb_params with
  | None => ret returns_False
  | Some cp => try_except (calculate_body cp) calculate_handler
  end.

(** [get_allow_agnostic] *)
Definition get_allow_agnostic : bool := true.

(** [initialize_with_params] *)
Definition initialize_with_params : M t unit :=
  s <- get ;;
  when (1 <? List.length (str_inter (input_params s)
                                    ["H0"; "cosmomc_theta"; "thetastar"]))%nat
  then raise (LoggedError more_than_one_of_H0_theta).

End WithSolver.
End CambTransfers.

(** [camb.get_helper_theories]: the helper gets the [stop_at_error] of its
    owner. *)
Definition get_helper_theories {solver : Solver} (c : camb.t) (inputs : list string)
    : CambTransfers.t :=
  CambTransfers.__init__ c (camb.stop_at_error c) inputs.

(* ================================================================== *)
(** ** A small solver for examples *)

(** A solver whose objects are the dictionaries they were built from.  Its
    three stages fail on demand: [set_fails] is the error of
    [camb.set_params], [transfer_fails] the error of the transfer and
    background computation, [power_fails] the error of
    [power_spectra_from_transfer]. *)
Definition toy_solver (set_fails transfer_fails power_fails : option solver_error)
    : Solver :=
  {| CAMBparams := dict;
     CAMBdata := dict;
     SourceWindow := dict;
     set_params := fun cp args =>
       match set_fails with
       | Some c => Raise (SolverError c "set_params")
       | None => Return (supdate (match cp with Some d => d | None => [] end) args)
       end;
     argspec := fun f =>
       if f =? "set_for_lmax" then ["lmax"; "lens_potential_accuracy"]
       else if f =? "set_matter_power" then ["redshifts"; "kmax"]
       else [];
     hasattr_params := fun _ _ => true;
     setattr_params := fun cp attr value => sset cp attr value;
     make_SourceWindow := fun _ window => Return window;
     set_SourceWindows := fun cp _ _ => cp;
     get_transfer_functions := fun cp _ =>
       match transfer_fails with
       | Some c => Raise (SolverError c "get_transfer_functions")
       | None => Return cp
       end;
     get_background := fun cp =>
       match transfer_fails with
       | Some c => Raise (SolverError c "get_background")
       | None => Return cp
       end;
     InitPower_set_params := fun r args => Return (supdate r args);
     NonLinearModel_set_params := fun r args => Return (supdate r args);
     power_spectra_from_transfer := fun r =>
       match power_fails with
       | Some c => Raise (SolverError c "power_spectra_from_transfer")
       | None => Return r
       end;
     call_method := fun _ _ _ kwargs => Return (Obj (PyList (dict_keys kwargs)));
     get_derived_params := fun _ => Return [("age", Float 14%Q)];
     get_sigma8 := fun _ => Return [0.5%Q; 0.8%Q];
     getattr_params := fun cp name =>
       match sget cp name with Some v => Some (Obj v) | None => None end;
     getattr_results := fun r name =>
       if name =? "omega_de" then Some (Float 0.7%Q) else None |}.

(** An object just after [initialize], with nothing configured. *)
Definition fresh (solver : Solver) (stop : bool) : camb.t :=
  camb.initialize [] [] [] [] [] [] [] stop (fun p => p).

(** An empty evaluation state for the point [point]. *)
Definition empty_state (solver : Solver) (point : dict) : state :=
  {| params := point; results := None; products := []; derived := None;
     state_derived_extra := None |}.

(* ================================================================== *)
(** ** The vocabulary of the statements *)

Section Vocabulary.
Context {solver : Solver}.

(** What the matter-power branch reads from [extra_args] has the type it is
    used at: [kmax] a number, [redshifts] an array. *)
Definition grid_config_ok (s : camb.t) : bool :=
  match sget (camb.extra_args s) "kmax" with
  | None | Some (PyNum _) => true
  | Some _ => false
  end &&
  match sget (camb.extra_args s) "redshifts" with
  | None | Some (PyArray _) => true
  | Some _ => false
  end.

(** The records of a log that hold the parameter values of a point: the two
    error records. *)
Definition is_parameter_dump (r : log_record) : bool :=
  match r with
  | error_setting_parameters _ _ | error_computation _ _ => true
  | _ => false
  end.

Definition parameter_dumps (l : list log_record) : list log_record :=
  filter is_parameter_dump l.

Definition logged_dumps (s : camb.t) : list log_record := parameter_dumps (camb.log s).

(** The ways of fixing the expansion rate, and how many of them a list of
    input parameters supplies. *)
Definition expansion_rate_names : list string := ["H0"; "cosmomc_theta"; "thetastar"].

Definition supplied_expansion_rates (inputs : list string) : nat :=
  List.length (filter (fun n => str_in n inputs) expansion_rate_names).

(** The units [get_Cl] accepts. *)
Definition supported_units : list string := ["1"; "muK2"; "K2"].

(** *** Resolution of a derived parameter, as the specification words it

    A strategy either resolves the name, with the outcome of reading the
    value, or does not apply. *)
Definition strategy : Type := string -> camb.CAMBOutputs -> option (result pyobj).

(** (1) The derived-parameter mapping the results provide: the value under
    the name, unless it is [None]. *)
Definition from_derived_mapping : strategy := fun p im =>
  match camb.out_derived im with
  | Some d =>
      match dict_get String.eqb d p with
      | Some (Obj PyNone) | None => None
      | Some v => Some (Return v)
      end
  | None => None
  end.

(** (2) [sigma8]: the last entry of what [get_sigma8] returns, one entry for
    each redshift bin; there is no last entry of an empty array. *)
Definition sigma8_special_case : strategy := fun p im =>
  if p =? "sigma8" then
    Some match camb.out_results im with
         | None => Raise (AttributeError "get_sigma8")
         | Some r => match get_sigma8 r with
                     | Return [] => Raise IndexError
                     | Return (x :: a) => Return (Float (List.last a x))
                     | Raise e => Raise e
                     end
         end
  else None.

(** (3) An attribute of the parameter object. *)
Definition parameter_attribute : strategy := fun p im =>
  match getattr_params (camb.camb_params im) p with
  | Some v => Some (Return v)
  | None => None
  end.

(** (4) An attribute of the result object. *)
Definition result_attribute : strategy := fun p im =>
  match camb.out_results im with
  | Some r => match getattr_results r p with
              | Some v => Some (Return v)
              | None => None
              end
  | None => None
  end.

(** (5) The accessor [get_<name>] of the parameter object, called without
    arguments: what the call gives, and [TypeError] for an attribute that
    cannot be called. *)
Definition accessor_method : strategy := fun p im =>
  match getattr_params (camb.camb_params im) ("get_" ++ p) with
  | Some (Callable outcome) => Some outcome
  | Some _ => Some (Raise TypeError)
  | None => None
  end.

Definition resolution_order : list strategy :=
  [from_derived_mapping; sigma8_special_case; parameter_attribute;
   result_attribute; accessor_method].

(** The first strategy of a list that resolves the name. *)
Fixpoint first_success (l : list strategy) (p : string) (im : camb.CAMBOutputs)
    : option (result pyobj) :=
  match l with
  | [] => None
  | f :: r => match f p im with
              | Some o => Some o
              | None => first_success r p im
              end
  end.

(** A name that no strategy resolves has the value [None]. *)
Definition resolve (p : string) (im : camb.CAMBOutputs) : result pyobj :=
  match first_success resolution_order p im with
  | Some o => o
  | None => Return None_obj
  end.

(** The solver raised [e] during the transfer stage at the point
    [params_values_dict]: in the [try] block of [set], or, once [set] has
    returned a parameter object, in the computation of the transfer
    functions. *)
Definition transfer_stage_raises (h : CambTransfers.t) (params_values_dict : dict)
    (e : exn) : Prop :=
  camb.set_attempt params_values_dict (CambTransfers.cobaya_camb h) = Raise e \/
  exists cp,
    camb.set_attempt params_values_dict (CambTransfers.cobaya_camb h) = Return (Some cp) /\
    CambTransfers.compute_transfers h cp = Raise e.

(** *** Redshift grids

    What [np.sort(np.unique(...))] makes of a list, and the same reversed. *)
Definition ascending_union (l : list Z) : list Z := np_sort (np_unique l).

Definition descending_union (l : list Z) : list Z := reversed (np_sort (np_unique l)).

(** A sequence of [fsigma8] requests. *)
Definition fsigma8_requests (zss : list (list Z)) : list (string * requirement) :=
  map (fun zs => ("fsigma8", ReqZ zs)) zss.

(** The background products and a sequence of requests for one of them. *)
Definition background_products : list string :=
  ["Hubble"; "angular_diameter_distance"; "comoving_radial_distance"].

Definition background_requests (k : string) (zss : list (list Z))
    : list (string * requirement) :=
  map (fun zs => (k, ReqZ zs)) zss.

(** The grid of a background product after the requests [zss], when it had no
    collector before. *)
Definition background_grid (zss : list (list Z)) : list Z :=
  match zss with
  | [] => []
  | [zs] => np_sort zs
  | _ => ascending_union (List.concat zss)
  end.

(** *** The flags that select what the solver computes *)
Inductive stage_flag : Type :=
| wants_CMB
| wants_lensing_cross
| wants_tensors
| non_linear_matter_power
| wants_perturbations.

Definition flag_on (f : stage_flag) (s : camb.t) : Prop :=
  match f with
  | wants_CMB => sget (camb.extra_attrs s) "Want_CMB" = Some (PyBool true)
  | wants_lensing_cross => camb._needs_lensing_cross s = true
  | wants_tensors => sget (camb.extra_attrs s) "WantTensors" = Some (PyBool true)
  | non_linear_matter_power => camb.non_linear_pk s = true
  | wants_perturbations => camb.needs_perts s = true
  end.

(** *** The registry of collectors *)

(** The product [p] has an entry in the registry. *)
Definition registered_in (p : product) (s : camb.t) : Prop :=
  dict_get product_eqb (camb.collectors s) p <> None.

(** The products registered under their own name. *)
Definition named_products : list string :=
  ["Cl"; "Hubble"; "angular_diameter_distance"; "comoving_radial_distance"; "fsigma8";
   "source_Cl"; "CAMBdata"].

(** The key of the matter power spectrum of a pair of variables. *)
Definition Pk_key (nl : bool) (pair : string * string) : product :=
  Pk_grid nl (fst (sorted_pair pair)) (snd (sorted_pair pair)).

(** *** What [needs] accumulates in [extra_args] and beside it *)

(** [extra_args[key]] is a number, and not below [b]. *)
Definition extra_at_least (key : string) (b : Z) (s : camb.t) : Prop :=
  exists x, sget (camb.extra_args s) key = Some (PyNum x) /\ (b <= x)%Z.

(** [extra_args["redshifts"]] is an array that holds [z]. *)
Definition in_redshifts (z : Z) (s : camb.t) : Prop :=
  exists g, sget (camb.extra_args s) "redshifts" = Some (PyArray g) /\ In z g.

(** [extra_args["redshifts"]] is a strictly descending array. *)
Definition redshifts_descending (s : camb.t) : Prop :=
  exists g, sget (camb.extra_args s) "redshifts" = Some (PyArray g) /\
            StronglySorted Z.gt g.

(** [self.sources[source]] is [window]. *)
Definition window_of (source : string) (window : dict) (s : camb.t) : Prop :=
  exists l, camb.sources s = Some l /\ dict_get String.eqb l source = Some window.

(** The names that select a branch of the loop of [needs] by themselves. *)
Definition product_names : list string :=
  ["Cl"; "Hubble"; "angular_diameter_distance"; "comoving_radial_distance"; "fsigma8";
   "Pk_interpolator"; "Pk_grid"; "source_Cl"; "CAMBdata"].

(** *** The arguments of a model *)

(** The arguments of one model that become parameters: those that are not
    configured and whose paired default is a number or [None]. *)
Definition free_arguments (configured : string -> bool) (pars : list (string * pyval))
    : list string :=
  map fst (filter (fun av => negb (configured (fst av)) && camb.is_Number_or_None (snd av))
                  pars).

(** *** The requirements that need perturbations *)

(** The names whose branch in the loop of [needs] sets [needs_perts]. *)
Definition perturbation_names : list string :=
  ["Cl"; "fsigma8"; "Pk_interpolator"; "Pk_grid"; "source_Cl"; "sigma8"].

(** *** The conversion of the spectra *)

(** The value [get_Cl] gives for the multipole [l] from the value [x] of
    the solver, which comes in units of the temperature squared and with the
    factor [l (l + 1) / (2 pi)]: with [ell_factor] the factor stays, and
    without it the factor is removed from the multipole 1 on. *)
Definition Cl_conversion (two_pi : Q) (ell_factor : bool) (units_factor : Q) (l : nat)
    (x : Q) : Q :=
  if ell_factor then
    if Qeq_bool units_factor 1 then x else (x * (units_factor * units_factor))%Q
  else
    match l with
    | O => x
    | S _ => (x / inject_Z (Z.of_nat l * (Z.of_nat l + 1)) *
              (two_pi * (units_factor * units_factor)))%Q
    end.

(** *** The parameters [set] fixes once *)

(** The arguments of [set_classes], [set_matter_power] and [set_for_lmax],
    in the order [set] goes through them. *)
Definition fixed_params : list string :=
  List.concat (map argspec ["set_classes"; "set_matter_power"; "set_for_lmax"]).

(** *** Source windows in [set] *)

(** A window after [set] has taken its ["function"] entry out and put it
    back. *)
Definition restored (window : dict) : dict :=
  sset (spop window "function") "function" (sget_default window "function" PyNone).

(** *** The requests as the loop of [needs] finds them *)

(** Modelled from the spec: the [needs] of the base class, which [needs]
    calls first and whose code is not part of this source file.  It keeps
    [self._needs], the mapping from product name to option record
    accumulated across the requests: a request with a redshift grid is
    merged (union, sorted descending) with the grid held for that product.
    [accumulated held zs] is the grid held after a request of [zs]. *)
Definition accumulated (held zs : list Z) : list Z := descending_union (held ++ zs).

(** Modelled from the spec: the grids that [self._needs], kept by the
    [needs] of the base class, holds for one product at the successive calls
    of [needs], for the requests [zss]. *)
Fixpoint held_grids (held : list Z) (zss : list (list Z)) : list (list Z) :=
  match zss with
  | [] => []
  | zs :: r => accumulated held zs :: held_grids (accumulated held zs) r
  end.

(** Successive calls of [needs], each on the mapping [self._needs] of its
    moment. *)
Fixpoint needs_calls (calls : list (list (string * requirement))) : M camb.t unit :=
  match calls with
  | [] => ret tt
  | _needs :: r => bind (camb.needs _needs) (fun _ => needs_calls r)
  end.

(** The calls for a sequence of requests of [fsigma8], and of a background
    product. *)
Definition fsigma8_calls (zss : list (list Z)) : list (list (string * requirement)) :=
  map (fun g => [("fsigma8", ReqZ g)]) (held_grids [] zss).

Definition background_calls (k : string) (zss : list (list Z))
    : list (list (string * requirement)) :=
  map (fun g => [(k, ReqZ g)]) (held_grids [] zss).

(** The calls for a sequence of matter-power requests, from the option
    records [os] held at each call: their grids are the grids held for the
    requests [zss], and none asks for Hubble units. *)
Definition Pk_calls (k : string) (os : list Pk_options)
    : list (list (string * requirement)) :=
  map (fun o => [(k, ReqPk o)]) os.

Definition hold_grids (os : list Pk_options) (zss : list (list Z)) : Prop :=
  map z os = held_grids [] zss /\
  Forall (fun o => camb.asks_hubble_units (Pk_dict o) = false) os.

(** No input parameter is an argument of [extra_args] or one of the names
    [added]: the test that ends [needs] passes, also once [added] are
    arguments. *)
Definition inputs_apart (added : list string) (s : camb.t) : Prop :=
  forall p, In p (camb.input_params s) ->
            ~ In p (added ++ dict_keys (camb.extra_args s)).

(** *** The products in the state *)

(** The product [p] holds in [st] what its entry in the registry of [s]
    gives for the result object [r]: the value that the method of the
    collector returned for the arguments of the collector, or the result
    object itself where the entry is [None]. *)
Definition holds_collected (s : camb.t) (st : state) (p : product) : Prop :=
  exists c r,
    dict_get product_eqb (camb.collectors s) p = Some c /\
    match c with
    | Some collector =>
        exists v, call_method (method collector) r (args collector)
                              (camb.deref s (kwargs collector)) = Return v /\
                  dict_get product_eqb (products st) p = Some (Computed v)
    | None => dict_get product_eqb (products st) p = Some (ResultsObject r)
    end.

(** The entry of [p] in the registry is a collector of the matter power
    spectrum. *)
Definition collects_matter_power (p : product) (s : camb.t) : Prop :=
  exists collector,
    dict_get product_eqb (camb.collectors s) p = Some (Some collector) /\
    method collector = "get_linear_matter_power_spectrum".

End Vocabulary.

Unset Implicit Arguments.

(* ================================================================== *)
(** ** Lists of names and dictionaries *)

Lemma str_in_In (x : string) (l : list string) : str_in x l = true <-> In x l.
Proof.
  unfold str_in. rewrite existsb_exists. split.
  - intros [y [Hy E]]. apply String.eqb_eq in E. now subst.
  - intros H. exists x. split; [assumption | apply String.eqb_refl].
Qed.

Lemma str_in_false (x : string) (l : list string) : str_in x l = false <-> ~ In x l.
Proof.
  rewrite <- str_in_In. destruct (str_in x l); split; congruence.
Qed.

Lemma In_str_inter (x : string) (a b : list string) :
  In x (str_inter a b) <-> In x a /\ In x b.
Proof.
  induction a as [|y a IH]; simpl.
  - tauto.
  - destruct (str_in y b) eqn:Hb; simpl.
    + destruct (str_in y (str_inter a b)) eqn:Hr; simpl.
      * apply str_in_In in Hr. apply str_in_In in Hb. rewrite IH.
        split; [tauto|]. intros [[->|Ha] Hxb]; [|tauto].
        apply IH in Hr. tauto.
      * apply str_in_In in Hb. rewrite IH.
        split; [intros [->|H]; tauto|]. intros [[->|Ha] Hxb]; tauto.
    + apply str_in_false in Hb. rewrite IH.
      split; [tauto|]. intros [[->|Ha] Hxb]; tauto.
Qed.

Lemma NoDup_str_inter (a b : list string) : NoDup (str_inter a b).
Proof.
  induction a as [|y a IH]; simpl.
  - constructor.
  - destruct (str_in y b && negb (str_in y (str_inter a b))) eqn:E; [|assumption].
    apply andb_true_iff in E. destruct E as [_ E].
    apply negb_true_iff, str_in_false in E. now constructor.
Qed.

(** The size of an intersection can be counted from either side. *)
Lemma length_str_inter (a b : list string) :
  NoDup b ->
  List.length (str_inter a b) = List.length (filter (fun n => str_in n a) b).
Proof.
  intros Hb. apply Permutation_length, NoDup_Permutation.
  - apply NoDup_str_inter.
  - now apply NoDup_filter.
  - intros x. rewrite In_str_inter, filter_In, str_in_In. tauto.
Qed.

Lemma sget_sset (d : dict) (k k' : string) (v : pyval) :
  sget (sset d k v) k' = if String.eqb k k' then Some v else sget d k'.
Proof.
  unfold sget, sset. induction d as [|[k0 v0] d IH]; simpl.
  - reflexivity.
  - destruct (String.eqb_spec k0 k) as [->|Hne]; simpl.
    + destruct (String.eqb k k'); reflexivity.
    + destruct (String.eqb_spec k0 k') as [->|Hne'].
      * destruct (String.eqb_spec k k'); [congruence | reflexivity].
      * exact IH.
Qed.

(** [update] with the same pairs keeps two dictionaries equal at a key. *)
(** The same for a mapping from names to any values. *)
Lemma str_dict_get_set {V} (d : list (string * V)) (k k' : string) (v : V) :
  dict_get String.eqb (dict_set String.eqb d k v) k' =
  if String.eqb k k' then Some v else dict_get String.eqb d k'.
Proof.
  induction d as [|[k0 v0] d IH]; simpl.
  - reflexivity.
  - destruct (String.eqb k0 k) eqn:E; simpl.
    + apply String.eqb_eq in E. subst k0. now destruct (String.eqb k k').
    + destruct (String.eqb k0 k') eqn:E'; [|exact IH].
      apply String.eqb_eq in E'. subst k0. now rewrite String.eqb_sym, E.
Qed.

Lemma sget_supdate_congr (m d1 d2 : dict) (k : string) :
  sget d1 k = sget d2 k -> sget (supdate d1 m) k = sget (supdate d2 m) k.
Proof.
  unfold supdate, dict_update. revert d1 d2.
  induction m as [|[k0 v0] m IH]; simpl; intros d1 d2 H.
  - exact H.
  - apply IH. change (sget (sset d1 k0 v0) k = sget (sset d2 k0 v0) k).
    rewrite !sget_sset. now destruct (String.eqb k0 k).
Qed.

(** Case analysis on the innermost scrutinee of the goal. *)
Ltac break_match :=
  match goal with
  | |- context [match ?x with _ => _ end] =>
      lazymatch x with
      | context [match _ with _ => _ end] => fail
      | _ => destruct x eqn:?
      end
  end.

(* ================================================================== *)
(** ** Facts about the monad of methods *)

Section MonadFacts.
Context {St : Type}.

Lemma raises_only_ret {A} P (a : A) : raises_only P (@ret St A a).
Proof. intros s e H. discriminate. Qed.

Lemma raises_only_raise {A} (P : exn -> Prop) e : P e -> raises_only P (@raise St A e).
Proof. intros H s e' E. injection E as <-. exact H. Qed.

Lemma raises_only_lift {A} (P : exn -> Prop) (r : result A) :
  (forall e, r = Raise e -> P e) -> raises_only P (@lift St A r).
Proof. intros H s e E. now apply H. Qed.

Lemma raises_only_get P : raises_only P (@get St).
Proof. intros s e H. discriminate. Qed.

Lemma raises_only_modify P f : raises_only P (@modify St f).
Proof. intros s e H. discriminate. Qed.

Lemma raises_only_bind {A B} P (m : M St A) (k : A -> M St B) :
  raises_only P m -> (forall a, raises_only P (k a)) -> raises_only P (bind m k).
Proof.
  intros Hm Hk s e. unfold bind. specialize (Hm s).
  destruct (m s) as [s' [a|e']]; simpl in *.
  - apply Hk.
  - intros E. injection E as <-. now apply Hm.
Qed.

Lemma raises_only_for_each {A} P (l : list A) (body : A -> M St unit) :
  (forall x, In x l -> raises_only P (body x)) -> raises_only P (for_each l body).
Proof.
  induction l as [|x l IH]; intros H; simpl.
  - apply raises_only_ret.
  - apply raises_only_bind.
    + apply H. now left.
    + intros _. apply IH. intros y Hy. apply H. now right.
Qed.

(** A method of type [unit] that raises nothing returns. *)
Lemma raises_nothing_returns (m : M St unit) (s : St) :
  raises_only (fun _ => False) m -> snd (m s) = Return tt.
Proof.
  intros H. specialize (H s). destruct (m s) as [s' [[]|e]]; simpl in *.
  - reflexivity.
  - now destruct (H e).
Qed.

Lemma preserves_ret {A B} (proj : St -> B) (a : A) : preserves proj (@ret St A a).
Proof. intros s. reflexivity. Qed.

Lemma preserves_raise {A B} (proj : St -> B) e : preserves proj (@raise St A e).
Proof. intros s. reflexivity. Qed.

Lemma preserves_lift {A B} (proj : St -> B) (r : result A) : preserves proj (@lift St A r).
Proof. intros s. reflexivity. Qed.

Lemma preserves_get {B} (proj : St -> B) : preserves proj (@get St).
Proof. intros s. reflexivity. Qed.

Lemma preserves_modify {B} (proj : St -> B) f :
  (forall s, proj (f s) = proj s) -> preserves proj (@modify St f).
Proof. intros H s. apply H. Qed.

Lemma preserves_bind {A B C} (proj : St -> C) (m : M St A) (k : A -> M St B) :
  preserves proj m -> (forall a, preserves proj (k a)) -> preserves proj (bind m k).
Proof.
  intros Hm Hk s. unfold bind. specialize (Hm s).
  destruct (m s) as [s' [a|e]]; simpl in *.
  - now rewrite Hk.
  - exact Hm.
Qed.

Lemma preserves_for_each {A B} (proj : St -> B) (l : list A) (body : A -> M St unit) :
  (forall x, preserves proj (body x)) -> preserves proj (for_each l body).
Proof.
  intros H. induction l as [|x l IH]; simpl.
  - apply preserves_ret.
  - apply preserves_bind; [apply H | intros _; exact IH].
Qed.

Lemma preserves_try_except {A B} (proj : St -> B) (body : M St A)
    (handler : exn -> option (M St A)) :
  preserves proj body ->
  (forall e h, handler e = Some h -> preserves proj h) ->
  preserves proj (try_except body handler).
Proof.
  intros Hb Hh s. unfold try_except. specialize (Hb s).
  destruct (body s) as [s' [a|e]]; simpl in *; [exact Hb|].
  destruct (handler e) as [h|] eqn:E; [|exact Hb].
  now rewrite (Hh e h E).
Qed.

(** A loop over a concatenation runs the two loops in turn. *)
Lemma for_each_app {A} (l1 l2 : list A) (body : A -> M St unit) (s : St) :
  for_each (l1 ++ l2) body s = bind (for_each l1 body) (fun _ => for_each l2 body) s.
Proof.
  revert s. induction l1 as [|x l1 IH]; intros s; simpl.
  - reflexivity.
  - unfold bind. destruct (body x s) as [s' [[]|e]]; [|reflexivity].
    rewrite IH. reflexivity.
Qed.

Lemma keeps_ret {A} P (a : A) : keeps P (@ret St A a).
Proof. intros s H. exact H. Qed.

Lemma keeps_raise {A} P e : keeps P (@raise St A e).
Proof. intros s H. exact H. Qed.

Lemma keeps_lift {A} P (r : result A) : keeps P (@lift St A r).
Proof. intros s H. exact H. Qed.

Lemma keeps_get P : keeps P (@get St).
Proof. intros s H. exact H. Qed.

Lemma keeps_modify (P : St -> Prop) f : (forall s, P s -> P (f s)) -> keeps P (modify f).
Proof. intros H s Hs. now apply H. Qed.

Lemma keeps_bind {A B} P (m : M St A) (k : A -> M St B) :
  keeps P m -> (forall a, keeps P (k a)) -> keeps P (bind m k).
Proof.
  intros Hm Hk s Hs. unfold bind. specialize (Hm s Hs).
  destruct (m s) as [s' [a|e]]; simpl in *.
  - now apply Hk.
  - exact Hm.
Qed.

Lemma keeps_for_each {A} P (l : list A) (body : A -> M St unit) :
  (forall x, keeps P (body x)) -> keeps P (for_each l body).
Proof.
  intros H. induction l as [|x l IH]; simpl.
  - apply keeps_ret.
  - apply keeps_bind; [apply H | intros _; exact IH].
Qed.

(** A bind, followed from one state. *)
Lemma raises_only_bind_at {A B} (P : exn -> Prop) (m : M St A) (k : A -> M St B)
    (s : St) :
  (forall e, snd (m s) = Raise e -> P e) ->
  (forall a s', m s = (s', Return a) -> forall e, snd (k a s') = Raise e -> P e) ->
  forall e, snd (bind m k s) = Raise e -> P e.
Proof.
  intros Hm Hk e. unfold bind. destruct (m s) as [s' [a|e']]; cbn [fst snd] in *.
  - now apply Hk.
  - intros E. injection E as <-. now apply Hm.
Qed.

End MonadFacts.

(** Goals [raises_only P m] for a method made of binds, loops, tests, state
    reads and updates. *)
Ltac raises_tac :=
  repeat first
    [ apply raises_only_ret
    | apply raises_only_modify
    | apply raises_only_get
    | apply raises_only_bind; [|intros ?]
    | apply raises_only_for_each; intros ? _
    | match goal with
      | |- raises_only _ (if ?b then _ else _) => destruct b
      end ].

(** Goals [preserves proj m]. *)
Ltac preserves_tac :=
  repeat first
    [ apply preserves_ret
    | apply preserves_raise
    | apply preserves_lift
    | apply preserves_get
    | apply preserves_modify; intros ?; solve [reflexivity | eauto]
    | apply preserves_bind; [|intros ?]
    | apply preserves_for_each; intros ?
    | match goal with
      | |- preserves _ (if ?b then _ else _) => destruct b
      | |- preserves _ (match ?x with _ => _ end) => destruct x
      | |- preserves _ (let (_, _) := ?x in _) => destruct x
      end ].

(* ================================================================== *)
(** ** Setup of the transfer helper *)

(** C8. [CambTransfers.initialize_with_params] raises its fatal error exactly
    when the input parameters supply more than one of [H0], [cosmomc_theta]
    and [thetastar]; with at most one of them it returns without error. *)
Theorem initialize_with_params_expansion_rate :
  forall (solver : Solver) (s : CambTransfers.t),
    snd (CambTransfers.initialize_with_params s) =
    if (1 <? supplied_expansion_rates (CambTransfers.input_params s))%nat
    then Raise (LoggedError more_than_one_of_H0_theta)
    else Return tt.
Proof.
  intros solver s. unfold CambTransfers.initialize_with_params, supplied_expansion_rates.
  unfold bind, get. simpl.
  rewrite length_str_inter.
  - unfold expansion_rate_names.
    now destruct (1 <? _)%nat.
  - repeat constructor; simpl; intuition discriminate.
Qed.

(* ================================================================== *)
(** ** Derived parameters *)

(** [a[-1]] is the last entry. *)
Lemma last_item_last (a : list Q) :
  camb.last_item a =
  match a with
  | [] => Raise IndexError
  | x :: r => Return (Float (List.last r x))
  end.
Proof.
  unfold camb.last_item. destruct a as [|x r]; [reflexivity|].
  destruct (@exists_last _ (x :: r) ltac:(discriminate)) as [l [y E]].
  rewrite E, rev_app_distr. cbn [rev app].
  assert (H : List.last (x :: r) x = y) by (rewrite E; apply last_last).
  cbn [List.last] in H. destruct r as [|x' r']; [|now rewrite <- H].
  now rewrite <- H.
Qed.

Lemma _get_derived_resolve (solver : Solver) (p : string) (im : camb.CAMBOutputs) :
  camb._get_derived p im = resolve p im.
Proof.
  unfold camb._get_derived, resolve, resolution_order, first_success.
  unfold from_derived_mapping, sigma8_special_case, parameter_attribute,
    result_attribute, accessor_method, camb.call0, is_None.
  repeat break_match; try reflexivity; try congruence; try discriminate;
    rewrite last_item_last; reflexivity.
Qed.

Lemma is_None_false (v : pyobj) : is_None v = false <-> v <> None_obj.
Proof.
  unfold is_None, None_obj. split.
  - intros H ->. discriminate.
  - intros H. destruct v as [[]| | | | |]; try reflexivity. now destruct H.
Qed.

(** The loop of [_get_derived_output] stops at the first name whose value is
    [None]. *)
Lemma derived_output_loop_stops (solver : Solver) (s : camb.t) (im : camb.CAMBOutputs)
    (pre : list string) (p : string) (post : list string) :
  (forall q, In q pre ->
     exists v, camb._get_derived (camb.translate_param s q) im = Return v /\
               v <> None_obj) ->
  camb._get_derived (camb.translate_param s p) im = Return None_obj ->
  forall acc,
    camb.derived_output_loop s (pre ++ p :: post) im acc =
    Raise (LoggedError (derived_param_not_implemented p)).
Proof.
  intros Hpre Hp. induction pre as [|q pre IH]; intros acc; simpl.
  - now rewrite Hp.
  - destruct (Hpre q (or_introl eq_refl)) as [v [Hv Hn]].
    rewrite Hv, (proj2 (is_None_false v) Hn). apply IH.
    intros q' Hq'. apply Hpre. now right.
Qed.

(** The comprehension over [derived_extra] stores what the resolution gives,
    [None] included. *)
Lemma derived_extra_loop_stores (solver : Solver) (im : camb.CAMBOutputs)
    (ps : list string) :
  (forall p, In p ps -> exists v, camb._get_derived p im = Return v) ->
  forall acc,
  exists d,
    camb.derived_extra_loop ps im acc = Return d /\
    (forall p v, In p ps -> camb._get_derived p im = Return v ->
                 dict_get String.eqb d p = Some v) /\
    (forall p, ~ In p ps -> dict_get String.eqb d p = dict_get String.eqb acc p).
Proof.
  induction ps as [|q ps IH]; intros Hall acc.
  - exists acc. split; [reflexivity|]. split; [intros p v []|reflexivity].
  - destruct (Hall q (or_introl eq_refl)) as [vq Hq].
    destruct (IH (fun p Hp => Hall p (or_intror Hp)) (dict_set String.eqb acc q vq))
      as [d [Hrun [Hin Hout]]].
    exists d. cbn [camb.derived_extra_loop]. rewrite Hq. split; [exact Hrun|]. split.
    + intros p v [<-|Hp] Hv; [|now apply Hin].
      destruct (in_dec string_dec q ps) as [Hqs|Hqs]; [now apply Hin|].
      rewrite (Hout q Hqs), str_dict_get_set, String.eqb_refl. congruence.
    + intros p Hp. rewrite Hout by (intros H; apply Hp; now right).
      rewrite str_dict_get_set.
      destruct (String.eqb q p) eqn:E; [|reflexivity].
      apply String.eqb_eq in E. subst p. destruct Hp. now left.
Qed.

(** C7, as the code has it.  A derived parameter is resolved by the first of
    five strategies that applies, in this order: the derived-parameter
    mapping of the results, the [sigma8] special case (last redshift bin), an
    attribute of the parameter object, an attribute of the result object,
    the accessor [get_<name>] called without arguments; a name that none of
    them resolves has the value [None].  For an output parameter whose
    value is [None], [_get_derived_output] raises the fatal error that names
    that parameter.  For the names requested as requirements, kept in
    [derived_extra], no error is raised: each is stored with the value of
    its resolution, [None] when nothing resolves it. *)
Theorem derived_parameter_resolution :
  forall (solver : Solver),
    (forall p im, camb._get_derived p im = resolve p im) /\
    (forall (s : camb.t) im pre p post,
        camb.output_params s = pre ++ p :: post ->
        (forall q, In q pre ->
           exists v, resolve (camb.translate_param s q) im = Return v /\
                     v <> None_obj) ->
        resolve (camb.translate_param s p) im = Return None_obj ->
        camb._get_derived_output s im =
        Raise (LoggedError (derived_param_not_implemented p))) /\
    (forall ps im,
        (forall p, In p ps -> exists v, resolve p im = Return v) ->
        exists d,
          camb.derived_extra_loop ps im [] = Return d /\
          forall p v, In p ps -> resolve p im = Return v ->
                      dict_get String.eqb d p = Some v).
Proof.
  intros solver. split; [|split].
  - apply _get_derived_resolve.
  - intros s im pre p post Hout Hpre Hnone.
    unfold camb._get_derived_output. rewrite Hout.
    apply derived_output_loop_stops.
    + intros q Hq. rewrite _get_derived_resolve. now apply Hpre.
    + now rewrite _get_derived_resolve.
  - intros ps im Hall.
    destruct (derived_extra_loop_stores solver im ps) with (acc := @nil (string * pyobj))
      as [d [Hrun [Hin _]]].
    + intros p Hp. rewrite _get_derived_resolve. now apply Hall.
    + exists d. split; [exact Hrun|]. intros p v Hp Hv. apply Hin; [exact Hp|].
      now rewrite _get_derived_resolve.
Qed.

(** With outputs [age] and [zzz], where only [age] is in the mapping of the
    results, the error names [zzz]. *)
Lemma derived_parameter_resolution_witness :
  let solver := toy_solver None None None in
  let s := camb.initialize [] [] ["age"; "zzz"] [] [] [] [] false (fun p => p) in
  let im := {| camb.camb_params := ([] : dict);
               camb.out_results := Some ([] : dict);
               camb.out_derived := Some [("age", Float 14%Q)] |} in
  resolve "zzz" im = Return None_obj /\
  camb._get_derived_output s im = Raise (LoggedError (derived_param_not_implemented "zzz")).
Proof.
  intros solver s im. split; [reflexivity|].
  apply (proj1 (proj2 (derived_parameter_resolution solver)) s im ["age"] "zzz" []).
  - reflexivity.
  - intros q [<-|[]]. exists (Float 14%Q). split; [reflexivity | discriminate].
  - reflexivity.
Defined.

(** C7 as stated fails for a name requested as a requirement: [zzz], which
    no strategy resolves, is stored as [None] and [calculate] returns
    without any error. *)
Lemma unresolved_requirement_is_stored_as_None :
  let solver := toy_solver None None None in
  let s := fst (camb.needs [("Hubble", ReqZ [1%Z]); ("zzz", ReqNone)]
                           (fresh solver false)) in
  let run := camb.calculate true (Return ([], [])) [] (s, empty_state solver []) in
  let im := {| camb.camb_params := ([] : dict);
               camb.out_results := Some ([] : dict);
               camb.out_derived := Some [("age", Float 14%Q)] |} in
  camb.derived_extra s = ["zzz"] /\
  first_success resolution_order "zzz" im = None /\
  snd run = Return returns_None /\
  state_derived_extra (snd (fst run)) = Some [("zzz", None_obj)].
Proof. cbv zeta. repeat apply conj; vm_compute; reflexivity. Qed.

(* ================================================================== *)
(** ** The units of [get_Cl] *)

Lemma column_not_logged (i : nat) (a : list (list Q)) : not_logged (camb.column i a).
Proof. unfold camb.column. now destruct (forallb _ a). Qed.

Lemma on_tail_not_logged {A} (f : A -> Q -> A) (a : list A) (b : list Q) :
  not_logged (camb.on_tail f a b).
Proof.
  unfold camb.on_tail. destruct a as [|x r].
  - now destruct b as [|y [|y' b]].
  - destruct (_ =? _)%nat; [exact I|]. now destruct b as [|y [|y' b]].
Qed.

Lemma rescale_not_logged (two_pi : Q) (ell_factor : bool) (uf : Q) (efs : list Q)
    (cl : list (list Q)) :
  not_logged (camb.rescale two_pi ell_factor uf efs cl).
Proof.
  unfold camb.rescale. destruct (negb ell_factor).
  - apply on_tail_not_logged.
  - now destruct (negb (Qeq_bool uf 1)).
Qed.

Lemma add_columns_not_logged (cl : list (list Q)) (mapping : list (string * nat)) :
  forall cls, not_logged (camb.add_columns cl mapping cls).
Proof.
  induction mapping as [|[sp i] r IH]; intros cls; simpl; [exact I|].
  pose proof (column_not_logged i cl) as H.
  destruct (camb.column i cl) as [c|e]; [apply IH | exact H].
Qed.

Lemma add_cross_not_logged (two_pi : Q) (pow_3_2 : Q -> Q) (ell_factor : bool) (uf : Q)
    (efs : list Q) (cl_lens : list (list Q)) (crosses : list (nat * (string * string))) :
  forall cls, not_logged (camb.add_cross two_pi pow_3_2 ell_factor uf efs cl_lens crosses cls).
Proof.
  induction crosses as [|[i [c1 c2]] r IH]; intros cls; simpl; [exact I|].
  pose proof (column_not_logged (i + 1) cl_lens) as H.
  destruct (camb.column (i + 1) cl_lens) as [c|e]; [|exact H].
  destruct ell_factor; [apply IH|].
  match goal with
  | |- context [camb.on_tail ?f ?a ?b] =>
      pose proof (on_tail_not_logged f a b) as H'; destruct (camb.on_tail f a b)
  end; [apply IH | exact H'].
Qed.

Lemma lensing_spectra_not_logged (solver : Solver) (two_pi : Q) (pow_3_2 : Q -> Q)
    (s : camb.t) (ell_factor : bool) (uf : Q) (efs : list Q) (cl_lens : list (list Q))
    (cls : list (string * pyobj)) :
  not_logged (camb.lensing_spectra two_pi pow_3_2 s ell_factor uf efs cl_lens cls).
Proof.
  unfold camb.lensing_spectra.
  pose proof (column_not_logged 0 cl_lens) as H.
  destruct (camb.column 0 cl_lens) as [pp|e]; [|exact H].
  destruct ell_factor.
  - destruct (camb._needs_lensing_cross s); [apply add_cross_not_logged | exact I].
  - match goal with
    | |- context [camb.on_tail ?f ?a ?b] =>
        pose proof (on_tail_not_logged f a b) as H'; destruct (camb.on_tail f a b)
    end; [|exact H'].
    destruct (camb._needs_lensing_cross s); [apply add_cross_not_logged | exact I].
Qed.

Lemma converted_spectra_not_logged (solver : Solver) (two_pi : Q) (pow_3_2 : Q -> Q)
    (s : camb.t) (ell_factor : bool) (uf : Q) (Cl : list (string * pyobj))
    (cl_camb : list (list Q)) :
  not_logged (camb.converted_spectra two_pi pow_3_2 s ell_factor uf Cl cl_camb).
Proof.
  unfold camb.converted_spectra.
  match goal with
  | |- context [camb.rescale ?a ?b ?c ?d ?e] =>
      pose proof (rescale_not_logged a b c d e) as H; destruct (camb.rescale a b c d e)
  end; [|exact H].
  match goal with
  | |- context [camb.add_columns ?a ?b ?c] =>
      pose proof (add_columns_not_logged a b c) as H'; destruct (camb.add_columns a b c)
  end; [|exact H'].
  destruct (dict_get String.eqb Cl "lens_potential") as [[[]| | | | | ]|];
    try exact I.
  apply lensing_spectra_not_logged.
Qed.

(** The unit factor exists exactly for the supported units. *)
Lemma units_factor_lookup (temp : Q) (units : string) :
  dict_get String.eqb (camb.units_factors temp) units = None <->
  str_in units supported_units = false.
Proof.
  cbv beta iota delta [dict_get existsb camb.units_factors supported_units str_in].
  rewrite (String.eqb_sym units "1"), (String.eqb_sym units "muK2"),
    (String.eqb_sym units "K2").
  destruct ("1" =? units), ("muK2" =? units), ("K2" =? units);
    cbv beta iota delta [orb]; split; congruence.
Qed.

(** C9. [get_Cl] called with units outside ["1"], ["muK2"], ["K2"] raises;
    when the spectra and the temperature constant of the current state are
    there, the error is the one that names the unrecognized unit and lists
    the accepted ones.  Called with one of the three units, it never raises
    that error. *)
Theorem get_Cl_units :
  forall (solver : Solver) (two_pi : Q) (pow_3_2 : Q -> Q) (s : camb.t)
         (ell_factor : bool) (units : string),
    (str_in units supported_units = false ->
       exists e, camb.get_Cl two_pi pow_3_2 ell_factor units s = Raise e) /\
    (forall Cl cl_camb temp x,
        camb.computed_Cl s = Return (Cl, cl_camb) ->
        camb.current_TCMB s = Return temp ->
        camb.as_float temp = Return x ->
        str_in units supported_units = false ->
        camb.get_Cl two_pi pow_3_2 ell_factor units s =
        Raise (LoggedError (units_not_recognized units supported_units))) /\
    (str_in units supported_units = true ->
       forall u accepted,
         camb.get_Cl two_pi pow_3_2 ell_factor units s <>
         Raise (LoggedError (units_not_recognized u accepted))).
Proof.
  intros solver two_pi pow_3_2 s ell_factor units. repeat split.
  - intros Hu. unfold camb.get_Cl.
    destruct (camb.computed_Cl s) as [[Cl a]|e]; [|now exists e].
    destruct (camb.current_TCMB s) as [temp|e]; [|now exists e].
    destruct (camb.as_float temp) as [x|e]; [|now exists e].
    apply (units_factor_lookup x) in Hu. rewrite Hu. eauto.
  - intros Cl a temp x HCl HT Hx Hu. unfold camb.get_Cl.
    rewrite HCl, HT, Hx.
    apply (units_factor_lookup x) in Hu. now rewrite Hu.
  - intros Hu u accepted. unfold camb.get_Cl.
    destruct (camb.computed_Cl s) as [[Cl a]|e] eqn:HCl.
    + destruct (camb.current_TCMB s) as [temp|e] eqn:HT.
      * destruct (camb.as_float temp) as [x|e] eqn:Hx.
        -- destruct (dict_get String.eqb (camb.units_factors x) units) as [uf|] eqn:Hl.
           ++ pose proof (converted_spectra_not_logged solver two_pi pow_3_2 s ell_factor uf Cl a)
                as H.
              intros E. rewrite E in H. exact H.
           ++ apply units_factor_lookup in Hl. congruence.
        -- unfold camb.as_float in Hx.
           destruct temp as [[]| | | | |]; congruence.
      * revert HT. unfold camb.current_TCMB. repeat break_match; congruence.
    + revert HCl. unfold camb.computed_Cl. repeat break_match; congruence.
Qed.

(** A state with spectra and [TCMB], asked for the unit ["mK2"]. *)
Lemma get_Cl_units_witness :
  let solver := toy_solver None None None in
  let st := {| params := [];
               results := None;
               products := [(Name "Cl",
                             Computed (Dict [("total",
                                              Array2 [[1; 1; 1; 1]; [2; 2; 2; 2]]%Q)]))];
               derived := None;
               state_derived_extra := Some [("TCMB", Float 2.7255%Q)] |} in
  let s := camb.upd__current_state (fun _ => Some st) (fresh solver false) in
  str_in "mK2" supported_units = false /\
  camb.get_Cl (6.2832%Q) (fun x => x) false "mK2" s =
  Raise (LoggedError (units_not_recognized "mK2" supported_units)).
Proof.
  intros solver st s. split; [reflexivity|].
  apply (proj1 (proj2 (get_Cl_units solver (6.2832%Q) (fun x => x) s false "mK2"))
           [("total", Array2 [[1; 1; 1; 1]; [2; 2; 2; 2]]%Q)]
           ([[1; 1; 1; 1]; [2; 2; 2; 2]]%Q) (Float 2.7255%Q) (2.7255%Q));
    reflexivity.
Defined.

(* ================================================================== *)
(** ** Matter power: units, default pair *)

Lemma store_update_last (h : list dict) (d : dict) (f : dict -> dict) :
  camb.store_update (h ++ [d]) (List.length h) f = h ++ [f d].
Proof. induction h as [|x h IH]; simpl; [reflexivity | now rewrite IH]. Qed.

Lemma product_eqb_refl (k : product) : product_eqb k k = true.
Proof.
  destruct k as [n|b v1 v2]; simpl.
  - apply String.eqb_refl.
  - now rewrite Bool.eqb_reflx, !String.eqb_refl.
Qed.

Lemma dict_get_set_same {V} (d : list (product * V)) (k : product) (v : V) :
  dict_get product_eqb (dict_set product_eqb d k v) k = Some v.
Proof.
  induction d as [|[k0 v0] d IH]; simpl.
  - now rewrite product_eqb_refl.
  - destruct (product_eqb k0 k) eqn:E; simpl; rewrite E; [reflexivity | exact IH].
Qed.

Lemma extra_num_kmax (solver : Solver) (s : camb.t) :
  grid_config_ok s = true ->
  exists n, camb.extra_num "kmax" 0 s = (s, Return n).
Proof.
  unfold grid_config_ok, camb.extra_num, bind, get, lift, sget_default.
  intros H. apply andb_true_iff in H. destruct H as [H _].
  destruct (sget (camb.extra_args s) "kmax") as [[]|]; try discriminate; simpl; eauto.
Qed.

(** [add_to_redshifts] returns when the grid it finds is an array. *)
Lemma add_to_redshifts_run (solver : Solver) (s : camb.t) (zs : list Z) :
  match sget (camb.extra_args s) "redshifts" with
  | None | Some (PyArray _) => true
  | Some _ => false
  end = true ->
  exists old,
    camb.add_to_redshifts zs s =
    (camb.upd_extra_args
       (fun d => sset d "redshifts"
                   (PyArray (reversed (np_sort (np_unique (np_concatenate zs old)))))) s,
     Return tt).
Proof.
  unfold camb.add_to_redshifts, camb.current_redshifts, bind, get, lift,
    camb.set_extra_arg, modify.
  intros H.
  destruct (sget (camb.extra_args s) "redshifts") as [[]|]; try discriminate; simpl; eauto.
Qed.

(** A grid configured as a bare number is zero-dimensional: the
    concatenation refuses it, and nothing is written. *)
Lemma add_to_redshifts_scalar (solver : Solver) (s : camb.t) (zs : list Z) (x : Z) :
  sget (camb.extra_args s) "redshifts" = Some (PyNum x) ->
  camb.add_to_redshifts zs s = (s, Raise ValueError).
Proof.
  intros H. unfold camb.add_to_redshifts, camb.current_redshifts, bind, get, lift.
  now rewrite H.
Qed.

(** Assigning the pairs does not change what the request says about units. *)
Lemma asks_with_pairs (o : Pk_options) :
  camb.asks_hubble_units (Pk_dict (camb.with_pairs o)) =
  camb.asks_hubble_units (Pk_dict o).
Proof.
  unfold camb.asks_hubble_units, sget_default, Pk_dict. simpl more.
  rewrite (sget_supdate_congr _ _
             [("k_max", PyNum (k_max o)); ("z", PyArray (z o));
              ("vars_pairs", match vars_pairs o with
                             | Some l => PyPairs l | None => PyNone end);
              ("nonlinear", PyBool (nonlinear o))] "hubble_units") by reflexivity.
  rewrite (sget_supdate_congr _ _
             [("k_max", PyNum (k_max o)); ("z", PyArray (z o));
              ("vars_pairs", match vars_pairs o with
                             | Some l => PyPairs l | None => PyNone end);
              ("nonlinear", PyBool (nonlinear o))] "k_hunit") by reflexivity.
  reflexivity.
Qed.

(** The matter-power branch up to the check of the units: the configuration
    is updated, [kwargs] is the new last object of the store. *)
Lemma needs_Pk_run (solver : Solver) (s : camb.t) (k : string) (o : Pk_options) :
  grid_config_ok s = true ->
  exists ea,
    let s1 := camb.upd_store (fun h => h ++ [Pk_dict (camb.with_pairs o)])
                (camb.upd_extra_args (fun _ => ea) s) in
    camb.needs_Pk k (ReqPk o) s =
    if camb.asks_hubble_units (Pk_dict o)
    then (s1, Raise (LoggedError hubble_units_must_be_False))
    else camb.Pk_collectors o (List.length (camb.store s)) s1.
Proof.
  intros Hok. destruct (extra_num_kmax solver s Hok) as [n Hn].
  assert (Hz : exists old,
    camb.add_to_redshifts (z o)
      (camb.upd_extra_args (fun d => sset d "kmax" (PyNum (Z.max (k_max o) n))) s) =
    (camb.upd_extra_args
       (fun d => sset d "redshifts"
                   (PyArray (reversed (np_sort (np_unique (np_concatenate (z o) old))))))
       (camb.upd_extra_args (fun d => sset d "kmax" (PyNum (Z.max (k_max o) n))) s),
     Return tt)).
  { apply add_to_redshifts_run. cbn [camb.extra_args camb.upd_extra_args].
    rewrite sget_sset. cbn [String.eqb Ascii.eqb Bool.eqb].
    unfold grid_config_ok in Hok. apply andb_true_iff in Hok. apply Hok. }
  destruct Hz as [old Hz].
  eexists. cbv zeta.
  unfold camb.needs_Pk. unfold bind at 1. rewrite Hn.
  unfold bind at 1, camb.set_extra_arg at 1, modify at 1.
  unfold bind at 1. rewrite Hz.
  unfold bind at 1, camb.alloc at 1.
  unfold bind at 1, get at 1.
  unfold camb.deref at 1. cbn [camb.store camb.upd_store camb.upd_extra_args].
  rewrite nth_middle, asks_with_pairs.
  unfold bind at 1.
  destruct (camb.asks_hubble_units (Pk_dict o)).
  - unfold raise. reflexivity.
  - unfold ret. reflexivity.
Qed.

Lemma needs_item_Pk (solver : Solver) (k : string) (v : requirement) (s : camb.t) :
  str_in k ["Pk_interpolator"; "Pk_grid"] = true ->
  camb.needs_item (k, v) s = camb.needs_Pk k v s.
Proof.
  unfold str_in. simpl. rewrite orb_false_r. intros Hk.
  apply orb_true_iff in Hk.
  destruct Hk as [Hk|Hk]; apply String.eqb_eq in Hk; subst k; reflexivity.
Qed.

(** The part after the check only updates attributes. *)
Lemma Pk_collectors_returns (solver : Solver) (o : Pk_options) (l : loc) (s : camb.t) :
  snd (camb.Pk_collectors o l s) = Return tt.
Proof.
  apply raises_nothing_returns.
  unfold camb.Pk_collectors, camb.mutate, camb.register_pair, camb.set_collector.
  raises_tac.
Qed.

(** C6. A [Pk_interpolator] or [Pk_grid] request whose options make
    [hubble_units] or [k_hunit] true makes [needs] raise the unsupported-unit
    error, as soon as the loop reaches it; with default units the request is
    processed without any error.  (The configuration read on the way, [kmax]
    and [redshifts], is assumed well typed.) *)
Theorem Pk_hubble_units_rejected :
  forall (solver : Solver) (k : string) (o : Pk_options),
    str_in k ["Pk_interpolator"; "Pk_grid"] = true ->
    (forall pre post s s1,
        for_each pre camb.needs_item s = (s1, Return tt) ->
        grid_config_ok s1 = true ->
        camb.asks_hubble_units (Pk_dict o) = true ->
        snd (camb.needs (pre ++ (k, ReqPk o) :: post) s) =
        Raise (LoggedError hubble_units_must_be_False)) /\
    (forall s,
        grid_config_ok s = true ->
        camb.asks_hubble_units (Pk_dict o) = false ->
        snd (camb.needs_item (k, ReqPk o) s) = Return tt).
Proof.
  intros solver k o Hk. split.
  - intros pre post s s1 Hpre Hok Hasks.
    unfold camb.needs. unfold bind at 1. rewrite for_each_app.
    unfold bind at 1. rewrite Hpre.
    change (for_each ((k, ReqPk o) :: post) camb.needs_item)
      with (bind (camb.needs_item (k, ReqPk o)) (fun _ => for_each post camb.needs_item)).
    unfold bind at 1. rewrite (needs_item_Pk solver k (ReqPk o) s1 Hk).
    destruct (needs_Pk_run solver s1 k o Hok) as [ea Hrun]. cbv zeta in Hrun.
    rewrite Hrun, Hasks. reflexivity.
  - intros s Hok Hasks. rewrite (needs_item_Pk solver k (ReqPk o) s Hk).
    destruct (needs_Pk_run solver s k o Hok) as [ea Hrun]. cbv zeta in Hrun.
    rewrite Hrun, Hasks. apply Pk_collectors_returns.
Qed.

(** A [Pk_grid] request with [hubble_units: True], after a [Hubble] one. *)
Lemma Pk_hubble_units_rejected_witness :
  let solver := toy_solver None None None in
  let o := {| k_max := 10; z := [0; 1]%Z; vars_pairs := None; nonlinear := false;
              more := [("hubble_units", PyBool true)] |} in
  camb.asks_hubble_units (Pk_dict o) = true /\
  snd (camb.needs ([("Hubble", ReqZ [1%Z])] ++ [("Pk_grid", ReqPk o)]) (fresh solver false)) =
  Raise (LoggedError hubble_units_must_be_False).
Proof.
  intros solver o. split; [reflexivity|].
  apply (proj1 (Pk_hubble_units_rejected solver "Pk_grid" o eq_refl)
           [("Hubble", ReqZ [1%Z])] [] (fresh solver false)
           (fst (for_each [("Hubble", ReqZ [1%Z])] camb.needs_item (fresh solver false))));
    reflexivity.
Defined.

(** C10. A [Pk_interpolator] or [Pk_grid] request whose [vars_pairs] is empty
    or [None] is processed with the single pair [(delta_tot, delta_tot)]: the
    registry changes at exactly one key, [("Pk_grid", nonlinear, "delta_tot",
    "delta_tot")], and the collector put there asks for that pair.  (Default
    units and a well-typed configuration are assumed.) *)
Theorem Pk_default_pair :
  forall (solver : Solver) (k : string) (o : Pk_options) (s : camb.t),
    str_in k ["Pk_interpolator"; "Pk_grid"] = true ->
    vars_pairs o = None \/ vars_pairs o = Some [] ->
    grid_config_ok s = true ->
    camb.asks_hubble_units (Pk_dict o) = false ->
    let key := Pk_grid (nonlinear o) "delta_tot" "delta_tot" in
    let s' := fst (camb.needs_item (k, ReqPk o) s) in
    snd (camb.needs_item (k, ReqPk o) s) = Return tt /\
    camb.collectors s' =
      dict_set product_eqb (camb.collectors s) key
        (Some {| method := "get_linear_matter_power_spectrum"; args := [];
                 kwargs := List.length (camb.store s) |}) /\
    exists d, camb.collector_kwargs s' key = Some d /\
              sget d "var1" = Some (PyStr "delta_tot") /\
              sget d "var2" = Some (PyStr "delta_tot").
Proof.
  intros solver k o s Hk Hvp Hok Hasks key s'.
  assert (Hpairs : camb.Pk_pairs o = [("delta_tot", "delta_tot")]).
  { unfold camb.Pk_pairs. now destruct Hvp as [-> | ->]. }
  destruct (needs_Pk_run solver s k o Hok) as [ea Hrun]. cbv zeta in Hrun.
  rewrite Hasks in Hrun.
  subst s'. rewrite (needs_item_Pk solver k (ReqPk o) s Hk), Hrun. clear Hrun.
  assert (Hall : forall s0,
     camb.store s0 = camb.store s ++ [Pk_dict (camb.with_pairs o)] ->
     camb.collectors s0 = camb.collectors s ->
     let s' := fst (camb.Pk_collectors o (List.length (camb.store s)) s0) in
     snd (camb.Pk_collectors o (List.length (camb.store s)) s0) = Return tt /\
     camb.collectors s' =
       dict_set product_eqb (camb.collectors s) key
         (Some {| method := "get_linear_matter_power_spectrum"; args := [];
                  kwargs := List.length (camb.store s) |}) /\
     exists d, camb.collector_kwargs s' key = Some d /\
               sget d "var1" = Some (PyStr "delta_tot") /\
               sget d "var2" = Some (PyStr "delta_tot")).
  { intros s0 Hst Hco. unfold camb.Pk_collectors. rewrite Hpairs. subst key.
    destruct (nonlinear o);
    cbn -[sset spop supdate Pk_dict dict_set sget dict_get camb.store_update];
    (split; [reflexivity | split; [now rewrite Hco|]]);
    unfold camb.collector_kwargs;
    cbn -[sset spop supdate Pk_dict dict_set sget dict_get camb.store_update];
    rewrite Hco, dict_get_set_same; eexists; (split; [reflexivity|]);
    unfold camb.deref;
    cbn -[sset spop supdate Pk_dict dict_set sget dict_get camb.store_update];
    rewrite Hst, !store_update_last, nth_middle;
    unfold supdate, dict_update; cbn [fold_left fst snd];
    change (dict_set String.eqb) with sset; rewrite !sget_sset; split; reflexivity. }
  apply Hall; reflexivity.
Qed.

(** A [Pk_interpolator] request without pairs, on a fresh object. *)
Lemma Pk_default_pair_witness :
  let solver := toy_solver None None None in
  let o := {| k_max := 10; z := [0; 1]%Z; vars_pairs := None; nonlinear := true;
              more := [] |} in
  let s' := fst (camb.needs_item ("Pk_interpolator", ReqPk o) (fresh solver false)) in
  camb.collectors s' =
    [(Pk_grid true "delta_tot" "delta_tot",
      Some {| method := "get_linear_matter_power_spectrum"; args := []; kwargs := 1 |})].
Proof.
  intros solver o s'.
  exact (proj1 (proj2 (Pk_default_pair solver "Pk_interpolator" o (fresh solver false)
                         eq_refl (or_introl eq_refl) eq_refl eq_refl))).
Defined.

(** *** Where the unit error can come from *)

(** The reads of dynamically typed values fail with Python's own errors. *)
Ltac python_error :=
  let e := fresh "e" in
  let He := fresh "He" in
  let Hc := fresh "Hc" in
  unfold not_unit_error; intros e He Hc; subst e; revert He;
  unfold camb.current_redshifts, req_z, py_max;
  unfold as_num, as_array, as_operand, sget_default;
  repeat break_match; discriminate.

Ltac raises_step :=
  lazymatch goal with
  | |- raises_only _ (ret _) => apply raises_only_ret
  | |- raises_only _ (raise _) => apply raises_only_raise; discriminate
  | |- raises_only _ (lift _) => apply raises_only_lift; python_error
  | |- raises_only _ get => apply raises_only_get
  | |- raises_only _ (modify _) => apply raises_only_modify
  | |- raises_only _ (bind _ _) => apply raises_only_bind; [|intros ?]
  | |- raises_only _ (for_each _ _) => apply raises_only_for_each; intros ? _
  | |- raises_only _ (if ?b then _ else _) => destruct b
  | |- raises_only _ (match ?x with _ => _ end) => destruct x
  end.

Lemma raises_only_alloc (solver : Solver) P (d : dict) : raises_only P (camb.alloc d).
Proof. intros s e H. discriminate. Qed.

(** The matter-power branch raises the unit error only when asked for
    Hubble units. *)
Lemma needs_Pk_not_unit_error (solver : Solver) (k : string) (o : Pk_options) :
  camb.asks_hubble_units (Pk_dict o) = false ->
  raises_only not_unit_error (camb.needs_Pk k (ReqPk o)).
Proof.
  intros Hasks s. unfold camb.needs_Pk.
  apply raises_only_bind_at.
  { revert s. change (raises_only not_unit_error (camb.extra_num "kmax" 0)).
    unfold camb.extra_num. repeat raises_step. }
  intros n s1 _.
  apply raises_only_bind_at; [discriminate|]. intros _ s2 _.
  apply raises_only_bind_at.
  { revert s2. change (raises_only not_unit_error (camb.add_to_redshifts (z o))).
    unfold camb.add_to_redshifts, camb.set_extra_arg. repeat raises_step. }
  intros _ s3 _.
  apply raises_only_bind_at; [discriminate|]. intros l s4 Hl.
  apply raises_only_bind_at; [discriminate|]. intros s5 s6 Hg.
  unfold camb.alloc in Hl. injection Hl as <- <-.
  unfold get in Hg. injection Hg as <- <-.
  unfold camb.deref. cbn [camb.store camb.upd_store].
  rewrite nth_middle, asks_with_pairs, Hasks.
  apply raises_only_bind_at; [discriminate|]. intros _ s7 _ e.
  rewrite Pk_collectors_returns. discriminate.
Qed.

Lemma needs_item_not_unit_error (solver : Solver) (kv : string * requirement) :
  (forall o, snd kv = ReqPk o -> camb.asks_hubble_units (Pk_dict o) = false) ->
  raises_only not_unit_error (camb.needs_item kv).
Proof.
  destruct kv as [k v]. cbn [snd]. intros Hv. unfold camb.needs_item.
  destruct (k =? "Cl").
  { unfold camb.needs_Cl, camb.extra_num, camb.set_extra_arg, camb.set_extra_attr,
      camb.set_collector.
    repeat first [apply raises_only_alloc | raises_step]. }
  destruct (k =? "Hubble").
  { unfold camb.needs_background, camb._combine_z, camb.set_collector.
    repeat first [apply raises_only_alloc | raises_step]. }
  destruct (str_in k ["angular_diameter_distance"; "comoving_radial_distance"]).
  { unfold camb.needs_background, camb._combine_z, camb.set_collector.
    repeat first [apply raises_only_alloc | raises_step]. }
  destruct (k =? "fsigma8").
  { unfold camb.needs_fsigma8, camb.add_to_redshifts, camb.set_extra_arg,
      camb.set_collector.
    repeat first [apply raises_only_alloc | raises_step]. }
  destruct (str_in k ["Pk_interpolator"; "Pk_grid"]).
  { destruct v as [|lm|zs|o|o|d];
      try (apply needs_Pk_not_unit_error; now apply Hv);
      cbn [camb.needs_Pk]; raises_step. }
  destruct (k =? "source_Cl").
  { unfold camb.needs_source_Cl, camb.extra_num, camb.set_extra_arg, camb.set_extra_attr,
      camb.set_collector.
    repeat first [apply raises_only_alloc | raises_step]. }
  destruct (k =? "CAMBdata").
  { unfold camb.set_collector. raises_step. }
  unfold camb.needs_derived, camb.set_extra_attr.
  repeat raises_step.
Qed.

(** [needs] raises the unsupported-unit error only if some matter-power
    request of the accumulated requirements asks for Hubble units. *)
Theorem unit_error_only_when_asked :
  forall (solver : Solver) (reqs : list (string * requirement)) (s : camb.t),
    (forall k o, In (k, ReqPk o) reqs -> camb.asks_hubble_units (Pk_dict o) = false) ->
    snd (camb.needs reqs s) <> Raise (LoggedError hubble_units_must_be_False).
Proof.
  intros solver reqs s Hreqs E.
  assert (H : raises_only not_unit_error (camb.needs reqs)).
  { unfold camb.needs, camb.set_extra_attr.
    apply raises_only_bind.
    - apply raises_only_for_each. intros [k v] Hin.
      apply needs_item_not_unit_error. cbn [snd]. intros o ->. now apply (Hreqs k).
    - intros _. repeat raises_step. }
  now apply (H s _ E).
Qed.

(** A [Pk_grid] request in default units, after a [Hubble] one. *)
Lemma unit_error_only_when_asked_witness :
  let solver := toy_solver None None None in
  let o := {| k_max := 10; z := [0; 1]%Z; vars_pairs := None; nonlinear := false;
              more := [] |} in
  snd (camb.needs [("Hubble", ReqZ [1%Z]); ("Pk_grid", ReqPk o)] (fresh solver false)) <>
  Raise (LoggedError hubble_units_must_be_False).
Proof.
  intros solver o. apply (unit_error_only_when_asked solver).
  intros k o' [H|[H|[]]]; [discriminate|]. injection H as _ <-. reflexivity.
Defined.

(** *** One dictionary for all the pairs of a request *)

(** C2, at the input where the code departs from it.  A [Pk_interpolator]
    request for the pairs [(delta_tot, delta_tot)] and [(Weyl, Weyl)] creates
    two entries with distinct keys, but both collectors hold the one [kwargs]
    dictionary that the loop updates in place: after the loop it names the
    last pair, so the collector registered for [delta_tot] asks the solver
    for the [Weyl] spectrum as well. *)
Theorem Pk_collectors_share_kwargs :
  forall (solver : Solver) (stop : bool),
    let o := {| k_max := 10; z := [0%Z];
                vars_pairs := Some [("delta_tot", "delta_tot"); ("Weyl", "Weyl")];
                nonlinear := false; more := [] |} in
    let r := camb.needs [("Pk_interpolator", ReqPk o)] (fresh solver stop) in
    let first := Pk_grid false "delta_tot" "delta_tot" in
    let second := Pk_grid false "Weyl" "Weyl" in
    snd r = Return {| non_linear := false; req_needs_perts := true |} /\
    dict_keys (camb.collectors (fst r)) = [first; second] /\
    camb.collector_kwargs (fst r) first =
      Some [("nonlinear", PyBool false); ("hubble_units", PyBool false);
            ("k_hunit", PyBool false); ("var1", PyStr "Weyl"); ("var2", PyStr "Weyl")] /\
    camb.collector_kwargs (fst r) second = camb.collector_kwargs (fst r) first.
Proof. intros solver stop. cbv zeta. repeat apply conj; vm_compute; reflexivity. Qed.

(* ================================================================== *)
(** ** Sorting and removing repeats *)

Lemma In_insert_unique (x y : Z) (l : list Z) :
  In y (insert_unique x l) <-> y = x \/ In y l.
Proof.
  induction l as [|a l IH]; simpl.
  - intuition.
  - destruct (x <? a)%Z; [simpl; intuition|].
    destruct (x =? a)%Z eqn:E.
    + apply Z.eqb_eq in E. subst a. simpl. intuition.
    + simpl. rewrite IH. intuition.
Qed.

Lemma In_np_unique (y : Z) (l : list Z) : In y (np_unique l) <-> In y l.
Proof.
  unfold np_unique. induction l as [|x l IH]; simpl.
  - tauto.
  - rewrite In_insert_unique, IH. intuition.
Qed.

Lemma insert_unique_sorted (x : Z) (l : list Z) :
  StronglySorted Z.lt l -> StronglySorted Z.lt (insert_unique x l).
Proof.
  induction l as [|a l IH]; intros Hs; simpl.
  - repeat constructor.
  - apply StronglySorted_inv in Hs. destruct Hs as [Hs Ha].
    destruct (x <? a)%Z eqn:Hlt.
    + apply Z.ltb_lt in Hlt. constructor.
      * now constructor.
      * constructor; [assumption|].
        rewrite Forall_forall in *. intros y Hy. specialize (Ha y Hy). lia.
    + destruct (x =? a)%Z eqn:Heq.
      * now constructor.
      * apply Z.ltb_ge in Hlt. apply Z.eqb_neq in Heq.
        constructor; [now apply IH|].
        rewrite Forall_forall in *. intros y Hy.
        apply In_insert_unique in Hy. destruct Hy as [->|Hy]; [lia | now apply Ha].
Qed.

Lemma np_unique_sorted (l : list Z) : StronglySorted Z.lt (np_unique l).
Proof.
  unfold np_unique. induction l as [|x l IH]; simpl.
  - constructor.
  - now apply insert_unique_sorted.
Qed.

(** A strictly ascending list is determined by its elements. *)
Lemma strictly_sorted_unique (l1 l2 : list Z) :
  StronglySorted Z.lt l1 -> StronglySorted Z.lt l2 ->
  (forall x, In x l1 <-> In x l2) -> l1 = l2.
Proof.
  revert l2. induction l1 as [|a l1 IH]; intros l2 H1 H2 Hin.
  - destruct l2 as [|b l2]; [reflexivity|].
    destruct (proj2 (Hin b) (or_introl eq_refl)).
  - destruct l2 as [|b l2].
    + destruct (proj1 (Hin a) (or_introl eq_refl)).
    + apply StronglySorted_inv in H1. destruct H1 as [H1 Ha].
      apply StronglySorted_inv in H2. destruct H2 as [H2 Hb].
      rewrite Forall_forall in Ha, Hb.
      assert (a = b).
      { destruct (proj1 (Hin a) (or_introl eq_refl)) as [E|Hab]; [now subst|].
        destruct (proj2 (Hin b) (or_introl eq_refl)) as [E|Hba]; [now subst|].
        specialize (Ha b Hba). specialize (Hb a Hab). lia. }
      subst b. f_equal. apply IH; try assumption.
      intros x. split; intros Hx.
      * destruct (proj1 (Hin x) (or_intror Hx)) as [E|Hx']; [|assumption].
        subst x. specialize (Ha a Hx). lia.
      * destruct (proj2 (Hin x) (or_intror Hx)) as [E|Hx']; [|assumption].
        subst x. specialize (Hb a Hx). lia.
Qed.

Lemma insert_sorted_head (x : Z) (l : list Z) :
  Forall (Z.lt x) l -> insert_sorted x l = x :: l.
Proof.
  destruct l as [|a l]; intros H; simpl; [reflexivity|].
  apply Forall_inv in H. destruct (x <=? a)%Z eqn:E; [reflexivity|].
  apply Z.leb_gt in E. lia.
Qed.

(** [np.sort] leaves the result of [np.unique] as it is. *)
Lemma np_sort_strictly_sorted (l : list Z) : StronglySorted Z.lt l -> np_sort l = l.
Proof.
  unfold np_sort. induction l as [|a l IH]; intros H; simpl; [reflexivity|].
  apply StronglySorted_inv in H. destruct H as [Hs Ha].
  rewrite IH by assumption. now apply insert_sorted_head.
Qed.

Lemma np_sort_unique (l : list Z) : np_sort (np_unique l) = np_unique l.
Proof. apply np_sort_strictly_sorted, np_unique_sorted. Qed.

Lemma Permutation_insert_sorted (x : Z) (l : list Z) :
  Permutation (x :: l) (insert_sorted x l).
Proof.
  induction l as [|a l IH]; simpl; [reflexivity|].
  destruct (x <=? a)%Z; [reflexivity|].
  rewrite perm_swap. now constructor.
Qed.

Lemma Permutation_np_sort (l : list Z) : Permutation l (np_sort l).
Proof.
  unfold np_sort. induction l as [|a l IH]; simpl; [reflexivity|].
  rewrite <- Permutation_insert_sorted. now constructor.
Qed.

Lemma insert_sorted_sorted (x : Z) (l : list Z) :
  StronglySorted Z.le l -> StronglySorted Z.le (insert_sorted x l).
Proof.
  induction l as [|a l IH]; intros Hs; simpl.
  - repeat constructor.
  - apply StronglySorted_inv in Hs. destruct Hs as [Hs Ha].
    destruct (x <=? a)%Z eqn:Hle.
    + apply Z.leb_le in Hle. constructor.
      * now constructor.
      * constructor; [assumption|].
        rewrite Forall_forall in *. intros y Hy. specialize (Ha y Hy). lia.
    + apply Z.leb_gt in Hle. constructor; [now apply IH|].
      rewrite Forall_forall in *. intros y Hy.
      apply (Permutation_in _ (Permutation_sym (Permutation_insert_sorted x l))) in Hy.
      destruct Hy as [->|Hy]; [lia | now apply Ha].
Qed.

Lemma np_sort_sorted (l : list Z) : StronglySorted Z.le (np_sort l).
Proof.
  unfold np_sort. induction l as [|x l IH]; simpl.
  - constructor.
  - now apply insert_sorted_sorted.
Qed.

(** Reversal turns strictly ascending into strictly descending. *)
Lemma rev_strictly_sorted (l : list Z) :
  StronglySorted Z.lt l -> StronglySorted Z.gt (rev l).
Proof.
  induction l as [|a l IH]; intros H; simpl; [constructor|].
  apply StronglySorted_inv in H. destruct H as [Hs Ha].
  specialize (IH Hs). rewrite Forall_forall in Ha.
  clear Hs. revert IH. generalize (rev l) (fun x (H : In x (rev l)) => Ha x (proj2 (in_rev l x) H)).
  intros r. induction r as [|b r IHr]; intros Hr Hsr; simpl.
  - repeat constructor.
  - apply StronglySorted_inv in Hsr. destruct Hsr as [Hsr Hb].
    constructor.
    + apply IHr; [|assumption]. intros x Hx. apply Hr. now right.
    + apply Forall_app. split; [assumption|].
      constructor; [|constructor]. specialize (Hr b (or_introl eq_refl)). lia.
Qed.

Lemma descending_union_spec (l : list Z) :
  StronglySorted Z.gt (descending_union l) /\
  forall x, In x (descending_union l) <-> In x l.
Proof.
  unfold descending_union, reversed. rewrite np_sort_unique. split.
  - apply rev_strictly_sorted, np_unique_sorted.
  - intros x. rewrite <- in_rev. apply In_np_unique.
Qed.

Lemma descending_union_ext (l1 l2 : list Z) :
  (forall x, In x l1 <-> In x l2) -> descending_union l1 = descending_union l2.
Proof.
  intros H. unfold descending_union, reversed. rewrite !np_sort_unique. f_equal.
  apply strictly_sorted_unique; try apply np_unique_sorted.
  intros x. rewrite !In_np_unique. apply H.
Qed.

Lemma ascending_union_spec (l : list Z) :
  StronglySorted Z.lt (ascending_union l) /\
  forall x, In x (ascending_union l) <-> In x l.
Proof.
  unfold ascending_union. rewrite np_sort_unique. split.
  - apply np_unique_sorted.
  - intros x. apply In_np_unique.
Qed.

Lemma ascending_union_ext (l1 l2 : list Z) :
  (forall x, In x l1 <-> In x l2) -> ascending_union l1 = ascending_union l2.
Proof.
  intros H. unfold ascending_union. rewrite !np_sort_unique.
  apply strictly_sorted_unique; try apply np_unique_sorted.
  intros x. rewrite !In_np_unique. apply H.
Qed.

(* ================================================================== *)
(** ** Redshift grids *)

(** *** The grid of the perturbation products *)

(** One [fsigma8] request: the grid becomes the descending union of the
    request and the grid found. *)
Lemma needs_fsigma8_run (solver : Solver) (s : camb.t) (zs old : list Z) :
  camb.current_redshifts s = Return old ->
  let r := camb.needs_item ("fsigma8", ReqZ zs) s in
  snd r = Return tt /\
  camb.extra_args (fst r) =
  sset (camb.extra_args s) "redshifts" (PyArray (descending_union (zs ++ old))).
Proof.
  intros Hold r. subst r.
  change (camb.needs_item ("fsigma8", ReqZ zs) s)
    with (camb.needs_fsigma8 "fsigma8" (ReqZ zs) s).
  unfold camb.needs_fsigma8, camb.add_to_redshifts, bind, lift, get. cbn [req_z fst snd].
  rewrite Hold. split; reflexivity.
Qed.

Lemma current_redshifts_set (solver : Solver) (s s' : camb.t) (g : list Z) :
  camb.extra_args s' = sset (camb.extra_args s) "redshifts" (PyArray g) ->
  camb.current_redshifts s' = Return g.
Proof.
  intros H. unfold camb.current_redshifts. rewrite H, sget_sset. reflexivity.
Qed.

Lemma fsigma8_requests_run (solver : Solver) (zss : list (list Z)) :
  zss <> [] ->
  forall (s : camb.t) (old : list Z),
    camb.current_redshifts s = Return old ->
    let r := for_each (fsigma8_requests zss) camb.needs_item s in
    snd r = Return tt /\
    sget (camb.extra_args (fst r)) "redshifts" =
    Some (PyArray (descending_union (List.concat zss ++ old))).
Proof.
  unfold fsigma8_requests.
  induction zss as [|zs zss IH]; intros Hne s old Hold; [congruence|].
  cbv zeta in *.
  destruct (needs_fsigma8_run solver s zs old Hold) as [Hr He].
  cbn [map for_each]. unfold bind.
  destruct (camb.needs_item ("fsigma8", ReqZ zs) s) as [s1 r1]. cbn [fst snd] in *.
  subst r1.
  destruct zss as [|zs' zss].
  - cbn. rewrite app_nil_r. split; [reflexivity|]. now rewrite He, sget_sset.
  - destruct (IH ltac:(discriminate) s1 _ (current_redshifts_set solver s s1 _ He))
      as [Hr' Hg].
    split; [exact Hr'|].
    rewrite Hg. do 2 f_equal. apply descending_union_ext. intros x.
    cbn [List.concat]. rewrite !in_app_iff.
    rewrite (proj2 (descending_union_spec (zs ++ old)) x), in_app_iff. tauto.
Qed.

Lemma In_concat_iff {A} (x : A) (l : list (list A)) :
  In x (List.concat l) <-> exists zs, In zs l /\ In x zs.
Proof.
  rewrite in_concat. split; intros [zs H]; exists zs; tauto.
Qed.

(** The perturbation grid after a sequence of [fsigma8] requests, starting
    without a grid, is the descending deduplicated union of the requested
    redshifts, whatever the order of the requests. *)
Theorem perturbation_grid_is_descending_union :
  forall (solver : Solver) (s : camb.t) (zss : list (list Z)),
    zss <> [] ->
    sget (camb.extra_args s) "redshifts" = None ->
    exists g,
      sget (camb.extra_args (fst (for_each (fsigma8_requests zss) camb.needs_item s)))
           "redshifts" = Some (PyArray g) /\
      StronglySorted Z.gt g /\
      (forall x, In x g <-> exists zs, In zs zss /\ In x zs) /\
      (forall zss',
          Permutation zss zss' ->
          sget (camb.extra_args (fst (for_each (fsigma8_requests zss') camb.needs_item s)))
               "redshifts" = Some (PyArray g)).
Proof.
  intros solver s zss Hne Hnone.
  assert (Hold : camb.current_redshifts s = Return []).
  { unfold camb.current_redshifts. now rewrite Hnone. }
  exists (descending_union (List.concat zss)).
  destruct (fsigma8_requests_run solver zss Hne s [] Hold) as [_ Hg].
  rewrite app_nil_r in Hg.
  destruct (descending_union_spec (List.concat zss)) as [Hs Hin].
  repeat split; try assumption.
  - intros Hx. apply Hin in Hx. now apply In_concat_iff.
  - intros Hx. apply Hin. now apply In_concat_iff.
  - intros zss' Hp.
    assert (Hne' : zss' <> []).
    { intros ->. apply Permutation_sym, Permutation_nil in Hp. congruence. }
    destruct (fsigma8_requests_run solver zss' Hne' s [] Hold) as [_ Hg'].
    rewrite app_nil_r in Hg'. rewrite Hg'. do 2 f_equal.
    apply descending_union_ext. intros x. rewrite !In_concat_iff.
    split; intros [zs [Hzs Hx]]; exists zs; split; try assumption.
    + now apply (Permutation_in _ (Permutation_sym Hp)).
    + now apply (Permutation_in _ Hp).
Qed.

(** Two [fsigma8] requests on a fresh object. *)
Lemma perturbation_grid_is_descending_union_witness :
  let solver := toy_solver None None None in
  exists g,
    sget (camb.extra_args
            (fst (for_each (fsigma8_requests [[1; 3]; [2; 3]]%Z) camb.needs_item
                    (fresh solver false))))
         "redshifts" = Some (PyArray g) /\
    StronglySorted Z.gt g.
Proof.
  intros solver.
  destruct (perturbation_grid_is_descending_union solver (fresh solver false)
              [[1; 3]; [2; 3]]%Z ltac:(discriminate) eq_refl) as [g [Hg [Hs _]]].
  exists g. split; assumption.
Defined.

(** *** The grid of a background product *)

Lemma needs_item_background (solver : Solver) (k : string) (v : requirement) :
  In k background_products ->
  exists m, camb.needs_item (k, v) = camb.needs_background k m v.
Proof.
  intros [<-|[<-|[<-|[]]]]; eexists; reflexivity.
Qed.

(** The first request: the collector gets the sorted redshifts. *)
Lemma needs_background_first (solver : Solver) (s : camb.t) (k m : string) (zs : list Z) :
  dict_get product_eqb (camb.collectors s) (Name k) = None ->
  let r := camb.needs_background k m (ReqZ zs) s in
  snd r = Return tt /\
  camb.collector_kwargs (fst r) (Name k) = Some [("z", PyArray (np_sort zs))].
Proof.
  intros Hnone r. subst r.
  unfold camb.needs_background, camb._combine_z, bind, get, lift, ret, camb.alloc,
    camb.set_collector, modify.
  rewrite Hnone. cbn [req_z fst snd]. split; [reflexivity|].
  unfold camb.collector_kwargs, camb.deref. cbn [camb.collectors camb.upd_collectors
    camb.upd_store camb.store].
  rewrite dict_get_set_same. cbn [kwargs]. now rewrite nth_middle.
Qed.

(** A later request: the grid of the collector is merged with the request. *)
Lemma needs_background_later (solver : Solver) (s : camb.t) (k m : string)
    (zs old : list Z) :
  camb.collector_kwargs s (Name k) = Some [("z", PyArray old)] ->
  let r := camb.needs_background k m (ReqZ zs) s in
  snd r = Return tt /\
  camb.collector_kwargs (fst r) (Name k) =
  Some [("z", PyArray (ascending_union (old ++ zs)))].
Proof.
  intros Hold r. subst r. unfold camb.collector_kwargs in Hold.
  unfold camb.needs_background, camb._combine_z, bind, get, lift, ret, camb.alloc,
    camb.set_collector, modify.
  destruct (dict_get product_eqb (camb.collectors s) (Name k)) as [[c|]|];
    try discriminate.
  injection Hold as Hold. rewrite Hold. cbn [sget dict_get String.eqb Ascii.eqb Bool.eqb
    as_operand req_z fst snd].
  split; [reflexivity|].
  unfold camb.collector_kwargs, camb.deref. cbn [camb.collectors camb.upd_collectors
    camb.upd_store camb.store].
  rewrite dict_get_set_same. cbn [kwargs]. now rewrite nth_middle.
Qed.

Lemma background_requests_later (solver : Solver) (k : string) (zss : list (list Z)) :
  In k background_products ->
  zss <> [] ->
  forall (s : camb.t) (old : list Z),
    camb.collector_kwargs s (Name k) = Some [("z", PyArray old)] ->
    snd (for_each (background_requests k zss) camb.needs_item s) = Return tt /\
    camb.collector_kwargs (fst (for_each (background_requests k zss) camb.needs_item s))
                          (Name k) =
    Some [("z", PyArray (ascending_union (old ++ List.concat zss)))].
Proof.
  intros Hk. unfold background_requests.
  induction zss as [|zs zss IH]; intros Hne s old Hold; [congruence|].
  cbn [map for_each]. unfold bind.
  destruct (needs_item_background solver k (ReqZ zs) Hk) as [m ->].
  destruct (needs_background_later solver s k m zs old Hold) as [Hr Hg].
  destruct (camb.needs_background k m (ReqZ zs) s) as [s1 r1]. cbn [fst snd] in *.
  subst r1.
  destruct zss as [|zs' zss].
  - cbn. rewrite app_nil_r. split; [reflexivity | exact Hg].
  - destruct (IH ltac:(discriminate) s1 _ Hg) as [Hr' Hg']. split; [exact Hr'|].
    rewrite Hg'. do 4 f_equal. apply ascending_union_ext. intros x.
    cbn [List.concat]. rewrite !in_app_iff.
    rewrite (proj2 (ascending_union_spec (old ++ zs)) x), in_app_iff. tauto.
Qed.

Lemma background_requests_run (solver : Solver) (k : string) (zss : list (list Z))
    (s : camb.t) :
  In k background_products ->
  zss <> [] ->
  dict_get product_eqb (camb.collectors s) (Name k) = None ->
  snd (for_each (background_requests k zss) camb.needs_item s) = Return tt /\
  camb.collector_kwargs (fst (for_each (background_requests k zss) camb.needs_item s))
                        (Name k) =
  Some [("z", PyArray (background_grid zss))].
Proof.
  intros Hk Hne Hnone. destruct zss as [|zs zss]; [congruence|].
  unfold background_requests. cbn [map for_each]. unfold bind.
  destruct (needs_item_background solver k (ReqZ zs) Hk) as [m ->].
  destruct (needs_background_first solver s k m zs Hnone) as [Hr Hg].
  destruct (camb.needs_background k m (ReqZ zs) s) as [s1 r1]. cbn [fst snd] in *.
  subst r1. destruct zss as [|zs' zss].
  - cbn. split; [reflexivity | exact Hg].
  - destruct (background_requests_later solver k (zs' :: zss) Hk ltac:(discriminate)
                s1 _ Hg) as [Hr' Hg'].
    unfold background_requests in Hr', Hg'.
    split; [exact Hr'|]. rewrite Hg'. do 4 f_equal.
    unfold background_grid. apply ascending_union_ext. intros x.
    cbn [List.concat]. rewrite !in_app_iff.
    rewrite <- (Permutation_in' (eq_refl x) (Permutation_np_sort zs)) at 1.
    tauto.
Qed.

(** From the second request on, the grid of a background product is the
    ascending deduplicated union of the requested redshifts, whatever the
    order of the requests; after a single request it is that request
    sorted. *)
Theorem background_grid_is_ascending_union :
  forall (solver : Solver) (s : camb.t) (k : string) (zs1 zs2 : list Z)
         (rest : list (list Z)),
    In k background_products ->
    dict_get product_eqb (camb.collectors s) (Name k) = None ->
    let zss := zs1 :: zs2 :: rest in
    let grid := fun l =>
      camb.collector_kwargs (fst (for_each (background_requests k l) camb.needs_item s))
                            (Name k) in
    grid [zs1] = Some [("z", PyArray (np_sort zs1))] /\
    exists g,
      grid zss = Some [("z", PyArray g)] /\
      StronglySorted Z.lt g /\
      (forall x, In x g <-> exists zs, In zs zss /\ In x zs) /\
      (forall zss', Permutation zss zss' -> grid zss' = Some [("z", PyArray g)]).
Proof.
  intros solver s k zs1 zs2 rest Hk Hnone zss grid. subst grid. split.
  - apply (background_requests_run solver k [zs1] s Hk ltac:(discriminate) Hnone).
  - exists (ascending_union (List.concat zss)).
    destruct (ascending_union_spec (List.concat zss)) as [Hs Hin].
    repeat split; try assumption.
    + apply (background_requests_run solver k zss s Hk ltac:(discriminate) Hnone).
    + intros Hx. apply Hin in Hx. now apply In_concat_iff.
    + intros Hx. apply Hin. now apply In_concat_iff.
    + intros zss' Hp.
      assert (Hlen : List.length zss' = List.length zss)
        by (symmetry; now apply Permutation_length).
      destruct zss' as [|a [|b zss']]; try discriminate.
      destruct (background_requests_run solver k (a :: b :: zss') s Hk
                  ltac:(discriminate) Hnone) as [_ Hg].
      rewrite Hg. do 4 f_equal. unfold background_grid.
      apply ascending_union_ext. intros x. rewrite !In_concat_iff.
      split; intros [zs [Hzs Hx]]; exists zs; split; try assumption.
      * now apply (Permutation_in _ (Permutation_sym Hp)).
      * now apply (Permutation_in _ Hp).
Qed.

(** Two [Hubble] requests on a fresh object. *)
Lemma background_grid_is_ascending_union_witness :
  let solver := toy_solver None None None in
  exists g,
    camb.collector_kwargs
      (fst (for_each (background_requests "Hubble" [[2; 1; 2]; [3; 1]]%Z) camb.needs_item
              (fresh solver false)))
      (Name "Hubble") = Some [("z", PyArray g)] /\
    StronglySorted Z.lt g.
Proof.
  intros solver.
  pose proof (background_grid_is_ascending_union solver (fresh solver false) "Hubble"
                [2; 1; 2]%Z [3; 1]%Z [] (or_introl eq_refl) eq_refl) as H.
  cbv zeta in H. destruct H as [_ [g [Hg [Hs _]]]].
  exists g. split; assumption.
Defined.

(** The loop by itself does not remove the repeats of the first request of a
    background product: given the redshifts 1, 1, 2 it leaves the grid
    [1, 1, 2] in the collector.  The first request goes through [np.sort]
    alone and only later ones through [np.unique]; that the grid has no
    repeat rests on the mapping the base class hands over. *)
Lemma background_grid_keeps_repeats :
  forall (solver : Solver) (stop : bool),
    let r := camb.needs [("Hubble", ReqZ [1; 1; 2]%Z)] (fresh solver stop) in
    snd r = Return {| non_linear := false; req_needs_perts := false |} /\
    camb.collector_kwargs (fst r) (Name "Hubble") = Some [("z", PyArray [1; 1; 2]%Z)] /\
    np_sort (np_unique [1; 1; 2]%Z) = [1; 2]%Z.
Proof. intros solver stop. cbv zeta. repeat apply conj; vm_compute; reflexivity. Qed.

(* ================================================================== *)
(** ** The flags that select what the solver computes *)

Lemma keeps_alloc (solver : Solver) (f : stage_flag) (d : dict) :
  keeps (flag_on f) (camb.alloc d).
Proof. intros s H. destruct f; exact H. Qed.

(** An update of an attribute keeps a flag on when it assigns [True] to it or
    leaves it alone. *)
Ltac keeps_update :=
  let s := fresh "s" in
  let H := fresh "H" in
  intros s H;
  match goal with
  | f : stage_flag |- _ =>
      destruct f; cbn -[sget sset] in H |- *;
      try exact H; try reflexivity;
      try (rewrite sget_sset; cbn [String.eqb Ascii.eqb Bool.eqb];
           first [exact H | reflexivity])
  end.

Ltac keeps_step :=
  lazymatch goal with
  | |- keeps _ (ret _) => apply keeps_ret
  | |- keeps _ (raise _) => apply keeps_raise
  | |- keeps _ (lift _) => apply keeps_lift
  | |- keeps _ get => apply keeps_get
  | |- keeps _ (camb.alloc _) => apply keeps_alloc
  | |- keeps _ (modify _) => apply keeps_modify; keeps_update
  | |- keeps _ (bind _ _) => apply keeps_bind; [|intros ?]
  | |- keeps _ (for_each _ _) => apply keeps_for_each; intros ?
  | |- keeps _ (if ?b then _ else _) => destruct b
  | |- keeps _ (match ?x with _ => _ end) => destruct x
  end.

Ltac keeps_tac := repeat keeps_step.

Lemma needs_item_keeps (solver : Solver) (f : stage_flag) (kv : string * requirement) :
  keeps (flag_on f) (camb.needs_item kv).
Proof.
  destruct kv as [k v]. unfold camb.needs_item.
  unfold camb.needs_Cl, camb.needs_background, camb.needs_fsigma8, camb.needs_Pk,
    camb.needs_source_Cl, camb.needs_derived, camb._combine_z, camb.add_to_redshifts,
    camb.Pk_collectors, camb.register_pair, camb.mutate, camb.set_collector,
    camb.extra_num, camb.set_extra_arg, camb.set_extra_attr.
  keeps_tac.
Qed.

(** A flag of the list above that is on stays on through any later call of
    [needs], whatever it asks for and whether or not it raises: the branches
    only ever assign [True] to these flags. *)
Theorem stage_flags_stay_on :
  forall (solver : Solver) (f : stage_flag) (reqs : list (string * requirement))
         (s : camb.t),
    flag_on f s -> flag_on f (fst (camb.needs reqs s)).
Proof.
  intros solver f reqs. unfold camb.needs, camb.set_extra_attr.
  change (keeps (flag_on f)
    (bind (for_each reqs camb.needs_item) (fun _ =>
     bind get (fun s =>
     bind (if camb.nonempty (str_inter (camb.input_params s) (dict_keys (camb.extra_args s)))
           then raise (LoggedError (repeated_input_and_extra
                  (str_inter (camb.input_params s) (dict_keys (camb.extra_args s)))))
           else ret tt) (fun _ =>
     bind (modify (camb.upd_extra_attrs (fun d => sset d "NonLinear"
             (camb.NonLinear_value (camb.non_linear_sources s) (camb.non_linear_pk s)))))
       (fun _ =>
     bind (modify (camb.upd__base_params (fun _ => None))) (fun _ =>
     bind get (fun s =>
     ret {| non_linear := camb.non_linear_sources s;
            req_needs_perts := camb.needs_perts s |})))))))).
  apply keeps_bind; [apply keeps_for_each; intros kv; apply needs_item_keeps | intros _].
  keeps_tac.
Qed.

(** The CMB flag, turned on by a [Cl] request, through a later [fsigma8] one. *)
Lemma stage_flags_stay_on_witness :
  let solver := toy_solver None None None in
  let s := fst (camb.needs [("Cl", ReqCl [("tt", 2500%Z)])] (fresh solver false)) in
  flag_on wants_CMB (fst (camb.needs [("fsigma8", ReqZ [1%Z])] s)).
Proof.
  intros solver s. apply (stage_flags_stay_on solver wants_CMB).
  vm_compute. reflexivity.
Defined.

(** C5, at the input where the code departs from it.  With
    [lens_potential_accuracy: 0] in [extra_args], a [source_Cl] request with
    [non_linear: True] turns the non-linear treatment of the sources on, and
    the next call of [needs], which also finds a [Cl] request, turns it off
    again: the [Cl] branch assigns the flag from the accuracy alone. *)
Theorem non_linear_sources_turned_off :
  forall (solver : Solver) (stop : bool),
    let s0 := camb.initialize [("lens_potential_accuracy", PyNum 0)]
                              [] [] [] [] [] [] stop (fun p => p) in
    let sources := ("source_Cl",
                    ReqSourceCl {| src_sources := [("galaxies", [("function", PyStr "gaussian")])];
                                   src_limber := None;
                                   src_non_linear := Some true;
                                   src_lmax := None |}) in
    let r1 := camb.needs [sources] s0 in
    let r2 := camb.needs [sources; ("Cl", ReqCl [("tt", 2500%Z)])] (fst r1) in
    snd r1 = Return {| non_linear := true; req_needs_perts := true |} /\
    snd r2 = Return {| non_linear := false; req_needs_perts := true |} /\
    camb.non_linear_sources (fst r1) = true /\
    camb.non_linear_sources (fst r2) = false /\
    sget (camb.extra_attrs (fst r1)) "NonLinear" = Some (PyStr "NonLinear_lens") /\
    sget (camb.extra_attrs (fst r2)) "NonLinear" = Some (PyBool false).
Proof. intros solver stop. cbv zeta. repeat apply conj; vm_compute; reflexivity. Qed.

(* ================================================================== *)
(** ** What a successful [needs] leaves behind *)

(** When [needs] returns, the cached base parameters are invalidated, the
    [NonLinear] attribute is the one of the four values that the two
    non-linear flags select, the returned record repeats the flags, and no
    input parameter is also a key of [extra_args]. *)
Theorem needs_postconditions :
  forall (solver : Solver) (reqs : list (string * requirement)) (s s' : camb.t)
         (r : transfers_requirement),
    camb.needs reqs s = (s', Return r) ->
    camb._base_params s' = None /\
    sget (camb.extra_attrs s') "NonLinear" =
      Some (camb.NonLinear_value (camb.non_linear_sources s') (camb.non_linear_pk s')) /\
    r = {| non_linear := camb.non_linear_sources s';
           req_needs_perts := camb.needs_perts s' |} /\
    (forall p, In p (camb.input_params s') -> ~ In p (dict_keys (camb.extra_args s'))).
Proof.
  intros solver reqs s s' r. unfold camb.needs. unfold bind at 1.
  destruct (for_each reqs camb.needs_item s) as [s1 [[]|e]]; [|discriminate].
  unfold bind at 1, get at 1. unfold bind at 1.
  destruct (camb.nonempty (str_inter (camb.input_params s1)
                                     (dict_keys (camb.extra_args s1)))) eqn:Hc.
  - unfold raise. discriminate.
  - unfold ret at 1, camb.set_extra_attr, bind, modify, get, ret. cbn [fst snd].
    intros E. injection E as <- <-. cbn -[sget sset].
    repeat split.
    + now rewrite sget_sset.
    + intros p Hp Hk.
      destruct (str_inter (camb.input_params s1) (dict_keys (camb.extra_args s1)))
        as [|x l] eqn:Hi; [|discriminate].
      assert (Hin : In p []) by (rewrite <- Hi; apply In_str_inter; tauto).
      exact Hin.
Qed.

Lemma needs_postconditions_witness :
  let solver := toy_solver None None None in
  let run := camb.needs [("Cl", ReqCl [("tt", 2500%Z); ("pp", 2000%Z)])] (fresh solver false) in
  camb._base_params (fst run) = None /\
  sget (camb.extra_attrs (fst run)) "NonLinear" = Some (PyStr "NonLinear_lens").
Proof.
  intros solver run.
  destruct (needs_postconditions solver
              [("Cl", ReqCl [("tt", 2500%Z); ("pp", 2000%Z)])] (fresh solver false)
              (fst run) {| non_linear := true; req_needs_perts := true |})
    as [H1 [H2 _]].
  - vm_compute. reflexivity.
  - split; [exact H1 | exact H2].
Defined.

(* ================================================================== *)
(** ** What [set] leaves unchanged *)

Section SetFrame.
Context {solver : Solver} {B : Type} (proj : camb.t -> B).
Hypothesis Hred : forall f s, proj (camb.upd__reduced_extra_args f s) = proj s.
Hypothesis Hlog : forall f s, proj (camb.upd_log f s) = proj s.
Hypothesis Hsrc : forall f s, proj (camb.upd_sources f s) = proj s.
Hypothesis Hbase : forall f s, proj (camb.upd__base_params f s) = proj s.

Lemma set_attributes_preserves attrs : forall params,
  preserves proj (camb.set_attributes attrs params).
Proof.
  induction attrs as [|[attr value] r IH]; intros params; simpl.
  - apply preserves_ret.
  - destruct (hasattr_params params attr); [apply IH | apply preserves_raise].
Qed.

Lemma make_windows_preserves ss : forall acc,
  preserves proj (camb.make_windows ss acc).
Proof.
  induction ss as [|[source window] r IH]; intros acc; simpl.
  - apply preserves_ret.
  - unfold camb.mutate_window. preserves_tac. apply IH.
Qed.

Lemma set_body_preserves args : preserves proj (camb.set_body args).
Proof.
  unfold camb.set_body, camb.drop_fixed_params, camb.write_log.
  preserves_tac;
    first [apply set_attributes_preserves | apply make_windows_preserves].
Qed.

Lemma set_handler_preserves pvd st e h :
  camb.set_handler pvd st e = Some h -> preserves proj h.
Proof.
  unfold camb.set_handler, camb.write_log.
  destruct e as [m|c text|k|n| | |]; try discriminate.
  destruct c; intros E; try discriminate; injection E as <-; preserves_tac.
Qed.

Lemma set_preserves pvd st : preserves proj (camb.set pvd st).
Proof.
  unfold camb.set, camb.write_log. preserves_tac.
  apply preserves_try_except.
  - apply set_body_preserves.
  - apply set_handler_preserves.
Qed.
End SetFrame.

(** *** The parameter dumps of the log

    The [try] block of [set] writes debug records only. *)
Section SetDumps.
Context {solver : Solver}.

Lemma parameter_dumps_debug (r : log_record) (s : camb.t) :
  is_parameter_dump r = false ->
  logged_dumps (camb.upd_log (fun l => l ++ [r]) s) = logged_dumps s.
Proof.
  intros Hr. unfold logged_dumps, parameter_dumps. cbn [camb.log camb.upd_log].
  rewrite filter_app. cbn [filter]. rewrite Hr. apply app_nil_r.
Qed.

Lemma set_attributes_dumps attrs : forall params,
  preserves logged_dumps (camb.set_attributes attrs params).
Proof.
  induction attrs as [|[attr value] r IH]; intros params; simpl.
  - apply preserves_ret.
  - destruct (hasattr_params params attr); [apply IH | apply preserves_raise].
Qed.

Lemma make_windows_dumps ss : forall acc,
  preserves logged_dumps (camb.make_windows ss acc).
Proof.
  induction ss as [|[source window] r IH]; intros acc; simpl.
  - apply preserves_ret.
  - unfold camb.mutate_window. preserves_tac. apply IH.
Qed.

Lemma write_debug_dumps (r : log_record) :
  is_parameter_dump r = false -> preserves logged_dumps (camb.write_log r).
Proof.
  intros Hr. unfold camb.write_log. apply preserves_modify. intros s.
  now apply parameter_dumps_debug.
Qed.

Lemma set_body_dumps args : preserves logged_dumps (camb.set_body args).
Proof.
  unfold camb.set_body, camb.drop_fixed_params.
  preserves_tac;
    first [ apply set_attributes_dumps
          | apply make_windows_dumps
          | apply write_debug_dumps; reflexivity ].
Qed.
End SetDumps.

(* ================================================================== *)
(** ** Solver errors in the two stages *)

(** [set] seen from its [try] block. *)
Lemma set_unfold (solver : Solver) (pvd : dict) (st : state) (k : camb.t) :
  camb.set pvd st k =
  let args := camb.translated k (fun _ => true) pvd in
  try_except (camb.set_body args) (camb.set_handler pvd st)
    (camb.upd_log (fun l => l ++ [debug_setting_parameters args (camb.extra_args k)]) k).
Proof. reflexivity. Qed.

(** How [set] ends, from how its [try] block ends. *)
Lemma set_from_attempt (solver : Solver) (pvd : dict) (st : state) (k : camb.t) :
  exists k1,
    camb.stop_at_error k1 = camb.stop_at_error k /\
    camb.extra_args k1 = camb.extra_args k /\
    camb.set pvd st k =
    match camb.set_attempt pvd k with
    | Return x => (k1, Return x)
    | Raise e =>
        match camb.set_handler pvd st e with
        | Some h => h k1
        | None => (k1, Raise e)
        end
    end.
Proof.
  rewrite set_unfold. unfold camb.set_attempt. cbv zeta.
  set (args := camb.translated k (fun _ => true) pvd).
  set (k0 := camb.upd_log _ k).
  exists (fst (camb.set_body args k0)). repeat split.
  - now rewrite (set_body_preserves camb.stop_at_error) by reflexivity.
  - now rewrite (set_body_preserves camb.extra_args) by reflexivity.
  - unfold try_except. now destruct (camb.set_body args k0) as [k1 [x|e]].
Qed.

(** The same, with the parameter dumps of the log: the [try] block adds
    none. *)
Lemma set_from_attempt_dumps (solver : Solver) (pvd : dict) (st : state) (k : camb.t) :
  exists k1,
    camb.stop_at_error k1 = camb.stop_at_error k /\
    camb.extra_args k1 = camb.extra_args k /\
    parameter_dumps (camb.log k1) = parameter_dumps (camb.log k) /\
    camb.set pvd st k =
    match camb.set_attempt pvd k with
    | Return x => (k1, Return x)
    | Raise e =>
        match camb.set_handler pvd st e with
        | Some h => h k1
        | None => (k1, Raise e)
        end
    end.
Proof.
  rewrite set_unfold. unfold camb.set_attempt. cbv zeta.
  set (args := camb.translated k (fun _ => true) pvd).
  set (k0 := camb.upd_log _ k).
  exists (fst (camb.set_body args k0)). repeat split.
  - now rewrite (set_body_preserves camb.stop_at_error) by reflexivity.
  - now rewrite (set_body_preserves camb.extra_args) by reflexivity.
  - change (logged_dumps (fst (camb.set_body args k0)) = logged_dumps k).
    rewrite (set_body_dumps args k0). subst k0.
    now apply parameter_dumps_debug.
  - unfold try_except. now destruct (camb.set_body args k0) as [k1 [x|e]].
Qed.

Lemma transfers_calculate_unfold (solver : Solver) (want : bool) (pvd : dict)
    (h : CambTransfers.t) (st : state) :
  CambTransfers.calculate want pvd (h, st) =
  let (k', r) := camb.set pvd st (CambTransfers.cobaya_camb h) in
  let h' := CambTransfers.upd_cobaya_camb (fun _ => k') h in
  match r with
  | Return None => ((h', st), Return returns_False)
  | Return (Some cp) =>
      try_except (CambTransfers.calculate_body cp) CambTransfers.calculate_handler (h', st)
  | Raise e => ((h', st), Raise e)
  end.
Proof.
  unfold CambTransfers.calculate, bind, get, CambTransfers.on_camb. cbn [fst snd].
  destruct (camb.set pvd st (CambTransfers.cobaya_camb h)) as [k' [[cp|]|e]]; reflexivity.
Qed.

(** The [try] of the helper's [calculate] when the solver call raises. *)
Lemma transfers_try_raises (solver : Solver) (h : CambTransfers.t) (st : state)
    (cp : CAMBparams) (c : solver_error) (text : string) :
  CambTransfers.compute_transfers h cp = Raise (SolverError c text) ->
  try_except (CambTransfers.calculate_body cp) CambTransfers.calculate_handler (h, st) =
  if isinstance_CAMBError c then
    if CambTransfers.stop_at_error h
    then ((CambTransfers.upd_log
             (fun l => l ++ [error_computation (params st)
                               (camb.extra_args (CambTransfers.cobaya_camb h))]) h, st),
          Raise (SolverError c text))
    else ((CambTransfers.upd_log (fun l => l ++ [debug_computation_failed text]) h, st),
          Return returns_False)
  else ((h, st), Raise (SolverError c text)).
Proof.
  intros Hc. unfold try_except, CambTransfers.calculate_body, bind, get, lift.
  cbn [fst snd]. rewrite Hc. cbn [CambTransfers.calculate_handler].
  destruct (isinstance_CAMBError c); [|reflexivity].
  unfold bind, get, CambTransfers.write_log, CambTransfers.on_self, modify, raise, ret.
  cbn [fst snd]. now destruct (CambTransfers.stop_at_error h).
Qed.

(** C4. When the solver raises its out-of-range error during the transfer
    stage (while [set] builds the parameter object, or in the computation of
    the transfer functions): with [stop_at_error] disabled, [calculate]
    returns [False] and raises nothing; with it enabled, [calculate] raises,
    either the [LoggedError] that holds the parameter values of the point or
    the solver's error after an error record with the parameter values was
    logged. *)
Theorem range_error_in_transfers :
  forall (solver : Solver) (h : CambTransfers.t) (st : state) (want_derived : bool)
         (pvd : dict) (text : string),
    camb.stop_at_error (CambTransfers.cobaya_camb h) = CambTransfers.stop_at_error h ->
    transfer_stage_raises h pvd (SolverError CAMBParamRangeError text) ->
    let r := CambTransfers.calculate want_derived pvd (h, st) in
    (CambTransfers.stop_at_error h = false -> snd r = Return returns_False) /\
    (CambTransfers.stop_at_error h = true ->
       snd r = Raise (LoggedError (out_of_bound_parameters pvd)) \/
       (snd r = Raise (SolverError CAMBParamRangeError text) /\
        In (error_computation (params st) (camb.extra_args (CambTransfers.cobaya_camb h)))
           (CambTransfers.log (fst (fst r))))).
Proof.
  intros solver h st want pvd text Hflag Hraise r. subst r.
  rewrite transfers_calculate_unfold.
  destruct (set_from_attempt solver pvd st (CambTransfers.cobaya_camb h))
    as [k1 [Hstop [Hextra Hset]]].
  rewrite Hset. clear Hset.
  destruct Hraise as [Hr | [cp [Hr Hc]]]; rewrite Hr.
  - cbn [camb.set_handler]. unfold bind, get. cbn [fst snd].
    rewrite Hstop, Hflag.
    destruct (CambTransfers.stop_at_error h); cbn; split; intros E; try discriminate.
    + now left.
    + reflexivity.
  - rewrite (transfers_try_raises solver _ st cp CAMBParamRangeError text) by exact Hc.
    cbn [isinstance_CAMBError].
    change (CambTransfers.stop_at_error (CambTransfers.upd_cobaya_camb _ h))
      with (CambTransfers.stop_at_error h).
    destruct (CambTransfers.stop_at_error h); cbn -[In]; split; intros E; try discriminate.
    + right. split; [reflexivity|]. rewrite Hextra. apply in_or_app. right. now left.
    + reflexivity.
Qed.

(** A solver that rejects every point as out of range, and a helper that
    stops at errors. *)
Lemma range_error_in_transfers_witness :
  let solver := toy_solver (Some CAMBParamRangeError) None None in
  let h := get_helper_theories (fresh solver true) ["H0"] in
  let pvd := [("H0", PyNum 70)] in
  let r := CambTransfers.calculate true pvd (h, empty_state solver pvd) in
  transfer_stage_raises h pvd (SolverError CAMBParamRangeError "set_params") /\
  (CambTransfers.stop_at_error h = true ->
   snd r = Raise (LoggedError (out_of_bound_parameters pvd)) \/
   (snd r = Raise (SolverError CAMBParamRangeError "set_params") /\
    In (error_computation (params (empty_state solver pvd))
                          (camb.extra_args (CambTransfers.cobaya_camb h)))
       (CambTransfers.log (fst (fst r))))).
Proof.
  intros solver h pvd r.
  assert (H : transfer_stage_raises h pvd (SolverError CAMBParamRangeError "set_params"))
    by (left; reflexivity).
  split; [exact H|].
  exact (proj2 (range_error_in_transfers solver h (empty_state solver pvd) true pvd
                  "set_params" eq_refl H)).
Defined.

Lemma preserves_on_state (solver : Solver) {B} (proj : camb.t * state -> B)
    (f : state -> state) :
  (forall c, proj (fst c, f (snd c)) = proj c) -> preserves proj (camb.on_state f).
Proof. intros H c. apply H. Qed.

(** The [try] block of [calculate] changes neither the object nor the
    parameters recorded in [state]. *)
Lemma calculate_body_frame (solver : Solver) (provider : result (CAMBparams * CAMBdata))
    (pvd : dict) :
  preserves (fun c : camb.t * state => (fst c, params (snd c)))
            (camb.calculate_body provider pvd).
Proof.
  unfold camb.calculate_body.
  preserves_tac; apply preserves_on_state; intros [s0 st0]; reflexivity.
Qed.

Lemma camb_calculate_raises (solver : Solver) (want : bool)
    (provider : result (CAMBparams * CAMBdata)) (pvd : dict) (s : camb.t) (st : state)
    (c : solver_error) (text : string) :
  snd (camb.calculate_body provider pvd (s, st)) = Raise (SolverError c text) ->
  exists st',
    camb.calculate want provider pvd (s, st) =
    if isinstance_CAMBError c then
      if camb.stop_at_error s
      then ((camb.upd_log (fun l => l ++ [error_computation (params st) (camb.extra_args s)]) s,
             st'),
            Raise (SolverError c text))
      else ((camb.upd_log (fun l => l ++ [debug_computation_failed text]) s, st'),
            Return returns_False)
    else ((s, st'), Raise (SolverError c text)).
Proof.
  intros Hb.
  pose proof (calculate_body_frame solver provider pvd (s, st)) as Hf.
  destruct (camb.calculate_body provider pvd (s, st)) as [[s1 st1] r1] eqn:Hbody.
  cbn [fst snd] in *. injection Hf as -> Hp. subst r1.
  exists st1. unfold camb.calculate, bind at 1, try_except, bind at 1.
  rewrite Hbody. cbn [camb.calculate_handler].
  destruct (isinstance_CAMBError c); [|reflexivity].
  unfold bind, get, camb.on_self, camb.write_log, modify, raise, ret. cbn [fst snd].
  rewrite Hp. now destruct (camb.stop_at_error s).
Qed.

(** C3, as the code has it.  A solver error of class [CAMBError] raised in
    the [try] block of either [calculate] is re-raised, after an error record
    with the parameter values was logged, when [stop_at_error] is enabled,
    and makes [calculate] return [False] when it is disabled; an error of any
    other class propagates unchanged, whatever the flag, and without a
    parameter dump: the log of the object whose [calculate] runs is what it
    was, and the log of the object that set the parameters has the parameter
    dumps it had.  While the parameters are set, [CAMBError] and
    [CAMBValueError] are treated in the same way, the out-of-range error
    becomes a [LoggedError] with the parameter values or a [False] return,
    the unknown-argument error is always fatal, and any other error
    propagates unchanged without a parameter dump. *)
Theorem solver_errors_and_stop_at_error :
  forall (solver : Solver) (c : solver_error) (text : string),
    let e := SolverError c text in
    (forall (s : camb.t) (st : state) want provider pvd,
        snd (camb.calculate_body provider pvd (s, st)) = Raise e ->
        let r := camb.calculate want provider pvd (s, st) in
        if isinstance_CAMBError c then
          if camb.stop_at_error s
          then snd r = Raise e /\
               In (error_computation (params st) (camb.extra_args s))
                  (camb.log (fst (fst r)))
          else snd r = Return returns_False
        else snd r = Raise e /\ camb.log (fst (fst r)) = camb.log s) /\
    (forall (h : CambTransfers.t) (st : state) want pvd cp,
        camb.set_attempt pvd (CambTransfers.cobaya_camb h) = Return (Some cp) ->
        CambTransfers.compute_transfers h cp = Raise e ->
        let r := CambTransfers.calculate want pvd (h, st) in
        if isinstance_CAMBError c then
          if CambTransfers.stop_at_error h
          then snd r = Raise e /\
               In (error_computation (params st)
                                     (camb.extra_args (CambTransfers.cobaya_camb h)))
                  (CambTransfers.log (fst (fst r)))
          else snd r = Return returns_False
        else snd r = Raise e /\
             CambTransfers.log (fst (fst r)) = CambTransfers.log h /\
             parameter_dumps (camb.log (CambTransfers.cobaya_camb (fst (fst r)))) =
             parameter_dumps (camb.log (CambTransfers.cobaya_camb h))) /\
    (forall (h : CambTransfers.t) (st : state) want pvd,
        camb.set_attempt pvd (CambTransfers.cobaya_camb h) = Raise e ->
        let r := CambTransfers.calculate want pvd (h, st) in
        let stop := camb.stop_at_error (CambTransfers.cobaya_camb h) in
        match c with
        | CAMBParamRangeError =>
            if stop then snd r = Raise (LoggedError (out_of_bound_parameters pvd))
            else snd r = Return returns_False
        | CAMBError | CAMBValueError =>
            if stop
            then snd r = Raise e /\
                 In (error_setting_parameters
                       (params st) (camb.extra_args (CambTransfers.cobaya_camb h)))
                    (camb.log (CambTransfers.cobaya_camb (fst (fst r))))
            else snd r = Return returns_False
        | CAMBUnknownArgumentError =>
            snd r = Raise (LoggedError (parameters_not_recognized text))
        | OtherSolverError =>
            snd r = Raise e /\
            CambTransfers.log (fst (fst r)) = CambTransfers.log h /\
            parameter_dumps (camb.log (CambTransfers.cobaya_camb (fst (fst r)))) =
            parameter_dumps (camb.log (CambTransfers.cobaya_camb h))
        end).
Proof.
  intros solver c text e. subst e. repeat split.
  - intros s st want provider pvd Hb r. subst r.
    destruct (camb_calculate_raises solver want provider pvd s st c text Hb) as [st' ->].
    destruct (isinstance_CAMBError c); [|split; reflexivity].
    destruct (camb.stop_at_error s); [|reflexivity].
    split; [reflexivity|]. cbn -[In]. apply in_or_app. right. now left.
  - intros h st want pvd cp Hs Hc r. subst r.
    rewrite transfers_calculate_unfold.
    destruct (set_from_attempt_dumps solver pvd st (CambTransfers.cobaya_camb h))
      as [k1 [Hstop [Hextra [Hdumps Hset]]]].
    rewrite Hset, Hs.
    rewrite (transfers_try_raises solver _ st cp c text) by exact Hc.
    change (CambTransfers.stop_at_error (CambTransfers.upd_cobaya_camb _ h))
      with (CambTransfers.stop_at_error h).
    destruct (isinstance_CAMBError c);
      [|split; [reflexivity | split; [reflexivity | exact Hdumps]]].
    destruct (CambTransfers.stop_at_error h); [|reflexivity].
    split; [reflexivity|]. cbn -[In]. rewrite Hextra. apply in_or_app. right. now left.
  - intros h st want pvd Hs r stop. subst r stop.
    rewrite transfers_calculate_unfold.
    destruct (set_from_attempt_dumps solver pvd st (CambTransfers.cobaya_camb h))
      as [k1 [Hstop [Hextra [Hdumps Hset]]]].
    rewrite Hset, Hs. rewrite <- Hstop, <- Hextra.
    destruct c; cbn [camb.set_handler];
      unfold bind, get, camb.write_log, modify, raise, ret; cbn [fst snd];
      try reflexivity;
      try (split; [reflexivity | split; [reflexivity | exact Hdumps]]);
      destruct (camb.stop_at_error k1); cbn -[In]; try reflexivity;
      (split; [reflexivity | apply in_or_app; right; now left]).
Qed.

(** The object of the examples: [Cl] was requested, so the power-spectrum
    stage runs. *)
Lemma solver_errors_and_stop_at_error_witness :
  let solver := toy_solver None None (Some CAMBError) in
  let s := fst (camb.needs [("Cl", ReqCl [("tt", 2500%Z)])] (fresh solver true)) in
  let st := empty_state solver [("H0", PyNum 70)] in
  let r := camb.calculate true (Return ([], [])) [("H0", PyNum 70)] (s, st) in
  snd r = Raise (SolverError CAMBError "power_spectra_from_transfer") /\
  In (error_computation (params st) (camb.extra_args s)) (camb.log (fst (fst r))).
Proof.
  intros solver s st r.
  exact (proj1 (solver_errors_and_stop_at_error solver CAMBError
                  "power_spectra_from_transfer")
               s st true (Return ([], [])) [("H0", PyNum 70)] eq_refl).
Defined.

(** C3 as stated fails: with [stop_at_error] disabled, a [CAMBError] that is
    not the out-of-range error, raised by [power_spectra_from_transfer],
    makes [calculate] return [False] instead of raising. *)
Lemma solver_fault_is_swallowed :
  let solver := toy_solver None None (Some CAMBError) in
  let s := fst (camb.needs [("Cl", ReqCl [("tt", 2500%Z)])] (fresh solver false)) in
  let st := empty_state solver [("H0", PyNum 70)] in
  power_spectra_from_transfer ([] : dict) =
    Raise (SolverError CAMBError "power_spectra_from_transfer") /\
  camb.stop_at_error s = false /\
  snd (camb.calculate true (Return ([], [])) [("H0", PyNum 70)] (s, st)) =
    Return returns_False.
Proof. cbv zeta. repeat apply conj; vm_compute; reflexivity. Qed.

(* ================================================================== *)
(** ** Values at requested redshifts *)

(** Taking positions that are all inside the array. *)
Lemma np_take_length {A} (a : list A) (idx : list nat) :
  match np_take a idx with
  | Return r =>
      List.length r = List.length idx /\
      forall i j, nth_error idx i = Some j -> nth_error r i = nth_error a j
  | Raise e => e = IndexError /\ exists j, In j idx /\ (List.length a <= j)%nat
  end.
Proof.
  induction idx as [|j idx IH]; simpl.
  - split; [reflexivity|]. intros [|i] j H; discriminate.
  - destruct (nth_error a j) as [x|] eqn:Hx.
    + destruct (np_take a idx) as [r|e].
      * destruct IH as [Hl Hn]. split; [simpl; now rewrite Hl|].
        intros [|i] j' H; simpl in *.
        -- injection H as <-. now rewrite Hx.
        -- now apply Hn.
      * destruct IH as [-> [j' [Hj Hlen]]]. split; [reflexivity|].
        exists j'. split; [now right | assumption].
    + split; [reflexivity|]. exists j. split; [now left|].
      now apply nth_error_None.
Qed.

Lemma np_take_inside {A} (a : list A) (idx : list nat) :
  (forall j, In j idx -> (j < List.length a)%nat) ->
  exists r, np_take a idx = Return r /\
            List.length r = List.length idx /\
            forall i j, nth_error idx i = Some j -> nth_error r i = nth_error a j.
Proof.
  intros H. pose proof (np_take_length a idx) as Ht.
  destruct (np_take a idx) as [r|e].
  - now exists r.
  - destruct Ht as [_ [j [Hj Hlen]]]. specialize (H j Hj). lia.
Qed.

(** The positions of a redshift in a grid without repeats. *)
Lemma np_where_eq_absent (g : list Z) (z : Z) (i : nat) :
  ~ In z g -> np_where_eq g z i = [].
Proof.
  revert i. induction g as [|x g IH]; intros i H; simpl; [reflexivity|].
  destruct (x =? z)%Z eqn:E.
  - apply Z.eqb_eq in E. subst. exfalso. apply H. now left.
  - apply IH. intros Hin. apply H. now right.
Qed.

Lemma np_where_eq_present (g : list Z) (z : Z) (i : nat) :
  NoDup g -> In z g ->
  exists j, np_where_eq g z i = [(i + j)%nat] /\ nth_error g j = Some z.
Proof.
  revert i. induction g as [|x g IH]; intros i Hd Hin; [destruct Hin|].
  inversion Hd as [|? ? Hx Hd']; subst. simpl.
  destruct (x =? z)%Z eqn:E.
  - apply Z.eqb_eq in E. subst x. exists 0%nat.
    rewrite np_where_eq_absent by assumption. split; [f_equal; lia | reflexivity].
  - destruct Hin as [->|Hin]; [rewrite Z.eqb_refl in E; discriminate|].
    destruct (IH (S i) Hd' Hin) as [j [Hw Hn]]. exists (S j).
    split; [rewrite Hw; f_equal; lia | exact Hn].
Qed.

Lemma existsb_Zeqb_In (z : Z) (g : list Z) : existsb (Z.eqb z) g = true <-> In z g.
Proof.
  rewrite existsb_exists. split.
  - intros [x [Hx E]]. apply Z.eqb_eq in E. now subst.
  - intros H. exists z. split; [assumption | apply Z.eqb_refl].
Qed.

(** All the positions [_get_z_dependent] computes for [fsigma8]. *)
Lemma fsigma8_positions (g : list Z) (zs : list Z) :
  NoDup g ->
  let idx := List.concat (map (fun zi => np_where_eq g zi 0) zs) in
  (forall j, In j idx -> (j < List.length g)%nat) /\
  List.length idx = List.length (filter (fun zi => existsb (Z.eqb zi) g) zs) /\
  ((forall zi, In zi zs -> In zi g) ->
   List.length idx = List.length zs /\
   forall i zi, nth_error zs i = Some zi ->
     exists j, nth_error idx i = Some j /\ nth_error g j = Some zi).
Proof.
  intros Hd. induction zs as [|z zs IH]; cbn [map List.concat filter].
  - cbv zeta. split; [intros j []|]. split; [reflexivity|].
    intros _. split; [reflexivity|]. intros [|i] zi Hi; discriminate.
  - cbv zeta in *. destruct IH as [Hin [Hlen Hall]].
    destruct (existsb (Z.eqb z) g) eqn:Ez.
    + apply existsb_Zeqb_In in Ez.
      destruct (np_where_eq_present g z 0 Hd Ez) as [j [Hw Hn]]. rewrite Hw.
      cbn [app List.length Nat.add]. split; [|split].
      * intros j' [<-|Hj']; [|now apply Hin].
        apply nth_error_Some. congruence.
      * now rewrite Hlen.
      * intros Hsub.
        assert (Hsub' : forall zi, In zi zs -> In zi g)
          by (intros zi Hzi; apply Hsub; now right).
        destruct (Hall Hsub') as [Hl' Hpos]. split; [now rewrite Hl'|].
        intros [|i] zi Hi; cbn [nth_error] in *.
        -- injection Hi as <-. now exists j.
        -- now apply Hpos.
    + assert (Hz : ~ In z g).
      { intros Hz. apply existsb_Zeqb_In in Hz. congruence. }
      rewrite np_where_eq_absent by assumption. cbn [app]. split; [|split].
      * exact Hin.
      * exact Hlen.
      * intros Hsub. exfalso. apply Hz, Hsub. now left.
Qed.

(** The positions are those of the requested redshifts that are in the grid,
    in the order of the request. *)
Lemma fsigma8_positions_in_order (g : list Z) (zs : list Z) :
  NoDup g ->
  Forall2 (fun zi j => nth_error g j = Some zi)
          (filter (fun zi => existsb (Z.eqb zi) g) zs)
          (List.concat (map (fun zi => np_where_eq g zi 0) zs)).
Proof.
  intros Hd. induction zs as [|z zs IH]; cbn [map List.concat filter]; [constructor|].
  destruct (existsb (Z.eqb z) g) eqn:Ez.
  - apply existsb_Zeqb_In in Ez.
    destruct (np_where_eq_present g z 0 Hd Ez) as [j [Hw Hn]]. rewrite Hw.
    cbn [app Nat.add]. now constructor.
  - assert (Hz : ~ In z g).
    { intros Hz. apply existsb_Zeqb_In in Hz. congruence. }
    now rewrite np_where_eq_absent by assumption.
Qed.

(** What is taken at positions that hold the requested redshifts. *)
Lemma taken_in_order {A} (g : list Z) (vals r : list A) (l : list Z) (idx : list nat) :
  Forall2 (fun zi j => nth_error g j = Some zi) l idx ->
  np_take vals idx = Return r ->
  Forall2 (fun zi v => exists j, nth_error g j = Some zi /\ nth_error vals j = Some v) l r.
Proof.
  intros H. revert r. induction H as [|zi j l idx Hj Hrest IH]; intros r Hr.
  - cbn in Hr. injection Hr as <-. constructor.
  - cbn [np_take] in Hr. destruct (nth_error vals j) as [x|] eqn:Hx; [|discriminate].
    destruct (np_take vals idx) as [r'|e]; [|discriminate].
    injection Hr as <-. constructor; [|now apply IH].
    exists j. now split.
Qed.

(** [get_fsigma8], for a grid without repeats and one computed value per
    grid redshift.  The redshifts of the request that are in the grid come
    back in the order of the request, each with the value computed at its
    place in the grid; a redshift outside the grid is left out without any
    error; an empty request is a [ValueError]. *)
Theorem fsigma8_at_requested_redshifts :
  forall (solver : Solver) (s : camb.t) (st : state) (g : list Z) (vals : list Q)
         (zs : list Z),
    sget (camb.extra_args s) "redshifts" = Some (PyArray g) ->
    NoDup g ->
    camb._current_state s = Some st ->
    dict_get product_eqb (products st) (Name "fsigma8") = Some (Computed (Array1 vals)) ->
    List.length vals = List.length g ->
    (zs = [] -> camb.get_fsigma8 zs s = Raise ValueError) /\
    (zs <> [] ->
     exists r,
       camb.get_fsigma8 zs s = Return (Array1 r) /\
       Forall2 (fun zi v => exists j, nth_error g j = Some zi /\ nth_error vals j = Some v)
               (filter (fun zi => existsb (Z.eqb zi) g) zs) r /\
       List.length r = List.length (filter (fun zi => existsb (Z.eqb zi) g) zs) /\
       ((forall zi, In zi zs -> In zi g) ->
        List.length r = List.length zs /\
        forall i zi, nth_error zs i = Some zi ->
          exists j, nth_error g j = Some zi /\ nth_error r i = nth_error vals j)).
Proof.
  intros solver s st g vals zs Hg Hd Hst Hv Hlen.
  unfold camb.get_fsigma8, camb._get_z_dependent.
  cbn [String.eqb Ascii.eqb Bool.eqb]. rewrite Hg, Hst, Hv. split.
  - intros ->. reflexivity.
  - intros Hne. destruct zs as [|z zs]; [congruence|].
    unfold np_concatenate_all.
    change (map (camb.where_equal (PyArray g)) (z :: zs))
      with (map (fun zi => np_where_eq g zi 0) (z :: zs)).
    destruct (map (fun zi => np_where_eq g zi 0) (z :: zs)) as [|w ws] eqn:Hm;
      [discriminate|]. rewrite <- Hm. clear Hm w ws.
    destruct (fsigma8_positions g (z :: zs) Hd) as [Hin [Hl Hall]].
    pose proof (fsigma8_positions_in_order g (z :: zs) Hd) as Hord.
    cbv zeta in *. set (idx := List.concat _) in *.
    destruct (np_take_inside vals idx) as [r [Hr [Hrl Hrn]]].
    { intros j Hj. rewrite Hlen. now apply Hin. }
    unfold camb.index_product. rewrite Hr. exists r.
    split; [reflexivity|].
    split; [exact (taken_in_order g vals r _ idx Hord Hr)|].
    split; [congruence|].
    intros Hsub. destruct (Hall Hsub) as [Hl' Hpos]. split; [congruence|].
    intros i zi Hi. destruct (Hpos i zi Hi) as [j [Hj Hgj]].
    exists j. split; [assumption|]. now apply Hrn.
Qed.

(** A grid of three redshifts and a request for two of them and for one
    that is not in the grid: the two values come back, in the order of the
    request. *)
Lemma fsigma8_at_requested_redshifts_witness :
  let solver := toy_solver None None None in
  let st := {| params := []; results := None;
               products := [(Name "fsigma8", Computed (Array1 [0.3; 0.4; 0.5]%Q))];
               derived := None; state_derived_extra := None |} in
  let s := camb.upd__current_state (fun _ => Some st)
             (fst (camb.needs [("fsigma8", ReqZ [2; 0; 1]%Z)] (fresh solver false))) in
  exists r,
    camb.get_fsigma8 [0; 5; 2]%Z s = Return (Array1 r) /\
    Forall2 (fun zi v => exists j, nth_error [2; 1; 0]%Z j = Some zi /\
                                   nth_error [0.3; 0.4; 0.5]%Q j = Some v)
            [0; 2]%Z r.
Proof.
  intros solver st s.
  destruct (fsigma8_at_requested_redshifts solver s st [2; 1; 0]%Z [0.3; 0.4; 0.5]%Q
              [0; 5; 2]%Z eq_refl) as [_ H]; try reflexivity.
  - repeat constructor; simpl; intuition lia.
  - destruct (H ltac:(discriminate)) as [r [Hr [Hall _]]]. exists r.
    split; [exact Hr | exact Hall].
Defined.

(** The request of the example gives the values at the redshifts 0 and 2. *)
Lemma fsigma8_mixed_request_example :
  let solver := toy_solver None None None in
  let st := {| params := []; results := None;
               products := [(Name "fsigma8", Computed (Array1 [0.3; 0.4; 0.5]%Q))];
               derived := None; state_derived_extra := None |} in
  let s := camb.upd__current_state (fun _ => Some st)
             (fst (camb.needs [("fsigma8", ReqZ [2; 0; 1]%Z)] (fresh solver false))) in
  camb.get_fsigma8 [0; 5; 2]%Z s = Return (Array1 [0.5; 0.3]%Q).
Proof. vm_compute. reflexivity. Qed.

(* ================================================================== *)
(** ** Values of a background product at requested redshifts *)

(** In a sorted grid, [np.searchsorted] finds the smallest entry that is not
    below the redshift, when there is one. *)
Lemma np_searchsorted_spec (g : list Z) (z : Z) :
  StronglySorted Z.le g ->
  (exists x, In x g /\ (z <= x)%Z) ->
  exists x, nth_error g (np_searchsorted g z) = Some x /\ (z <= x)%Z /\
            forall y, In y g -> (z <= y)%Z -> (x <= y)%Z.
Proof.
  induction g as [|x0 g IH]; intros Hs [x [Hx Hzx]]; [destruct Hx|].
  apply StronglySorted_inv in Hs. destruct Hs as [Hs Hall].
  rewrite Forall_forall in Hall. cbn [np_searchsorted].
  destruct (x0 <? z)%Z eqn:E.
  - apply Z.ltb_lt in E.
    destruct Hx as [->|Hx]; [lia|].
    destruct (IH Hs (ex_intro _ x (conj Hx Hzx))) as [x' [Hn [Hz Hmin]]].
    exists x'. cbn [nth_error]. repeat split; try assumption.
    intros y [<-|Hy] Hzy; [lia | now apply Hmin].
  - apply Z.ltb_ge in E. exists x0. cbn [nth_error]. repeat split; try assumption.
    intros y [<-|Hy] _; [lia | now apply Hall].
Qed.

(** Past the last entry it returns the length of the grid. *)
Lemma np_searchsorted_beyond (g : list Z) (z : Z) :
  (forall x, In x g -> (x < z)%Z) -> np_searchsorted g z = List.length g.
Proof.
  induction g as [|x0 g IH]; intros H; cbn [np_searchsorted List.length]; [reflexivity|].
  assert (E : (x0 <? z)%Z = true) by (apply Z.ltb_lt, H; now left).
  rewrite E. f_equal. apply IH. intros x Hx. apply H. now right.
Qed.

Lemma np_take_outside {A} (a : list A) (idx : list nat) :
  In (List.length a) idx -> np_take a idx = Raise IndexError.
Proof.
  intros Hin. pose proof (np_take_length a idx) as H.
  destruct (np_take a idx) as [r|e].
  - destruct H as [Hl Hn]. exfalso.
    destruct (In_nth_error _ _ Hin) as [i Hi].
    specialize (Hn i _ Hi).
    assert (Hlt : (i < List.length r)%nat).
    { rewrite Hl. apply nth_error_Some. congruence. }
    apply nth_error_Some in Hlt. apply Hlt. rewrite Hn.
    now apply nth_error_None.
  - now destruct H as [-> _].
Qed.

(** [_get_z_dependent] for a product whose collector holds a sorted grid,
    with one computed value per grid redshift.  Each requested redshift gets
    the value computed at the smallest grid redshift that is not below it:
    its own value when it is in the grid, the value of the next grid
    redshift, without any error, when it is not.  A request beyond the last
    grid redshift is an [IndexError]. *)
Theorem background_at_requested_redshifts :
  forall (solver : Solver) (s : camb.t) (st : state) (k : string) (c : Collector)
         (g : list Z) (vals : list Q) (zs : list Z),
    (k =? "fsigma8") = false ->
    dict_get product_eqb (camb.collectors s) (Name k) = Some (Some c) ->
    sget (camb.deref s (kwargs c)) "z" = Some (PyArray g) ->
    StronglySorted Z.le g ->
    camb._current_state s = Some st ->
    dict_get product_eqb (products st) (Name k) = Some (Computed (Array1 vals)) ->
    List.length vals = List.length g ->
    ((forall zi, In zi zs -> exists x, In x g /\ (zi <= x)%Z) ->
     exists r,
       camb._get_z_dependent k zs s = Return (Array1 r) /\
       List.length r = List.length zs /\
       forall i zi, nth_error zs i = Some zi ->
         exists j x,
           nth_error g j = Some x /\ (zi <= x)%Z /\
           (forall y, In y g -> (zi <= y)%Z -> (x <= y)%Z) /\
           (In zi g -> x = zi) /\
           nth_error r i = nth_error vals j) /\
    ((exists zi, In zi zs /\ forall x, In x g -> (x < zi)%Z) ->
     camb._get_z_dependent k zs s = Raise IndexError).
Proof.
  intros solver s st k c g vals zs Hk Hc Hz Hs Hst Hv Hlen.
  unfold camb._get_z_dependent. rewrite Hk, Hc, Hz, Hst, Hv.
  unfold camb.index_product. split.
  - intros Hcover.
    destruct (np_take_inside vals (map (np_searchsorted g) zs)) as [r [Hr [Hrl Hrn]]].
    { intros j Hj. apply in_map_iff in Hj. destruct Hj as [zi [<- Hzi]].
      destruct (np_searchsorted_spec g zi Hs (Hcover zi Hzi)) as [x [Hn _]].
      rewrite Hlen. apply nth_error_Some. congruence. }
    rewrite Hr. exists r. split; [reflexivity|].
    split; [now rewrite Hrl, length_map|].
    intros i zi Hi.
    destruct (np_searchsorted_spec g zi Hs (Hcover zi (nth_error_In _ _ Hi)))
      as [x [Hn [Hzx Hmin]]].
    exists (np_searchsorted g zi), x. repeat split; try assumption.
    + intros Hin. specialize (Hmin zi Hin ltac:(lia)). lia.
    + apply Hrn. now rewrite nth_error_map, Hi.
  - intros [zi [Hzi Hbeyond]].
    rewrite np_take_outside; [reflexivity|].
    rewrite Hlen, <- (np_searchsorted_beyond g zi Hbeyond).
    now apply in_map.
Qed.

(** [Hubble] asked at three redshifts and read back at two of them. *)
Lemma background_at_requested_redshifts_witness :
  let solver := toy_solver None None None in
  let st := {| params := []; results := None;
               products := [(Name "Hubble", Computed (Array1 [70; 90; 120]%Q))];
               derived := None; state_derived_extra := None |} in
  let s := camb.upd__current_state (fun _ => Some st)
             (fst (camb.needs [("Hubble", ReqZ [2; 0; 1]%Z)] (fresh solver false))) in
  exists r, camb._get_z_dependent "Hubble" [2; 0]%Z s = Return (Array1 r) /\
            List.length r = 2%nat.
Proof.
  intros solver st s.
  destruct (background_at_requested_redshifts solver s st "Hubble"
              {| method := "h_of_z"; args := []; kwargs := 1 |}
              [0; 1; 2]%Z [70; 90; 120]%Q [2; 0]%Z) as [H _]; try reflexivity.
  - repeat constructor; lia.
  - destruct H as [r [Hr [Hl _]]].
    + intros zi [<-|[<-|[]]]; exists 2%Z; simpl; intuition lia.
    + exists r. split; assumption.
Defined.

(* ================================================================== *)
(** ** What [needs] registers and never takes back *)

Section Ensures.
Context {St : Type}.

Lemma ensures_raise {A} (P : St -> Prop) e : ensures P (@raise St A e).
Proof. intros s. exact I. Qed.

Lemma ensures_modify (P : St -> Prop) f : (forall s, P (f s)) -> ensures P (modify f).
Proof. intros H s. apply H. Qed.

(** The state is reached by [m], and the rest keeps it. *)
Lemma ensures_bind_l {A B} (P : St -> Prop) (m : M St A) (k : A -> M St B) :
  ensures P m -> (forall a, keeps P (k a)) -> ensures P (bind m k).
Proof.
  intros Hm Hk s. unfold bind. specialize (Hm s).
  destruct (m s) as [s1 [a|e]]; [|exact I].
  specialize (Hk a s1 Hm). now destruct (k a s1) as [s2 [b|e]].
Qed.

(** The state is reached by the rest. *)
Lemma ensures_bind_r {A B} (P : St -> Prop) (m : M St A) (k : A -> M St B) :
  (forall a, ensures P (k a)) -> ensures P (bind m k).
Proof.
  intros Hk s. unfold bind. destruct (m s) as [s1 [a|e]]; [apply Hk | exact I].
Qed.

(** One turn of a loop reaches the state, and every turn keeps it. *)
Lemma ensures_for_each {A} (P : St -> Prop) (l : list A) (body : A -> M St unit) (x : A) :
  In x l -> ensures P (body x) -> (forall y, keeps P (body y)) ->
  ensures P (for_each l body).
Proof.
  intros Hin Hx Hk. induction l as [|y l IH]; [destruct Hin|].
  cbn [for_each]. destruct Hin as [->|Hin].
  - apply ensures_bind_l; [exact Hx|]. intros _. now apply keeps_for_each.
  - apply ensures_bind_r. intros _. now apply IH.
Qed.

Lemma ensures_ext {A} (P : St -> Prop) (m m' : M St A) :
  (forall s, m s = m' s) -> ensures P m' -> ensures P m.
Proof. intros E H s. rewrite E. apply H. Qed.

(** A method that reads the state first. *)
Lemma keeps_bind_get {B} (P : St -> Prop) (k : St -> M St B) :
  (forall s, P s -> P (fst (k s s))) -> keeps P (bind get k).
Proof. intros H s Hs. now apply H. Qed.
End Ensures.

(** Goals [keeps P m]: [on_alloc] closes the allocation of a dictionary,
    [on_update] what is left of an update of the state. *)
Ltac keeps_by on_alloc on_update :=
  repeat lazymatch goal with
  | |- keeps _ (ret _) => apply keeps_ret
  | |- keeps _ (raise _) => apply keeps_raise
  | |- keeps _ (lift _) => apply keeps_lift
  | |- keeps _ get => apply keeps_get
  | |- keeps _ (camb.alloc _) => on_alloc
  | |- keeps _ (modify _) => apply keeps_modify; on_update
  | |- keeps _ (bind _ _) => apply keeps_bind; [|intros ?]
  | |- keeps _ (for_each _ _) => apply keeps_for_each; intros ?
  | |- keeps _ (if ?b then _ else _) => destruct b
  | |- keeps _ (match ?x with _ => _ end) => destruct x
  end.

(** All the branches of the loop of [needs], opened. *)
Ltac open_branches :=
  unfold camb.needs_Cl, camb.needs_background, camb.needs_fsigma8, camb.needs_Pk,
    camb.needs_source_Cl, camb.needs_derived, camb._combine_z, camb.add_to_redshifts,
    camb.Pk_collectors, camb.register_pair, camb.mutate, camb.set_collector,
    camb.extra_num, camb.set_extra_arg, camb.set_extra_attr.

Ltac open_needs_item := unfold camb.needs_item; open_branches.

(** [needs], opened up to its loop. *)
Lemma needs_unfold (solver : Solver) (reqs : list (string * requirement)) :
  camb.needs reqs =
  bind (for_each reqs camb.needs_item) (fun _ =>
  bind get (fun s =>
  bind (if camb.nonempty (str_inter (camb.input_params s) (dict_keys (camb.extra_args s)))
        then raise (LoggedError (repeated_input_and_extra
               (str_inter (camb.input_params s) (dict_keys (camb.extra_args s)))))
        else ret tt) (fun _ =>
  bind (modify (camb.upd_extra_attrs (fun d => sset d "NonLinear"
          (camb.NonLinear_value (camb.non_linear_sources s) (camb.non_linear_pk s)))))
    (fun _ =>
  bind (modify (camb.upd__base_params (fun _ => None))) (fun _ =>
  bind get (fun s =>
  ret {| non_linear := camb.non_linear_sources s;
         req_needs_perts := camb.needs_perts s |})))))).
Proof. reflexivity. Qed.

(** An invariant of the loop body that the end of [needs] does not touch is
    an invariant of [needs]. *)
Lemma needs_keeps (solver : Solver) (P : camb.t -> Prop) :
  (forall kv, keeps P (camb.needs_item kv)) ->
  (forall f s, P s -> P (camb.upd_extra_attrs f s)) ->
  (forall f s, P s -> P (camb.upd__base_params f s)) ->
  forall reqs, keeps P (camb.needs reqs).
Proof.
  intros Hitem Hattr Hbase reqs. rewrite needs_unfold.
  apply keeps_bind; [now apply keeps_for_each | intros _].
  keeps_by idtac ltac:(intros s0 H0; first [now apply Hattr | now apply Hbase]).
Qed.

(** What the loop body reaches for one of the requests and keeps afterwards
    holds when [needs] returns. *)
Lemma needs_ensures (solver : Solver) (P : camb.t -> Prop) (kv : string * requirement) :
  ensures P (camb.needs_item kv) ->
  (forall kv', keeps P (camb.needs_item kv')) ->
  (forall f s, P s -> P (camb.upd_extra_attrs f s)) ->
  (forall f s, P s -> P (camb.upd__base_params f s)) ->
  forall reqs, In kv reqs -> ensures P (camb.needs reqs).
Proof.
  intros Hkv Hitem Hattr Hbase reqs Hin. rewrite needs_unfold.
  apply ensures_bind_l; [now apply (ensures_for_each P reqs _ kv) | intros _].
  keeps_by idtac ltac:(intros s0 H0; first [now apply Hattr | now apply Hbase]).
Qed.

(** A key of a dictionary stays one when an entry is assigned. *)
Lemma dict_get_set_keeps {K V} (eqb : K -> K -> bool) (d : list (K * V)) (k p : K) (v : V) :
  dict_get eqb d p <> None -> dict_get eqb (dict_set eqb d k v) p <> None.
Proof.
  induction d as [|[k' v'] d IH]; simpl; [congruence|].
  destruct (eqb k' k) eqn:Ek; simpl; destruct (eqb k' p); try congruence; auto.
Qed.

Lemma dict_get_set_this {V} (d : list (product * V)) (k : product) (v : V) :
  dict_get product_eqb (dict_set product_eqb d k v) k <> None.
Proof. rewrite dict_get_set_same. discriminate. Qed.

Lemma needs_item_keeps_registered (solver : Solver) (p : product)
    (kv : string * requirement) :
  keeps (registered_in p) (camb.needs_item kv).
Proof.
  destruct kv as [k v]. open_needs_item.
  keeps_by ltac:(intros s0 H0; exact H0)
           ltac:(intros s0 H0; first [exact H0 | now apply dict_get_set_keeps]).
Qed.

(** A product that has an entry in the registry of collectors still has one
    after any call of [needs], whether the call returns or raises. *)
Theorem registered_products_stay :
  forall (solver : Solver) (p : product) (reqs : list (string * requirement))
         (s : camb.t),
    registered_in p s -> registered_in p (fst (camb.needs reqs s)).
Proof.
  intros solver p reqs. apply needs_keeps.
  - intros kv. apply needs_item_keeps_registered.
  - intros f s H. exact H.
  - intros f s H. exact H.
Qed.

(** A [Hubble] collector through a later call for [Cl]. *)
Lemma registered_products_stay_witness :
  let solver := toy_solver None None None in
  let s := fst (camb.needs [("Hubble", ReqZ [1%Z])] (fresh solver false)) in
  registered_in (Name "Hubble") (fst (camb.needs [("Cl", ReqCl [("tt", 2500%Z)])] s)).
Proof.
  intros solver s. apply (registered_products_stay solver (Name "Hubble")).
  vm_compute. discriminate.
Defined.

(** Goals [ensures (registered_in p) m] where [m] ends by assigning the
    collector of [p], or raises before. *)
Ltac reach_collector :=
  repeat lazymatch goal with
  | |- ensures _ (raise _) => apply ensures_raise
  | |- ensures _ (bind (modify (camb.upd_collectors _)) _) =>
      apply ensures_bind_l;
      [ apply ensures_modify; intros ?; apply dict_get_set_this
      | intros ?;
        keeps_by ltac:(intros s0 H0; exact H0)
                 ltac:(intros s0 H0; first [exact H0 | now apply dict_get_set_keeps]) ]
  | |- ensures _ (modify (camb.upd_collectors _)) =>
      apply ensures_modify; intros ?; apply dict_get_set_this
  | |- ensures _ (bind _ _) => apply ensures_bind_r; intros ?
  | |- ensures _ (if ?b then _ else _) => destruct b
  | |- ensures _ (match ?x with _ => _ end) => destruct x
  end.

Lemma needs_item_registers_named (solver : Solver) (k : string) (v : requirement) :
  In k named_products ->
  ensures (registered_in (Name k)) (camb.needs_item (k, v)).
Proof.
  intros Hin. unfold camb.needs_item.
  destruct (k =? "Cl") eqn:E1; [open_branches; reach_collector|].
  destruct (k =? "Hubble") eqn:E2; [open_branches; reach_collector|].
  destruct (str_in k ["angular_diameter_distance"; "comoving_radial_distance"]) eqn:E3;
    [open_branches; reach_collector|].
  destruct (k =? "fsigma8") eqn:E4; [open_branches; reach_collector|].
  assert (E5 : str_in k ["Pk_interpolator"; "Pk_grid"] = false).
  { unfold named_products in Hin. simpl in Hin.
    repeat (destruct Hin as [<-|Hin]; [reflexivity|]). destruct Hin. }
  rewrite E5.
  destruct (k =? "source_Cl") eqn:E6; [open_branches; reach_collector|].
  destruct (k =? "CAMBdata") eqn:E7; [open_branches; reach_collector|].
  exfalso. unfold named_products in Hin. simpl in Hin.
  repeat (destruct Hin as [<-|Hin]; [discriminate|]). destruct Hin.
Qed.

Lemma needs_item_registers_pair (solver : Solver) (k : string) (o : Pk_options)
    (pair : string * string) :
  str_in k ["Pk_interpolator"; "Pk_grid"] = true ->
  In pair (camb.Pk_pairs o) ->
  ensures (registered_in (Pk_key (nonlinear o) pair)) (camb.needs_item (k, ReqPk o)).
Proof.
  intros Hk Hin.
  apply (ensures_ext _ _ (camb.needs_Pk k (ReqPk o)));
    [intros s; now apply needs_item_Pk|].
  unfold camb.needs_Pk, camb.Pk_collectors.
  repeat lazymatch goal with
  | |- ensures _ (bind (for_each (camb.Pk_pairs _) _) _) => fail
  | |- ensures _ (bind _ _) => apply ensures_bind_r; intros ?
  end.
  apply ensures_bind_l.
  - apply (ensures_for_each _ _ _ pair Hin).
    + unfold camb.register_pair, camb.set_collector, Pk_key. reach_collector.
    + intros y. unfold camb.register_pair, camb.set_collector, camb.mutate.
      keeps_by ltac:(intros s0 H0; exact H0)
               ltac:(intros s0 H0; first [exact H0 | now apply dict_get_set_keeps]).
  - intros ?.
    keeps_by ltac:(intros s0 H0; exact H0)
             ltac:(intros s0 H0; first [exact H0 | now apply dict_get_set_keeps]).
Qed.

(** The key of a pair does not depend on the order of its two variables. *)
Lemma sorted_pair_swap (nl : bool) (pair : string * string) :
  Pk_key nl (snd pair, fst pair) = Pk_key nl pair.
Proof.
  destruct pair as [a b]. unfold Pk_key, sorted_pair. cbn [fst snd].
  destruct (String.leb a b) eqn:Eab, (String.leb b a) eqn:Eba; cbn [fst snd];
    try reflexivity.
  - now rewrite (String.leb_antisym _ _ Eab Eba).
  - destruct (String.leb_total a b); congruence.
Qed.

(** When [needs] returns, every requested product has its entry in the
    registry of collectors: the products registered under their own name,
    and for a matter-power request one entry per pair of variables, under a
    key that does not depend on the order within the pair. *)
Theorem requested_products_are_registered :
  forall (solver : Solver) (reqs : list (string * requirement)) (s s' : camb.t)
         (r : transfers_requirement),
    camb.needs reqs s = (s', Return r) ->
    forall k v, In (k, v) reqs ->
      (In k named_products -> registered_in (Name k) s') /\
      (forall o pair,
          str_in k ["Pk_interpolator"; "Pk_grid"] = true -> v = ReqPk o ->
          In pair (camb.Pk_pairs o) ->
          registered_in (Pk_key (nonlinear o) pair) s' /\
          Pk_key (nonlinear o) (snd pair, fst pair) = Pk_key (nonlinear o) pair).
Proof.
  intros solver reqs s s' r Hrun k v Hin. split.
  - intros Hk.
    pose proof (needs_ensures solver (registered_in (Name k)) (k, v)
                  (needs_item_registers_named solver k v Hk)
                  (needs_item_keeps_registered solver _)
                  (fun f s H => H) (fun f s H => H) reqs Hin s) as H.
    now rewrite Hrun in H.
  - intros o pair Hk -> Hp. split.
    + pose proof (needs_ensures solver (registered_in (Pk_key (nonlinear o) pair))
                    (k, ReqPk o)
                    (needs_item_registers_pair solver k o pair Hk Hp)
                    (needs_item_keeps_registered solver _)
                    (fun f s H => H) (fun f s H => H) reqs Hin s) as H.
      now rewrite Hrun in H.
    + apply sorted_pair_swap.
Qed.

(** A [Hubble] request and a matter-power request for one pair. *)
Lemma requested_products_are_registered_witness :
  let solver := toy_solver None None None in
  let o := {| k_max := 10; z := [0%Z]; vars_pairs := Some [("delta_tot", "Weyl")];
              nonlinear := false; more := [] |} in
  let reqs := [("Hubble", ReqZ [1%Z]); ("Pk_grid", ReqPk o)] in
  let s' := fst (camb.needs reqs (fresh solver false)) in
  registered_in (Name "Hubble") s' /\
  registered_in (Pk_key false ("delta_tot", "Weyl")) s'.
Proof.
  intros solver o reqs s'.
  assert (Hrun : camb.needs reqs (fresh solver false) =
                 (s', Return {| non_linear := false; req_needs_perts := true |}))
    by (vm_compute; reflexivity).
  split.
  - apply (proj1 (requested_products_are_registered solver reqs _ _ _ Hrun
                    "Hubble" (ReqZ [1%Z]) (or_introl eq_refl))).
    simpl. tauto.
  - apply (proj2 (requested_products_are_registered solver reqs _ _ _ Hrun
                    "Pk_grid" (ReqPk o) (or_intror (or_introl eq_refl)))
             o ("delta_tot", "Weyl") eq_refl eq_refl (or_introl eq_refl)).
Defined.

(* ================================================================== *)
(** ** What [needs] accumulates: limits, redshifts, names and windows *)

Section Reads.
Context {St : Type}.

(** The value of a pure step is known to what follows it. *)
Lemma ensures_bind_lift {A B} (P : St -> Prop) (r : result A) (k : A -> M St B) :
  (forall a, r = Return a -> ensures P (k a)) -> ensures P (bind (lift r) k).
Proof.
  intros H s. unfold bind, lift. destruct r as [a|e]; [now apply H | exact I].
Qed.

Lemma keeps_bind_lift {A B} (P : St -> Prop) (r : result A) (k : A -> M St B) :
  (forall a, r = Return a -> keeps P (k a)) -> keeps P (bind (lift r) k).
Proof.
  intros H s Hs. unfold bind, lift. destruct r as [a|e]; [now apply H | exact Hs].
Qed.

(** A guarded update: the guard is known where the update is justified. *)
Lemma keeps_guarded {B} (P : St -> Prop) (b : St -> bool) (f : St -> St -> St)
    (k : St -> unit -> M St B) :
  (forall s, P s -> b s = true -> P (f s s)) ->
  (forall s u, keeps P (k s u)) ->
  keeps P (bind get (fun s => bind (if b s then modify (f s) else ret tt) (k s))).
Proof.
  intros Hf Hk s Hs. unfold bind, get. cbn.
  destruct (b s) eqn:E; cbn.
  - apply Hk. now apply Hf.
  - now apply Hk.
Qed.

Lemma keeps_guarded_last (P : St -> Prop) (b : St -> bool) (f : St -> St -> St) :
  (forall s, P s -> b s = true -> P (f s s)) ->
  keeps P (bind get (fun s => if b s then modify (f s) else ret tt)).
Proof.
  intros Hf s Hs. unfold bind, get. cbn.
  destruct (b s) eqn:E; cbn; [now apply Hf | exact Hs].
Qed.
End Reads.

(** [extra_args[key] = max(m, extra_args.get(key, 0))]: the old value is
    known where the new one is justified. *)
Lemma keeps_raise_limit (solver : Solver) {B} (P : camb.t -> Prop) (key : string) (m : Z)
    (rest : unit -> M camb.t B) :
  (forall s x, P s ->
     as_num (sget_default (camb.extra_args s) key (PyNum 0)) = Return x ->
     P (camb.upd_extra_args (fun d => sset d key (PyNum (Z.max m x))) s)) ->
  (forall u, keeps P (rest u)) ->
  keeps P (bind (camb.extra_num key 0)
             (fun old => bind (camb.set_extra_arg key (PyNum (Z.max m old))) rest)).
Proof.
  intros Hset Hrest s Hs.
  unfold bind at 1. unfold camb.extra_num, bind at 1, get, lift.
  destruct (as_num (sget_default (camb.extra_args s) key (PyNum 0))) as [x|e] eqn:E;
    [|exact Hs].
  unfold bind, camb.set_extra_arg, modify. apply Hrest. now apply Hset.
Qed.

Lemma keeps_raise_limit_last (solver : Solver) (P : camb.t -> Prop) (key : string) (m : Z) :
  (forall s x, P s ->
     as_num (sget_default (camb.extra_args s) key (PyNum 0)) = Return x ->
     P (camb.upd_extra_args (fun d => sset d key (PyNum (Z.max m x))) s)) ->
  keeps P (bind (camb.extra_num key 0)
             (fun old => camb.set_extra_arg key (PyNum (Z.max m old)))).
Proof.
  intros Hset s Hs.
  unfold bind at 1. unfold camb.extra_num, bind at 1, get, lift.
  destruct (as_num (sget_default (camb.extra_args s) key (PyNum 0))) as [x|e] eqn:E;
    [|exact Hs].
  unfold camb.set_extra_arg, modify. now apply Hset.
Qed.

(** [add_to_redshifts]: the old grid is known where the new one is
    justified. *)
Lemma keeps_add_to_redshifts (solver : Solver) (P : camb.t -> Prop) (zs : list Z) :
  (forall s old, P s -> camb.current_redshifts s = Return old ->
     P (camb.upd_extra_args
          (fun d => sset d "redshifts" (PyArray (descending_union (zs ++ old)))) s)) ->
  keeps P (camb.add_to_redshifts zs).
Proof.
  intros Hset s Hs. unfold camb.add_to_redshifts, bind, get, lift.
  destruct (camb.current_redshifts s) as [old|e] eqn:E; [|exact Hs].
  unfold camb.set_extra_arg, modify. cbn [fst]. now apply Hset.
Qed.

(** The branches of the loop of [needs], opened down to the steps that read
    or write the state. *)
Ltac open_products :=
  unfold camb.needs_Cl, camb.needs_background, camb.needs_fsigma8, camb.needs_Pk,
    camb.needs_source_Cl, camb.needs_derived, camb._combine_z,
    camb.Pk_collectors, camb.register_pair.

(** Goals [keeps P m]: [special] is tried first at every step, [on_alloc]
    closes the allocation of a dictionary, [on_update] what is left of an
    update of the state. *)
Ltac keeps_with special on_alloc on_update :=
  repeat first
    [ special
    | lazymatch goal with
      | |- keeps _ (ret _) => apply keeps_ret
      | |- keeps _ (raise _) => apply keeps_raise
      | |- keeps _ (lift _) => apply keeps_lift
      | |- keeps _ get => apply keeps_get
      | |- keeps _ (camb.alloc _) => on_alloc
      | |- keeps _ (modify _) => apply keeps_modify; on_update
      | |- keeps _ (camb.set_extra_arg _ _) => unfold camb.set_extra_arg
      | |- keeps _ (camb.set_extra_attr _ _) => unfold camb.set_extra_attr
      | |- keeps _ (camb.set_collector _ _) => unfold camb.set_collector
      | |- keeps _ (camb.mutate _ _) => unfold camb.mutate
      | |- keeps _ (camb.extra_num _ _) => unfold camb.extra_num
      | |- keeps _ (camb.add_to_redshifts _) => unfold camb.add_to_redshifts
      | |- keeps _ (bind _ _) => apply keeps_bind; [|intros ?]
      | |- keeps _ (for_each _ _) => apply keeps_for_each; intros ?
      | |- keeps _ (if ?b then _ else _) => destruct b
      | |- keeps _ (match ?x with _ => _ end) => destruct x
      end ].

(** *** The limits [lmax] and [kmax] *)

Lemma extra_at_least_set (solver : Solver) (key : string) (b : Z) (s : camb.t)
    (key' : string) (v : pyval) :
  extra_at_least key b s ->
  (key' = key -> exists x, v = PyNum x /\ (b <= x)%Z) ->
  extra_at_least key b (camb.upd_extra_args (fun d => sset d key' v) s).
Proof.
  intros [x [Hx Hb]] Hv. unfold extra_at_least. cbn [camb.extra_args camb.upd_extra_args].
  rewrite sget_sset. destruct (String.eqb_spec key' key) as [E|E].
  - destruct (Hv E) as [x' [-> Hb']]. now exists x'.
  - now exists x.
Qed.

Lemma extra_at_least_read (solver : Solver) (key : string) (b : Z) (s : camb.t) (x : Z) :
  extra_at_least key b s ->
  as_num (sget_default (camb.extra_args s) key (PyNum 0)) = Return x -> (b <= x)%Z.
Proof.
  intros [x' [Hx Hb]]. unfold sget_default. fold (sget (camb.extra_args s) key).
  rewrite Hx. cbn. intros E. injection E as <-. exact Hb.
Qed.

(** A limit that is a number stays one and does not decrease in one turn
    of the loop. *)
Lemma needs_item_keeps_limit (solver : Solver) (key : string) (b : Z)
    (kv : string * requirement) :
  key = "lmax" \/ key = "kmax" ->
  keeps (extra_at_least key b) (camb.needs_item kv).
Proof.
  intros Hkey. destruct kv as [k v]. unfold camb.needs_item. open_products.
  keeps_with
    ltac:(idtac; lazymatch goal with
          | |- keeps _ (bind (camb.extra_num ?key' _) _) =>
              first [apply keeps_raise_limit; [|intros ?] | apply keeps_raise_limit_last];
              [ let s0 := fresh "s" in let x0 := fresh "x" in
                let H0 := fresh "H" in let E0 := fresh "E" in
                intros s0 x0 H0 E0; apply extra_at_least_set; [exact H0|];
                intros <-; eexists; split; [reflexivity|];
                pose proof (extra_at_least_read solver _ _ _ _ H0 E0); lia
              | .. ]
          end)
    ltac:(intros s0 H0; exact H0)
    ltac:(intros s0 H0;
          first [ exact H0
                | apply extra_at_least_set;
                  [exact H0 | destruct Hkey as [-> | ->]; discriminate] ]).
Qed.

(** A limit that is a number stays one, and is never lowered by [needs],
    whether the call returns or raises. *)
Theorem limits_never_decrease :
  forall (solver : Solver) (key : string) (b : Z) (reqs : list (string * requirement))
         (s : camb.t),
    key = "lmax" \/ key = "kmax" ->
    extra_at_least key b s -> extra_at_least key b (fst (camb.needs reqs s)).
Proof.
  intros solver key b reqs s Hkey. apply needs_keeps.
  - intros kv. now apply needs_item_keeps_limit.
  - intros f s0 H. exact H.
  - intros f s0 H. exact H.
Qed.

(** An [lmax] of 3000 through a request that asks for less. *)
Lemma limits_never_decrease_witness :
  let solver := toy_solver None None None in
  let s := fst (camb.needs [("Cl", ReqCl [("tt", 3000%Z)])] (fresh solver false)) in
  extra_at_least "lmax" 3000 (fst (camb.needs [("Cl", ReqCl [("ee", 2000%Z)])] s)).
Proof.
  intros solver s. apply (limits_never_decrease solver "lmax" 3000).
  - now left.
  - exists 3000%Z. split; [vm_compute; reflexivity | lia].
Defined.

Lemma fold_left_max_bound (r : list Z) (a : Z) :
  (a <= fold_left Z.max r a)%Z /\ forall x, In x r -> (x <= fold_left Z.max r a)%Z.
Proof.
  revert a. induction r as [|y r IH]; intros a; cbn [fold_left].
  - split; [lia | intros x []].
  - destruct (IH (Z.max a y)) as [H1 H2]. split; [lia|].
    intros x [<-|Hx]; [lia | now apply H2].
Qed.

Lemma py_max_bound (l : list Z) (m : Z) :
  py_max l = Return m -> forall x, In x l -> (x <= m)%Z.
Proof.
  destruct l as [|a r]; [discriminate|]. cbn [py_max]. intros E. injection E as <-.
  destruct (fold_left_max_bound r a) as [H1 H2].
  intros x [<-|Hx]; [exact H1 | now apply H2].
Qed.

Lemma extra_at_least_assign (solver : Solver) (key : string) (b x : Z) (s : camb.t) :
  (b <= x)%Z ->
  extra_at_least key b (camb.upd_extra_args (fun d => sset d key (PyNum x)) s).
Proof.
  intros Hb. exists x. split; [|exact Hb].
  cbn [camb.extra_args camb.upd_extra_args]. now rewrite sget_sset, String.eqb_refl.
Qed.

(** Goals [keeps (extra_at_least key b) m] for a fixed [key]. *)
Ltac keeps_limit solver :=
  keeps_with
    ltac:(idtac; lazymatch goal with
          | |- keeps _ (bind (camb.extra_num _ _) _) =>
              first [apply keeps_raise_limit; [|intros ?] | apply keeps_raise_limit_last];
              [ let s0 := fresh "s" in let x0 := fresh "x" in
                let H0 := fresh "H" in let E0 := fresh "E" in
                intros s0 x0 H0 E0; apply extra_at_least_set; [exact H0|];
                intros _; eexists; split; [reflexivity|];
                pose proof (extra_at_least_read solver _ _ _ _ H0 E0); lia
              | .. ]
          end)
    ltac:(intros s0 H0; exact H0)
    ltac:(intros s0 H0;
          first [ exact H0
                | apply extra_at_least_set; [exact H0 | discriminate] ]).

Lemma needs_item_Cl_limit (solver : Solver) (v : list (string * Z)) (sp : string) (l : Z) :
  In (sp, l) v ->
  ensures (extra_at_least "lmax" l) (camb.needs_item ("Cl", ReqCl v)).
Proof.
  intros Hin. change (camb.needs_item ("Cl", ReqCl v)) with (camb.needs_Cl "Cl" (ReqCl v)).
  unfold camb.needs_Cl.
  apply ensures_bind_lift. intros m Hm.
  assert (Hl : (l <= m)%Z).
  { apply (py_max_bound _ _ Hm). apply in_map_iff. now exists (sp, l). }
  apply ensures_bind_r. intros old. apply ensures_bind_l.
  - apply ensures_modify. intros s. apply extra_at_least_assign. lia.
  - intros _. keeps_limit solver.
Qed.

Lemma needs_item_source_limit (solver : Solver) (o : source_Cl_options) (m : Z) :
  src_lmax o = Some m ->
  ensures (extra_at_least "lmax" m) (camb.needs_item ("source_Cl", ReqSourceCl o)).
Proof.
  intros Hm.
  change (camb.needs_item ("source_Cl", ReqSourceCl o))
    with (camb.needs_source_Cl "source_Cl" (ReqSourceCl o)).
  unfold camb.needs_source_Cl. rewrite Hm.
  do 5 (apply ensures_bind_r; intros ?).
  apply ensures_bind_l.
  - apply ensures_bind_r. intros old. apply ensures_modify. intros s.
    apply extra_at_least_assign. lia.
  - intros _. keeps_limit solver.
Qed.

Lemma needs_item_Pk_limit (solver : Solver) (k : string) (o : Pk_options) :
  str_in k ["Pk_interpolator"; "Pk_grid"] = true ->
  ensures (extra_at_least "kmax" (k_max o)) (camb.needs_item (k, ReqPk o)).
Proof.
  intros Hk.
  apply (ensures_ext _ _ (camb.needs_Pk k (ReqPk o)));
    [intros s; now apply needs_item_Pk|].
  unfold camb.needs_Pk.
  apply ensures_bind_r. intros old. apply ensures_bind_l.
  - apply ensures_modify. intros s. apply extra_at_least_assign. lia.
  - intros _. unfold camb.Pk_collectors, camb.register_pair. keeps_limit solver.
Qed.

(** A [Cl] request without any spectrum does not return. *)
Lemma needs_item_Cl_empty (solver : Solver) :
  ensures (fun _ => False) (camb.needs_item ("Cl", ReqCl [])).
Proof. intros s. exact I. Qed.

Lemma keeps_False {St A} (m : M St A) : keeps (fun _ => False) m.
Proof. intros s []. Qed.

(** When [needs] returns, [lmax] covers every multipole asked for in a [Cl]
    or [source_Cl] request and [kmax] every wavenumber asked for in a
    matter-power request; a [Cl] request names at least one spectrum, since
    the maximum of no multipole at all is an error. *)
Theorem limits_cover_requests :
  forall (solver : Solver) (reqs : list (string * requirement)) (s s' : camb.t)
         (r : transfers_requirement),
    camb.needs reqs s = (s', Return r) ->
    (forall v, In ("Cl", ReqCl v) reqs ->
       v <> [] /\ forall sp l, In (sp, l) v -> extra_at_least "lmax" l s') /\
    (forall o m, In ("source_Cl", ReqSourceCl o) reqs -> src_lmax o = Some m ->
       extra_at_least "lmax" m s') /\
    (forall k o, In (k, ReqPk o) reqs -> str_in k ["Pk_interpolator"; "Pk_grid"] = true ->
       extra_at_least "kmax" (k_max o) s').
Proof.
  intros solver reqs s s' r Hrun.
  assert (Hlimit : forall key b kv, key = "lmax" \/ key = "kmax" ->
            ensures (extra_at_least key b) (camb.needs_item kv) -> In kv reqs ->
            extra_at_least key b s').
  { intros key b kv Hkey Hkv Hin.
    pose proof (needs_ensures solver (extra_at_least key b) kv Hkv
                  (fun kv' => needs_item_keeps_limit solver key b kv' Hkey)
                  (fun f s0 H => H) (fun f s0 H => H) reqs Hin s) as H.
    now rewrite Hrun in H. }
  split; [|split].
  - intros v Hin. split.
    + intros ->.
      pose proof (needs_ensures solver (fun _ => False) _ (needs_item_Cl_empty solver)
                    (fun kv' => keeps_False _) (fun f s0 H => H) (fun f s0 H => H)
                    reqs Hin s) as H.
      now rewrite Hrun in H.
    + intros sp l Hl. apply (Hlimit "lmax" l _ (or_introl eq_refl)
                               (needs_item_Cl_limit solver v sp l Hl) Hin).
  - intros o m Hin Hm. apply (Hlimit "lmax" m _ (or_introl eq_refl)
                                (needs_item_source_limit solver o m Hm) Hin).
  - intros k o Hin Hk. apply (Hlimit "kmax" (k_max o) _ (or_intror eq_refl)
                                (needs_item_Pk_limit solver k o Hk) Hin).
Qed.

(** Two spectra with different multipoles, and a matter-power request. *)
Lemma limits_cover_requests_witness :
  let solver := toy_solver None None None in
  let o := {| k_max := 10; z := [0%Z]; vars_pairs := None; nonlinear := false;
              more := [] |} in
  let reqs := [("Cl", ReqCl [("tt", 2500%Z); ("ee", 3000%Z)]); ("Pk_grid", ReqPk o)] in
  let s' := fst (camb.needs reqs (fresh solver false)) in
  extra_at_least "lmax" 3000 s' /\ extra_at_least "kmax" 10 s'.
Proof.
  intros solver o reqs s'.
  assert (Hrun : camb.needs reqs (fresh solver false) =
                 (s', Return {| non_linear := true; req_needs_perts := true |}))
    by (vm_compute; reflexivity).
  destruct (limits_cover_requests solver reqs _ _ _ Hrun) as [HCl [_ HPk]]. split.
  - apply (proj2 (HCl _ (or_introl eq_refl)) "ee"). simpl. tauto.
  - apply (HPk "Pk_grid" o); [simpl; tauto | reflexivity].
Defined.

(* ================================================================== *)
(** ** The grid of the perturbation products, across any requests *)

Lemma in_redshifts_set (solver : Solver) (z : Z) (s : camb.t) (key : string) (v : pyval) :
  in_redshifts z s ->
  (key = "redshifts" -> exists g, v = PyArray g /\ In z g) ->
  in_redshifts z (camb.upd_extra_args (fun d => sset d key v) s).
Proof.
  intros [g [Hg Hz]] Hv. unfold in_redshifts. cbn [camb.extra_args camb.upd_extra_args].
  rewrite sget_sset. destruct (String.eqb_spec key "redshifts") as [E|E].
  - destruct (Hv E) as [g' [-> Hz']]. now exists g'.
  - now exists g.
Qed.

Lemma redshifts_descending_set (solver : Solver) (s : camb.t) (key : string) (v : pyval) :
  redshifts_descending s ->
  (key = "redshifts" -> exists g, v = PyArray g /\ StronglySorted Z.gt g) ->
  redshifts_descending (camb.upd_extra_args (fun d => sset d key v) s).
Proof.
  intros [g [Hg Hz]] Hv. unfold redshifts_descending.
  cbn [camb.extra_args camb.upd_extra_args].
  rewrite sget_sset. destruct (String.eqb_spec key "redshifts") as [E|E].
  - destruct (Hv E) as [g' [-> Hz']]. now exists g'.
  - now exists g.
Qed.

(** The grid [add_to_redshifts] finds when it is an array. *)
Lemma current_redshifts_array (solver : Solver) (s : camb.t) (g old : list Z) :
  sget (camb.extra_args s) "redshifts" = Some (PyArray g) ->
  camb.current_redshifts s = Return old -> old = g.
Proof.
  intros Hg. unfold camb.current_redshifts. rewrite Hg. cbn. congruence.
Qed.

Lemma add_to_redshifts_keeps_member (solver : Solver) (z : Z) (zs : list Z) :
  keeps (in_redshifts z) (camb.add_to_redshifts zs).
Proof.
  apply keeps_add_to_redshifts. intros s old [g [Hg Hz]] Hold.
  rewrite (current_redshifts_array solver s g old Hg Hold).
  apply in_redshifts_set; [now exists g|]. intros _. eexists. split; [reflexivity|].
  apply descending_union_spec, in_or_app. now right.
Qed.

Lemma add_to_redshifts_keeps_descending (solver : Solver) (zs : list Z) :
  keeps redshifts_descending (camb.add_to_redshifts zs).
Proof.
  apply keeps_add_to_redshifts. intros s old H Hold.
  apply redshifts_descending_set; [exact H|]. intros _. eexists. split; [reflexivity|].
  apply descending_union_spec.
Qed.

Lemma add_to_redshifts_adds (solver : Solver) (z : Z) (zs : list Z) :
  In z zs -> ensures (in_redshifts z) (camb.add_to_redshifts zs).
Proof.
  intros Hz s. unfold camb.add_to_redshifts, bind, get, lift.
  destruct (camb.current_redshifts s) as [old|e]; [|exact I].
  unfold camb.set_extra_arg, modify. eexists. split.
  - cbn [camb.extra_args camb.upd_extra_args]. rewrite sget_sset. reflexivity.
  - apply (proj2 (descending_union_spec (zs ++ old))), in_or_app. now left.
Qed.

Lemma add_to_redshifts_sorts (solver : Solver) (zs : list Z) :
  ensures redshifts_descending (camb.add_to_redshifts zs).
Proof.
  intros s. unfold camb.add_to_redshifts, bind, get, lift.
  destruct (camb.current_redshifts s) as [old|e]; [|exact I].
  unfold camb.set_extra_arg, modify. eexists. split.
  - cbn [camb.extra_args camb.upd_extra_args]. rewrite sget_sset. reflexivity.
  - apply (proj1 (descending_union_spec (zs ++ old))).
Qed.

(** Goals [keeps P m] for a property [P] of the grid. *)
Ltac keeps_grid on_grid on_other :=
  keeps_with
    ltac:(idtac; lazymatch goal with
          | |- keeps _ (camb.add_to_redshifts _) => on_grid
          end)
    ltac:(intros s0 H0; exact H0)
    ltac:(intros s0 H0; first [ exact H0 | on_other; [exact H0 | discriminate] ]).

Lemma needs_item_keeps_member (solver : Solver) (z : Z) (kv : string * requirement) :
  keeps (in_redshifts z) (camb.needs_item kv).
Proof.
  destruct kv as [k v]. unfold camb.needs_item. open_products.
  keeps_grid ltac:(apply add_to_redshifts_keeps_member) ltac:(apply in_redshifts_set).
Qed.

Lemma needs_item_keeps_descending (solver : Solver) (kv : string * requirement) :
  keeps redshifts_descending (camb.needs_item kv).
Proof.
  destruct kv as [k v]. unfold camb.needs_item. open_products.
  keeps_grid ltac:(apply add_to_redshifts_keeps_descending)
             ltac:(apply redshifts_descending_set).
Qed.

(** A redshift of the grid of the perturbation products stays in it, and a
    strictly descending grid stays strictly descending, through any call of
    [needs], whether it returns or raises. *)
Theorem perturbation_grid_only_grows :
  forall (solver : Solver) (reqs : list (string * requirement)) (s : camb.t),
    (forall z, in_redshifts z s -> in_redshifts z (fst (camb.needs reqs s))) /\
    (redshifts_descending s -> redshifts_descending (fst (camb.needs reqs s))).
Proof.
  intros solver reqs s. split.
  - intros z. apply needs_keeps.
    + intros kv. apply needs_item_keeps_member.
    + intros f s0 H. exact H.
    + intros f s0 H. exact H.
  - apply needs_keeps.
    + intros kv. apply needs_item_keeps_descending.
    + intros f s0 H. exact H.
    + intros f s0 H. exact H.
Qed.

(** The redshift 2 of an [fsigma8] request, through a later matter-power
    request at other redshifts. *)
Lemma perturbation_grid_only_grows_witness :
  let solver := toy_solver None None None in
  let o := {| k_max := 10; z := [0; 1]%Z; vars_pairs := None; nonlinear := false;
              more := [] |} in
  let s := fst (camb.needs [("fsigma8", ReqZ [2%Z])] (fresh solver false)) in
  in_redshifts 2 (fst (camb.needs [("Pk_grid", ReqPk o)] s)).
Proof.
  intros solver o s.
  apply (proj1 (perturbation_grid_only_grows solver [("Pk_grid", ReqPk o)] s)).
  exists [2%Z]. split; [vm_compute; reflexivity | now left].
Defined.

Lemma needs_item_fsigma8_grid (solver : Solver) (P : camb.t -> Prop) (v : requirement)
    (zs : list Z) :
  req_z v = Return zs ->
  ensures P (camb.add_to_redshifts zs) ->
  (forall f s, P s -> P (camb.upd_collectors f s)) ->
  (forall f s, P s -> P (camb.upd_store f s)) ->
  (forall f s, P s -> P (camb.upd_needs_perts f s)) ->
  ensures P (camb.needs_item ("fsigma8", v)).
Proof.
  intros Hv Hadd Hc Hs Hn.
  change (camb.needs_item ("fsigma8", v)) with (camb.needs_fsigma8 "fsigma8" v).
  unfold camb.needs_fsigma8. rewrite Hv.
  apply ensures_bind_lift. intros zs' E. injection E as <-.
  apply ensures_bind_l; [exact Hadd|]. intros _.
  keeps_with ltac:(fail)
             ltac:(intros s0 H0; now apply Hs)
             ltac:(intros s0 H0; first [now apply Hc | now apply Hn]).
Qed.

Lemma needs_item_Pk_grid (solver : Solver) (P : camb.t -> Prop) (k : string)
    (o : Pk_options) :
  str_in k ["Pk_interpolator"; "Pk_grid"] = true ->
  ensures P (camb.add_to_redshifts (z o)) ->
  (forall f s, P s -> P (camb.upd_collectors f s)) ->
  (forall f s, P s -> P (camb.upd_store f s)) ->
  (forall f s, P s -> P (camb.upd_needs_perts f s)) ->
  (forall f s, P s -> P (camb.upd_non_linear_pk f s)) ->
  ensures P (camb.needs_item (k, ReqPk o)).
Proof.
  intros Hk Hadd Hc Hs Hn Hp.
  apply (ensures_ext _ _ (camb.needs_Pk k (ReqPk o)));
    [intros s; now apply needs_item_Pk|].
  unfold camb.needs_Pk.
  do 2 (apply ensures_bind_r; intros ?).
  apply ensures_bind_l; [exact Hadd|]. intros _.
  unfold camb.Pk_collectors, camb.register_pair.
  keeps_with ltac:(fail)
             ltac:(intros s0 H0; now apply Hs)
             ltac:(intros s0 H0; first [now apply Hc | now apply Hn | now apply Hp
                                       | now apply Hs]).
Qed.

(** When [needs] returns, every redshift of every [fsigma8] and matter-power
    request is in the grid handed to the solver, and as soon as there is one
    such request the grid is strictly descending, so without repeats. *)
Theorem perturbation_grid_covers_requests :
  forall (solver : Solver) (reqs : list (string * requirement)) (s s' : camb.t)
         (r : transfers_requirement),
    camb.needs reqs s = (s', Return r) ->
    (forall v zs, In ("fsigma8", v) reqs -> req_z v = Return zs ->
       redshifts_descending s' /\ forall z, In z zs -> in_redshifts z s') /\
    (forall k o, In (k, ReqPk o) reqs -> str_in k ["Pk_interpolator"; "Pk_grid"] = true ->
       redshifts_descending s' /\ forall zi, In zi (z o) -> in_redshifts zi s').
Proof.
  intros solver reqs s s' r Hrun.
  assert (Hgrid : forall P kv,
            ensures P (camb.needs_item kv) ->
            (forall kv', keeps P (camb.needs_item kv')) ->
            (forall f s0, P s0 -> P (camb.upd_extra_attrs f s0)) ->
            (forall f s0, P s0 -> P (camb.upd__base_params f s0)) ->
            In kv reqs -> P s').
  { intros P kv Hkv Hkeeps Ha Hb Hin.
    pose proof (needs_ensures solver P kv Hkv Hkeeps Ha Hb reqs Hin s) as H.
    now rewrite Hrun in H. }
  split.
  - intros v zs Hin Hv. split.
    + apply (Hgrid redshifts_descending ("fsigma8", v)); try assumption;
        try (intros f s0 H; exact H); [|apply needs_item_keeps_descending].
      apply (needs_item_fsigma8_grid solver _ v zs Hv);
        try (intros f s0 H; exact H). apply add_to_redshifts_sorts.
    + intros z Hz.
      apply (Hgrid (in_redshifts z) ("fsigma8", v)); try assumption;
        try (intros f s0 H; exact H); [|apply needs_item_keeps_member].
      apply (needs_item_fsigma8_grid solver _ v zs Hv);
        try (intros f s0 H; exact H). now apply add_to_redshifts_adds.
  - intros k o Hin Hk. split.
    + apply (Hgrid redshifts_descending (k, ReqPk o)); try assumption;
        try (intros f s0 H; exact H); [|apply needs_item_keeps_descending].
      apply (needs_item_Pk_grid solver _ k o Hk);
        try (intros f s0 H; exact H). apply add_to_redshifts_sorts.
    + intros z Hz.
      apply (Hgrid (in_redshifts z) (k, ReqPk o)); try assumption;
        try (intros f s0 H; exact H); [|apply needs_item_keeps_member].
      apply (needs_item_Pk_grid solver _ k o Hk);
        try (intros f s0 H; exact H). now apply add_to_redshifts_adds.
Qed.

(** An [fsigma8] request and a matter-power request with a common redshift. *)
Lemma perturbation_grid_covers_requests_witness :
  let solver := toy_solver None None None in
  let o := {| k_max := 10; z := [0; 1]%Z; vars_pairs := None; nonlinear := false;
              more := [] |} in
  let reqs := [("fsigma8", ReqZ [1; 2]%Z); ("Pk_grid", ReqPk o)] in
  let s' := fst (camb.needs reqs (fresh solver false)) in
  redshifts_descending s' /\ in_redshifts 2 s' /\ in_redshifts 0 s'.
Proof.
  intros solver o reqs s'.
  assert (Hrun : camb.needs reqs (fresh solver false) =
                 (s', Return {| non_linear := false; req_needs_perts := true |}))
    by (vm_compute; reflexivity).
  destruct (perturbation_grid_covers_requests solver reqs _ _ _ Hrun) as [Hf HPk].
  destruct (Hf (ReqZ [1; 2]%Z) [1; 2]%Z (or_introl eq_refl) eq_refl) as [Hd Hz].
  destruct (HPk "Pk_grid" o (or_intror (or_introl eq_refl)) eq_refl) as [_ Hz'].
  split; [exact Hd|]. split; [apply Hz | apply Hz']; simpl; tauto.
Defined.

(* ================================================================== *)
(** ** The derived parameters and the source windows [needs] collects *)

Lemma NoDup_snoc {A} (l : list A) (x : A) : NoDup l -> ~ In x l -> NoDup (l ++ [x]).
Proof.
  intros Hl Hx. apply NoDup_app; [exact Hl | repeat constructor; intros [] |].
  intros y Hy [<-|[]]. now apply Hx.
Qed.

(** Goals [keeps P m] where the updates of [derived_extra] are guarded by
    a test on it: [on_guarded] closes those, knowing the guard. *)
Ltac keeps_names on_guarded on_update :=
  keeps_with
    ltac:(idtac; lazymatch goal with
          | |- keeps _ (bind get _) =>
              first [ apply keeps_guarded_last | apply keeps_guarded; [|intros ? ?] ];
              [ let s0 := fresh "s" in let H0 := fresh "H" in let E0 := fresh "E" in
                intros s0 H0 E0; first [exact H0 | on_guarded s0 H0 E0]
              | .. ]
          end)
    ltac:(intros s0 H0; exact H0)
    ltac:(intros s0 H0; first [exact H0 | on_update s0 H0]).

Lemma needs_item_keeps_NoDup (solver : Solver) (kv : string * requirement) :
  keeps (fun s => NoDup (camb.derived_extra s)) (camb.needs_item kv).
Proof.
  destruct kv as [k v]. unfold camb.needs_item. open_products. cbv zeta.
  keeps_names
    ltac:(fun s0 H0 E0 =>
            cbn [camb.derived_extra camb.upd_derived_extra];
            apply NoDup_snoc; [exact H0|];
            apply str_in_false; now apply negb_true_iff in E0)
    ltac:(fun s0 H0 => fail).
Qed.

Lemma needs_item_keeps_name (solver : Solver) (x : string) (kv : string * requirement) :
  keeps (fun s => In x (camb.derived_extra s)) (camb.needs_item kv).
Proof.
  destruct kv as [k v]. unfold camb.needs_item. open_products. cbv zeta.
  keeps_names
    ltac:(fun s0 H0 E0 =>
            cbn [camb.derived_extra camb.upd_derived_extra];
            apply in_or_app; now left)
    ltac:(fun s0 H0 => fail).
Qed.

(** [derived_extra] only grows in a call of [needs], and a list without
    repeats stays without repeats, whether the call returns or raises. *)
Theorem derived_extra_grows_without_repeats :
  forall (solver : Solver) (reqs : list (string * requirement)) (s : camb.t),
    (forall x, In x (camb.derived_extra s) ->
               In x (camb.derived_extra (fst (camb.needs reqs s)))) /\
    (NoDup (camb.derived_extra s) -> NoDup (camb.derived_extra (fst (camb.needs reqs s)))).
Proof.
  intros solver reqs s. split.
  - intros x. apply (needs_keeps solver (fun s => In x (camb.derived_extra s))).
    + intros kv. apply needs_item_keeps_name.
    + intros f s0 H. exact H.
    + intros f s0 H. exact H.
  - apply (needs_keeps solver (fun s => NoDup (camb.derived_extra s))).
    + intros kv. apply needs_item_keeps_NoDup.
    + intros f s0 H. exact H.
    + intros f s0 H. exact H.
Qed.

(** The same derived parameter asked for twice, after a request for the
    spectra. *)
Lemma derived_extra_grows_without_repeats_witness :
  let solver := toy_solver None None None in
  let s := fst (camb.needs [("Cl", ReqCl [("tt", 2500%Z)])] (fresh solver false)) in
  let s' := fst (camb.needs [("omegam", ReqNone); ("Cl", ReqCl [("ee", 2500%Z)]);
                             ("omegam", ReqNone)] s) in
  In "TCMB" (camb.derived_extra s') /\ NoDup (camb.derived_extra s').
Proof.
  intros solver s s'.
  destruct (derived_extra_grows_without_repeats solver
              [("omegam", ReqNone); ("Cl", ReqCl [("ee", 2500%Z)]); ("omegam", ReqNone)] s)
    as [Hin Hnd].
  split.
  - apply Hin. vm_compute. tauto.
  - apply Hnd. vm_compute. repeat constructor. intros [].
Defined.

Section Reached.
Context {St : Type}.

Lemma ensures_guarded_last (P : St -> Prop) (b : St -> bool) (f : St -> St -> St) :
  (forall s, b s = true -> P (f s s)) ->
  (forall s, b s = false -> P s) ->
  ensures P (bind get (fun s => if b s then modify (f s) else ret tt)).
Proof.
  intros Ht Hf s. unfold bind, get. cbn.
  destruct (b s) eqn:E; cbn; [now apply Ht | now apply Hf].
Qed.

Lemma ensures_guarded {B} (P : St -> Prop) (b : St -> bool) (f : St -> St -> St)
    (k : St -> unit -> M St B) :
  (forall s, b s = true -> P (f s s)) ->
  (forall s, b s = false -> P s) ->
  (forall s u, keeps P (k s u)) ->
  ensures P (bind get (fun s => bind (if b s then modify (f s) else ret tt) (k s))).
Proof.
  intros Ht Hf Hk s. unfold bind, get. cbn.
  destruct (b s) eqn:E; cbn.
  - specialize (Hk s tt (f s s) (Ht s E)).
    destruct (k s tt (f s s)) as [s1 [a|e]]; [exact Hk | exact I].
  - specialize (Hk s tt s (Hf s E)).
    destruct (k s tt s) as [s1 [a|e]]; [exact Hk | exact I].
Qed.
End Reached.

(** A name that is no product name and comes without options is a derived
    parameter. *)
Lemma needs_item_derived (solver : Solver) (k : string) (v : requirement) :
  str_in k product_names = false ->
  camb.needs_item (k, v) =
  match v with
  | ReqNone => camb.needs_derived k
  | _ => raise (LoggedError this_should_not_be_happening)
  end.
Proof.
  intros H. unfold str_in, product_names in H. cbn [existsb] in H.
  repeat (apply orb_false_iff in H; destruct H as [? H]).
  unfold camb.needs_item, str_in. cbn [existsb].
  repeat match goal with E : (k =? _) = false |- _ => rewrite E; clear E end.
  reflexivity.
Qed.

Lemma needs_item_keeps_translated (solver : Solver) (k : string)
    (kv : string * requirement) :
  keeps (fun s => In (camb.translate_param s k) (camb.derived_extra s))
        (camb.needs_item kv).
Proof.
  destruct kv as [k' v]. unfold camb.needs_item. open_products. cbv zeta.
  keeps_names
    ltac:(fun s0 H0 E0 =>
            cbn [camb.derived_extra camb.translate_param camb.upd_derived_extra];
            apply in_or_app; now left)
    ltac:(fun s0 H0 => fail).
Qed.

Lemma needs_derived_collects (solver : Solver) (k : string) :
  ensures (fun s => In (camb.translate_param s k) (camb.derived_extra s))
          (camb.needs_derived k).
Proof.
  unfold camb.needs_derived. cbv zeta. apply ensures_guarded.
  - intros s _. cbn [camb.derived_extra camb.translate_param camb.upd_derived_extra].
    apply in_or_app. right. now left.
  - intros s E. apply negb_false_iff in E. now apply str_in_In.
  - intros s u.
    keeps_with ltac:(fail) ltac:(intros s0 H0; exact H0) ltac:(intros s0 H0; exact H0).
Qed.

Lemma needs_item_Cl_temperature (solver : Solver) (v : requirement) :
  ensures (fun s => In "TCMB" (camb.derived_extra s)) (camb.needs_item ("Cl", v)).
Proof.
  change (camb.needs_item ("Cl", v)) with (camb.needs_Cl "Cl" v).
  unfold camb.needs_Cl. destruct v; try apply ensures_raise.
  repeat first
    [ apply ensures_guarded_last;
      [ intros s _; cbn [camb.derived_extra camb.upd_derived_extra];
        apply in_or_app; right; now left
      | intros s E; apply negb_false_iff in E; now apply str_in_In ]
    | apply ensures_bind_r; intros ? ].
Qed.

Lemma needs_item_unknown (solver : Solver) (k : string) (v : requirement) :
  str_in k product_names = false -> v <> ReqNone ->
  ensures (fun _ => False) (camb.needs_item (k, v)).
Proof.
  intros Hk Hv. rewrite (needs_item_derived solver k v Hk).
  destruct v; try apply ensures_raise. congruence.
Qed.

(** When [needs] returns: a requirement whose name is none of the product
    names came without options, and its translated name is in
    [derived_extra]; a requirement with options under such a name makes
    [needs] raise.  After a request for the spectra, [TCMB] is in
    [derived_extra]. *)
Theorem requested_derived_are_collected :
  forall (solver : Solver) (reqs : list (string * requirement)) (s s' : camb.t)
         (r : transfers_requirement),
    camb.needs reqs s = (s', Return r) ->
    (forall k v, In (k, v) reqs -> str_in k product_names = false ->
       v = ReqNone /\ In (camb.translate_param s' k) (camb.derived_extra s')) /\
    (forall v, In ("Cl", v) reqs -> In "TCMB" (camb.derived_extra s')).
Proof.
  intros solver reqs s s' r Hrun.
  assert (Hend : forall P kv,
            ensures P (camb.needs_item kv) ->
            (forall kv', keeps P (camb.needs_item kv')) ->
            (forall f s0, P s0 -> P (camb.upd_extra_attrs f s0)) ->
            (forall f s0, P s0 -> P (camb.upd__base_params f s0)) ->
            In kv reqs -> P s').
  { intros P kv Hkv Hkeeps Ha Hb Hin.
    pose proof (needs_ensures solver P kv Hkv Hkeeps Ha Hb reqs Hin s) as H.
    now rewrite Hrun in H. }
  split.
  - intros k v Hin Hk.
    assert (Hv : v = ReqNone).
    { destruct v; try reflexivity; exfalso;
        match goal with
        | Hv : In (k, ?v) reqs |- _ =>
            apply (Hend (fun _ => False) (k, v));
            [ apply needs_item_unknown; [exact Hk | discriminate]
            | intros kv'; apply keeps_False
            | intros f s0 H; exact H
            | intros f s0 H; exact H
            | exact Hv ]
        end. }
    split; [exact Hv|]. subst v.
    apply (Hend (fun s0 => In (camb.translate_param s0 k) (camb.derived_extra s0))
             (k, ReqNone)); try assumption; try (intros f s0 H; exact H).
    + rewrite (needs_item_derived solver k ReqNone Hk). apply needs_derived_collects.
    + apply needs_item_keeps_translated.
  - intros v Hin.
    apply (Hend (fun s0 => In "TCMB" (camb.derived_extra s0)) ("Cl", v));
      try assumption; try (intros f s0 H; exact H).
    + apply needs_item_Cl_temperature.
    + apply needs_item_keeps_name.
Qed.

(** A derived parameter and the spectra. *)
Lemma requested_derived_are_collected_witness :
  let solver := toy_solver None None None in
  let reqs := [("omegam", ReqNone); ("Cl", ReqCl [("tt", 2500%Z)])] in
  let s' := fst (camb.needs reqs (fresh solver false)) in
  In "omegam" (camb.derived_extra s') /\ In "TCMB" (camb.derived_extra s').
Proof.
  intros solver reqs s'.
  assert (Hrun : camb.needs reqs (fresh solver false) =
                 (s', Return {| non_linear := true; req_needs_perts := true |}))
    by (vm_compute; reflexivity).
  destruct (requested_derived_are_collected solver reqs _ _ _ Hrun) as [Hd HCl]. split.
  - apply (proj2 (Hd "omegam" ReqNone (or_introl eq_refl) eq_refl)).
  - apply (HCl (ReqCl [("tt", 2500%Z)])). simpl. tauto.
Defined.

(** *** Source windows *)

Lemma dict_get_set_other_str {V} (d : list (string * V)) (k p : string) (v : V) :
  k <> p -> dict_get String.eqb (dict_set String.eqb d k v) p = dict_get String.eqb d p.
Proof.
  intros Hne. induction d as [|[k' v'] d IH]; simpl.
  - destruct (String.eqb_spec k p); [congruence | reflexivity].
  - destruct (String.eqb_spec k' k) as [->|Hk]; simpl.
    + destruct (String.eqb_spec k p); [congruence | reflexivity].
    + destruct (String.eqb k' p); [reflexivity | exact IH].
Qed.

Lemma dict_get_set_same_str {V} (d : list (string * V)) (k : string) (v : V) :
  dict_get String.eqb (dict_set String.eqb d k v) k = Some v.
Proof.
  induction d as [|[k' v'] d IH]; simpl.
  - now rewrite String.eqb_refl.
  - destruct (String.eqb k' k) eqn:E; simpl; rewrite E; [reflexivity | exact IH].
Qed.

(** [if source not in self.sources: self.sources[source] = window] leaves
    the window of every registered source as it is. *)
Lemma window_of_add (solver : Solver) (src : string) (w : dict) (sw : string * dict)
    (s : camb.t) :
  window_of src w s ->
  window_of src w
    (camb.upd_sources
       (fun ss =>
          let cur := match ss with Some l => l | None => [] end in
          if dict_mem String.eqb cur (fst sw) then Some cur
          else Some (dict_set String.eqb cur (fst sw) (snd sw))) s).
Proof.
  intros [l [Hl Hw]]. unfold window_of. cbn [camb.sources camb.upd_sources]. rewrite Hl.
  cbv zeta. unfold dict_mem.
  destruct (dict_get String.eqb l (fst sw)) as [w'|] eqn:E.
  - now exists l.
  - eexists. split; [reflexivity|]. rewrite dict_get_set_other_str; [exact Hw|].
    intros <-. congruence.
Qed.

Lemma window_of_not_empty (solver : Solver) (src : string) (w : dict) (s : camb.t) :
  window_of src w s ->
  negb (match camb.sources s with Some (_ :: _) => true | _ => false end) = true ->
  False.
Proof.
  intros [l [Hl Hw]]. rewrite Hl. destruct l; [discriminate Hw | discriminate].
Qed.

Lemma needs_item_keeps_window (solver : Solver) (src : string) (w : dict)
    (kv : string * requirement) :
  keeps (window_of src w) (camb.needs_item kv).
Proof.
  destruct kv as [k v]. unfold camb.needs_item. open_products. cbv zeta.
  keeps_names
    ltac:(fun s0 H0 E0 => exfalso; exact (window_of_not_empty solver _ _ _ H0 E0))
    ltac:(fun s0 H0 => exact (window_of_add solver _ _ _ _ H0)).
Qed.

Lemma keeps_exists {St A B} (Q : B -> St -> Prop) (m : M St A) :
  (forall w, keeps (Q w) m) -> keeps (fun s => exists w, Q w s) m.
Proof. intros H s [w Hw]. exists w. now apply H. Qed.

Lemma needs_item_adds_window (solver : Solver) (o : source_Cl_options) (src : string)
    (win : dict) :
  In (src, win) (src_sources o) ->
  ensures (fun s => exists w, window_of src w s)
          (camb.needs_item ("source_Cl", ReqSourceCl o)).
Proof.
  intros Hin.
  change (camb.needs_item ("source_Cl", ReqSourceCl o))
    with (camb.needs_source_Cl "source_Cl" (ReqSourceCl o)).
  unfold camb.needs_source_Cl.
  do 2 (apply ensures_bind_r; intros ?).
  apply ensures_bind_l.
  - apply (ensures_for_each _ _ _ (src, win) Hin).
    + apply ensures_modify. intros s. unfold window_of.
      cbn [camb.sources camb.upd_sources fst snd]. cbv zeta. unfold dict_mem.
      destruct (dict_get String.eqb match camb.sources s with Some l => l | None => [] end
                  src) as [w'|] eqn:E.
      * exists w'. eexists. split; [reflexivity | exact E].
      * exists win. eexists. split; [reflexivity | apply dict_get_set_same_str].
    + intros sw. apply keeps_exists. intros w. apply keeps_modify. intros s H.
      now apply window_of_add.
  - intros _. apply keeps_exists. intros w.
    keeps_with ltac:(fail) ltac:(intros s0 H0; exact H0) ltac:(intros s0 H0; exact H0).
Qed.

(** The window registered for a source is never replaced by a call of
    [needs], also when a later [source_Cl] request describes the same source
    differently; and when [needs] returns, every source of every [source_Cl]
    request has a window. *)
Theorem source_windows_first_definition_wins :
  forall (solver : Solver) (reqs : list (string * requirement)) (s : camb.t),
    (forall src w, window_of src w s -> window_of src w (fst (camb.needs reqs s))) /\
    (forall s' r, camb.needs reqs s = (s', Return r) ->
       forall o src win, In ("source_Cl", ReqSourceCl o) reqs ->
         In (src, win) (src_sources o) -> exists w, window_of src w s').
Proof.
  intros solver reqs s. split.
  - intros src w. apply needs_keeps.
    + intros kv. apply needs_item_keeps_window.
    + intros f s0 H. exact H.
    + intros f s0 H. exact H.
  - intros s' r Hrun o src win Hin Hsrc.
    pose proof (needs_ensures solver (fun s0 => exists w, window_of src w s0) _
                  (needs_item_adds_window solver o src win Hsrc)
                  (fun kv' => keeps_exists _ _
                                (fun w => needs_item_keeps_window solver src w kv'))
                  (fun f s0 H => H) (fun f s0 H => H) reqs Hin s) as H.
    now rewrite Hrun in H.
Qed.

(** The same source described twice: the first window stays. *)
Lemma source_windows_first_definition_wins_witness :
  let solver := toy_solver None None None in
  let first := [("function", PyStr "gaussian"); ("redshift", PyNum 1)] in
  let second := [("function", PyStr "spline")] in
  let req w := ("source_Cl",
                ReqSourceCl {| src_sources := [("source1", w)]; src_limber := None;
                               src_non_linear := None; src_lmax := None |}) in
  let s := fst (camb.needs [req first] (fresh solver false)) in
  window_of "source1" first (fst (camb.needs [req second] s)).
Proof.
  intros solver first second req s.
  apply (proj1 (source_windows_first_definition_wins solver [req second] s)).
  exists [("source1", first)]. split; vm_compute; reflexivity.
Defined.

(* ================================================================== *)
(** ** initialize: the arguments of the two models *)

Lemma nth_error_tl {A} (l : list A) (i : nat) : nth_error (tl l) i = nth_error l (S i).
Proof. destruct l; [now destruct i | reflexivity]. Qed.

Lemma nth_error_combine {A B} (a : list A) (b : list B) (i : nat) :
  nth_error (combine a b) i =
  match nth_error a i, nth_error b i with
  | Some x, Some y => Some (x, y)
  | _, _ => None
  end.
Proof.
  revert b i. induction a as [|x a IH]; intros b i.
  - now destruct i.
  - destruct b as [|y b]; destruct i as [|i]; cbn; try reflexivity.
    + now destruct (nth_error a i).
    + apply IH.
Qed.

(** The pairs [initialize] reads from the signature of a model: the
    argument at position [i + 1] comes with the entry [i + 1] of [defaults],
    the pairs stop with the shorter of the two, and a signature without
    defaults is a [TypeError].  When every argument after [self] has a
    default, entry [i + 1] of [defaults] is the default of the argument at
    position [i + 2], and the argument at the last position is in no
    pair. *)
Theorem model_arguments_and_defaults :
  forall (solver : Solver) (pars : camb.FullArgSpec),
    match camb.spec_defaults pars with
    | None => camb.model_pars pars = Raise TypeError
    | Some defaults =>
        exists l,
          camb.model_pars pars = Return l /\
          (forall i, nth_error l i =
                     match nth_error (camb.spec_args pars) (S i),
                           nth_error defaults (S i) with
                     | Some arg, Some v => Some (arg, v)
                     | _, _ => None
                     end) /\
          (List.length (camb.spec_args pars) = S (List.length defaults) ->
           NoDup (camb.spec_args pars) ->
           forall arg, nth_error (camb.spec_args pars) (List.length defaults) = Some arg ->
                       ~ In arg (map fst l))
    end.
Proof.
  intros solver [args defaults]. cbn [camb.spec_defaults camb.spec_args].
  destruct defaults as [ds|]; [|reflexivity].
  unfold camb.model_pars. cbn [camb.spec_defaults camb.spec_args].
  exists (combine (tl args) (tl ds)). split; [reflexivity|]. split.
  - intros i. now rewrite nth_error_combine, !nth_error_tl.
  - intros Hlen Hnd arg Hn Hl.
    apply in_map_iff in Hl. destruct Hl as [[a v] [Ha Hl]]. cbn in Ha. subst a.
    destruct (In_nth_error _ _ Hl) as [i Hi].
    rewrite nth_error_combine, !nth_error_tl in Hi.
    destruct (nth_error args (S i)) as [a|] eqn:Ea; [|discriminate].
    destruct (nth_error ds (S i)) as [d|] eqn:Ed; [|discriminate].
    injection Hi as -> ->.
    assert (Hi : (S i < List.length ds)%nat) by (apply nth_error_Some; congruence).
    rewrite NoDup_nth_error in Hnd.
    assert (E : S i = List.length ds).
    { apply Hnd; [apply nth_error_Some; congruence | congruence]. }
    lia.
Qed.

(** A model with three arguments after [self], all with defaults. *)
Lemma model_arguments_and_defaults_witness :
  let solver := toy_solver None None None in
  let pars := {| camb.spec_args := ["self"; "As"; "ns"; "parameterization"];
                 camb.spec_defaults := Some [PyNum 2; PyNum 1; PyStr "tensor"] |} in
  exists l, camb.model_pars pars = Return l /\
            nth_error l 0 = Some ("As", PyNum 1) /\
            ~ In "parameterization" (map fst l).
Proof.
  intros solver pars.
  destruct (model_arguments_and_defaults solver pars) as [l [Hl [Hn Hlast]]].
  exists l. split; [exact Hl|]. split; [apply Hn|].
  apply Hlast; [reflexivity | | reflexivity].
  repeat constructor; simpl; intuition discriminate.
Defined.

(** *** What becomes of the entries of [extra_args] *)

Lemma sget_spop_other (d : dict) (k k' : string) :
  k <> k' -> sget (spop d k) k' = sget d k'.
Proof.
  intros Hne. unfold sget, spop. induction d as [|[k0 v0] d IH]; simpl; [reflexivity|].
  destruct (String.eqb_spec k0 k) as [->|Hk]; simpl.
  - destruct (String.eqb_spec k k'); [congruence | reflexivity].
  - destruct (String.eqb k0 k'); [reflexivity | exact IH].
Qed.

Lemma sget_absent (d : dict) (k : string) : ~ In k (dict_keys d) -> sget d k = None.
Proof.
  unfold sget, dict_keys. induction d as [|[k0 v0] d IH]; simpl; intros H; [reflexivity|].
  destruct (String.eqb_spec k0 k) as [->|Hk]; [tauto|]. apply IH. tauto.
Qed.

Lemma dict_keys_spop (d : dict) (k x : string) :
  In x (dict_keys (spop d k)) -> In x (dict_keys d).
Proof.
  unfold spop, dict_keys. induction d as [|[k0 v0] d IH]; simpl; [tauto|].
  destruct (String.eqb k0 k); simpl; tauto.
Qed.

Lemma NoDup_spop (d : dict) (k : string) :
  NoDup (dict_keys d) -> NoDup (dict_keys (spop d k)).
Proof.
  unfold spop, dict_keys. induction d as [|[k0 v0] d IH]; simpl; intros H; [constructor|].
  inversion H as [|? ? Hk0 Hd]; subst.
  destruct (String.eqb k0 k); simpl; [exact Hd|].
  constructor; [|now apply IH]. intros Hin. apply Hk0.
  now apply (dict_keys_spop d k).
Qed.

Lemma sget_spop_same (d : dict) (k : string) :
  NoDup (dict_keys d) -> sget (spop d k) k = None.
Proof.
  unfold sget, spop, dict_keys. induction d as [|[k0 v0] d IH]; simpl; intros H;
    [reflexivity|].
  inversion H as [|? ? Hk0 Hd]; subst.
  destruct (String.eqb_spec k0 k) as [->|Hk]; simpl.
  - now apply sget_absent.
  - destruct (String.eqb_spec k0 k); [congruence | now apply IH].
Qed.

(** The inner loop of [initialize] for one model. *)
Lemma collect_model_args_spec (solver : Solver) (pars : list (string * pyval)) :
  NoDup (map fst pars) ->
  forall (e a : dict) (p : list string),
    NoDup (dict_keys e) ->
    let '(e', a', p') := camb.collect_model_args pars e a p in
    NoDup (dict_keys e') /\
    (forall k,
       sget e' k = (if str_in k (map fst pars) then None else sget e k) /\
       sget a' k = (if str_in k (map fst pars)
                    then match sget e k with Some x => Some x | None => sget a k end
                    else sget a k)) /\
    p' = p ++ free_arguments (dict_mem String.eqb e) pars.
Proof.
  unfold free_arguments.
  induction pars as [|[arg v] r IH]; intros Hnd e a p He.
  - cbn. split; [exact He|]. split; [now intros k | now rewrite app_nil_r].
  - cbn [map fst] in Hnd. inversion Hnd as [|? ? Harg Hr]; subst.
    cbn [camb.collect_model_args].
    assert (Hfilter : forall e1 : dict,
              (forall k, k <> arg -> sget e1 k = sget e k) ->
              filter (fun av => negb (dict_mem String.eqb e1 (fst av)) &&
                                camb.is_Number_or_None (snd av)) r =
              filter (fun av => negb (dict_mem String.eqb e (fst av)) &&
                                camb.is_Number_or_None (snd av)) r).
    { intros e1 He1. apply filter_ext_in. intros [k w] Hk. cbn [fst snd].
      unfold dict_mem. fold (sget e1 k) (sget e k). rewrite He1; [reflexivity|].
      intros ->. apply Harg. apply in_map_iff. now exists (arg, w). }
    destruct (sget e arg) as [x|] eqn:Ex.
    + specialize (IH Hr (spop e arg) (sset a arg x) p (NoDup_spop e arg He)).
      destruct (camb.collect_model_args r (spop e arg) (sset a arg x) p)
        as [[e' a'] p'].
      destruct IH as [He' [Hk Hp]]. split; [exact He'|]. split.
      * intros k. destruct (Hk k) as [Hke Hka].
        cbn [map fst str_in existsb]. fold (str_in k (map fst r)).
        destruct (String.eqb_spec k arg) as [->|Hne]; cbn [orb].
        -- assert (Hn : str_in arg (map fst r) = false) by now apply str_in_false.
           rewrite Hn in Hke, Hka.
           rewrite Hke, Hka, sget_spop_same, sget_sset, String.eqb_refl, Ex by assumption.
           now split.
        -- rewrite Hke, Hka, sget_spop_other, sget_sset by congruence.
           destruct (String.eqb_spec arg k); [congruence|]. now split.
      * rewrite Hp. cbn [filter fst snd]. unfold dict_mem at 2. fold (sget e arg).
        rewrite Ex. cbn [negb andb].
        rewrite (Hfilter (spop e arg)); [reflexivity|].
        intros k Hne. apply sget_spop_other. congruence.
    + specialize (IH Hr e a (if camb.is_Number_or_None v then p ++ [arg] else p) He).
      destruct (camb.collect_model_args r e a
                  (if camb.is_Number_or_None v then p ++ [arg] else p)) as [[e' a'] p'].
      destruct IH as [He' [Hk Hp]]. split; [exact He'|]. split.
      * intros k. destruct (Hk k) as [Hke Hka].
        cbn [map fst str_in existsb]. fold (str_in k (map fst r)).
        destruct (String.eqb_spec k arg) as [->|Hne]; cbn [orb].
        -- assert (Hn : str_in arg (map fst r) = false) by now apply str_in_false.
           rewrite Hn in Hke, Hka. rewrite Hke, Hka, Ex. now split.
        -- now split.
      * rewrite Hp. cbn [filter fst snd]. unfold dict_mem at 2. fold (sget e arg).
        rewrite Ex. cbn [negb andb].
        destruct (camb.is_Number_or_None v); cbn [map fst];
          [now rewrite <- app_assoc | reflexivity].
Qed.

(** [initialize] with the two signatures: every entry of [extra_args] that
    names an argument of the non-linear model moves to [nonlin_args], every
    other one that names an argument of the power-spectrum model moves to
    [initial_power_args], the rest stays, and nothing is lost or copied.
    The parameters of each model are its arguments that found no entry and
    have a number or [None] as paired default; for the power-spectrum
    model, an entry already taken by the non-linear model counts as not
    found. *)
Theorem initialize_moves_model_arguments :
  forall (solver : Solver) (extra : dict) (inputs outputs : list string)
         (nonlin power_spectrum : camb.FullArgSpec) (stop : bool)
         (translate : string -> string) (nl_pars power_pars : list (string * pyval)),
    camb.model_pars nonlin = Return nl_pars ->
    camb.model_pars power_spectrum = Return power_pars ->
    NoDup (dict_keys extra) -> NoDup (map fst nl_pars) -> NoDup (map fst power_pars) ->
    exists s,
      camb.initialize_from extra inputs outputs nonlin power_spectrum stop translate
        = Return s /\
      (forall k,
         sget (camb.nonlin_args s) k =
           (if str_in k (map fst nl_pars) then sget extra k else None) /\
         sget (camb.initial_power_args s) k =
           (if str_in k (map fst nl_pars) then None
            else if str_in k (map fst power_pars) then sget extra k else None) /\
         sget (camb.extra_args s) k =
           (if str_in k (map fst nl_pars) || str_in k (map fst power_pars) then None
            else sget extra k)) /\
      camb.nonlin_params s = free_arguments (dict_mem String.eqb extra) nl_pars /\
      camb.power_params s =
        free_arguments (fun arg => dict_mem String.eqb extra arg &&
                                   negb (str_in arg (map fst nl_pars))) power_pars.
Proof.
  intros solver extra inputs outputs nonlin power stop tr nl_pars pw_pars
         Hnl Hpw He Hnd_nl Hnd_pw.
  unfold camb.initialize_from. rewrite Hnl, Hpw.
  pose proof (collect_model_args_spec solver nl_pars Hnd_nl extra [] [] He) as H1.
  destruct (camb.collect_model_args nl_pars extra [] []) as [[e1 a1] p1].
  destruct H1 as [He1 [Hk1 Hp1]].
  pose proof (collect_model_args_spec solver pw_pars Hnd_pw e1 [] [] He1) as H2.
  destruct (camb.collect_model_args pw_pars e1 [] []) as [[e2 a2] p2].
  destruct H2 as [He2 [Hk2 Hp2]].
  eexists. split; [reflexivity|]. unfold camb.initialize.
  cbn [camb.nonlin_args camb.initial_power_args camb.extra_args camb.nonlin_params
       camb.power_params].
  split; [|split].
  - intros k. destruct (Hk1 k) as [Hke1 Hka1]. destruct (Hk2 k) as [Hke2 Hka2].
    rewrite Hka1, Hka2, Hke2, Hke1.
    destruct (str_in k (map fst nl_pars)), (str_in k (map fst pw_pars)); cbn;
      repeat split; try reflexivity; now destruct (sget extra k).
  - exact Hp1.
  - rewrite Hp2. cbn [app]. unfold free_arguments. f_equal. apply filter_ext.
    intros [arg v]. cbn [fst snd]. f_equal. f_equal. unfold dict_mem.
    fold (sget e1 arg) (sget extra arg). rewrite (proj1 (Hk1 arg)).
    destruct (str_in arg (map fst nl_pars)); [now destruct (sget extra arg)|].
    now rewrite andb_true_r.
Qed.

(** An accuracy setting of the non-linear model, a pivot of the power
    spectrum, and a setting of the solver itself. *)
Lemma initialize_moves_model_arguments_witness :
  let solver := toy_solver None None None in
  let nonlin := {| camb.spec_args := ["self"; "halofit_version"; "HMCode_A_baryon"; "last"];
                   camb.spec_defaults := Some [PyStr "mead"; PyNum 3; PyNone] |} in
  let power := {| camb.spec_args := ["self"; "As"; "ns"; "pivot_scalar"; "last"];
                  camb.spec_defaults := Some [PyNum 2; PyNum 1; PyNum 5; PyNone] |} in
  let extra := [("halofit_version", PyStr "takahashi"); ("pivot_scalar", PyNum 2);
                ("lmax", PyNum 2500)] in
  exists s,
    camb.initialize_from extra [] [] nonlin power false (fun p => p) = Return s /\
    sget (camb.nonlin_args s) "halofit_version" = Some (PyStr "takahashi") /\
    sget (camb.extra_args s) "lmax" = Some (PyNum 2500) /\
    camb.power_params s = ["As"; "ns"].
Proof.
  intros solver nonlin power extra.
  destruct (initialize_moves_model_arguments solver extra [] [] nonlin power false
              (fun p => p) _ _ eq_refl eq_refl) as [s [Hs [Hk [_ Hp]]]].
  - repeat constructor; simpl; intuition discriminate.
  - repeat constructor; simpl; intuition discriminate.
  - repeat constructor; simpl; intuition discriminate.
  - exists s. split; [exact Hs|]. split; [|split].
    + exact (proj1 (Hk "halofit_version")).
    + exact (proj2 (proj2 (Hk "lmax"))).
    + exact Hp.
Defined.

(** *** The declared requirements *)

Lemma Permutation_filter_split {A} (f : A -> bool) (l : list A) :
  Permutation l (filter f l ++ filter (fun x => negb (f x)) l).
Proof.
  induction l as [|x l IH]; cbn [filter]; [constructor|].
  destruct (f x); cbn [negb app].
  - now constructor.
  - now apply Permutation_cons_app.
Qed.

(** The end of [initialize]: a declared requirement stays in [requires] when
    one of the two models supports it, and goes to [_transfer_requires] when
    none does; each list keeps the order of the declaration, and together
    they hold every declared requirement as often as it was declared. *)
Theorem requires_are_split :
  forall (solver : Solver) (s : camb.t) (requires : list string),
    let supported p := str_in p (camb.power_params s ++ camb.nonlin_params s) in
    fst (camb.split_requires s requires) = filter supported requires /\
    snd (camb.split_requires s requires) = filter (fun p => negb (supported p)) requires /\
    Permutation requires
      (fst (camb.split_requires s requires) ++ snd (camb.split_requires s requires)).
Proof.
  intros solver s requires supported. subst supported. cbv beta.
  assert (Hfst : fst (camb.split_requires s requires) =
                 filter (fun p => str_in p (camb.power_params s ++ camb.nonlin_params s))
                        requires).
  { unfold camb.split_requires, camb.get_can_support_params. cbn [fst].
    apply filter_ext_in. intros p Hp.
    destruct (str_in p (camb.power_params s ++ camb.nonlin_params s)) eqn:E.
    - apply negb_true_iff, str_in_false. intros Hin. apply filter_In in Hin.
      rewrite E in Hin. now destruct Hin.
    - apply negb_false_iff, str_in_In, filter_In. rewrite E. now split. }
  split; [exact Hfst|]. split; [reflexivity|].
  rewrite Hfst. apply Permutation_filter_split.
Qed.

(* ================================================================== *)
(** ** From the requirements to the solver call of the helper *)

(** What [needs] returns is read from the attributes it leaves. *)
Lemma needs_returns_flags (solver : Solver) (reqs : list (string * requirement))
    (s s' : camb.t) (r : transfers_requirement) :
  camb.needs reqs s = (s', Return r) ->
  r = {| non_linear := camb.non_linear_sources s';
         req_needs_perts := camb.needs_perts s' |}.
Proof.
  rewrite needs_unfold. unfold bind at 1.
  destruct (for_each reqs camb.needs_item s) as [s1 [u|e]]; [|discriminate].
  unfold bind, get, modify, ret, raise.
  destruct (camb.nonempty _); [discriminate|].
  intros E. injection E as <- <-. reflexivity.
Qed.

(** The helper takes over the two flags. *)
Lemma transfers_needs_flags (solver : Solver) (r : transfers_requirement)
    (h h' : CambTransfers.t) :
  CambTransfers.needs (Some r) h = (h', Return tt) ->
  CambTransfers.non_linear_sources h' = non_linear r /\
  CambTransfers.needs_perts h' = req_needs_perts r.
Proof.
  unfold CambTransfers.needs, bind, modify, get, raise, ret.
  cbn [fst snd]. destruct (camb.nonempty _); [discriminate|].
  intros E. injection E as <-. now split.
Qed.

(** Goals [ensures (fun s => needs_perts s = true) m] where [m] sets the
    flag or raises. *)
Ltac reach_perturbations :=
  repeat lazymatch goal with
  | |- ensures _ (raise _) => apply ensures_raise
  | |- ensures _ (bind (modify (camb.upd_needs_perts _)) _) =>
      apply ensures_bind_l;
      [ apply ensures_modify; intros ?; reflexivity
      | intros ?;
        keeps_with ltac:(fail) ltac:(intros s0 H0; exact H0)
                   ltac:(intros s0 H0; first [exact H0 | reflexivity]) ]
  | |- ensures _ (modify (camb.upd_needs_perts _)) =>
      apply ensures_modify; intros ?; reflexivity
  | |- ensures _ (bind _ _) => apply ensures_bind_r; intros ?
  | |- ensures _ (if ?b then _ else _) => destruct b
  | |- ensures _ (match ?x with _ => _ end) => destruct x
  end.

Lemma needs_item_sets_perturbations (solver : Solver) (k : string) (v : requirement) :
  str_in k perturbation_names = true ->
  ensures (fun s => camb.needs_perts s = true) (camb.needs_item (k, v)).
Proof.
  intros Hk. apply str_in_In in Hk. unfold perturbation_names in Hk. cbn [In] in Hk.
  repeat (destruct Hk as [<-|Hk]); [ .. | destruct Hk];
    unfold camb.needs_item; cbn [String.eqb Ascii.eqb Bool.eqb str_in existsb orb];
    open_products; cbv zeta; cbn [String.eqb Ascii.eqb Bool.eqb];
    reach_perturbations.
Qed.

Lemma needs_item_keeps_perturbations (solver : Solver) (kv : string * requirement) :
  keeps (fun s => camb.needs_perts s = true) (camb.needs_item kv).
Proof.
  destruct kv as [k v]. unfold camb.needs_item. open_products. cbv zeta.
  keeps_with ltac:(fail) ltac:(intros s0 H0; exact H0)
             ltac:(intros s0 H0; first [exact H0 | reflexivity]).
Qed.

(** A request outside the list leaves both flags off. *)
Lemma needs_item_background_only (solver : Solver) (kv : string * requirement) :
  str_in (fst kv) perturbation_names = false ->
  keeps (fun s => camb.needs_perts s = false /\ camb.non_linear_sources s = false)
        (camb.needs_item kv).
Proof.
  destruct kv as [k v]. cbn [fst]. intros H.
  unfold str_in, perturbation_names in H. cbn [existsb] in H.
  repeat (apply orb_false_iff in H; destruct H as [? H]).
  unfold camb.needs_item, str_in. cbn [existsb].
  repeat match goal with E : (k =? _) = false |- _ => rewrite E; cbn [orb] end.
  open_products. cbv zeta.
  repeat match goal with E : (k =? _) = false |- _ => rewrite E end.
  keeps_with ltac:(fail)
    ltac:(let sq := fresh "s" in let Hq := fresh "H" in intros sq Hq; exact Hq)
    ltac:(let sq := fresh "s" in let Hq := fresh "H" in intros sq Hq; exact Hq).
Qed.

(** The solver call of the helper, from the requirements given to its
    owner: when [needs] returns and the helper has taken its result, a
    request for the spectra, for [fsigma8], for the matter power, for the
    source spectra or for [sigma8] makes the helper compute the transfer
    functions, with time sources only when the non-linear treatment of the
    sources is on; when there is no such request and the two flags were off
    before, the helper computes the background alone. *)
Theorem solver_call_follows_requests :
  forall (solver : Solver) (reqs : list (string * requirement)) (s s' : camb.t)
         (r : transfers_requirement) (h h' : CambTransfers.t) (cp : CAMBparams),
    camb.needs reqs s = (s', Return r) ->
    CambTransfers.needs (Some r) h = (h', Return tt) ->
    ((exists kv, In kv reqs /\ str_in (fst kv) perturbation_names = true) ->
     CambTransfers.compute_transfers h' cp =
     get_transfer_functions cp (camb.non_linear_sources s')) /\
    ((forall kv, In kv reqs -> str_in (fst kv) perturbation_names = false) ->
     camb.needs_perts s = false -> camb.non_linear_sources s = false ->
     CambTransfers.compute_transfers h' cp = get_background cp).
Proof.
  intros solver reqs s s' r h h' cp Hrun Hh.
  pose proof (needs_returns_flags solver reqs s s' r Hrun) as Hr.
  destruct (transfers_needs_flags solver r h h' Hh) as [Hnl Hnp].
  unfold CambTransfers.compute_transfers. rewrite Hnl, Hnp, Hr. cbn [non_linear req_needs_perts].
  split.
  - intros [[k v] [Hin Hk]]. cbn [fst] in Hk.
    pose proof (needs_ensures solver (fun s0 => camb.needs_perts s0 = true) (k, v)
                  (needs_item_sets_perturbations solver k v Hk)
                  (needs_item_keeps_perturbations solver)
                  (fun f s0 H => H) (fun f s0 H => H) reqs Hin s) as H.
    rewrite Hrun in H. rewrite H. now destruct (camb.non_linear_sources s').
  - intros Hall Hp Hn.
    assert (Hkeep : keeps (fun s0 => camb.needs_perts s0 = false /\
                                     camb.non_linear_sources s0 = false)
                          (camb.needs reqs)).
    { rewrite needs_unfold. apply keeps_bind.
      - clear - Hall. induction reqs as [|kv reqs IH]; cbn [for_each].
        + apply keeps_ret.
        + apply keeps_bind.
          * apply needs_item_background_only, Hall. now left.
          * intros _. apply IH. intros kv' Hin. apply Hall. now right.
      - intros _.
        keeps_with ltac:(fail) ltac:(intros s0 H0; exact H0)
                   ltac:(intros s0 H0; exact H0). }
    pose proof (Hkeep s (conj Hp Hn)) as H. rewrite Hrun in H. cbn [fst] in H.
    destruct H as [-> ->]. reflexivity.
Qed.

(** The background alone for the expansion rate; the transfer functions as
    soon as [fsigma8] is asked for too. *)
Lemma solver_call_follows_requests_witness :
  let solver := toy_solver None None None in
  let s0 := fresh solver false in
  let h0 := get_helper_theories s0 [] in
  let background := [("Hubble", ReqZ [1%Z]); ("omegam", ReqNone)] in
  let growth := [("Hubble", ReqZ [1%Z]); ("fsigma8", ReqZ [1%Z])] in
  let off := {| non_linear := false; req_needs_perts := false |} in
  let on := {| non_linear := false; req_needs_perts := true |} in
  (snd (camb.needs background s0) = Return off /\
   CambTransfers.compute_transfers (fst (CambTransfers.needs (Some off) h0)) [] =
     get_background []) /\
  (snd (camb.needs growth s0) = Return on /\
   CambTransfers.compute_transfers (fst (CambTransfers.needs (Some on) h0)) [] =
     get_transfer_functions [] false).
Proof.
  intros solver s0 h0 background growth off on. split; (split; [reflexivity|]).
  - apply (proj2 (solver_call_follows_requests solver background s0
                    (fst (camb.needs background s0)) off h0 _ []
                    ltac:(vm_compute; reflexivity) ltac:(vm_compute; reflexivity)));
      [|reflexivity|reflexivity].
    intros kv [<-|[<-|[]]]; reflexivity.
  - apply (proj1 (solver_call_follows_requests solver growth s0
                    (fst (camb.needs growth s0)) on h0 _ []
                    ltac:(vm_compute; reflexivity) ltac:(vm_compute; reflexivity))).
    exists ("fsigma8", ReqZ [1%Z]). split; [simpl; tauto | reflexivity].
Defined.

(* ================================================================== *)
(** ** What a successful [calculate] leaves in the state *)

Section Runs.
Context {St : Type}.

(** A sequence returns when both of its parts do. *)
Lemma bind_returns {A B} (m : M St A) (k : A -> M St B) (s s' : St) (b : B) :
  bind m k s = (s', Return b) ->
  exists s1 a, m s = (s1, Return a) /\ k a s1 = (s', Return b).
Proof.
  unfold bind. destruct (m s) as [s1 [a|e]]; [|discriminate].
  intros H. now exists s1, a.
Qed.

Lemma lift_returns {A} (r : result A) (s s' : St) (a : A) :
  lift r s = (s', Return a) -> s' = s /\ r = Return a.
Proof. unfold lift. intros H. injection H as <- ->. now split. Qed.

Lemma ret_returns {A} (x a : A) (s s' : St) :
  ret x s = (s', Return a) -> s' = s /\ a = x.
Proof. unfold ret. intros H. injection H as <- <-. now split. Qed.

Lemma get_returns (s s' a : St) : get s = (s', Return a) -> s' = s /\ a = s.
Proof. unfold get. intros H. injection H as <- <-. now split. Qed.
End Runs.

Lemma product_eqb_eq (a b : product) : product_eqb a b = true <-> a = b.
Proof.
  split; [|intros ->; apply product_eqb_refl].
  destruct a, b; cbn; try discriminate.
  - intros E. apply String.eqb_eq in E. now subst.
  - intros E. apply andb_true_iff in E. destruct E as [E E3].
    apply andb_true_iff in E. destruct E as [E1 E2].
    apply Bool.eqb_prop in E1. apply String.eqb_eq in E2, E3. now subst.
Qed.

Lemma dict_get_set_other {V} (d : list (product * V)) (k p : product) (v : V) :
  k <> p ->
  dict_get product_eqb (dict_set product_eqb d k v) p = dict_get product_eqb d p.
Proof.
  intros Hne.
  assert (Hkp : product_eqb k p = false).
  { destruct (product_eqb k p) eqn:E; [|reflexivity]. now apply product_eqb_eq in E. }
  induction d as [|[k' v'] d IH]; simpl.
  - now rewrite Hkp.
  - destruct (product_eqb k' k) eqn:Ek; simpl.
    + apply product_eqb_eq in Ek. subst k'. now rewrite Hkp.
    + destruct (product_eqb k' p); [reflexivity | exact IH].
Qed.

(** The loop of [calculate] over the collectors, when it returns: the
    object is untouched, the products outside the registry too, and every
    registered product holds what its collector gave. *)
Lemma product_loop_returns (solver : Solver) (s : camb.t) (res : option CAMBdata)
    (cs : list (product * option Collector)) :
  forall c0 c1,
    for_each cs (fun pc =>
      match snd pc, res with
      | Some collector, Some r =>
          bind (lift (call_method (method collector) r (args collector)
                                  (camb.deref s (kwargs collector))))
               (fun v => camb.on_state (set_product (fst pc) (Computed v)))
      | None, Some r => camb.on_state (set_product (fst pc) (ResultsObject r))
      | _, None => ret tt
      end) c0 = (c1, Return tt) ->
    fst c1 = fst c0 /\
    params (snd c1) = params (snd c0) /\
    results (snd c1) = results (snd c0) /\
    derived (snd c1) = derived (snd c0) /\
    state_derived_extra (snd c1) = state_derived_extra (snd c0) /\
    (forall p, ~ In p (dict_keys cs) ->
       dict_get product_eqb (products (snd c1)) p =
       dict_get product_eqb (products (snd c0)) p) /\
    (NoDup (dict_keys cs) -> forall r, res = Some r ->
     forall p c, In (p, c) cs ->
       match c with
       | Some collector =>
           exists v, call_method (method collector) r (args collector)
                                 (camb.deref s (kwargs collector)) = Return v /\
                     dict_get product_eqb (products (snd c1)) p = Some (Computed v)
       | None => dict_get product_eqb (products (snd c1)) p = Some (ResultsObject r)
       end).
Proof.
  induction cs as [|[p0 c0'] cs IH]; intros c0 c1 Hrun.
  - cbn in Hrun. injection Hrun as <-. repeat split; try reflexivity.
    intros _ r _ p c [].
  - cbn [for_each] in Hrun. apply bind_returns in Hrun.
    destruct Hrun as [cm [u [Hstep Hrest]]]. destruct u.
    specialize (IH cm c1 Hrest).
    destruct IH as [Hs [Hp [Hr [Hd [Hde [Hout Hin]]]]]].
    cbn [fst snd] in Hstep.
    assert (Hm : fst cm = fst c0 /\ params (snd cm) = params (snd c0) /\
                 results (snd cm) = results (snd c0) /\
                 derived (snd cm) = derived (snd c0) /\
                 state_derived_extra (snd cm) = state_derived_extra (snd c0) /\
                 (forall p, p <> p0 ->
                    dict_get product_eqb (products (snd cm)) p =
                    dict_get product_eqb (products (snd c0)) p) /\
                 (forall r, res = Some r ->
                    match c0' with
                    | Some collector =>
                        exists v, call_method (method collector) r (args collector)
                                    (camb.deref s (kwargs collector)) = Return v /\
                                  dict_get product_eqb (products (snd cm)) p0 =
                                  Some (Computed v)
                    | None => dict_get product_eqb (products (snd cm)) p0 =
                              Some (ResultsObject r)
                    end)).
    { destruct res as [r|].
      - destruct c0' as [collector|].
        + apply bind_returns in Hstep. destruct Hstep as [c2 [v [Hv Hset]]].
          apply lift_returns in Hv. destruct Hv as [-> Hv].
          unfold camb.on_state in Hset. injection Hset as <-. cbn [fst snd].
          repeat split; try reflexivity.
          * intros p Hne. cbn [products set_product]. apply dict_get_set_other. congruence.
          * intros r' E. injection E as <-. exists v. split; [exact Hv|].
            cbn [products set_product]. apply dict_get_set_same.
        + unfold camb.on_state in Hstep. injection Hstep as <-. cbn [fst snd].
          repeat split; try reflexivity.
          * intros p Hne. cbn [products set_product]. apply dict_get_set_other. congruence.
          * intros r' E. injection E as <-. cbn [products set_product].
            apply dict_get_set_same.
      - assert (E : cm = c0) by (destruct c0'; now injection Hstep as <-).
        subst cm. repeat split; try reflexivity. intros r E. discriminate. }
    destruct Hm as [Hs' [Hp' [Hr' [Hd' [Hde' [Hout' Hin']]]]]].
    repeat split; try congruence.
    + intros p Hp0. cbn [dict_keys map fst] in Hp0.
      rewrite Hout by (intros H; apply Hp0; now right).
      apply Hout'. intros ->. apply Hp0. now left.
    + intros Hnd r Hres p c [E|Hpc].
      * injection E as <- <-. cbn [dict_keys map fst] in Hnd.
        inversion Hnd as [|? ? Hp0 Hnd']; subst.
        specialize (Hin' r eq_refl).
        destruct c0' as [collector|].
        -- destruct Hin' as [v [Hv Hg]]. exists v. split; [exact Hv|].
           now rewrite Hout.
        -- now rewrite Hout.
      * cbn [dict_keys map fst] in Hnd. inversion Hnd as [|? ? Hp0 Hnd']; subst.
        now apply (Hin Hnd' r eq_refl p c).
Qed.

(** The value of every output parameter, when [_get_derived_output]
    returns. *)
Lemma derived_output_loop_returns (solver : Solver) (s : camb.t)
    (im : camb.CAMBOutputs) (ps : list string) :
  forall acc d,
    camb.derived_output_loop s ps im acc = Return d ->
    (forall x, In x ps ->
       exists v, dict_get String.eqb d x = Some v /\
                 camb._get_derived (camb.translate_param s x) im = Return v /\
                 is_None v = false) /\
    (forall x, ~ In x ps -> dict_get String.eqb d x = dict_get String.eqb acc x).
Proof.
  induction ps as [|p ps IH]; intros acc d Hrun.
  - cbn in Hrun. injection Hrun as <-. split; [intros x [] | reflexivity].
  - cbn [camb.derived_output_loop] in Hrun.
    destruct (camb._get_derived (camb.translate_param s p) im) as [v|e] eqn:Ev;
      [|discriminate].
    destruct (is_None v) eqn:En; [discriminate|].
    destruct (IH _ _ Hrun) as [Hin Hout]. split.
    + intros x [<-|Hx]; [|now apply Hin].
      destruct (in_dec string_dec p ps) as [Hp|Hp]; [now apply Hin|].
      exists v. rewrite (Hout p Hp), dict_get_set_same_str. now repeat split.
    + intros x Hx. rewrite Hout by (intros H; apply Hx; now right).
      apply dict_get_set_other_str. intros ->. apply Hx. now left.
Qed.

Lemma derived_extra_loop_returns (solver : Solver) (im : camb.CAMBOutputs)
    (ps : list string) :
  forall acc d,
    camb.derived_extra_loop ps im acc = Return d ->
    (forall x, In x ps ->
       exists v, dict_get String.eqb d x = Some v /\
                 camb._get_derived x im = Return v) /\
    (forall x, ~ In x ps -> dict_get String.eqb d x = dict_get String.eqb acc x).
Proof.
  induction ps as [|p ps IH]; intros acc d Hrun.
  - cbn in Hrun. injection Hrun as <-. split; [intros x [] | reflexivity].
  - cbn [camb.derived_extra_loop] in Hrun.
    destruct (camb._get_derived p im) as [v|e] eqn:Ev; [|discriminate].
    destruct (IH _ _ Hrun) as [Hin Hout]. split.
    + intros x [<-|Hx]; [|now apply Hin].
      destruct (in_dec string_dec p ps) as [Hp|Hp]; [now apply Hin|].
      exists v. rewrite (Hout p Hp), dict_get_set_same_str. now split.
    + intros x Hx. rewrite Hout by (intros H; apply Hx; now right).
      apply dict_get_set_other_str. intros ->. apply Hx. now left.
Qed.

(** [calculate] returns [None] only when its [try] block went through. *)
Lemma calculate_went_through (solver : Solver) (want_derived : bool)
    (provider : result (CAMBparams * CAMBdata)) (pvd : dict)
    (c c' : camb.t * state) :
  camb.calculate want_derived provider pvd c = (c', Return returns_None) ->
  exists c1 cp res,
    camb.calculate_body provider pvd c = (c1, Return (cp, res)) /\
    bind (lift (match res with
                | Some r => match get_derived_params r with
                            | Return d => Return (Some d)
                            | Raise e => Raise e
                            end
                | None => Return None
                end))
      (fun dp =>
         let intermediates := {| camb.camb_params := cp; camb.out_results := res;
                                 camb.out_derived := dp |} in
         bind (if want_derived
               then bind get (fun cs =>
                    bind (lift (camb._get_derived_output (fst cs) intermediates))
                         (fun d => camb.on_state (set_derived d)))
               else ret tt)
           (fun _ =>
              bind get (fun cs =>
              bind (lift (camb.derived_extra_loop (camb.derived_extra (fst cs))
                            intermediates []))
                (fun de =>
                   bind (camb.on_state (set_derived_extra de))
                        (fun _ => ret returns_None))))) c1
    = (c', Return returns_None).
Proof.
  unfold camb.calculate. intros H. apply bind_returns in H.
  destruct H as [c1 [r [Htry Hrest]]].
  unfold try_except in Htry.
  destruct (bind (camb.calculate_body provider pvd) (fun x => ret (inl x)) c)
    as [c2 [x|e]] eqn:Hbody.
  - injection Htry as <- <-. apply bind_returns in Hbody.
    destruct Hbody as [c3 [[cp res] [Hb Hret]]]. apply ret_returns in Hret.
    destruct Hret as [-> ->]. exists c3, cp, res. split; [exact Hb | exact Hrest].
  - exfalso. unfold camb.calculate_handler in Htry.
    destruct e as [m|k text|k|n| | |]; try discriminate.
    destruct (isinstance_CAMBError k); [|discriminate].
    unfold bind, get, raise, ret, camb.on_self, camb.write_log, modify in Htry.
    cbn [fst snd] in Htry.
    destruct (camb.stop_at_error (fst c2)); [discriminate|].
    injection Htry as <- <-. unfold ret in Hrest. discriminate.
Qed.

(** The [try] block of [calculate], when it returns. *)
Lemma calculate_body_returns (solver : Solver)
    (provider : result (CAMBparams * CAMBdata)) (pvd : dict)
    (c c1 : camb.t * state) (cp : CAMBparams) (res : option CAMBdata) :
  camb.calculate_body provider pvd c = (c1, Return (cp, res)) ->
  (exists tr, provider = Return (cp, tr)) /\
  (camb.collectors (fst c) = [] <-> res = None) /\
  for_each (camb.collectors (fst c)) (fun pc =>
    match snd pc, res with
    | Some collector, Some r =>
        bind (lift (call_method (method collector) r (args collector)
                                (camb.deref (fst c) (kwargs collector))))
             (fun v => camb.on_state (set_product (fst pc) (Computed v)))
    | None, Some r => camb.on_state (set_product (fst pc) (ResultsObject r))
    | _, None => ret tt
    end) c = (c1, Return tt).
Proof.
  unfold camb.calculate_body. intros H.
  apply bind_returns in H. destruct H as [c2 [[cp0 tr] [Hpr H]]].
  apply lift_returns in Hpr. destruct Hpr as [-> Hpr].
  apply bind_returns in H. destruct H as [c3 [c4 [Hget H]]].
  apply get_returns in Hget. destruct Hget as [-> ->].
  apply bind_returns in H. destruct H as [c5 [res0 [Hres H]]].
  apply bind_returns in H. destruct H as [c6 [u [Hloop Hret]]].
  apply ret_returns in Hret. destruct Hret as [-> E]. injection E as <- <-.
  assert (Hc5 : c5 = c /\ (camb.collectors (fst c) = [] <-> res = None)).
  { destruct (camb.collectors (fst c)) as [|pc cs].
    - cbn in Hres. injection Hres as <- <-. now split.
    - cbn [camb.nonempty] in Hres.
      apply bind_returns in Hres. destruct Hres as [d1 [r1 [H1 Hres]]].
      apply lift_returns in H1. destruct H1 as [-> _].
      apply bind_returns in Hres. destruct Hres as [d2 [r2 [H2 Hres]]].
      assert (d2 = c).
      { destruct (camb.non_linear_sources (fst c) || camb.non_linear_pk (fst c)).
        - now apply lift_returns in H2.
        - now apply ret_returns in H2. }
      subst d2.
      apply bind_returns in Hres. destruct Hres as [d3 [r3 [H3 Hres]]].
      apply lift_returns in H3. destruct H3 as [-> _].
      apply ret_returns in Hres. destruct Hres as [-> ->].
      split; [reflexivity|]. split; discriminate. }
  destruct Hc5 as [-> Hempty]. destruct u.
  split; [now exists tr|]. split; [exact Hempty | exact Hloop].
Qed.

(** [calculate], when it returns [None] for a registry without repeated
    keys: the object is as before, and so are the parameters, the transfer
    results and the products that have no collector; every product of the
    registry is in the state, with what its collector's method returned for
    the result object, or with the result object itself for a collector that
    is [None]; [derived_extra] has a value for every name of
    [self.derived_extra]; and [derived] has a value that is not [None] for
    every output parameter when derived parameters are wanted, and is left
    alone when they are not. *)
Theorem calculate_fills_the_state :
  forall (solver : Solver) (want_derived : bool)
         (provider : result (CAMBparams * CAMBdata)) (pvd : dict)
         (s s' : camb.t) (st st' : state),
    NoDup (dict_keys (camb.collectors s)) ->
    camb.calculate want_derived provider pvd (s, st) = ((s', st'), Return returns_None) ->
    s' = s /\ params st' = params st /\ results st' = results st /\
    (forall p, ~ In p (dict_keys (camb.collectors s)) ->
       dict_get product_eqb (products st') p = dict_get product_eqb (products st) p) /\
    (exists res : option CAMBdata,
       (camb.collectors s = [] <-> res = None) /\
       forall p c, In (p, c) (camb.collectors s) ->
         exists r, res = Some r /\
           match c with
           | Some collector =>
               exists v, call_method (method collector) r (args collector)
                           (camb.deref s (kwargs collector)) = Return v /\
                         dict_get product_eqb (products st') p = Some (Computed v)
           | None => dict_get product_eqb (products st') p = Some (ResultsObject r)
           end) /\
    (exists de, state_derived_extra st' = Some de /\
       forall x, In x (camb.derived_extra s) -> dict_get String.eqb de x <> None) /\
    (if want_derived
     then exists d, derived st' = Some d /\
            forall x, In x (camb.output_params s) ->
              exists v, dict_get String.eqb d x = Some v /\ is_None v = false
     else derived st' = derived st).
Proof.
  intros solver want provider pvd s s' st st' Hnd Hrun.
  apply calculate_went_through in Hrun.
  destruct Hrun as [c1 [cp [res [Hbody Hrest]]]].
  apply calculate_body_returns in Hbody. cbn [fst] in Hbody.
  destruct Hbody as [_ [Hempty Hloop]].
  apply product_loop_returns in Hloop. cbn [fst snd] in Hloop.
  destruct Hloop as [Hs [Hp [Hr [Hd [Hde [Hout Hin]]]]]].
  destruct c1 as [s1 st1]. cbn [fst snd] in *. subst s1.
  apply bind_returns in Hrest. destruct Hrest as [c2 [dp [Hdp Hrest]]].
  apply lift_returns in Hdp. destruct Hdp as [-> _]. cbv zeta in Hrest.
  apply bind_returns in Hrest. destruct Hrest as [[s2 st2] [u [Hwant Hrest]]].
  assert (Hw : s2 = s /\ params st2 = params st1 /\ results st2 = results st1 /\
               products st2 = products st1 /\
               if want
               then exists d, derived st2 = Some d /\
                      forall x, In x (camb.output_params s) ->
                        exists v, dict_get String.eqb d x = Some v /\ is_None v = false
               else derived st2 = derived st1).
  { destruct want.
    - apply bind_returns in Hwant. destruct Hwant as [c3 [c4 [Hget Hwant]]].
      apply get_returns in Hget. destruct Hget as [-> ->].
      apply bind_returns in Hwant. destruct Hwant as [c5 [d [Hd' Hset]]].
      apply lift_returns in Hd'. destruct Hd' as [-> Hd']. cbn [fst] in Hd'.
      unfold camb.on_state in Hset. injection Hset as <- <-. cbn [fst snd].
      repeat split; try reflexivity. exists d. split; [reflexivity|].
      intros x Hx. unfold camb._get_derived_output in Hd'.
      destruct (proj1 (derived_output_loop_returns solver _ _ _ _ _ Hd') x Hx)
        as [v [Hv [_ Hn]]].
      now exists v.
    - apply ret_returns in Hwant. destruct Hwant as [E _]. injection E as <- <-.
      now repeat split. }
  destruct Hw as [-> [Hp2 [Hr2 [Hpr2 Hd2]]]].
  apply bind_returns in Hrest. destruct Hrest as [c3 [c4 [Hget Hrest]]].
  apply get_returns in Hget. destruct Hget as [-> ->]. cbn [fst] in Hrest.
  apply bind_returns in Hrest. destruct Hrest as [c5 [de [Hde' Hrest]]].
  apply lift_returns in Hde'. destruct Hde' as [-> Hde'].
  apply bind_returns in Hrest. destruct Hrest as [c6 [u' [Hset Hret]]].
  apply ret_returns in Hret. destruct Hret as [<- _].
  unfold camb.on_state in Hset. injection Hset as <- <-. cbn [fst snd].
  cbn [params results products derived state_derived_extra set_derived_extra].
  split; [reflexivity|]. split; [congruence|]. split; [congruence|]. split; [|split; [|split]].
  - intros p Hpn. rewrite Hpr2. now apply Hout.
  - exists res. split; [exact Hempty|]. intros p c Hpc.
    destruct res as [r|].
    + exists r. split; [reflexivity|]. rewrite Hpr2. now apply (Hin Hnd r eq_refl p c).
    + exfalso. rewrite (proj2 Hempty eq_refl) in Hpc. destruct Hpc.
  - exists de. split; [reflexivity|]. intros x Hx.
    destruct (proj1 (derived_extra_loop_returns solver _ _ _ _ Hde') x Hx) as [v [Hv _]].
    congruence.
  - destruct want; [exact Hd2 | congruence].
Qed.

(** The expansion rate and the result object, with one derived parameter. *)
Lemma calculate_fills_the_state_witness :
  let solver := toy_solver None None None in
  let s := fst (camb.needs [("Hubble", ReqZ [1%Z]); ("CAMBdata", ReqNone);
                            ("omegam", ReqNone)] (fresh solver false)) in
  let provider := Return ([("omegam", PyNum 3)], [("transfers", PyBool true)]) in
  let run := camb.calculate true provider [] (s, empty_state solver []) in
  (exists r, dict_get product_eqb (products (snd (fst run))) (Name "CAMBdata") =
             Some (ResultsObject r)) /\
  (exists de, state_derived_extra (snd (fst run)) = Some de /\
              dict_get String.eqb de "omegam" <> None).
Proof.
  intros solver s provider run.
  assert (Hnd : NoDup (dict_keys (camb.collectors s))).
  { vm_compute. repeat constructor; simpl; intuition discriminate. }
  assert (Hrun : camb.calculate true provider [] (s, empty_state solver []) =
                 ((fst (fst run), snd (fst run)), Return returns_None))
    by (vm_compute; reflexivity).
  destruct (calculate_fills_the_state solver true provider [] s _ _ _ Hnd Hrun)
    as [_ [_ [_ [_ [[res [_ Hall]] [[de [Hde Hnames]] _]]]]]].
  split.
  - destruct (Hall (Name "CAMBdata") None) as [r [_ Hr]]; [vm_compute; tauto|].
    now exists r.
  - exists de. split; [exact Hde|]. apply Hnames. vm_compute. tauto.
Defined.

(* ================================================================== *)
(** ** From the helper's [calculate] to [get_CAMB_transfers] *)

(** The helper's [calculate], when it raises nothing.  If it returns
    [None], the parameter object is the one [set] made for the point, the
    results are what the solver call selected by the helper's flags gave for
    it, the pair of them is what [get_CAMB_transfers] then returns from that
    state, and no other entry of the state has changed.  If it returns
    [False], the state is as it was. *)
Theorem transfer_results_are_handed_over :
  forall (solver : Solver) (want_derived : bool) (pvd : dict)
         (h h' : CambTransfers.t) (st st' : state) (outcome : calculate_return),
    CambTransfers.calculate want_derived pvd (h, st) = ((h', st'), Return outcome) ->
    match outcome with
    | returns_None =>
        exists cp r,
          snd (camb.set pvd st (CambTransfers.cobaya_camb h)) = Return (Some cp) /\
          CambTransfers.compute_transfers h cp = Return r /\
          st' = set_results (cp, r) st /\
          forall h2, CambTransfers._current_state h2 = Some st' ->
                     CambTransfers.get_CAMB_transfers h2 = Return (cp, r)
    | returns_False => st' = st
    end.
Proof.
  intros solver want pvd h h' st st' outcome. rewrite transfers_calculate_unfold.
  destruct (camb.set pvd st (CambTransfers.cobaya_camb h)) as [k' [[cp|]|e]];
    cbv zeta; [| |discriminate].
  - unfold try_except, CambTransfers.calculate_body, bind, get, lift. cbn [fst snd].
    change (CambTransfers.compute_transfers
              (CambTransfers.upd_cobaya_camb (fun _ => k') h) cp)
      with (CambTransfers.compute_transfers h cp).
    destruct (CambTransfers.compute_transfers h cp) as [r|e] eqn:Hr.
    + unfold CambTransfers.on_state, ret. cbn [fst snd].
      intros E. injection E as <- <- <-.
      exists cp, r. split; [reflexivity|]. split; [exact Hr|]. split; [reflexivity|].
      intros h2 Hh2. unfold CambTransfers.get_CAMB_transfers. now rewrite Hh2.
    + unfold CambTransfers.calculate_handler.
      destruct e as [m|k text|k|n| | |]; try discriminate.
      destruct (isinstance_CAMBError k); [|discriminate].
      unfold bind, get, raise, ret, CambTransfers.write_log,
        CambTransfers.on_self, modify.
      cbn [fst snd CambTransfers.stop_at_error CambTransfers.upd_cobaya_camb].
      destruct (CambTransfers.stop_at_error h); [discriminate|].
      intros E. injection E as <- <- <-. reflexivity.
  - unfold ret. intros E. injection E as <- <- <-. reflexivity.
Qed.

(** A point the toy solver accepts. *)
Lemma transfer_results_are_handed_over_witness :
  let solver := toy_solver None None None in
  let s := fst (camb.needs [("Hubble", ReqZ [1%Z])] (fresh solver false)) in
  let h := get_helper_theories s [] in
  let st := empty_state solver [("H0", PyNum 70)] in
  let run := CambTransfers.calculate true [("H0", PyNum 70)] (h, st) in
  exists cp r, results (snd (fst run)) = Some (cp, r).
Proof.
  intros solver s h st run.
  pose proof (transfer_results_are_handed_over solver true [("H0", PyNum 70)] h
                (fst (fst run)) st (snd (fst run)) returns_None
                ltac:(vm_compute; reflexivity)) as H.
  destruct H as [cp [r [_ [_ [Hst _]]]]]. exists cp, r. now rewrite Hst.
Defined.

(* ================================================================== *)
(** ** The spectra [get_Cl] returns *)

Lemma column_length (i : nat) (a : list (list Q)) (c : list Q) :
  camb.column i a = Return c -> List.length c = List.length a.
Proof.
  unfold camb.column. destruct (forallb _ a); [|discriminate].
  intros E. injection E as <-. apply length_map.
Qed.

Lemma on_tail_length {A} (f : A -> Q -> A) (a : list A) (b : list Q) (r : list A) :
  camb.on_tail f a b = Return r -> List.length r = List.length a.
Proof.
  unfold camb.on_tail. destruct a as [|x a].
  - destruct b as [|y [|z b]]; try discriminate; intros E; now injection E as <-.
  - destruct (List.length a =? List.length b)%nat eqn:El.
    + intros E. injection E as <-. apply Nat.eqb_eq in El.
      cbn [List.length]. now rewrite length_map, length_combine, <- El, Nat.min_id.
    + destruct b as [|y [|z b]]; try discriminate.
      intros E. injection E as <-. cbn [List.length]. now rewrite length_map.
Qed.

Lemma rescale_length (two_pi : Q) (ell_factor : bool) (units_factor : Q)
    (ells_factor : list Q) (a a' : list (list Q)) :
  camb.rescale two_pi ell_factor units_factor ells_factor a = Return a' ->
  List.length a' = List.length a.
Proof.
  unfold camb.rescale. destruct ell_factor; cbn [negb].
  - destruct (negb (Qeq_bool units_factor 1)); intros E; injection E as <-;
      [apply length_map | reflexivity].
  - apply on_tail_length.
Qed.

(** The steps of [get_Cl], when it returns. *)
Lemma get_Cl_returns (solver : Solver) (two_pi : Q) (pow_3_2 : Q -> Q) (s : camb.t)
    (ell_factor : bool) (units : string) (cls : list (string * pyobj)) :
  camb.get_Cl two_pi pow_3_2 ell_factor units s = Return cls ->
  exists (Cl : list (string * pyobj)) (total : list (list Q)) (temp : pyobj) (x uf : Q)
         (a : list (list Q)) (tt ee bb te : list Q) (lens : list (string * pyobj)),
    camb.computed_Cl s = Return (Cl, total) /\
    camb.current_TCMB s = Return temp /\
    camb.as_float temp = Return x /\
    dict_get String.eqb (camb.units_factors x) units = Some uf /\
    camb.rescale two_pi ell_factor uf
      (map (fun l => inject_Z (l * (l + 1))) (tl (camb.arange (List.length total))))
      total = Return a /\
    camb.column 0 a = Return tt /\ camb.column 1 a = Return ee /\
    camb.column 2 a = Return bb /\ camb.column 3 a = Return te /\
    cls = [("ell", Array1 (map inject_Z (camb.arange (List.length total))));
           ("tt", Array1 tt); ("ee", Array1 ee); ("bb", Array1 bb);
           ("te", Array1 te); ("et", Array1 te)] ++ lens /\
    match dict_get String.eqb Cl "lens_potential" with
    | Some (Array2 cl_lens) =>
        exists pp, List.length pp = List.length cl_lens /\
          if camb._needs_lensing_cross s
          then exists pt pe,
                 lens = [("pp", Array1 pp); ("pt", Array1 pt); ("tp", Array1 pt);
                         ("pe", Array1 pe); ("ep", Array1 pe)] /\
                 List.length pt = List.length cl_lens /\
                 List.length pe = List.length cl_lens
          else lens = [("pp", Array1 pp)]
    | _ => lens = []
    end.
Proof.
  unfold camb.get_Cl.
  destruct (camb.computed_Cl s) as [[Cl total]|e] eqn:HCl; [|discriminate].
  destruct (camb.current_TCMB s) as [temp|e] eqn:Htemp; [|discriminate].
  destruct (camb.as_float temp) as [x|e] eqn:Hx; [|discriminate].
  destruct (dict_get String.eqb (camb.units_factors x) units) as [uf|] eqn:Huf;
    [|discriminate].
  unfold camb.converted_spectra.
  set (ells := map (fun l => inject_Z (l * (l + 1))) (tl (camb.arange (List.length total)))).
  destruct (camb.rescale two_pi ell_factor uf ells total) as [a|e] eqn:Ha; [|discriminate].
  cbn [camb.add_columns].
  destruct (camb.column 0 a) as [tt|e] eqn:Htt; [|discriminate].
  destruct (camb.column 1 a) as [ee|e] eqn:Hee; [|discriminate].
  destruct (camb.column 2 a) as [bb|e] eqn:Hbb; [|discriminate].
  destruct (camb.column 3 a) as [te|e] eqn:Hte; [|discriminate].
  cbn [dict_set String.eqb Ascii.eqb Bool.eqb].
  intros H. exists Cl, total, temp, x, uf, a, tt, ee, bb, te.
  destruct (dict_get String.eqb Cl "lens_potential") as [lp|].
  - destruct lp as [v| | |cl_lens| |];
      try discriminate.
    + destruct v; try discriminate. injection H as <-. exists [].
      now repeat split.
    + unfold camb.lensing_spectra in H.
      destruct (camb.column 0 cl_lens) as [pp0|e] eqn:Hpp0; [|discriminate].
      apply column_length in Hpp0.
      destruct (if ell_factor then Return pp0
                else camb.on_tail (fun x0 ef => (x0 / (ef * ef / two_pi))%Q) pp0 ells)
        as [pp|e] eqn:Hpp; [|discriminate].
      assert (Hlpp : List.length pp = List.length cl_lens).
      { destruct ell_factor; [injection Hpp as <-; exact Hpp0|].
        apply on_tail_length in Hpp. congruence. }
      cbn [dict_set String.eqb Ascii.eqb Bool.eqb] in H.
      destruct (camb._needs_lensing_cross s).
      * cbn [camb.add_cross Nat.add] in H.
        destruct (camb.column 1 cl_lens) as [pt0|e] eqn:Hpt0; [|discriminate].
        apply column_length in Hpt0.
        destruct (if ell_factor then Return (map (fun x0 => (x0 * uf)%Q) pt0)
                  else camb.on_tail (fun x0 ef => (x0 / (pow_3_2 ef / two_pi))%Q)
                         (map (fun x0 => (x0 * uf)%Q) pt0) ells)
          as [pt|e] eqn:Hpt; [|discriminate].
        assert (Hlpt : List.length pt = List.length cl_lens).
        { destruct ell_factor; [injection Hpt as <-; now rewrite length_map|].
          apply on_tail_length in Hpt. rewrite length_map in Hpt. congruence. }
        cbn [dict_set String.eqb Ascii.eqb Bool.eqb] in H.
        destruct (camb.column 2 cl_lens) as [pe0|e] eqn:Hpe0; [|discriminate].
        apply column_length in Hpe0.
        destruct (if ell_factor then Return (map (fun x0 => (x0 * uf)%Q) pe0)
                  else camb.on_tail (fun x0 ef => (x0 / (pow_3_2 ef / two_pi))%Q)
                         (map (fun x0 => (x0 * uf)%Q) pe0) ells)
          as [pe|e] eqn:Hpe; [|discriminate].
        assert (Hlpe : List.length pe = List.length cl_lens).
        { destruct ell_factor; [injection Hpe as <-; now rewrite length_map|].
          apply on_tail_length in Hpe. rewrite length_map in Hpe. congruence. }
        cbn [dict_set String.eqb Ascii.eqb Bool.eqb] in H.
        injection H as <-. eexists. repeat (split; [first [reflexivity | eassumption]|]).
        exists pp. split; [exact Hlpp|]. exists pt, pe. now repeat split.
      * injection H as <-. eexists. repeat (split; [first [reflexivity | eassumption]|]).
        exists pp. now split.
  - injection H as <-. exists []. now repeat split.
Qed.

(** What [get_Cl] returns, when it returns: the multipoles from 0 to the
    last row of the computed spectra; [tt], [ee], [bb] and [te], one value
    per multipole, with [et] the same array as [te]; and, when the lensing
    potential was computed, [pp] with one value per row of it, followed,
    when cross-spectra with the potential are needed, by [pt] and [pe], each
    repeated under its reversed name.  Nothing else is in the result. *)
Theorem get_Cl_spectra :
  forall (solver : Solver) (two_pi : Q) (pow_3_2 : Q -> Q) (s : camb.t)
         (ell_factor : bool) (units : string) (cls : list (string * pyobj)),
    camb.get_Cl two_pi pow_3_2 ell_factor units s = Return cls ->
    exists (Cl : list (string * pyobj)) (total : list (list Q)) (tt ee bb te : list Q)
           (lens : list (string * pyobj)),
      camb.computed_Cl s = Return (Cl, total) /\
      cls = [("ell", Array1 (map inject_Z (camb.arange (List.length total))));
             ("tt", Array1 tt); ("ee", Array1 ee); ("bb", Array1 bb);
             ("te", Array1 te); ("et", Array1 te)] ++ lens /\
      List.length tt = List.length total /\ List.length ee = List.length total /\
      List.length bb = List.length total /\ List.length te = List.length total /\
      match dict_get String.eqb Cl "lens_potential" with
      | Some (Array2 cl_lens) =>
          exists pp, List.length pp = List.length cl_lens /\
            if camb._needs_lensing_cross s
            then exists pt pe,
                   lens = [("pp", Array1 pp); ("pt", Array1 pt); ("tp", Array1 pt);
                           ("pe", Array1 pe); ("ep", Array1 pe)] /\
                   List.length pt = List.length cl_lens /\
                   List.length pe = List.length cl_lens
            else lens = [("pp", Array1 pp)]
      | _ => lens = []
      end.
Proof.
  intros solver two_pi pow_3_2 s ell_factor units cls H.
  destruct (get_Cl_returns solver two_pi pow_3_2 s ell_factor units cls H)
    as (Cl & total & temp & x & uf & a & tt & ee & bb & te & lens &
        HCl & _ & _ & _ & Ha & Htt & Hee & Hbb & Hte & Hcls & Hlens).
  apply rescale_length in Ha. apply column_length in Htt, Hee, Hbb, Hte.
  exists Cl, total, tt, ee, bb, te, lens.
  split; [exact HCl|]. split; [exact Hcls|].
  repeat (split; [congruence|]). exact Hlens.
Qed.

(** Spectra computed up to the multipole 2, without lensing potential. *)
Lemma get_Cl_spectra_witness :
  let solver := toy_solver None None None in
  let total := [[10; 11; 12; 13]; [20; 21; 22; 23]; [30; 31; 32; 33]]%Q in
  let st := {| params := []; results := None;
               products := [(Name "Cl", Computed (Dict [("total", Array2 total)]))];
               derived := None;
               state_derived_extra := Some [("TCMB", Float 2%Q)] |} in
  let s := camb.upd__current_state (fun _ => Some st) (fresh solver false) in
  match camb.get_Cl 6%Q (fun x => x) false "muK2" s with
  | Return cls => dict_get String.eqb cls "et" = dict_get String.eqb cls "te"
  | Raise _ => False
  end.
Proof.
  intros solver total st s.
  destruct (camb.get_Cl 6%Q (fun x => x) false "muK2" s) as [cls|e] eqn:H;
    [|vm_compute in H; discriminate].
  destruct (get_Cl_spectra solver _ _ _ _ _ _ H)
    as (Cl & total' & tt & ee & bb & te & lens & _ & Hcls & _).
  rewrite Hcls. reflexivity.
Defined.


(** *** The values of the spectra *)

Lemma on_tail_nth {A} (f : A -> Q -> A) (a : list A) (b : list Q) (r : list A) :
  camb.on_tail f a b = Return r ->
  nth_error r 0 = nth_error a 0 /\
  forall l x y, nth_error a (S l) = Some x -> nth_error b l = Some y ->
                nth_error r (S l) = Some (f x y).
Proof.
  unfold camb.on_tail. destruct a as [|x0 a].
  - intros H. split; [|intros l x y Hx; discriminate].
    destruct b as [|y [|z b]]; try discriminate; now injection H as <-.
  - destruct (List.length a =? List.length b)%nat.
    + intros E. injection E as <-. split; [reflexivity|].
      intros l x y Hx Hy. cbn [nth_error] in *.
      now rewrite nth_error_map, nth_error_combine, Hx, Hy.
    + destruct b as [|y0 [|z b]]; try discriminate.
      intros E. injection E as <-. split; [reflexivity|].
      intros l x y Hx Hy. cbn [nth_error] in *.
      destruct l as [|l]; [|now destruct l].
      injection Hy as <-. now rewrite nth_error_map, Hx.
Qed.

Lemma column_nth (i : nat) (a : list (list Q)) (c : list Q) :
  camb.column i a = Return c ->
  forall l row, nth_error a l = Some row ->
    (i < List.length row)%nat /\ nth_error c l = Some (nth i row 0%Q).
Proof.
  unfold camb.column. destruct (forallb _ a) eqn:Hall; [|discriminate].
  intros E. injection E as <-. intros l row Hrow. split.
  - rewrite forallb_forall in Hall. apply Nat.ltb_lt, Hall.
    now apply nth_error_In with l.
  - now rewrite nth_error_map, Hrow.
Qed.

(** The multipoles from 1 on, as the conversion reads them. *)
Lemma ells_factor_nth (n l : nat) :
  (S l < n)%nat ->
  nth_error (map (fun l => inject_Z (l * (l + 1))) (tl (camb.arange n))) l =
  Some (inject_Z (Z.of_nat (S l) * (Z.of_nat (S l) + 1))).
Proof.
  intros Hl. unfold camb.arange.
  rewrite nth_error_map, nth_error_tl, nth_error_map.
  rewrite (nth_error_nth' _ 0%nat) by now rewrite length_seq.
  now rewrite seq_nth.
Qed.

(** The rows of the spectra after the conversion. *)
Lemma rescale_nth (two_pi : Q) (ell_factor : bool) (uf : Q) (total a : list (list Q)) :
  camb.rescale two_pi ell_factor uf
    (map (fun l => inject_Z (l * (l + 1))) (tl (camb.arange (List.length total))))
    total = Return a ->
  forall l row, nth_error total l = Some row ->
    nth_error a l = Some (map (Cl_conversion two_pi ell_factor uf l) row).
Proof.
  unfold camb.rescale, Cl_conversion. destruct ell_factor; cbn [negb].
  - destruct (Qeq_bool uf 1); cbn [negb]; intros E; injection E as <-; intros l row Hrow.
    + now rewrite map_id.
    + now rewrite nth_error_map, Hrow.
  - intros Ha l row Hrow. apply on_tail_nth in Ha. destruct Ha as [H0 HS].
    destruct l as [|l].
    + now rewrite H0, Hrow, map_id.
    + apply (HS l row); [exact Hrow|]. apply ells_factor_nth.
      apply nth_error_Some. congruence.
Qed.

(** The spectra [tt], [ee], [bb], [te] and [et] that [get_Cl] returns hold,
    for every multipole, the converted value of their column of the computed
    spectra (columns 0, 1, 2, 3 and 3): divided by [l (l + 1)] and
    multiplied by [2 pi] and by the square of the unit factor when
    [ell_factor] is off, except at the multipole 0, which is left as
    computed; multiplied by the square of the unit factor alone when
    [ell_factor] is on. *)
Theorem get_Cl_conversion :
  forall (solver : Solver) (two_pi : Q) (pow_3_2 : Q -> Q) (s : camb.t)
         (ell_factor : bool) (units : string) (cls Cl : list (string * pyobj))
         (total : list (list Q)) (temp : pyobj) (x : Q),
    camb.get_Cl two_pi pow_3_2 ell_factor units s = Return cls ->
    camb.computed_Cl s = Return (Cl, total) ->
    camb.current_TCMB s = Return temp ->
    camb.as_float temp = Return x ->
    exists uf,
      dict_get String.eqb (camb.units_factors x) units = Some uf /\
      forall sp i,
        In (sp, i) [("tt", 0); ("ee", 1); ("bb", 2); ("te", 3); ("et", 3)]%nat ->
        exists c,
          dict_get String.eqb cls sp = Some (Array1 c) /\
          forall l row, nth_error total l = Some row ->
            (i < List.length row)%nat /\
            nth_error c l = Some (Cl_conversion two_pi ell_factor uf l (nth i row 0%Q)).
Proof.
  intros solver two_pi pow_3_2 s ell_factor units cls Cl total temp x H HCl Htemp Hx.
  destruct (get_Cl_returns solver two_pi pow_3_2 s ell_factor units cls H)
    as (Cl' & total' & temp' & x' & uf & a & tt & ee & bb & te & lens &
        HCl' & Htemp' & Hx' & Huf & Ha & Htt & Hee & Hbb & Hte & Hcls & _).
  rewrite HCl in HCl'. injection HCl' as <- <-.
  rewrite Htemp in Htemp'. injection Htemp' as <-.
  rewrite Hx in Hx'. injection Hx' as <-.
  exists uf. split; [exact Huf|].
  assert (Hcol : forall i c, camb.column i a = Return c ->
            forall l row, nth_error total l = Some row ->
              (i < List.length row)%nat /\
              nth_error c l = Some (Cl_conversion two_pi ell_factor uf l (nth i row 0%Q))).
  { intros i c Hc l row Hrow.
    destruct (column_nth i a c Hc l _ (rescale_nth _ _ _ _ _ Ha l row Hrow)) as [Hi Hn].
    rewrite length_map in Hi. split; [exact Hi|]. rewrite Hn. f_equal.
    rewrite (nth_indep _ 0%Q (Cl_conversion two_pi ell_factor uf l 0%Q))
      by now rewrite length_map.
    apply map_nth. }
  intros sp i Hin. subst cls. cbn [In] in Hin.
  destruct Hin as [E|[E|[E|[E|[E|[]]]]]]; injection E as <- <-;
    eexists; (split; [reflexivity|]); now apply Hcol.
Qed.

(** The multipole 1 of [tt], in microkelvin squared. *)
Lemma get_Cl_conversion_witness :
  let solver := toy_solver None None None in
  let total := [[10; 11; 12; 13]; [20; 21; 22; 23]; [30; 31; 32; 33]]%Q in
  let st := {| params := []; results := None;
               products := [(Name "Cl", Computed (Dict [("total", Array2 total)]))];
               derived := None;
               state_derived_extra := Some [("TCMB", Float 2%Q)] |} in
  let s := camb.upd__current_state (fun _ => Some st) (fresh solver false) in
  match camb.get_Cl 6%Q (fun x => x) false "muK2" s with
  | Return cls =>
      exists uf c,
        dict_get String.eqb (camb.units_factors 2%Q) "muK2" = Some uf /\
        dict_get String.eqb cls "tt" = Some (Array1 c) /\
        nth_error c 1 = Some (Cl_conversion 6%Q false uf 1 20%Q)
  | Raise _ => False
  end.
Proof.
  intros solver total st s.
  destruct (camb.get_Cl 6%Q (fun x => x) false "muK2" s) as [cls|e] eqn:H;
    [|vm_compute in H; discriminate].
  destruct (get_Cl_conversion solver _ _ _ _ _ _
              [("total", Array2 total)] total (Float 2%Q) 2%Q H
              eq_refl eq_refl eq_refl) as [uf [Huf Hsp]].
  destruct (Hsp "tt" 0%nat (or_introl eq_refl)) as [c [Hc Hrow]].
  exists uf, c. split; [exact Huf|]. split; [exact Hc|].
  exact (proj2 (Hrow 1%nat [20; 21; 22; 23]%Q eq_refl)).
Defined.

(* ================================================================== *)
(** ** set: the parameters fixed in the base object *)

(** The two loops of [set] over the fixed parameters are one loop over
    their list. *)
Lemma drop_fixed_params_flat (solver : Solver) (args : dict) (s : camb.t) :
  camb.drop_fixed_params args s =
  for_each fixed_params (fun fixed_param =>
    bind (if dict_mem String.eqb args fixed_param
          then raise (LoggedError (sampling_fixed_parameter fixed_param))
          else ret tt)
         (fun _ => modify (camb.upd__reduced_extra_args (fun d => spop d fixed_param)))) s.
Proof.
  unfold camb.drop_fixed_params, fixed_params.
  generalize ["set_classes"; "set_matter_power"; "set_for_lmax"]. intros l. revert s.
  induction l as [|f l IH]; intros s; [reflexivity|].
  cbn [for_each map List.concat]. rewrite for_each_app. unfold bind at 1 4.
  destruct (for_each (argspec f) _ s) as [s1 [[]|e]]; [apply IH | reflexivity].
Qed.

(** One turn of the loop over the fixed parameters. *)
Lemma drop_loop_step (solver : Solver) (args : dict) (p : string) (l : list string)
    (s : camb.t) :
  for_each (p :: l) (fun fixed_param =>
    bind (if dict_mem String.eqb args fixed_param
          then raise (LoggedError (sampling_fixed_parameter fixed_param))
          else ret tt)
         (fun _ => modify (camb.upd__reduced_extra_args (fun d => spop d fixed_param)))) s =
  if dict_mem String.eqb args p
  then (s, Raise (LoggedError (sampling_fixed_parameter p)))
  else for_each l (fun fixed_param =>
         bind (if dict_mem String.eqb args fixed_param
               then raise (LoggedError (sampling_fixed_parameter fixed_param))
               else ret tt)
              (fun _ => modify (camb.upd__reduced_extra_args
                                  (fun d => spop d fixed_param))))
         (camb.upd__reduced_extra_args (fun d => spop d p) s).
Proof.
  cbn [for_each]. destruct (dict_mem String.eqb args p); [reflexivity|].
  unfold bind at 1 2. unfold ret at 1, modify at 1.
  now destruct (for_each l _ _) as [s1 [[]|e]].
Qed.

(** The loop over the fixed parameters: it raises for the first one that is
    sampled, and otherwise removes them all from the reduced arguments. *)
Lemma drop_loop_run (solver : Solver) (args : dict) (l : list string) :
  forall s,
    let run := for_each l (fun fixed_param =>
      bind (if dict_mem String.eqb args fixed_param
            then raise (LoggedError (sampling_fixed_parameter fixed_param))
            else ret tt)
           (fun _ => modify (camb.upd__reduced_extra_args (fun d => spop d fixed_param)))) s
    in
    match find (fun p => dict_mem String.eqb args p) l with
    | Some q => snd run = Raise (LoggedError (sampling_fixed_parameter q))
    | None =>
        snd run = Return tt /\
        camb._reduced_extra_args (fst run) = fold_left spop l (camb._reduced_extra_args s)
    end /\
    camb._base_params (fst run) = camb._base_params s /\
    camb.extra_args (fst run) = camb.extra_args s /\
    camb.sources (fst run) = camb.sources s /\
    camb.extra_attrs (fst run) = camb.extra_attrs s /\
    camb.limber (fst run) = camb.limber s.
Proof.
  induction l as [|p l IH]; intros s; cbv zeta.
  - cbn. now repeat split.
  - rewrite drop_loop_step. cbn [find].
    destruct (dict_mem String.eqb args p) eqn:Ep.
    + cbn. now repeat split.
    + exact (IH (camb.upd__reduced_extra_args (fun d => spop d p) s)).
Qed.

(** The [try] block of a first [set] for a point that samples a fixed
    parameter. *)
Lemma set_body_rejects (solver : Solver) (args : dict) (s : camb.t) (w : pyval)
    (params : CAMBparams) (q : string) :
  camb._base_params s = None ->
  sget (camb.extra_attrs s) "WantCls" = Some w ->
  set_params None
    (if truthy w then supdate args (camb.extra_args s)
     else fold_left spop (argspec "set_for_lmax") (supdate args (camb.extra_args s)))
    = Return params ->
  find (fun p => dict_mem String.eqb args p) fixed_params = Some q ->
  exists s1,
    camb.set_body args s = (s1, Raise (LoggedError (sampling_fixed_parameter q))) /\
    camb._base_params s1 = None.
Proof.
  intros Hbase Hw Hsp Hq.
  unfold camb.set_body. unfold bind at 1. unfold get at 1.
  unfold bind at 1. rewrite Hbase.
  unfold bind at 1. unfold lift at 1. rewrite Hw.
  unfold bind at 1. unfold modify at 1.
  unfold bind at 1. unfold lift at 1. rewrite Hsp.
  unfold bind at 1. rewrite drop_fixed_params_flat.
  pose proof (drop_loop_run solver args fixed_params
                (camb.upd__reduced_extra_args (fun _ => camb.extra_args s) s)) as H.
  cbv zeta in H. rewrite Hq in H.
  destruct (for_each fixed_params _ _) as [s1 r]. cbn [fst snd] in H.
  destruct H as [-> [Hb _]]. exists s1. split; [reflexivity|].
  exact (eq_trans Hb Hbase).
Qed.

(** A first [set] (no cached base object) for a point that samples an
    argument of [set_classes], [set_matter_power] or [set_for_lmax], when the
    solver accepts the arguments of the first call: [set] raises the error
    that names the first such argument, whatever [stop_at_error] is, and the
    base object stays unset, so that the next point meets the same check. *)
Theorem sampled_fixed_parameter_is_rejected :
  forall (solver : Solver) (pvd : dict) (st : state) (s : camb.t) (w : pyval)
         (params : CAMBparams) (q : string),
    let args := camb.translated s (fun _ => true) pvd in
    camb._base_params s = None ->
    sget (camb.extra_attrs s) "WantCls" = Some w ->
    set_params None
      (if truthy w then supdate args (camb.extra_args s)
       else fold_left spop (argspec "set_for_lmax") (supdate args (camb.extra_args s)))
      = Return params ->
    find (fun p => dict_mem String.eqb args p) fixed_params = Some q ->
    snd (camb.set pvd st s) = Raise (LoggedError (sampling_fixed_parameter q)) /\
    camb._base_params (fst (camb.set pvd st s)) = None.
Proof.
  intros solver pvd st s w params q args Hbase Hw Hsp Hq.
  rewrite set_unfold. cbv zeta. fold args.
  set (k0 := camb.upd_log _ s).
  destruct (set_body_rejects solver args k0 w params q Hbase Hw Hsp Hq) as [s1 [Hr Hb]].
  unfold try_except. rewrite Hr. cbn [camb.set_handler fst snd]. now split.
Qed.

(** The redshift grid given as a sampled parameter. *)
Lemma sampled_fixed_parameter_is_rejected_witness :
  let solver := toy_solver None None None in
  let s := fst (camb.needs [("Hubble", ReqZ [1%Z])] (fresh solver false)) in
  let run := camb.set [("H0", PyNum 70); ("kmax", PyNum 2)] (empty_state solver []) s in
  snd run = Raise (LoggedError (sampling_fixed_parameter "kmax")).
Proof.
  intros solver s run.
  apply (sampled_fixed_parameter_is_rejected solver
           [("H0", PyNum 70); ("kmax", PyNum 2)] (empty_state solver []) s
           (PyBool false) [("H0", PyNum 70); ("kmax", PyNum 2)] "kmax");
    vm_compute; reflexivity.
Defined.

(** *** What a first [set] leaves for the next ones *)

Lemma preserves_run {St A B} (proj : St -> B) (m : M St A) (s s' : St) (r : result A) :
  preserves proj m -> m s = (s', r) -> proj s' = proj s.
Proof. intros Hp H. specialize (Hp s). now rewrite H in Hp. Qed.

(** The entries left after the fixed parameters are removed. *)
Lemma sget_without (l : list string) :
  forall d : dict,
    NoDup (dict_keys d) ->
    forall k, sget (fold_left spop l d) k = if str_in k l then None else sget d k.
Proof.
  induction l as [|p l IH]; intros d Hd k; cbn [fold_left]; [reflexivity|].
  rewrite IH by now apply NoDup_spop.
  cbn [str_in existsb]. fold (str_in k l).
  destruct (str_in k l); [now rewrite orb_true_r|]. rewrite orb_false_r.
  destruct (String.eqb_spec k p) as [->|Hne].
  - now apply sget_spop_same.
  - apply sget_spop_other. congruence.
Qed.

(** [set] returns a parameter object only from its [try] block. *)
Lemma set_returns_object (solver : Solver) (pvd : dict) (st : state) (s s' : camb.t)
    (cp : CAMBparams) :
  camb.set pvd st s = (s', Return (Some cp)) ->
  camb.set_body (camb.translated s (fun _ => true) pvd)
    (camb.upd_log (fun l => l ++ [debug_setting_parameters
                                    (camb.translated s (fun _ => true) pvd)
                                    (camb.extra_args s)]) s)
  = (s', Return (Some cp)).
Proof.
  rewrite set_unfold. cbv zeta. unfold try_except.
  destruct (camb.set_body _ _) as [s1 [x|e]]; [intros H; exact H|].
  unfold camb.set_handler.
  destruct e as [m|c text|k|n| | |]; try discriminate.
  destruct c; try discriminate;
    unfold bind, get, raise, ret, camb.write_log, modify; cbn [fst snd];
    destruct (camb.stop_at_error s1); discriminate.
Qed.

(** The [try] block of a first [set], when it returns. *)
Lemma first_set_body_returns (solver : Solver) (args : dict) (s s' : camb.t)
    (cp : CAMBparams) :
  camb._base_params s = None ->
  camb.set_body args s = (s', Return (Some cp)) ->
  exists base,
    camb._base_params s' = Some base /\
    set_params (Some base) args = Return cp /\
    find (fun p => dict_mem String.eqb args p) fixed_params = None /\
    camb._reduced_extra_args s' = fold_left spop fixed_params (camb.extra_args s).
Proof.
  intros Hbase H. unfold camb.set_body in H.
  apply bind_returns in H. destruct H as [s0 [s0' [Hget H]]].
  apply get_returns in Hget. destruct Hget as [-> ->].
  apply bind_returns in H. destruct H as [s1 [final [Hfirst Hend]]].
  rewrite Hbase in Hfirst.
  apply bind_returns in Hfirst. destruct Hfirst as [s2 [WantCls [HW Hfirst]]].
  apply lift_returns in HW. destruct HW as [-> _]. cbv zeta in Hfirst.
  apply bind_returns in Hfirst. destruct Hfirst as [s3 [u [Hmod Hfirst]]].
  unfold modify in Hmod. injection Hmod as <- _.
  apply bind_returns in Hfirst. destruct Hfirst as [s4 [params [Hsp Hfirst]]].
  apply lift_returns in Hsp. destruct Hsp as [-> _].
  apply bind_returns in Hfirst. destruct Hfirst as [s5 [u5 [Hdrop Hfirst]]].
  rewrite drop_fixed_params_flat in Hdrop.
  pose proof (drop_loop_run solver args fixed_params
                (camb.upd__reduced_extra_args (fun _ => camb.extra_args s) s)) as Hloop.
  cbv zeta in Hloop. rewrite Hdrop in Hloop. cbn [fst snd] in Hloop.
  destruct (find (fun p => dict_mem String.eqb args p) fixed_params) as [q|] eqn:Hfind;
    [destruct Hloop as [Hq _]; discriminate|].
  destruct Hloop as [[_ Hred5] [Hbase5 _]].
  cbn [camb._reduced_extra_args camb.upd__reduced_extra_args] in Hred5.
  apply bind_returns in Hfirst. destruct Hfirst as [s6 [u6 [Hlog Hfirst]]].
  assert (Hred6 : camb._reduced_extra_args s6 = camb._reduced_extra_args s5).
  { eapply (preserves_run camb._reduced_extra_args); [|exact Hlog].
    unfold camb.write_log. preserves_tac. }
  apply bind_returns in Hfirst. destruct Hfirst as [s7 [params7 [Hattr Hfirst]]].
  assert (Hred7 : camb._reduced_extra_args s7 = camb._reduced_extra_args s6).
  { eapply (preserves_run camb._reduced_extra_args); [|exact Hattr].
    apply set_attributes_preserves. }
  apply bind_returns in Hfirst. destruct Hfirst as [s8 [params8 [Hsrc Hfirst]]].
  assert (Hred8 : camb._reduced_extra_args s8 = camb._reduced_extra_args s7).
  { eapply (preserves_run camb._reduced_extra_args); [|exact Hsrc].
    unfold camb.write_log. preserves_tac.
    apply make_windows_preserves. intros f s9. reflexivity. }
  apply bind_returns in Hfirst. destruct Hfirst as [s9 [u9 [Hset Hret]]].
  unfold modify in Hset. injection Hset as <- _.
  apply ret_returns in Hret. destruct Hret as [-> ->].
  apply bind_returns in Hend. destruct Hend as [s10 [s10' [Hget Hend]]].
  apply get_returns in Hget. destruct Hget as [-> ->].
  apply bind_returns in Hend. destruct Hend as [s11 [p [Hp Hend]]].
  apply lift_returns in Hp. destruct Hp as [-> Hp].
  apply ret_returns in Hend. destruct Hend as [-> E]. injection E as ->.
  exists params8. cbn [camb._base_params camb._reduced_extra_args camb.upd__base_params] in *.
  split; [reflexivity|]. split; [exact Hp|]. split; [reflexivity|]. congruence.
Qed.

(** A first [set] that returns a parameter object, for [extra_args] with
    distinct keys: the base object is now cached and the returned object was
    made from it and the parameters of the point alone; no parameter of the
    point is a fixed one; the reduced arguments are [extra_args] without the
    fixed parameters, and [extra_args] itself is unchanged.  From then on
    the [try] block of [set] is a single call: the base object with the
    parameters of the new point and the reduced arguments, with no check of
    the point against the fixed parameters. *)
Theorem first_set_fixes_the_base :
  forall (solver : Solver) (pvd : dict) (st : state) (s s' : camb.t) (cp : CAMBparams),
    camb._base_params s = None ->
    NoDup (dict_keys (camb.extra_args s)) ->
    camb.set pvd st s = (s', Return (Some cp)) ->
    exists base,
      camb._base_params s' = Some base /\
      set_params (Some base) (camb.translated s (fun _ => true) pvd) = Return cp /\
      (forall q, In q fixed_params ->
         dict_mem String.eqb (camb.translated s (fun _ => true) pvd) q = false) /\
      (forall k, sget (camb._reduced_extra_args s') k =
                 if str_in k fixed_params then None else sget (camb.extra_args s) k) /\
      camb.extra_args s' = camb.extra_args s /\
      forall pvd2,
        camb.set_attempt pvd2 s' =
        match set_params (Some base)
                (supdate (camb.translated s' (fun _ => true) pvd2)
                         (camb._reduced_extra_args s')) with
        | Return p => Return (Some p)
        | Raise e => Raise e
        end.
Proof.
  intros solver pvd st s s' cp Hbase Hnd Hrun.
  apply set_returns_object in Hrun.
  pose proof (preserves_run camb.extra_args _ _ _ _
                (set_body_preserves camb.extra_args
                   (fun f s0 => eq_refl) (fun f s0 => eq_refl)
                   (fun f s0 => eq_refl) (fun f s0 => eq_refl) _) Hrun) as Hextra.
  apply first_set_body_returns in Hrun; [|exact Hbase].
  destruct Hrun as [base [Hb [Hcp [Hfind Hred]]]].
  cbn [camb.extra_args camb.upd_log] in Hextra, Hred.
  exists base. split; [exact Hb|]. split; [exact Hcp|]. split; [|split; [|split]].
  - intros q Hq. destruct (dict_mem String.eqb _ q) eqn:E; [|reflexivity].
    exfalso. apply (find_none _ _ Hfind) in Hq. congruence.
  - intros k. rewrite Hred. now apply sget_without.
  - exact Hextra.
  - intros pvd2. unfold camb.set_attempt. cbv zeta. unfold camb.set_body.
    unfold bind, get, ret, lift. cbn [fst snd camb._base_params camb.upd_log
                                      camb._reduced_extra_args].
    rewrite Hb. cbn [camb._base_params camb.upd_log]. rewrite Hb.
    destruct (set_params (Some base)
                (supdate (camb.translated s' (fun _ => true) pvd2)
                         (camb._reduced_extra_args s'))); reflexivity.
Qed.

(** Two points after a request for the spectra. *)
Lemma first_set_fixes_the_base_witness :
  let solver := toy_solver None None None in
  let s := fst (camb.needs [("Cl", ReqCl [("tt", 2500%Z)])] (fresh solver false)) in
  let run := camb.set [("H0", PyNum 70)] (empty_state solver []) s in
  sget (camb._reduced_extra_args (fst run)) "lmax" = None /\
  sget (camb.extra_args (fst run)) "lmax" = Some (PyNum 2500) /\
  exists p, camb.set_attempt [("H0", PyNum 68)] (fst run) = Return (Some p).
Proof.
  intros solver s run.
  destruct (first_set_fixes_the_base solver [("H0", PyNum 70)] (empty_state solver []) s
              (fst run)
              [("H0", PyNum 70); ("lmax", PyNum 2500); ("Want_CMB", PyBool true);
               ("Want_cl_2D_array", PyBool false); ("WantCls", PyBool true);
               ("NonLinear", PyStr "NonLinear_lens")])
    as [base [Hb [Hcp [_ [Hred [Hextra Hnext]]]]]].
  - reflexivity.
  - vm_compute. repeat constructor; simpl; intuition discriminate.
  - vm_compute. reflexivity.
  - split; [exact (Hred "lmax")|]. split; [rewrite Hextra; reflexivity|].
    rewrite (Hnext [("H0", PyNum 68)]). cbn [set_params solver toy_solver].
    eexists. reflexivity.
Defined.

(* ================================================================== *)
(** ** From the requirements to the products in the state *)

Lemma dict_keys_set (d : list (product * option Collector)) (k : product)
    (v : option Collector) :
  dict_keys (dict_set product_eqb d k v) =
  if dict_mem product_eqb d k then dict_keys d else dict_keys d ++ [k].
Proof.
  unfold dict_mem, dict_keys. induction d as [|[k' v'] d IH]; cbn; [reflexivity|].
  destruct (product_eqb k' k) eqn:E; cbn; [reflexivity|].
  rewrite IH. now destruct (dict_get product_eqb d k).
Qed.

Lemma dict_get_absent (d : list (product * option Collector)) (k : product) :
  dict_get product_eqb d k = None -> ~ In k (dict_keys d).
Proof.
  unfold dict_keys. induction d as [|[k' v'] d IH]; cbn; [tauto|].
  destruct (product_eqb k' k) eqn:E; [discriminate|].
  intros H [->|Hin]; [now rewrite product_eqb_refl in E | now apply IH].
Qed.

Lemma dict_get_In (d : list (product * option Collector)) (k : product)
    (v : option Collector) :
  dict_get product_eqb d k = Some v -> In (k, v) d.
Proof.
  induction d as [|[k' v'] d IH]; cbn; [discriminate|].
  destruct (product_eqb k' k) eqn:E.
  - apply product_eqb_eq in E. subst. intros H. injection H as ->. now left.
  - intros H. right. now apply IH.
Qed.

(** Assigning a collector keeps the keys of the registry distinct. *)
Lemma NoDup_keys_set (d : list (product * option Collector)) (k : product)
    (v : option Collector) :
  NoDup (dict_keys d) -> NoDup (dict_keys (dict_set product_eqb d k v)).
Proof.
  intros H. rewrite dict_keys_set. unfold dict_mem.
  destruct (dict_get product_eqb d k) eqn:E; [exact H|].
  apply NoDup_snoc; [exact H | now apply dict_get_absent].
Qed.

Lemma needs_item_keeps_distinct (solver : Solver) (kv : string * requirement) :
  keeps (fun s => NoDup (dict_keys (camb.collectors s))) (camb.needs_item kv).
Proof.
  destruct kv as [k v]. unfold camb.needs_item. open_products. cbv zeta.
  keeps_with ltac:(fail) ltac:(intros s0 H0; exact H0)
             ltac:(intros s0 H0; first [exact H0 | now apply NoDup_keys_set]).
Qed.

(** [calculate] returns [None]: the products are those its loop stored. *)
Lemma calculate_keeps_products (solver : Solver) (want_derived : bool)
    (provider : result (CAMBparams * CAMBdata)) (pvd : dict)
    (s s' : camb.t) (st st' : state) :
  NoDup (dict_keys (camb.collectors s)) ->
  camb.calculate want_derived provider pvd (s, st) = ((s', st'), Return returns_None) ->
  forall p c, In (p, c) (camb.collectors s) ->
    exists r,
      match c with
      | Some collector =>
          exists v, call_method (method collector) r (args collector)
                                (camb.deref s (kwargs collector)) = Return v /\
                    dict_get product_eqb (products st') p = Some (Computed v)
      | None => dict_get product_eqb (products st') p = Some (ResultsObject r)
      end.
Proof.
  intros Hnd Hrun p c Hpc.
  apply calculate_went_through in Hrun.
  destruct Hrun as [c1 [cp [res [Hbody Hrest]]]].
  apply calculate_body_returns in Hbody. cbn [fst] in Hbody.
  destruct Hbody as [_ [Hempty Hloop]].
  apply product_loop_returns in Hloop. cbn [fst snd] in Hloop.
  destruct Hloop as [Hs [_ [_ [_ [_ [_ Hin]]]]]].
  destruct res as [r|];
    [|rewrite (proj2 Hempty eq_refl) in Hpc; destruct Hpc].
  specialize (Hin Hnd r eq_refl p c Hpc).
  assert (Hprod : products st' = products (snd c1)).
  { destruct c1 as [s1 st1]. cbn [fst snd] in *.
    apply bind_returns in Hrest. destruct Hrest as [c2 [dp [Hdp Hrest]]].
    apply lift_returns in Hdp. destruct Hdp as [-> _]. cbv zeta in Hrest.
    apply bind_returns in Hrest. destruct Hrest as [[s2 st2] [u [Hwant Hrest]]].
    assert (Hw : products st2 = products st1).
    { destruct want_derived.
      - apply bind_returns in Hwant. destruct Hwant as [c3 [c4 [Hget Hwant]]].
        apply get_returns in Hget. destruct Hget as [-> ->].
        apply bind_returns in Hwant. destruct Hwant as [c5 [d [Hd' Hset]]].
        apply lift_returns in Hd'. destruct Hd' as [-> _].
        unfold camb.on_state in Hset. now injection Hset as <- <-.
      - apply ret_returns in Hwant. destruct Hwant as [E _]. now injection E as <- <-. }
    apply bind_returns in Hrest. destruct Hrest as [c3 [c4 [Hget Hrest]]].
    apply get_returns in Hget. destruct Hget as [-> ->].
    apply bind_returns in Hrest. destruct Hrest as [c5 [de [Hde' Hrest]]].
    apply lift_returns in Hde'. destruct Hde' as [-> _].
    apply bind_returns in Hrest. destruct Hrest as [c6 [u' [Hset Hret]]].
    apply ret_returns in Hret. destruct Hret as [<- _].
    unfold camb.on_state in Hset. injection Hset as <- <-. exact Hw. }
  exists r. rewrite Hprod. exact Hin.
Qed.

(** *** The collectors of the matter power spectrum *)

Lemma collects_matter_power_set (solver : Solver) (p key : product)
    (c : option Collector) (s : camb.t) :
  collects_matter_power p s ->
  key <> p \/
  (exists collector, c = Some collector /\
                     method collector = "get_linear_matter_power_spectrum") ->
  collects_matter_power p
    (camb.upd_collectors (fun cs => dict_set product_eqb cs key c) s).
Proof.
  intros [col [Hget Hm]] Hkey. unfold collects_matter_power.
  cbn [camb.collectors camb.upd_collectors].
  destruct (product_eqb key p) eqn:E.
  - apply product_eqb_eq in E. subst key.
    destruct Hkey as [Hne | [col' [-> Hm']]]; [congruence|].
    exists col'. split; [apply dict_get_set_same | exact Hm'].
  - exists col. split; [|exact Hm]. rewrite dict_get_set_other; [exact Hget|].
    intros ->. now rewrite product_eqb_refl in E.
Qed.

(** What is left of an update of the state, for the collector of a pair. *)
Ltac keeps_matter_power :=
  let sq := fresh "s" in
  let Hq := fresh "H" in
  intros sq Hq;
  first [ exact Hq
        | apply collects_matter_power_set;
          [ exact Hq
          | first [ left; discriminate
                  | right; eexists; split; reflexivity ] ] ].

Lemma needs_item_keeps_matter_power (solver : Solver) (nl : bool) (v1 v2 : string)
    (kv : string * requirement) :
  keeps (collects_matter_power (Pk_grid nl v1 v2)) (camb.needs_item kv).
Proof.
  destruct kv as [k v]. open_needs_item.
  keeps_by ltac:(intros s0 H0; exact H0) ltac:(keeps_matter_power).
Qed.

Lemma needs_item_collects_pair (solver : Solver) (k : string) (o : Pk_options)
    (pair : string * string) :
  str_in k ["Pk_interpolator"; "Pk_grid"] = true ->
  In pair (camb.Pk_pairs o) ->
  ensures (collects_matter_power (Pk_key (nonlinear o) pair))
          (camb.needs_item (k, ReqPk o)).
Proof.
  intros Hk Hin.
  apply (ensures_ext _ _ (camb.needs_Pk k (ReqPk o)));
    [intros s; now apply needs_item_Pk|].
  unfold camb.needs_Pk, camb.Pk_collectors.
  repeat lazymatch goal with
  | |- ensures _ (bind (for_each (camb.Pk_pairs _) _) _) => fail
  | |- ensures _ (bind _ _) => apply ensures_bind_r; intros ?
  end.
  unfold Pk_key.
  apply ensures_bind_l.
  - apply (ensures_for_each _ _ _ pair Hin).
    + unfold camb.register_pair, camb.set_collector, camb.mutate.
      apply ensures_bind_r; intros ?.
      apply ensures_modify. intros s0. eexists.
      cbn [camb.collectors camb.upd_collectors].
      split; [apply dict_get_set_same | reflexivity].
    + intros y. unfold camb.register_pair, camb.set_collector, camb.mutate.
      keeps_by ltac:(intros s0 H0; exact H0) ltac:(keeps_matter_power).
  - intros ?.
    keeps_by ltac:(intros s0 H0; exact H0) ltac:(keeps_matter_power).
Qed.

(** From [needs] to the state: when [needs] returns for a registry with
    distinct keys and [calculate] then returns [None] for a point, every
    requested product holds in the state of that point what its entry in
    the registry gives: the products known by their own name, and the key
    of every pair of variables of a matter-power request, whose entry is a
    collector of the matter power spectrum.  The stored value is the one
    the method of the collector returned for the kwargs of that
    collector. *)
Theorem requested_products_are_computed :
  forall (solver : Solver) (reqs : list (string * requirement)) (s0 s s' : camb.t)
         (r : transfers_requirement) (want_derived : bool)
         (provider : result (CAMBparams * CAMBdata)) (pvd : dict) (st st' : state),
    NoDup (dict_keys (camb.collectors s0)) ->
    camb.needs reqs s0 = (s, Return r) ->
    camb.calculate want_derived provider pvd (s, st) = ((s', st'), Return returns_None) ->
    forall k v, In (k, v) reqs ->
      (In k named_products ->
       holds_collected s st' (Name k) /\
       dict_get product_eqb (products st') (Name k) <> None) /\
      (forall o pair,
          str_in k ["Pk_interpolator"; "Pk_grid"] = true -> v = ReqPk o ->
          In pair (camb.Pk_pairs o) ->
          collects_matter_power (Pk_key (nonlinear o) pair) s /\
          holds_collected s st' (Pk_key (nonlinear o) pair) /\
          dict_get product_eqb (products st') (Pk_key (nonlinear o) pair) <> None).
Proof.
  intros solver reqs s0 s s' r want provider pvd st st' Hnd0 Hneeds Hcalc k v Hin.
  assert (Hnd : NoDup (dict_keys (camb.collectors s))).
  { pose proof (needs_keeps solver (fun s1 => NoDup (dict_keys (camb.collectors s1)))
                  (needs_item_keeps_distinct solver)
                  (fun f s1 H => H) (fun f s1 H => H) reqs s0 Hnd0) as H.
    now rewrite Hneeds in H. }
  assert (Hreg : forall p, registered_in p s ->
            holds_collected s st' p /\
            dict_get product_eqb (products st') p <> None).
  { intros p Hp. unfold registered_in in Hp.
    destruct (dict_get product_eqb (camb.collectors s) p) as [c|] eqn:Ec; [|congruence].
    destruct (calculate_keeps_products solver want provider pvd s s' st st' Hnd Hcalc p c
                (dict_get_In _ _ _ Ec)) as [rr Hrr].
    split.
    - exists c, rr. split; [exact Ec | exact Hrr].
    - destruct c as [collector|]; [destruct Hrr as [x [_ Hx]]|]; congruence. }
  split.
  - intros Hk. apply Hreg.
    pose proof (needs_ensures solver (registered_in (Name k)) (k, v)
                  (needs_item_registers_named solver k v Hk)
                  (needs_item_keeps_registered solver _)
                  (fun f s1 H => H) (fun f s1 H => H) reqs Hin s0) as H.
    now rewrite Hneeds in H.
  - intros o pair Hk -> Hp. split.
    + pose proof (needs_ensures solver (collects_matter_power (Pk_key (nonlinear o) pair))
                    (k, ReqPk o)
                    (needs_item_collects_pair solver k o pair Hk Hp)
                    (needs_item_keeps_matter_power solver _ _ _)
                    (fun f s1 H => H) (fun f s1 H => H) reqs Hin s0) as H.
      now rewrite Hneeds in H.
    + apply Hreg.
      pose proof (needs_ensures solver (registered_in (Pk_key (nonlinear o) pair))
                    (k, ReqPk o)
                    (needs_item_registers_pair solver k o pair Hk Hp)
                    (needs_item_keeps_registered solver _)
                    (fun f s1 H => H) (fun f s1 H => H) reqs Hin s0) as H.
      now rewrite Hneeds in H.
Qed.

(** The expansion rate and the matter power spectrum of one pair. *)
Lemma requested_products_are_computed_witness :
  let solver := toy_solver None None None in
  let o := {| k_max := 10; z := [0%Z]; vars_pairs := Some [("delta_tot", "Weyl")];
              nonlinear := false; more := [] |} in
  let reqs := [("Hubble", ReqZ [1%Z]); ("Pk_grid", ReqPk o)] in
  let s := fst (camb.needs reqs (fresh solver false)) in
  let run := camb.calculate false (Return ([], [])) [] (s, empty_state solver []) in
  holds_collected s (snd (fst run)) (Name "Hubble") /\
  collects_matter_power (Pk_key false ("delta_tot", "Weyl")) s /\
  holds_collected s (snd (fst run)) (Pk_key false ("delta_tot", "Weyl")).
Proof.
  intros solver o reqs s run.
  pose proof (requested_products_are_computed solver reqs (fresh solver false) s
                (fst (fst run)) {| non_linear := false; req_needs_perts := true |}
                false (Return ([], [])) [] (empty_state solver []) (snd (fst run))
                (NoDup_nil _) ltac:(vm_compute; reflexivity)
                ltac:(vm_compute; reflexivity)) as H.
  split; [|split].
  - apply (proj1 (H "Hubble" (ReqZ [1%Z]) (or_introl eq_refl))). simpl. tauto.
  - apply (proj2 (H "Pk_grid" (ReqPk o) (or_intror (or_introl eq_refl)))
             o ("delta_tot", "Weyl") eq_refl eq_refl (or_introl eq_refl)).
  - apply (proj2 (H "Pk_grid" (ReqPk o) (or_intror (or_introl eq_refl)))
             o ("delta_tot", "Weyl") eq_refl eq_refl (or_introl eq_refl)).
Defined.

(* ================================================================== *)
(** ** set: the source windows *)

(** Changing the window of one source, in a mapping with distinct keys. *)
Lemma map_one_window (pre r : list (string * dict)) (source : string) (w : dict)
    (f : dict -> dict) :
  NoDup (dict_keys (pre ++ (source, w) :: r)) ->
  map (fun sw => if String.eqb (fst sw) source then (fst sw, f (snd sw)) else sw)
      (pre ++ (source, w) :: r)
  = pre ++ (source, f w) :: r.
Proof.
  unfold dict_keys. rewrite map_app. cbn [map fst]. intros Hnd.
  assert (Hpre : ~ In source (map fst pre)).
  { intros Hin. apply NoDup_remove_2 in Hnd. apply Hnd, in_or_app. now left. }
  assert (Hr : ~ In source (map fst r)).
  { intros Hin. apply NoDup_remove_2 in Hnd. apply Hnd, in_or_app. now right. }
  assert (Hid : forall l : list (string * dict), ~ In source (map fst l) ->
            map (fun sw => if String.eqb (fst sw) source then (fst sw, f (snd sw)) else sw) l
            = l).
  { clear. induction l as [|[k v] l IH]; cbn; intros H; [reflexivity|].
    destruct (String.eqb_spec k source) as [->|Hne]; [tauto|].
    f_equal. apply IH. tauto. }
  rewrite map_app. cbn [map fst snd]. rewrite String.eqb_refl.
  now rewrite (Hid pre Hpre), (Hid r Hr).
Qed.

(** The entries of a restored window. *)
Lemma sget_restored (w : dict) (k : string) :
  sget w "function" <> None -> sget (restored w) k = sget w k.
Proof.
  intros Hf. unfold restored, sget_default. rewrite sget_sset.
  destruct (String.eqb_spec "function" k) as [<-|Hne].
  - now destruct (sget w "function").
  - now apply sget_spop_other.
Qed.

(** The loop of [set] over the source windows, when it returns. *)
Lemma make_windows_returns (solver : Solver) (ss : list (string * dict)) :
  forall (pre : list (string * dict)) (acc : list SourceWindow) (s s' : camb.t)
         (ws : list SourceWindow),
    camb.sources s = Some (pre ++ ss) ->
    NoDup (dict_keys (pre ++ ss)) ->
    camb.make_windows ss acc s = (s', Return ws) ->
    camb.sources s' = Some (pre ++ map (fun sw => (fst sw, restored (snd sw))) ss) /\
    List.length ws = (List.length acc + List.length ss)%nat /\
    forall source w, In (source, w) ss ->
      sget w "function" = Some (PyStr "spline") \/
      sget w "function" = Some (PyStr "gaussian").
Proof.
  induction ss as [|[source window] r IH]; intros pre acc s s' ws Hsrc Hnd Hrun.
  - cbn in Hrun. injection Hrun as <- <-. cbn [map]. split; [exact Hsrc|].
    split; [cbn; lia | intros source w []].
  - cbn [camb.make_windows] in Hrun. cbv zeta in Hrun.
    apply bind_returns in Hrun. destruct Hrun as [s1 [u1 [Hm1 Hrun]]].
    unfold camb.mutate_window, modify in Hm1. injection Hm1 as <- _.
    apply bind_returns in Hrun. destruct Hrun as [s2 [w [Hw Hrun]]].
    assert (Hf : s2 = camb.upd_sources
                        (fun ss0 => match ss0 with
                                    | Some l =>
                                        Some (map (fun sw =>
                                                if String.eqb (fst sw) source
                                                then (fst sw, spop window "function")
                                                else sw) l)
                                    | None => None
                                    end) s /\
                 (sget window "function" = Some (PyStr "spline") \/
                  sget window "function" = Some (PyStr "gaussian"))).
    { unfold sget_default in Hw.
      destruct (sget window "function") as [[| | |f| | |]|]; try discriminate.
      destruct (String.eqb_spec f "spline") as [->|Hs].
      - apply lift_returns in Hw. destruct Hw as [-> _]. split; [reflexivity | now left].
      - destruct (String.eqb_spec f "gaussian") as [->|Hg].
        + apply lift_returns in Hw. destruct Hw as [-> _].
          split; [reflexivity | now right].
        + exfalso. revert Hw. clear - Hs Hg.
          repeat (destruct f as [|[[] [] [] [] [] [] [] []] f]; try discriminate;
                  try congruence). }
    destruct Hf as [-> Hfun].
    apply bind_returns in Hrun. destruct Hrun as [s3 [u3 [Hm2 Hrun]]].
    unfold camb.mutate_window, modify in Hm2. injection Hm2 as <- _.
    pose proof (fun Hs Hn =>
                  IH (pre ++ [(source, restored window)]) (acc ++ [w]) _ s' ws
                     Hs Hn Hrun) as IH'.
    rewrite <- !app_assoc in IH'. cbn [app] in IH'.
    destruct IH' as [Hs' [Hlen Hall]].
    + cbn [camb.sources camb.upd_sources]. rewrite Hsrc.
      rewrite (map_one_window pre r source window (fun _ => spop window "function") Hnd).
      rewrite (map_one_window pre r source (spop window "function")
                 (fun d => sset d "function" (sget_default window "function" PyNone))).
      * reflexivity.
      * revert Hnd. unfold dict_keys. now rewrite !map_app.
    + revert Hnd. unfold dict_keys. now rewrite !map_app.
    + split; [exact Hs'|]. split.
      * rewrite Hlen, length_app. cbn [List.length]. lia.
      * intros src w0 [E|Hin]; [injection E as <- <-; exact Hfun | now apply (Hall src)].
Qed.

Lemma dict_get_map_values {V W} (g : V -> W) (d : list (string * V)) (k : string) :
  dict_get String.eqb (map (fun sw => (fst sw, g (snd sw))) d) k =
  option_map g (dict_get String.eqb d k).
Proof.
  induction d as [|[k' v] d IH]; cbn; [reflexivity|].
  destruct (String.eqb k' k); [reflexivity | exact IH].
Qed.

Lemma dict_get_In_str {V} (d : list (string * V)) (k : string) (v : V) :
  dict_get String.eqb d k = Some v -> In (k, v) d.
Proof.
  induction d as [|[k' v'] d IH]; cbn; [discriminate|].
  destruct (String.eqb_spec k' k) as [->|Hne].
  - intros H. injection H as ->. now left.
  - intros H. right. now apply IH.
Qed.

(** The loop of [set] over the source windows, when it returns for sources
    with distinct names: one window object was built per source, the
    function of every window is ["spline"] or ["gaussian"], and every window
    is left with the entries it had, its function put back after the
    others. *)
Theorem source_windows_are_restored :
  forall (solver : Solver) (ss : list (string * dict)) (acc : list SourceWindow)
         (s s' : camb.t) (ws : list SourceWindow),
    camb.sources s = Some ss ->
    NoDup (dict_keys ss) ->
    camb.make_windows ss acc s = (s', Return ws) ->
    List.length ws = (List.length acc + List.length ss)%nat /\
    exists ss',
      camb.sources s' = Some ss' /\ dict_keys ss' = dict_keys ss /\
      forall source w, dict_get String.eqb ss source = Some w ->
        (sget w "function" = Some (PyStr "spline") \/
         sget w "function" = Some (PyStr "gaussian")) /\
        dict_get String.eqb ss' source = Some (restored w) /\
        forall k, sget (restored w) k = sget w k.
Proof.
  intros solver ss acc s s' ws Hsrc Hnd Hrun.
  destruct (make_windows_returns solver ss [] acc s s' ws Hsrc Hnd Hrun)
    as [Hs' [Hlen Hfun]].
  split; [exact Hlen|]. eexists. split; [exact Hs'|]. split.
  - cbn [app]. unfold dict_keys. rewrite map_map. reflexivity.
  - intros source w Hw. cbn [app].
    pose proof (Hfun source w (dict_get_In_str ss source w Hw)) as Hf.
    split; [exact Hf|]. split.
    + now rewrite dict_get_map_values, Hw.
    + intros k. apply sget_restored. destruct Hf as [-> | ->]; discriminate.
Qed.

(** Two sources, one of each kind. *)
Lemma source_windows_are_restored_witness :
  let solver := toy_solver None None None in
  let w1 := [("function", PyStr "spline"); ("z", PyArray [0; 1]%Z)] in
  let w2 := [("redshift", PyNum 1); ("function", PyStr "gaussian")] in
  let ss := [("source1", w1); ("source2", w2)] in
  let s := camb.upd_sources (fun _ => Some ss) (fresh solver false) in
  let run := camb.make_windows ss [] s in
  exists ss', camb.sources (fst run) = Some ss' /\
              dict_get String.eqb ss' "source1" = Some (restored w1) /\
              sget (restored w1) "function" = Some (PyStr "spline").
Proof.
  intros solver w1 w2 ss s run.
  destruct (source_windows_are_restored solver ss [] s (fst run) [spop w1 "function";
              spop w2 "function"])
    as [_ [ss' [Hs' [_ Hall]]]].
  - reflexivity.
  - repeat constructor; simpl; intuition discriminate.
  - vm_compute. reflexivity.
  - exists ss'. split; [exact Hs'|].
    destruct (Hall "source1" w1 eq_refl) as [_ [Hg Hk]].
    split; [exact Hg | exact (Hk "function")].
Defined.

(** The same loop when the solver refuses the window of the first source:
    the error leaves the loop, and the window stays without its function,
    which was taken out before the call.  The next pass over the sources
    then stops at this window with the error for an unknown function, the
    function it finds being [None]. *)
Theorem failed_window_loses_its_function :
  forall (solver : Solver) (source : string) (window : dict)
         (r : list (string * dict)) (acc acc' : list SourceWindow) (s : camb.t)
         (spline : bool) (e : exn),
    camb.sources s = Some ((source, window) :: r) ->
    NoDup (dict_keys ((source, window) :: r)) ->
    NoDup (dict_keys window) ->
    sget window "function" = Some (PyStr (if spline then "spline" else "gaussian")) ->
    make_SourceWindow spline (spop window "function") = Raise e ->
    let run := camb.make_windows ((source, window) :: r) acc s in
    snd run = Raise e /\
    camb.sources (fst run) = Some ((source, spop window "function") :: r) /\
    snd (camb.make_windows ((source, spop window "function") :: r) acc' (fst run)) =
      Raise (LoggedError (unknown_source_window_function PyNone)).
Proof.
  intros solver source window r acc acc' s spline e Hsrc Hnd Hw Hf He run.
  assert (Hone : camb.upd_sources
                   (fun ss0 => match ss0 with
                               | Some l =>
                                   Some (map (fun sw =>
                                           if String.eqb (fst sw) source
                                           then (fst sw, spop window "function")
                                           else sw) l)
                               | None => None
                               end) s =
                 camb.upd_sources
                   (fun _ => Some ((source, spop window "function") :: r)) s).
  { pose proof (map_one_window [] r source window (fun _ => spop window "function") Hnd)
      as Hm.
    cbn [app] in Hm. unfold camb.upd_sources. rewrite Hsrc, Hm. reflexivity. }
  assert (Hrun : run =
            (camb.upd_sources (fun _ => Some ((source, spop window "function") :: r)) s,
             Raise e)).
  { subst run. cbn [camb.make_windows]. cbv zeta.
    unfold sget_default. rewrite Hf.
    unfold bind at 1. unfold camb.mutate_window at 1, modify at 1. rewrite Hone.
    unfold bind at 1.
    destruct spline; cbv iota beta; unfold lift; rewrite He; reflexivity. }
  rewrite Hrun. cbn [fst snd]. split; [reflexivity|]. split; [reflexivity|].
  cbn [camb.make_windows]. cbv zeta.
  unfold sget_default. rewrite (sget_spop_same window "function" Hw).
  unfold bind at 1. unfold camb.mutate_window at 1, modify at 1.
  unfold bind at 1. reflexivity.
Qed.

(** A splined window that the solver refuses. *)
Lemma failed_window_loses_its_function_witness :
  let solver :=
    {| CAMBparams := dict; CAMBdata := dict; SourceWindow := dict;
       set_params := fun _ args => Return args;
       argspec := fun _ => [];
       hasattr_params := fun _ _ => true;
       setattr_params := fun cp _ _ => cp;
       make_SourceWindow := fun _ _ => Raise (SolverError CAMBError "window");
       set_SourceWindows := fun cp _ _ => cp;
       get_transfer_functions := fun cp _ => Return cp;
       get_background := fun cp => Return cp;
       InitPower_set_params := fun r _ => Return r;
       NonLinearModel_set_params := fun r _ => Return r;
       power_spectra_from_transfer := fun r => Return r;
       call_method := fun _ _ _ _ => Return None_obj;
       get_derived_params := fun _ => Return [];
       get_sigma8 := fun _ => Return [];
       getattr_params := fun _ _ => None;
       getattr_results := fun _ _ => None |} in
  let w := [("function", PyStr "spline"); ("z", PyArray [0; 1]%Z)] in
  let s := camb.upd_sources (fun _ => Some [("source1", w)]) (fresh solver false) in
  let run := camb.make_windows [("source1", w)] [] s in
  camb.sources (fst run) = Some [("source1", [("z", PyArray [0; 1]%Z)])] /\
  snd (camb.make_windows [("source1", [("z", PyArray [0; 1]%Z)])] [] (fst run)) =
    Raise (LoggedError (unknown_source_window_function PyNone)).
Proof.
  intros solver w s run.
  destruct (failed_window_loses_its_function solver "source1" w [] [] [] s true
              (SolverError CAMBError "window")) as [_ [H1 H2]].
  - reflexivity.
  - repeat constructor; simpl; intuition discriminate.
  - repeat constructor; simpl; intuition discriminate.
  - reflexivity.
  - reflexivity.
  - split; [exact H1 | exact H2].
Defined.

(* ================================================================== *)
(** ** The grids over successive calls of [needs] *)

(** *** The grids held for a product *)

Lemma strictly_descending_NoDup (l : list Z) : StronglySorted Z.gt l -> NoDup l.
Proof.
  induction 1 as [|x l Hs IH Hall]; constructor; [|exact IH].
  intros Hin. rewrite Forall_forall in Hall. specialize (Hall x Hin). lia.
Qed.

Lemma accumulated_spec (held zs : list Z) :
  NoDup (accumulated held zs) /\
  forall x, In x (accumulated held zs) <-> In x held \/ In x zs.
Proof.
  unfold accumulated. destruct (descending_union_spec (held ++ zs)) as [Hs Hin].
  split; [now apply strictly_descending_NoDup|].
  intros x. rewrite Hin. apply in_app_iff.
Qed.

Lemma In_held_grids (zss : list (list Z)) :
  zss <> [] ->
  forall held x,
    In x (List.concat (held_grids held zss)) <-> In x held \/ In x (List.concat zss).
Proof.
  induction zss as [|zs zss IH]; intros Hne held x; [congruence|].
  cbn [held_grids List.concat]. rewrite !in_app_iff.
  rewrite (proj2 (accumulated_spec held zs) x).
  destruct zss as [|zs' zss].
  - cbn. tauto.
  - rewrite (IH ltac:(discriminate) (accumulated held zs) x).
    rewrite (proj2 (accumulated_spec held zs) x). tauto.
Qed.

Lemma held_grids_nonempty (held : list Z) (zss : list (list Z)) :
  zss <> [] -> held_grids held zss <> [].
Proof. destruct zss; [congruence | discriminate]. Qed.

Lemma held_grids_NoDup (zss : list (list Z)) :
  forall held, Forall (@NoDup Z) (held_grids held zss).
Proof.
  induction zss as [|zs zss IH]; intros held; cbn [held_grids]; constructor.
  - apply accumulated_spec.
  - apply IH.
Qed.

Lemma In_concat_Permutation (zss zss' : list (list Z)) (x : Z) :
  Permutation zss zss' -> In x (List.concat zss) <-> In x (List.concat zss').
Proof.
  intros Hp. rewrite !In_concat_iff.
  split; intros [zs [Hzs Hx]]; exists zs; split; try assumption.
  - now apply (Permutation_in _ Hp).
  - now apply (Permutation_in _ (Permutation_sym Hp)).
Qed.

Lemma Permutation_nonempty {A} (l l' : list A) : Permutation l l' -> l <> [] -> l' <> [].
Proof.
  intros Hp Hne ->. apply Permutation_sym, Permutation_nil in Hp. congruence.
Qed.

(** Sorting a list without repeats leaves a strictly ascending one. *)
Lemma np_sort_NoDup (l : list Z) : NoDup l -> StronglySorted Z.lt (np_sort l).
Proof.
  intros Hnd.
  assert (Hnd' : NoDup (np_sort l))
    by (apply (Permutation_NoDup (Permutation_np_sort l)); exact Hnd).
  pose proof (np_sort_sorted l) as Hs.
  induction Hs as [|x r Hs IH Hall]; constructor.
  - apply IH. now inversion Hnd'.
  - inversion Hnd' as [|? ? Hx Hr]; subst.
    rewrite Forall_forall in *. intros y Hy. specialize (Hall y Hy).
    assert (x <> y) by (intros ->; contradiction). lia.
Qed.

Lemma np_sort_NoDup_union (l : list Z) : NoDup l -> np_sort l = ascending_union l.
Proof.
  intros Hnd. apply strictly_sorted_unique.
  - now apply np_sort_NoDup.
  - apply ascending_union_spec.
  - intros x. rewrite (proj2 (ascending_union_spec l) x).
    split; intros H.
    + now apply (Permutation_in _ (Permutation_sym (Permutation_np_sort l))).
    + now apply (Permutation_in _ (Permutation_np_sort l)).
Qed.

(** *** One call of [needs] *)

Lemma str_inter_nil (a b : list string) :
  (forall p, In p a -> ~ In p b) -> str_inter a b = [].
Proof.
  intros H. destruct (str_inter a b) as [|x l] eqn:E; [reflexivity|].
  assert (Hx : In x (str_inter a b)) by (rewrite E; now left).
  apply In_str_inter in Hx. destruct (H x); tauto.
Qed.

Lemma inputs_apart_weaken (solver : Solver) (added : list string) (s : camb.t) :
  inputs_apart added s -> inputs_apart [] s.
Proof.
  intros H p Hp Hin. apply (H p Hp). apply in_or_app. now right.
Qed.

(** When the loop went through and no input parameter is an extra argument,
    [needs] returns; the configuration, the registry and the store are
    those the loop left. *)
Lemma needs_returns (solver : Solver) (reqs : list (string * requirement))
    (s s1 : camb.t) :
  for_each reqs camb.needs_item s = (s1, Return tt) ->
  inputs_apart [] s1 ->
  exists s2 tr,
    camb.needs reqs s = (s2, Return tr) /\
    camb.extra_args s2 = camb.extra_args s1 /\
    camb.input_params s2 = camb.input_params s1 /\
    camb.collectors s2 = camb.collectors s1 /\
    camb.store s2 = camb.store s1.
Proof.
  intros Hloop Hapart. rewrite needs_unfold. unfold bind at 1. rewrite Hloop.
  unfold bind at 1, get at 1. rewrite (str_inter_nil (camb.input_params s1) (dict_keys (camb.extra_args s1)) Hapart).
  cbn [camb.nonempty]. unfold bind, ret, modify, get. cbn [fst snd].
  eexists. eexists. split; [reflexivity|]. repeat split.
Qed.

(** One call for a single product. *)
Lemma needs_one_returns (solver : Solver) (kv : string * requirement) (s : camb.t) :
  snd (camb.needs_item kv s) = Return tt ->
  inputs_apart [] (fst (camb.needs_item kv s)) ->
  exists s2 tr,
    camb.needs [kv] s = (s2, Return tr) /\
    camb.extra_args s2 = camb.extra_args (fst (camb.needs_item kv s)) /\
    camb.input_params s2 = camb.input_params (fst (camb.needs_item kv s)) /\
    camb.collectors s2 = camb.collectors (fst (camb.needs_item kv s)) /\
    camb.store s2 = camb.store (fst (camb.needs_item kv s)).
Proof.
  intros Hr Hapart. apply needs_returns; [|exact Hapart].
  cbn [for_each]. unfold bind, ret.
  destruct (camb.needs_item kv s) as [s1 r]. cbn [fst snd] in *. now subst r.
Qed.

(** *** The perturbation grid over the calls

    [Inv old s]: the state [s] has the grid [old] and is fit for another
    call; [asks g kv]: the item [kv] requests the grid [g]. *)
Section PerturbationCalls.
Context {solver : Solver}.
Variable Inv : list Z -> camb.t -> Prop.
Variable asks : list Z -> string * requirement -> Prop.
Hypothesis Inv_frame : forall old s s',
  camb.extra_args s' = camb.extra_args s ->
  camb.input_params s' = camb.input_params s -> Inv old s -> Inv old s'.
Hypothesis Inv_apart : forall old s, Inv old s -> inputs_apart [] s.
Hypothesis Hstep : forall old s g kv,
  asks g kv -> Inv old s ->
  let r := camb.needs_item kv s in
  snd r = Return tt /\
  sget (camb.extra_args (fst r)) "redshifts" =
    Some (PyArray (descending_union (g ++ old))) /\
  Inv (descending_union (g ++ old)) (fst r).

Lemma perturbation_calls_run (gs : list (list Z)) :
  forall kvs, Forall2 asks gs kvs -> gs <> [] ->
  forall old s, Inv old s ->
    let r := needs_calls (map (fun kv => [kv]) kvs) s in
    snd r = Return tt /\
    sget (camb.extra_args (fst r)) "redshifts" =
    Some (PyArray (descending_union (List.concat gs ++ old))).
Proof.
  induction gs as [|g gs IH]; intros kvs Hall Hne old s Hinv; [congruence|].
  inversion Hall as [|? kv ? kvs' Hkv Hrest]; subst. cbv zeta.
  destruct (Hstep old s g kv Hkv Hinv) as [Hr [Hg1 Hinv1]].
  destruct (needs_one_returns solver kv s Hr (Inv_apart _ _ Hinv1))
    as [s2 [tr [Hcall [Hea [Hip _]]]]].
  cbn [map needs_calls]. unfold bind. rewrite Hcall.
  assert (Hinv2 : Inv (descending_union (g ++ old)) s2)
    by (apply (Inv_frame _ _ _ Hea Hip Hinv1)).
  destruct gs as [|g' gs].
  - inversion Hrest; subst. cbn [map needs_calls ret fst snd List.concat app].
    split; [reflexivity|]. now rewrite app_nil_r, Hea.
  - destruct (IH kvs' Hrest ltac:(discriminate) _ s2 Hinv2) as [Hr' Hg].
    cbv zeta in Hr', Hg. split; [exact Hr'|]. rewrite Hg. do 2 f_equal.
    apply descending_union_ext. intros x. cbn [List.concat]. rewrite !in_app_iff.
    rewrite (proj2 (descending_union_spec (g ++ old)) x), in_app_iff. tauto.
Qed.
End PerturbationCalls.

Lemma Forall2_map_graph {A B} (f : A -> B) (l : list A) :
  Forall2 (fun a b => b = f a) l (map f l).
Proof. induction l; constructor; [reflexivity | assumption]. Qed.

Lemma In_keys_sset (d : dict) (k p : string) (v : pyval) :
  In p (dict_keys (sset d k v)) -> p = k \/ In p (dict_keys d).
Proof.
  unfold sset, dict_keys. induction d as [|[k0 v0] d IH]; cbn.
  - intros [<-|[]]. now left.
  - destruct (String.eqb k0 k) eqn:E; cbn.
    + intros [<-|H]; [|tauto]. right. now left.
    + intros [<-|H]; [right; now left|]. destruct (IH H); tauto.
Qed.

Lemma inputs_apart_set (solver : Solver) (added : list string) (s s' : camb.t)
    (k : string) (v : pyval) :
  In k added ->
  camb.extra_args s' = sset (camb.extra_args s) k v ->
  camb.input_params s' = camb.input_params s ->
  inputs_apart added s -> inputs_apart added s'.
Proof.
  intros Hk Hea Hip H p Hp Hin. rewrite Hip in Hp. apply (H p Hp).
  rewrite Hea in Hin. apply in_app_or in Hin. apply in_or_app.
  destruct Hin as [Hin|Hin]; [now left|].
  apply In_keys_sset in Hin. destruct Hin as [->|Hin]; [now left | now right].
Qed.

Lemma inputs_apart_frame (solver : Solver) (added : list string) (s s' : camb.t) :
  camb.extra_args s' = camb.extra_args s ->
  camb.input_params s' = camb.input_params s ->
  inputs_apart added s -> inputs_apart added s'.
Proof.
  intros Hea Hip H p Hp. rewrite Hea. rewrite Hip in Hp. now apply H.
Qed.

Lemma current_redshifts_frame (solver : Solver) (s s' : camb.t) :
  camb.extra_args s' = camb.extra_args s ->
  camb.current_redshifts s' = camb.current_redshifts s.
Proof. intros H. unfold camb.current_redshifts. now rewrite H. Qed.

(** An [fsigma8] request leaves the input parameters alone. *)
Lemma needs_fsigma8_inputs (solver : Solver) (s : camb.t) (zs : list Z) :
  camb.input_params (fst (camb.needs_item ("fsigma8", ReqZ zs) s)) = camb.input_params s.
Proof.
  change (camb.needs_item ("fsigma8", ReqZ zs) s)
    with (camb.needs_fsigma8 "fsigma8" (ReqZ zs) s).
  unfold camb.needs_fsigma8, camb.add_to_redshifts, bind, lift, get. cbn [req_z fst snd].
  now destruct (camb.current_redshifts s).
Qed.

Lemma fsigma8_calls_run (solver : Solver) (zss : list (list Z)) (s : camb.t) :
  zss <> [] ->
  sget (camb.extra_args s) "redshifts" = None ->
  inputs_apart ["redshifts"] s ->
  let r := needs_calls (fsigma8_calls zss) s in
  snd r = Return tt /\
  sget (camb.extra_args (fst r)) "redshifts" =
  Some (PyArray (descending_union (List.concat zss))).
Proof.
  intros Hne Hnone Hapart.
  pose (Inv := fun (old : list Z) (s : camb.t) =>
                 camb.current_redshifts s = Return old /\ inputs_apart ["redshifts"] s).
  pose (asks := fun (g : list Z) (kv : string * requirement) => kv = ("fsigma8", ReqZ g)).
  assert (Hrun := perturbation_calls_run (solver := solver) Inv asks).
  specialize (Hrun
    ltac:(intros old s0 s' Hea Hip [H1 H2]; split;
          [now rewrite (current_redshifts_frame solver _ _ Hea)
          | now apply (inputs_apart_frame solver _ s0)])
    ltac:(intros old s0 [_ H2]; now apply (inputs_apart_weaken solver ["redshifts"]))).
  assert (Hstep : forall old s0 g kv, asks g kv -> Inv old s0 ->
            let r := camb.needs_item kv s0 in
            snd r = Return tt /\
            sget (camb.extra_args (fst r)) "redshifts" =
              Some (PyArray (descending_union (g ++ old))) /\
            Inv (descending_union (g ++ old)) (fst r)).
  { intros old s0 g kv -> [Hold Hap]. cbv zeta.
    destruct (needs_fsigma8_run solver s0 g old Hold) as [Hr Hea].
    split; [exact Hr|]. split; [now rewrite Hea, sget_sset|]. split.
    - now apply (current_redshifts_set solver s0).
    - apply (inputs_apart_set solver ["redshifts"] s0 _ "redshifts" _
               (or_introl eq_refl) Hea);
        [apply needs_fsigma8_inputs | exact Hap]. }
  specialize (Hrun Hstep (held_grids [] zss)
                (map (fun g => ("fsigma8", ReqZ g)) (held_grids [] zss))).
  assert (Hall : Forall2 asks (held_grids [] zss)
                   (map (fun g => ("fsigma8", ReqZ g)) (held_grids [] zss))).
  { apply Forall2_map_graph. }
  specialize (Hrun Hall (held_grids_nonempty [] zss Hne) [] s).
  assert (H0 : Inv [] s).
  { split; [|exact Hapart]. unfold camb.current_redshifts. now rewrite Hnone. }
  specialize (Hrun H0). cbv zeta in Hrun. rewrite map_map in Hrun.
  unfold fsigma8_calls. cbv zeta. destruct Hrun as [Hr Hg]. split; [exact Hr|].
  rewrite Hg. do 2 f_equal. apply descending_union_ext. intros x.
  rewrite app_nil_r, (In_held_grids zss Hne [] x). cbn [In]. tauto.
Qed.

(** The rest of the matter-power branch changes neither the configuration
    nor the input parameters. *)
Lemma Pk_collectors_frame (solver : Solver) (o : Pk_options) (l : loc) :
  preserves (fun s => (camb.extra_args s, camb.input_params s)) (camb.Pk_collectors o l).
Proof.
  unfold camb.Pk_collectors, camb.mutate, camb.register_pair, camb.set_collector.
  preserves_tac.
Qed.

(** A matter-power request with default units: what it leaves in
    [extra_args]. *)
Lemma needs_item_Pk_args (solver : Solver) (s : camb.t) (k : string) (o : Pk_options)
    (old : list Z) :
  str_in k ["Pk_interpolator"; "Pk_grid"] = true ->
  grid_config_ok s = true ->
  camb.current_redshifts s = Return old ->
  camb.asks_hubble_units (Pk_dict o) = false ->
  let r := camb.needs_item (k, ReqPk o) s in
  snd r = Return tt /\
  camb.input_params (fst r) = camb.input_params s /\
  exists m,
    camb.extra_args (fst r) =
    sset (sset (camb.extra_args s) "kmax" (PyNum m)) "redshifts"
         (PyArray (descending_union (z o ++ old))).
Proof.
  intros Hk Hok Hold Hasks. cbv zeta. rewrite (needs_item_Pk solver k (ReqPk o) s Hk).
  destruct (extra_num_kmax solver s Hok) as [n Hn].
  set (s1 := camb.upd_extra_args (fun d => sset d "kmax" (PyNum (Z.max (k_max o) n))) s).
  set (s2 := camb.upd_extra_args
               (fun d => sset d "redshifts" (PyArray (descending_union (z o ++ old)))) s1).
  set (s3 := camb.upd_store (fun h => h ++ [Pk_dict (camb.with_pairs o)]) s2).
  assert (Hz : camb.add_to_redshifts (z o) s1 = (s2, Return tt)).
  { assert (H1 : camb.current_redshifts s1 = Return old).
    { unfold camb.current_redshifts in *. subst s1.
      cbn [camb.extra_args camb.upd_extra_args]. rewrite sget_sset.
      cbn [String.eqb Ascii.eqb Bool.eqb]. exact Hold. }
    unfold camb.add_to_redshifts, bind, get, lift, camb.set_extra_arg, modify.
    rewrite H1. reflexivity. }
  assert (Hrun : camb.needs_Pk k (ReqPk o) s =
                 camb.Pk_collectors o (List.length (camb.store s)) s3).
  { unfold camb.needs_Pk. unfold bind at 1. rewrite Hn.
    unfold bind at 1, camb.set_extra_arg at 1, modify at 1.
    unfold bind at 1. fold s1. rewrite Hz.
    unfold bind at 1, camb.alloc at 1.
    unfold bind at 1, get at 1.
    unfold camb.deref at 1. fold s3.
    change (camb.store s3) with (camb.store s ++ [Pk_dict (camb.with_pairs o)]).
    change (camb.store s2) with (camb.store s).
    rewrite nth_middle, asks_with_pairs, Hasks.
    unfold bind at 1, ret at 1. reflexivity. }
  rewrite Hrun.
  split; [apply Pk_collectors_returns|].
  pose proof (Pk_collectors_frame solver o (List.length (camb.store s)) s3) as Hf.
  cbv beta in Hf. injection Hf as Hea Hip.
  split; [rewrite Hip; reflexivity|].
  exists (Z.max (k_max o) n). rewrite Hea. reflexivity.
Qed.

Lemma grid_config_ok_set (solver : Solver) (s s' : camb.t) (m : Z) (g : list Z) :
  camb.extra_args s' =
    sset (sset (camb.extra_args s) "kmax" (PyNum m)) "redshifts" (PyArray g) ->
  grid_config_ok s' = true.
Proof.
  intros H. unfold grid_config_ok. rewrite H, !sget_sset.
  reflexivity.
Qed.

Lemma Pk_calls_run (solver : Solver) (k : string) (zss : list (list Z))
    (os : list Pk_options) (s : camb.t) :
  str_in k ["Pk_interpolator"; "Pk_grid"] = true ->
  zss <> [] ->
  hold_grids os zss ->
  sget (camb.extra_args s) "redshifts" = None ->
  grid_config_ok s = true ->
  inputs_apart ["kmax"; "redshifts"] s ->
  let r := needs_calls (Pk_calls k os) s in
  snd r = Return tt /\
  sget (camb.extra_args (fst r)) "redshifts" =
  Some (PyArray (descending_union (List.concat zss))).
Proof.
  intros Hk Hne [Hgrids Hunits] Hnone Hok Hapart.
  pose (Inv := fun (old : list Z) (s : camb.t) =>
                 camb.current_redshifts s = Return old /\
                 grid_config_ok s = true /\
                 inputs_apart ["kmax"; "redshifts"] s).
  pose (asks := fun (g : list Z) (kv : string * requirement) =>
                  exists o, kv = (k, ReqPk o) /\ z o = g /\
                            camb.asks_hubble_units (Pk_dict o) = false).
  assert (Hrun := perturbation_calls_run (solver := solver) Inv asks).
  specialize (Hrun
    ltac:(intros old s0 s' Hea Hip [H1 [H2 H3]]; repeat split;
          [ now rewrite (current_redshifts_frame solver _ _ Hea)
          | unfold grid_config_ok in *; now rewrite Hea
          | now apply (inputs_apart_frame solver _ s0)])
    ltac:(intros old s0 [_ [_ H2]];
          now apply (inputs_apart_weaken solver ["kmax"; "redshifts"]))).
  assert (Hstep : forall old s0 g kv, asks g kv -> Inv old s0 ->
            let r := camb.needs_item kv s0 in
            snd r = Return tt /\
            sget (camb.extra_args (fst r)) "redshifts" =
              Some (PyArray (descending_union (g ++ old))) /\
            Inv (descending_union (g ++ old)) (fst r)).
  { intros old s0 g kv [o [-> [<- Hu]]] [Hold [Hok0 Hap]]. cbv zeta.
    destruct (needs_item_Pk_args solver s0 k o old Hk Hok0 Hold Hu)
      as [Hr [Hip [m Hea]]].
    split; [exact Hr|]. split; [now rewrite Hea, sget_sset|]. repeat split.
    - unfold camb.current_redshifts. now rewrite Hea, sget_sset.
    - now apply (grid_config_ok_set solver s0 _ m _ Hea).
    - intros p Hp Hin. rewrite Hip in Hp. apply (Hap p Hp).
      rewrite Hea in Hin. apply in_app_or in Hin. apply in_or_app.
      destruct Hin as [Hin|Hin]; [now left|].
      apply In_keys_sset in Hin. destruct Hin as [->|Hin]; [left; cbn; tauto|].
      apply In_keys_sset in Hin. destruct Hin as [->|Hin]; [left; cbn; tauto|].
      now right. }
  assert (Hall : Forall2 asks (map z os) (map (fun o => (k, ReqPk o)) os)).
  { clear -Hunits. induction Hunits as [|o os Ho Hos IH]; cbn [map]; constructor.
    - exists o. now repeat split.
    - exact IH. }
  rewrite Hgrids in Hall.
  specialize (Hrun Hstep _ _ Hall (held_grids_nonempty [] zss Hne) [] s).
  assert (H0 : Inv [] s).
  { repeat split; [|exact Hok|exact Hapart].
    unfold camb.current_redshifts. now rewrite Hnone. }
  specialize (Hrun H0). cbv zeta in Hrun. rewrite map_map in Hrun.
  unfold Pk_calls. cbv zeta. destruct Hrun as [Hr Hg]. split; [exact Hr|].
  rewrite Hg. do 2 f_equal. apply descending_union_ext. intros x.
  rewrite app_nil_r, (In_held_grids zss Hne [] x). cbn [In]. tauto.
Qed.

(** *** The grid of a background product over the calls *)

Lemma needs_background_frame (solver : Solver) (k m : string) (v : requirement) :
  preserves (fun s => (camb.extra_args s, camb.input_params s))
            (camb.needs_background k m v).
Proof.
  unfold camb.needs_background, camb._combine_z, camb.set_collector.
  preserves_tac; intros s; reflexivity.
Qed.

Lemma collector_kwargs_frame (solver : Solver) (s s' : camb.t) (p : product) :
  camb.collectors s' = camb.collectors s ->
  camb.store s' = camb.store s ->
  camb.collector_kwargs s' p = camb.collector_kwargs s p.
Proof.
  intros Hc Hs. unfold camb.collector_kwargs, camb.deref. now rewrite Hc, Hs.
Qed.

(** One call for a background product: [needs] returns, and the grid of the
    collector is the one the loop left. *)
Lemma background_call (solver : Solver) (k : string) (g : list Z) (s : camb.t)
    (grid : list Z) :
  In k background_products ->
  inputs_apart [] s ->
  snd (camb.needs_item (k, ReqZ g) s) = Return tt ->
  camb.collector_kwargs (fst (camb.needs_item (k, ReqZ g) s)) (Name k) =
    Some [("z", PyArray grid)] ->
  exists s2 tr,
    camb.needs [(k, ReqZ g)] s = (s2, Return tr) /\
    inputs_apart [] s2 /\
    camb.collector_kwargs s2 (Name k) = Some [("z", PyArray grid)].
Proof.
  intros Hk Hapart Hr Hg.
  destruct (needs_item_background solver k (ReqZ g) Hk) as [m Hm].
  assert (Hf : camb.extra_args (fst (camb.needs_item (k, ReqZ g) s)) = camb.extra_args s /\
               camb.input_params (fst (camb.needs_item (k, ReqZ g) s)) =
               camb.input_params s).
  { rewrite Hm. pose proof (needs_background_frame solver k m (ReqZ g) s) as Hf.
    cbv beta in Hf. injection Hf as Hea Hip. now split. }
  destruct Hf as [Hea Hip].
  destruct (needs_one_returns solver (k, ReqZ g) s Hr) as [s2 [tr [Hcall [Hea2 [Hip2 [Hc Hs]]]]]].
  { now apply (inputs_apart_frame solver [] s). }
  exists s2, tr. split; [exact Hcall|]. split.
  - apply (inputs_apart_frame solver [] s); [congruence | congruence | exact Hapart].
  - now rewrite (collector_kwargs_frame solver _ s2 (Name k) Hc Hs).
Qed.

Lemma background_calls_later (solver : Solver) (k : string) (gs : list (list Z)) :
  In k background_products ->
  gs <> [] ->
  forall (s : camb.t) (old : list Z),
    camb.collector_kwargs s (Name k) = Some [("z", PyArray old)] ->
    inputs_apart [] s ->
    let r := needs_calls (map (fun g => [(k, ReqZ g)]) gs) s in
    snd r = Return tt /\
    camb.collector_kwargs (fst r) (Name k) =
    Some [("z", PyArray (ascending_union (old ++ List.concat gs)))].
Proof.
  intros Hk. induction gs as [|g gs IH]; intros Hne s old Hold Hapart; [congruence|].
  cbv zeta. destruct (needs_item_background solver k (ReqZ g) Hk) as [m Hm].
  destruct (needs_background_later solver s k m g old Hold) as [Hr Hg].
  rewrite <- Hm in Hr, Hg.
  destruct (background_call solver k g s _ Hk Hapart Hr Hg) as [s2 [tr [Hcall [Hap2 Hg2]]]].
  cbn [map needs_calls]. unfold bind. rewrite Hcall.
  destruct gs as [|g' gs].
  - cbn [map needs_calls ret fst snd List.concat]. rewrite app_nil_r.
    split; [reflexivity | exact Hg2].
  - destruct (IH ltac:(discriminate) s2 _ Hg2 Hap2) as [Hr' Hg'].
    cbv zeta in Hr', Hg'. split; [exact Hr'|]. rewrite Hg'. do 4 f_equal.
    apply ascending_union_ext. intros x. cbn [List.concat]. rewrite !in_app_iff.
    rewrite (proj2 (ascending_union_spec (old ++ g)) x), in_app_iff. tauto.
Qed.

Lemma background_calls_run (solver : Solver) (k : string) (zss : list (list Z))
    (s : camb.t) :
  In k background_products ->
  zss <> [] ->
  dict_get product_eqb (camb.collectors s) (Name k) = None ->
  inputs_apart [] s ->
  let r := needs_calls (background_calls k zss) s in
  snd r = Return tt /\
  camb.collector_kwargs (fst r) (Name k) =
  Some [("z", PyArray (ascending_union (List.concat zss)))].
Proof.
  intros Hk Hne Hnone Hapart. destruct zss as [|zs zss]; [congruence|].
  unfold background_calls. cbn [held_grids map needs_calls].
  set (g1 := accumulated [] zs).
  destruct (accumulated_spec [] zs) as [Hnd Hin]. fold g1 in Hnd, Hin.
  destruct (needs_item_background solver k (ReqZ g1) Hk) as [m Hm].
  destruct (needs_background_first solver s k m g1 Hnone) as [Hr Hg].
  rewrite <- Hm in Hr, Hg. rewrite (np_sort_NoDup_union g1 Hnd) in Hg.
  destruct (background_call solver k g1 s _ Hk Hapart Hr Hg) as [s2 [tr [Hcall [Hap2 Hg2]]]].
  cbv zeta. unfold bind. rewrite Hcall.
  destruct zss as [|zs' zss].
  - cbn [held_grids map needs_calls ret fst snd List.concat]. rewrite app_nil_r.
    split; [reflexivity|]. rewrite Hg2. do 4 f_equal.
    apply ascending_union_ext. intros x. rewrite Hin. cbn [In]. tauto.
  - destruct (background_calls_later solver k (held_grids g1 (zs' :: zss)) Hk
                (held_grids_nonempty g1 (zs' :: zss) ltac:(discriminate)) s2 _ Hg2 Hap2)
      as [Hr' Hg'].
    cbv zeta in Hr', Hg'. split; [exact Hr'|]. rewrite Hg'. do 4 f_equal.
    apply ascending_union_ext. intros x. rewrite in_app_iff.
    rewrite (proj2 (ascending_union_spec g1) x).
    rewrite (In_held_grids (zs' :: zss) ltac:(discriminate) g1 x), Hin.
    change (List.concat (zs :: zs' :: zss)) with (zs ++ List.concat (zs' :: zss)).
    rewrite in_app_iff. cbn [In]. tauto.
Qed.



(** The grids of the three kinds of product for the requests 1, 1, 2 and
    3, 1. *)
Lemma merged_grid_example :
  let solver := toy_solver None None None in
  let zss := [[1; 1; 2]; [3; 1]]%Z in
  let o g := {| k_max := 10; z := g; vars_pairs := None; nonlinear := false;
                more := [] |} in
  held_grids [] zss = [[2; 1]; [3; 2; 1]]%Z /\
  camb.collector_kwargs
    (fst (needs_calls (background_calls "Hubble" [[1; 1; 2]]%Z) (fresh solver false)))
    (Name "Hubble") = Some [("z", PyArray [1; 2]%Z)] /\
  camb.collector_kwargs
    (fst (needs_calls (background_calls "Hubble" zss) (fresh solver false)))
    (Name "Hubble") = Some [("z", PyArray [1; 2; 3]%Z)] /\
  sget (camb.extra_args (fst (needs_calls (fsigma8_calls zss) (fresh solver false))))
       "redshifts" = Some (PyArray [3; 2; 1]%Z) /\
  sget (camb.extra_args
          (fst (needs_calls (Pk_calls "Pk_grid" (map o (held_grids [] zss)))
                  (fresh solver false))))
       "redshifts" = Some (PyArray [3; 2; 1]%Z).
Proof. cbv zeta. repeat apply conj; vm_compute; reflexivity. Qed.
